(* ===== verification/_CoqProject ===== *)
-Q . S2P
Prelude.v
CString.v
CFormat.v
Effects.v
Types.v
HttpParser.v
HttpContent.v
Invariants.v
System.v
Interleaving.v
Machine.v
Progress.v
Draining.v
Schedule.v
Logger.v
HttpMessages.v
SystemRules.v
Utils.v
Cache.v
Router.v
ThreadPool.v
Redirect.v
Worker.v
Config.v
Server.v
Serving.v
Visits.v
Daemon.v
Main.v
Startup.v
Runs.v
Properties.v
