(* ===== verification/Prelude.v ===== *)
(** * LITH: a verification development of the LITH HTTP engine

    LITH is a small multi-threaded HTTPS server in C: [src/src/*.c],
    [src/src/server/*.c] and [src/include/*.h]. Its main thread reads the
    command line and [lith.conf], may turn into a daemon, starts a pool of
    eight workers and a RAM cache, and accepts connections, which it pushes on
    a linked work queue. A worker pops a socket, looks at its first byte, and
    either redirects a clear-text client to https or serves a TLS session,
    request by request, from the cache or from the disk.

    ** Parts

    - [Prelude]: byte strings and literals, machine integers, list lemmas,
      automation; [CString], [CFormat]: the functions of the C library the
      program calls on strings ([strstr], [strncpy], [strtol], [snprintf]...),
      with their lemmas.
    - [Effects]: programs with system calls ([prog]), loops with fuel, and the
      weakest precondition [wp] of a program under a [protocol];
      [System]: the system calls of LITH, what each may return and what it
      does to the ghost state of the calling thread ([os]: locks, heap
      blocks, streams, TLS contexts and sessions, sockets, what was read and
      written, process attributes, what was set up: the trace [w_setup]);
      [SystemRules]: a proof rule for each call. An [env] fixes the disk and says which helpful assumptions hold (below).
    - [Types], [Invariants]: the structures of the headers, the invariants of
      the cache and of the work queue, and the queue's specification.
    - [Interleaving]: threads side by side, as a step relation on a state with
      one cache, one queue and the locks; [Progress]: who waits for whom;
      [Draining]: why the work runs out when no more comes in; [Machine], [Schedule]: both kinds of system as functions that can be
      evaluated, one thread on a machine of its own and many under a schedule.
    - [Logger] (logger.c), [HttpParser], [HttpMessages], [HttpContent]
      (http_parser.c), [Utils] (server/utils.c), [Cache] (server/cache.c),
      [Router] (http_router.c), [ThreadPool], [Redirect], [Worker]
      (server_worker.c), [Config] (server/config.c), [Server] (server.c,
      server/ssl_engine.c), [Daemon] (daemon.c), [Main] (main.c): in each, a
      section "Code" with one definition per function, loop or branch of the
      source, under the source's name, then the specification and the proofs.
    - [Serving]: the main thread, which opens the listening socket and goes on
      to its accept loop, the workers and, if it comes, the announcement of the
      shutdown as the threads of such a system; [Visits]: what they have sent, told from the
      side of the clients; [Startup]: what the start command does before there
      are workers leads to a start of that system; [Runs]: a small disk, and
      the program run on it, alone and, from the command line on, with two
      clients at a time.
    - [Properties]: one theorem per property, with its instances.

    ** How state and operations correspond

    A [char] array is the list of all its bytes, a string ends at its first
    NUL, and a write past an array makes the result [None], which is undefined
    behaviour in the program ([Undef]); [wp] excludes it. Pointers into a
    buffer are offsets. A heap block is an address with its initialised bytes.
    The cache and the queue are protected by locks: taking a lock yields a
    state the invariant allows and gives its blocks and sockets to the thread,
    releasing it gives them back, so that a thread that leaks, frees twice,
    uses what it does not own, or releases a lock on a broken structure has no
    [wp]. Other threads act between two critical sections; the states they may
    have left are those the protocol allows: a well-formed cache whose entries
    hold what their files do when they claim to be as new ([cache_ok]), under
    the type that goes with their name ([entry_typed]), with entries only added
    or brought up to date ([cache_follows]). A thread that gives the mutex back
    has to show that its section was one operation of a first-in-first-out
    queue ([queue_step]); [queue_run] is a run of those.

    The ghost state keeps the result of every read ([w_in]) next to the bytes
    written ([w_out], [w_sent]), so that an answer is stated of the bytes it
    answers: [exchange] and [session_log] for the requests of a session,
    [served] for a connection, [all_served] for all that a thread has done.
    The response to a request ([answers]) does not depend on the state of the
    server, but for cached files that are gone from the disk.

    The contracts speak of one thread. [Interleaving] lets any number of them
    take their steps in any order, with locks that are taken when they are
    free, and shows that threads that keep their contracts one by one (class
    [Crew]) keep them together. [Machine] and [Schedule] compute an answer for
    every call and are shown to stay within the protocol and the step relation,
    so that neither asks for something no system can do.

    ** What the theorems show

    - The server as a whole: in every interleaving of the main thread, the
      workers and the announcement of a shutdown, if there is one, from the
      creation of the workers on, nothing undefined is done, no block or socket
      has two owners, connections are taken in their order, each by one worker
      ([took]), which between two of them has answered, completely, each one it
      has taken; no thread is left behind (the rwlock is taken under the mutex
      at most, never the other way round). When no more connections are
      accepted, the system comes to rest in every order of steps; then, without
      a shutdown, all workers wait, and what was put into the queue has been
      taken out and answered; after a shutdown they have ended, having answered
      what they took, but for a socket taken last; what is still in the queue
      then stays there. Clients that ask for
      pages that are there get what the files hold, those that come in clear
      text the redirect, in order, on whatever worker ([visit]). The start
      command, whatever its arguments and its file, is undone, but for a TLS
      context when its certificate cannot be used, or leads there ([serves]).
    - Serving: the request loop, the routing, the framing of every response
      (but for error pages that threads make at the same time), error pages and redirects complete and within their buffers; a page that
      is on the disk is answered with what it holds, cached or not, whatever
      other threads do to the cache.
    - Parsing: totality, independence of earlier requests, round trips of
      requests, configuration files and numbers; the table of MIME types.
    - Shared state: the contracts of the five cache operations and of the
      queue's push, pop and shutdown; FIFO order; nothing leaks; the cache
      changes no response ([plain_response] is the server without it).
    - The program: configuration (its types, its file, its paths in daemon
      mode), listening socket, accept loop, daemon, command line and signal
      handler; and, as theorems, the places where the code leaves the contract
      of the calls it makes (locks destroyed while they are held or waited for,
      the mutex taken in a signal handler).

    ** Bounds and fuel

    Loops of the source that end by themselves are structural recursions or
    [loop]s whose fuel is compared with a measure: the reads the peer still
    has data for ([w_reads]), the fruitless wake-ups of the condition variable
    still to come ([w_wakes]), the bytes of the configuration file. With more
    fuel than the measure, [wp False] shows that the loop ends. The worker's
    and the accept loop serve for ever: for them [wp True] shows that every
    round, of any number of them, is safe, and each round is shown to end; on
    the system of [Interleaving] a thread that ends a round begins the next
    with a new bound for its peers and its wake-ups ([step_again]). There a
    thread goes from round to round as the main thread does from opening the
    socket to accepting on it: a round hands a number to the next.

    ** Assumptions, named

    [quiet]: other processes leave the disk alone, and its files can be read;
    [regular]: [ftell] succeeds; [ample]: memory does not run out; [solo]: no
    other thread fills the static error page buffer meanwhile; [alone]: no
    other thread takes the cache's lock for writing (both are false where
    threads run side by side: class [Shared]); [peer_ok]: the peer stays
    connected while it is written to; [lenient]: the library lets a lock be
    destroyed while it is in use, which POSIX does not promise: only what is
    said of [main]'s error path and of the signal handler as a whole needs it;
    [opens]: there is a descriptor for the listening socket, its port is free,
    and certificate and key can be used ([Shared] leaves it open); [max_file]: a
    bound on file sizes. A theorem
    uses only those its statement names; safety does not need [ample], [solo],
    [alone] or [peer_ok]. [Ordinary] is [quiet], [regular] and file sizes an
    [int] can hold.

    The library calls follow POSIX and C11 with 32-bit [int] and 64-bit
    [long]; the conversion of an out-of-range value to [int] wraps.

    ** Not modelled

    The Windows branches, the static assets and build files, the TLS protocol
    and the network behind the calls, [localtime]. Data races outside of the
    locks are modelled where the program has them, one access at a time: the
    error page buffer holds what any thread stored last (each store and each
    load of it taken as one step), the shutdown flag, which the workers read
    without the mutex, may read either way from the moment on that a thread is
    raising it ([raised]); the TLS context a worker has found is any that is alive,
    as [main] makes a second one while the workers start. [SIGPIPE] ends the
    process, as [main] neither handles nor ignores it: the theorems speak of
    executions until then. [System] says where else the contract of a call is
    weaker than its documentation. The workers are taken
    to begin when all of them have been created: until then the queue is empty,
    and the first can only wait for it. Of the shutdown, which the signal
    handler runs, and [main] when it cannot open the socket, the section that
    raises the flag is part of the interleaved system; what follows it takes
    the locks down under the threads that use them, which the protocol refuses,
    and theorems say so ([shutdown_in_use]). *)

From Stdlib Require Export Ascii String ZArith Lia.
From stdpp Require Export base tactics list strings gmap.

(** The set solvers of stdpp clear hypotheses that others already removed. *)
#[export] Set Warnings "-clear-no-such-hyp".

(** ** Bytes and C string literals *)

Abbreviation bytes := (list ascii).

Declare Scope lith_scope.
Delimit Scope lith_scope with lith.

Definition NUL : ascii := ascii_of_nat 0.
Definition TAB : ascii := ascii_of_nat 9.
Definition LF : ascii := ascii_of_nat 10.
Definition CR : ascii := ascii_of_nat 13.
Definition SP : ascii := ascii_of_nat 32.
Definition DQ : ascii := ascii_of_nat 34.
Definition ESC : ascii := ascii_of_nat 27.

Lemma CR_neq_LF : CR <> LF.
Proof. intros [=]. Qed.

(** The numeric value of a byte, as [(unsigned char)c] has it. *)
Definition code (c : ascii) : Z := Z.of_nat (nat_of_ascii c).

(** The escape sequences of the C literals of the program: [\n], [\r], [\\],
    and two spellings of this file's own, [\q] for the C escape of a double
    quote and [\e] for the C escape [\x1b]. *)
Definition unescape (c : ascii) : ascii :=
  if Ascii.eqb c "n"%char then LF
  else if Ascii.eqb c "r"%char then CR
  else if Ascii.eqb c "t"%char then TAB
  else if Ascii.eqb c "q"%char then DQ
  else if Ascii.eqb c "e"%char then ESC
  else c.

(** [lit s] is the byte sequence of the C literal written [s], without its
    terminating NUL. *)
Fixpoint lit (s : string) : bytes :=
  match s with
  | EmptyString => []
  | String c s1 =>
      if Ascii.eqb c "\"%char then
        match s1 with
        | EmptyString => [c]
        | String d s2 => unescape d :: lit s2
        end
      else c :: lit s1
  end.
Arguments lit : simpl never.

(** ** Machine integers *)

Definition INT_MAX : Z := 2147483647.
Definition LONG_MAX : Z := 9223372036854775807.
Definition LONG_MIN : Z := -9223372036854775808.

(** Conversion of a value to a 32-bit [int] (two's complement wrap). *)
Definition to_int (z : Z) : Z := ((z + 2 ^ 31) mod 2 ^ 32 - 2 ^ 31)%Z.

(** Conversion to a 64-bit [size_t]. *)
Definition to_size (z : Z) : Z := (z mod 2 ^ 64)%Z.

Lemma to_int_id (z : Z) : (- 2 ^ 31 <= z < 2 ^ 31)%Z -> to_int z = z.
Proof. intros Hz. unfold to_int. rewrite Z.mod_small; lia. Qed.

Lemma to_int_range (z : Z) : (- 2 ^ 31 <= to_int z < 2 ^ 31)%Z.
Proof.
  unfold to_int. pose proof (Z.mod_pos_bound (z + 2 ^ 31) (2 ^ 32)). lia.
Qed.

Lemma to_size_id (z : Z) : (0 <= z < 2 ^ 64)%Z -> to_size z = z.
Proof. intros Hz. unfold to_size. rewrite Z.mod_small; lia. Qed.

(** A decision procedure may be replaced by an equivalent boolean test. *)
Lemma decide_bool {A} (Q : Prop) `{!Decision Q} (b : bool) (x y : A) :
  (Q <-> b = true) -> (if decide Q then x else y) = if b then x else y.
Proof. intros HQ. case_decide as H; rewrite HQ in H; by destruct b. Qed.

(** ** Lists *)

Section lists.
Context {A : Type}.
Implicit Types (l k : list A) (x : A).

Lemma take_app_exact l k : take (length l) (l ++ k) = l.
Proof. by rewrite take_app_length. Qed.

(** What is added to one of many lists is added to all of them together. *)
Lemma concat_insert_app (ls : list (list A)) i l k :
  ls !! i = Some l -> concat (<[i := l ++ k]> ls) ≡ₚ concat ls ++ k.
Proof.
  revert i. induction ls as [|l' ls IH]; intros [|i]; cbn; [done | done | |].
  - intros [= ->]. rewrite <- !app_assoc. by rewrite (Permutation_app_comm k).
  - intros Hi. by rewrite (IH i Hi), app_assoc.
Qed.

Lemma drop_app_exact l k : drop (length l) (l ++ k) = k.
Proof. by rewrite drop_app_length. Qed.

Lemma drop_cons_app l x k : drop (S (length l)) (l ++ x :: k) = k.
Proof.
  replace (S (length l)) with (length (l ++ [x])) by (rewrite length_app; simpl; lia).
  replace (l ++ x :: k) with ((l ++ [x]) ++ k) by by rewrite <- app_assoc.
  apply drop_app_exact.
Qed.

Lemma take_short n l : length l <= n -> take n l = l.
Proof. intros. by apply take_ge. Qed.

Lemma Forall_take_drop P n l : Forall P l -> Forall P (take n l) /\ Forall P (drop n l).
Proof. rewrite <- (take_drop n l) at 1. by rewrite Forall_app. Qed.

Lemma take_snoc_lookup n l x :
  l !! n = Some x -> take (S n) l = take n l ++ [x].
Proof. apply take_S_r. Qed.
End lists.

(** Skipping the longest prefix whose elements satisfy a boolean test: the
    loops [while (p( *q)) q++;]. *)
Fixpoint skip_while {A} (p : A -> bool) (l : list A) : list A :=
  match l with
  | [] => []
  | x :: l' => if p x then skip_while p l' else l
  end.

Fixpoint take_until {A} (p : A -> bool) (l : list A) : list A :=
  match l with
  | [] => []
  | x :: l' => if p x then [] else x :: take_until p l'
  end.

Section skips.
Context {A : Type} (p : A -> bool).
Implicit Types (l k : list A).

Lemma skip_while_none l : Forall (fun x => p x = false) l -> skip_while p l = l.
Proof. destruct 1 as [|x l Hx]; simpl; [done|]. by rewrite Hx. Qed.

Lemma skip_while_all l k :
  Forall (fun x => p x = true) l -> skip_while p (l ++ k) = skip_while p k.
Proof. induction 1 as [|x l Hx _ IH]; simpl; [done|]. by rewrite Hx. Qed.

Lemma skip_while_hd x l : p x = false -> skip_while p (x :: l) = x :: l.
Proof. intros Hx. simpl. by rewrite Hx. Qed.

Lemma skip_while_suffix l : exists k, l = k ++ skip_while p l.
Proof.
  induction l as [|x l [k IH]]; simpl; [by exists []|].
  destruct (p x); [exists (x :: k); simpl; by f_equal | by exists []].
Qed.

Lemma skip_while_length l : length (skip_while p l) <= length l.
Proof. destruct (skip_while_suffix l) as [k Hk]. rewrite Hk at 2. rewrite length_app. lia. Qed.

Lemma take_until_none l k :
  Forall (fun x => p x = false) l -> take_until p (l ++ k) = l ++ take_until p k.
Proof. induction 1 as [|x l Hx _ IH]; simpl; [done|]. rewrite Hx. by rewrite IH. Qed.

Lemma take_until_hd x l : p x = true -> take_until p (x :: l) = [].
Proof. intros Hx. simpl. by rewrite Hx. Qed.

Lemma take_until_Forall l : Forall (fun x => p x = false) (take_until p l).
Proof.
  induction l as [|x l IH]; simpl; [done|].
  destruct (p x) eqn:Hx; [done | by constructor].
Qed.

Lemma take_until_length l : length (take_until p l) <= length l.
Proof. induction l as [|x l IH]; simpl; [done|]. destruct (p x); simpl; lia. Qed.

Lemma take_until_prefix l : exists k, l = take_until p l ++ k.
Proof.
  induction l as [|x l [k IH]]; simpl; [by exists []|].
  destruct (p x); [by exists (x :: l) | exists k; simpl; by f_equal].
Qed.
End skips.

(** ** Maps *)

Lemma elem_of_dom_insert {V} (m : gmap nat V) (i : nat) (x : V) : i ∈ dom (<[i := x]> m).
Proof. apply elem_of_dom. exists x. apply lookup_insert_eq. Qed.

(** ** Automation

    [lith] collects the facts the components' proofs discharge by [auto]. *)
Create HintDb lith.
#[export] Hint Resolve take_until_Forall take_until_length skip_while_length : lith.

(** Destruct every boolean test or option match the goal is stuck on. *)
Ltac cases_goal :=
  repeat (case_match || case_decide); simplify_eq/=.

(** Decide a closed computation. *)
Ltac by_compute :=
  first [vm_compute; reflexivity | apply (bool_decide_unpack _); vm_compute; exact I
        | vm_compute; discriminate].

(** Replace every literal by its bytes, by evaluation. *)
Ltac lit_norm :=
  repeat match goal with
  | |- context [lit ?s] =>
      let l := eval vm_compute in (lit s) in
      let H := fresh in
      assert (lit s = l) as H by (vm_compute; reflexivity); rewrite !H; clear H
  end.
