(* ===== verification/CString.v ===== *)
(** * C strings

    The string functions of [<string.h>], [<strings.h>] and [<ctype.h>] that
    the program calls, on byte lists. A [char *] is the list of the bytes from
    the address it points to up to the end of its buffer; a string ends at its
    first NUL, and the end of a list counts as one, so that a literal needs no
    explicit terminator. A call that writes through a pointer returns [None]
    when it would write past the buffer. *)

From S2P Require Import Prelude.

(** ** Reading *)

(** [*p] *)
Definition deref (p : bytes) : ascii := default NUL (head p).

Definition is_nul (c : ascii) : bool := bool_decide (c = NUL).

(** The characters before the terminator. *)
Definition cstr (p : bytes) : bytes := take_until is_nul p.

Definition strlen (p : bytes) : nat := length (cstr p).

(** Characters of [<ctype.h>], in the "C" locale. *)
Definition isspace (c : ascii) : bool :=
  let n := nat_of_ascii c in (n =? 32) || ((9 <=? n) && (n <=? 13)).

Definition isdigit (c : ascii) : bool :=
  let n := nat_of_ascii c in (48 <=? n) && (n <=? 57).

Definition tolower (c : ascii) : ascii :=
  let n := nat_of_ascii c in
  if (65 <=? n) && (n <=? 90) then ascii_of_nat (n + 32) else c.

Fixpoint strncmp (a b : bytes) (n : nat) : Z :=
  match n with
  | O => 0
  | S n' =>
      let x := deref a in
      let y := deref b in
      if decide (x = y) then
        if decide (x = NUL) then 0 else strncmp (tail a) (tail b) n'
      else (code x - code y)%Z
  end.

Definition strncasecmp (a b : bytes) (n : nat) : Z :=
  strncmp (tolower <$> a) (tolower <$> b) n.

Fixpoint strcmp (a b : bytes) : Z :=
  match a with
  | [] => (0 - code (deref b))%Z
  | x :: a' =>
      if decide (x = deref b) then
        if decide (x = NUL) then 0 else strcmp a' (tail b)
      else (code x - code (deref b))%Z
  end.

Fixpoint starts_with (n h : bytes) : bool :=
  match n, h with
  | [], _ => true
  | _, [] => false
  | x :: n', y :: h' => if decide (x = y) then starts_with n' h' else false
  end.

(** Offset of the first occurrence of [n] in [h]. *)
Fixpoint find_sub (h n : bytes) : option nat :=
  if starts_with n h then Some 0
  else match h with
       | [] => None
       | _ :: h' => S <$> find_sub h' n
       end.

(** The search functions return the offset of the match; [None] is NULL. *)
Definition strstr (h n : bytes) : option nat := find_sub (cstr h) (cstr n).

Fixpoint find_char (c : ascii) (s : bytes) : option nat :=
  match s with
  | [] => None
  | x :: s' => if decide (x = c) then Some 0 else S <$> find_char c s'
  end.

Definition strchr (s : bytes) (c : ascii) : option nat := find_char c (cstr s).

Definition strrchr (s : bytes) (c : ascii) : option nat :=
  (fun k => strlen s - 1 - k) <$> find_char c (reverse (cstr s)).

(** ** Writing *)

(** [strncpy(dst, src, n)] writes exactly [n] bytes: the string, padded with
    NULs, or its first [n] bytes with no terminator. *)
Definition strncpy (dst src : bytes) (n : nat) : option bytes :=
  if decide (n <= length dst) then
    Some (take n (cstr src ++ replicate n NUL) ++ drop n dst)
  else None.

(** [strcat(dst, src)] *)
Definition strcat (dst src : bytes) : option bytes :=
  let s := cstr dst ++ cstr src ++ [NUL] in
  if decide (length s <= length dst) then Some (s ++ drop (length s) dst) else None.

(** [buf[i] = c] *)
Definition store (buf : bytes) (i : nat) (c : ascii) : option bytes :=
  if decide (i < length buf) then Some (<[i := c]> buf) else None.

(** The idiom [strncpy(buf, src, n); buf[n] = 0], with [n + 1] the size of
    the buffer. *)
Definition strncpy_term (dst src : bytes) (n : nat) : option bytes :=
  dst' ← strncpy dst src n;
  store dst' n NUL.

(** * Facts *)

(** ** Terminators *)

Definition no_nul (s : bytes) : Prop := Forall (fun c => is_nul c = false) s.

#[export] Instance no_nul_dec s : Decision (no_nul s).
Proof. apply Forall_dec. intros. apply _. Defined.

Lemma is_nul_false c : is_nul c = false <-> c <> NUL.
Proof. unfold is_nul. apply bool_decide_eq_false. Qed.

Lemma no_nul_not_elem s : no_nul s <-> NUL ∉ s.
Proof.
  unfold no_nul. rewrite Forall_forall. split.
  - intros H Hin. by apply H, is_nul_false in Hin.
  - intros H x Hx. apply is_nul_false. by intros ->.
Qed.

Lemma no_nul_app a b : no_nul (a ++ b) <-> no_nul a /\ no_nul b.
Proof. apply Forall_app. Qed.

Lemma no_nul_cons c s : no_nul (c :: s) <-> is_nul c = false /\ no_nul s.
Proof. apply Forall_cons_iff. Qed.

Lemma no_nul_take n s : no_nul s -> no_nul (take n s).
Proof. apply Forall_take. Qed.

Lemma no_nul_drop n s : no_nul s -> no_nul (drop n s).
Proof. apply Forall_drop. Qed.

Lemma cstr_no_nul p : no_nul (cstr p).
Proof. apply take_until_Forall. Qed.

Lemma cstr_app a b : no_nul a -> cstr (a ++ b) = a ++ cstr b.
Proof. apply take_until_none. Qed.

Lemma cstr_nul b : cstr (NUL :: b) = [].
Proof. done. Qed.

Lemma cstr_nil : cstr [] = [].
Proof. done. Qed.

Lemma cstr_id a : no_nul a -> cstr a = a.
Proof. intros Ha. rewrite <- (app_nil_r a) at 1. by rewrite cstr_app, cstr_nil, app_nil_r. Qed.

Lemma strlen_id a : no_nul a -> strlen a = length a.
Proof. intros Ha. unfold strlen. by rewrite cstr_id. Qed.

Lemma cstr_term a b : no_nul a -> cstr (a ++ NUL :: b) = a.
Proof. intros Ha. by rewrite cstr_app, cstr_nul, app_nil_r. Qed.

Lemma cstr_idemp p : cstr (cstr p) = cstr p.
Proof. apply cstr_id, cstr_no_nul. Qed.

Lemma cstr_replicate n : cstr (replicate n NUL) = [].
Proof. by destruct n. Qed.

Lemma strlen_le p : strlen p <= length p.
Proof. apply take_until_length. Qed.

Lemma cstr_split p : p = cstr p \/ exists q, p = cstr p ++ NUL :: q.
Proof.
  induction p as [|c p [IH|[q IH]]]; [by left| |];
    unfold cstr in *; simpl; destruct (is_nul c) eqn:Hc.
  - apply bool_decide_eq_true in Hc as ->. right. by exists p.
  - left. by f_equal.
  - apply bool_decide_eq_true in Hc as ->. right. by exists p.
  - right. exists q. simpl. by f_equal.
Qed.

#[export] Hint Resolve cstr_no_nul no_nul_take no_nul_drop strlen_le : lith.


(** ** Comparison *)

Lemma code_inj x y : code x = code y -> x = y.
Proof.
  unfold code. intros H%Nat2Z.inj.
  by rewrite <- (ascii_nat_embedding x), <- (ascii_nat_embedding y), H.
Qed.

Lemma cstr_deref p :
  cstr p = if decide (deref p = NUL) then [] else deref p :: cstr (tail p).
Proof.
  destruct p as [|c p]; [done|]. unfold cstr, deref. simpl.
  unfold is_nul. case_decide; [by rewrite bool_decide_true | by rewrite bool_decide_false].
Qed.

Lemma code_sub_eq x y : (code x - code y)%Z = 0%Z <-> x = y.
Proof. split; [intros; apply code_inj; lia | intros ->; lia]. Qed.

(** [strncmp(a, b, n) == 0] compares the first [n] characters of the strings. *)
Lemma strncmp_eq a b n : strncmp a b n = 0%Z <-> take n (cstr a) = take n (cstr b).
Proof.
  revert a b. induction n as [|n IH]; intros a b; [done|].
  rewrite (cstr_deref a), (cstr_deref b). cbn [strncmp].
  repeat case_decide; cbn [take]; rewrite ?code_sub_eq, ?IH; try (split; congruence).
Qed.

Lemma strcmp_eq a b : strcmp a b = 0%Z <-> cstr a = cstr b.
Proof.
  revert b. induction a as [|c a IH]; intros b.
  - rewrite (cstr_deref b), cstr_nil. cbn [strcmp].
    change 0%Z with (code NUL) at 1. rewrite code_sub_eq. case_decide; split; congruence.
  - rewrite (cstr_deref (c :: a)), (cstr_deref b). cbn [strcmp].
    change (deref (c :: a)) with c. change (tail (c :: a)) with a.
    repeat case_decide; rewrite ?code_sub_eq, ?IH; split; congruence.
Qed.

(** ** Searching *)

Lemma starts_with_true n h : starts_with n h = true <-> exists k, h = n ++ k.
Proof.
  revert h. induction n as [|x n IH]; intros h; simpl.
  - split; [by exists h | done].
  - destruct h as [|y h]; [split; [done | by intros [k ?]]|].
    case_decide as E.
    + subst. rewrite IH. split; intros [k Hk]; exists k; simplify_eq; done.
    + split; [done|]. intros [k ?]. simplify_eq.
Qed.

Lemma starts_with_app n k : starts_with n (n ++ k) = true.
Proof. apply starts_with_true. by exists k. Qed.

(** A pattern that does not contain [c] cannot reach across an occurrence of
    [c] in the text. *)
Lemma starts_with_stop n a c b :
  c ∉ n -> starts_with n (a ++ c :: b) = starts_with n a.
Proof.
  revert a. induction n as [|x n IH]; intros a Hc; [done|].
  apply not_elem_of_cons in Hc as [Hx Hc].
  destruct a as [|y a]; simpl; [by rewrite decide_False by congruence|].
  case_decide; [by apply IH | done].
Qed.

(** [n] occurs in [h] at offset [i]. *)
Definition occurs_at (n h : bytes) (i : nat) : Prop :=
  i <= length h /\ exists k, drop i h = n ++ k.

Lemma occurs_at_0 n h : occurs_at n h 0 <-> starts_with n h = true.
Proof.
  rewrite starts_with_true. unfold occurs_at. rewrite drop_0.
  split; [tauto|]. intros. split; [lia | done].
Qed.

Lemma starts_with_not_occurs n h : starts_with n h = false -> ~ occurs_at n h 0.
Proof. intros Hs H0%occurs_at_0. congruence. Qed.

Lemma find_sub_Some h n i :
  find_sub h n = Some i <-> occurs_at n h i /\ forall j, j < i -> ~ occurs_at n h j.
Proof.
  revert i. induction h as [|x h IH]; intros i; cbn [find_sub];
    destruct (starts_with n _) eqn:Hs.
  1,3: split; [intros [= <-]; split; [by apply occurs_at_0 | lia]|];
       intros [_ Hi]; destruct i as [|i]; [done|];
       exfalso; apply (Hi 0); [lia | by apply occurs_at_0].
  - split; [done|]. intros [[Hi ?] _]. simpl in Hi.
    assert (i = 0) as -> by lia. exfalso. by apply (starts_with_not_occurs _ _ Hs).
  - destruct i as [|i].
    + rewrite fmap_Some. split; [by intros (? & _ & ?)|].
      intros [H0%occurs_at_0 _]. congruence.
    + assert (S <$> find_sub h n = Some (S i) <-> find_sub h n = Some i) as ->
        by (destruct (find_sub h n); simpl; split; congruence).
      rewrite IH. unfold occurs_at. simpl. split.
      * intros [[Hi Hk] Hj]. split; [split; [lia | done]|]. intros [|j] Hlt.
        { intros H0. by apply (starts_with_not_occurs _ _ Hs). }
        simpl. intros [? ?]. apply (Hj j); [lia | split; [lia | done]].
      * intros [[Hi Hk] Hj]. split; [split; [lia | done]|]. intros j Hlt [? ?].
        apply (Hj (S j)); [lia | split; [simpl; lia | done]].
Qed.

Lemma find_sub_None h n : find_sub h n = None <-> forall i, ~ occurs_at n h i.
Proof.
  induction h as [|x h IH]; cbn [find_sub]; destruct (starts_with n _) eqn:Hs.
  1,3: split; [done | intros Hi; exfalso; by apply (Hi 0), occurs_at_0].
  - split; [|done]. intros _ i [Hi ?]. simpl in Hi. assert (i = 0) as -> by lia.
    by apply (starts_with_not_occurs _ _ Hs).
  - rewrite fmap_None, IH. unfold occurs_at. simpl. split.
    + intros Hn [|i] [Hi Hk].
      * by apply (starts_with_not_occurs _ _ Hs).
      * apply (Hn i). split; [lia | done].
    + intros Hn i [Hi Hk]. apply (Hn (S i)). split; [lia | done].
Qed.

(** Searching a text line by line: a pattern without [c] is found before the
    first [c], or after it. *)
Lemma find_sub_stop a c b n :
  c ∉ n -> n <> [] ->
  find_sub (a ++ c :: b) n =
  match find_sub a n with
  | Some i => Some i
  | None => (fun i => S (length a) + i) <$> find_sub b n
  end.
Proof.
  intros Hc Hn. induction a as [|x a IH].
  - cbn [app find_sub].
    pose proof (starts_with_stop n [] c b Hc) as E. cbn [app] in E. rewrite E.
    by destruct n.
  - cbn [app find_sub].
    pose proof (starts_with_stop n (x :: a) c b Hc) as E. cbn [app] in E. rewrite E.
    destruct (starts_with n (x :: a)); [done|]. rewrite IH.
    destruct (find_sub a n); [done|]. by destruct (find_sub b n).
Qed.

Lemma find_sub_stop_hd c b n :
  c ∉ n -> n <> [] -> find_sub (c :: b) n = S <$> find_sub b n.
Proof.
  intros Hc Hn. change (c :: b) with ([] ++ c :: b). rewrite find_sub_stop by done.
  destruct n; [done|]. cbn. by destruct (find_sub b _).
Qed.

Lemma find_sub_here n k : find_sub (n ++ k) n = Some 0.
Proof.
  destruct (n ++ k) eqn:E; cbn [find_sub]; rewrite <- E, starts_with_app; done.
Qed.

Lemma find_char_Some c s i :
  find_char c s = Some i <-> s !! i = Some c /\ c ∉ take i s.
Proof.
  revert i. induction s as [|x s IH]; intros i.
  { split; [done|]. intros [Hi _]. done. }
  cbn [find_char]. case_decide as E.
  - subst. split; [intros [= <-]; split; [done | apply not_elem_of_nil]|].
    intros [_ Hi]. destruct i as [|i]; [done|]. exfalso. apply Hi. simpl. by left.
  - destruct i as [|i].
    + simpl. split; [destruct (find_char c s); discriminate|]. intros [[= ?] _]. done.
    + assert (S <$> find_char c s = Some (S i) <-> find_char c s = Some i) as ->
        by (destruct (find_char c s); simpl; split; congruence).
      rewrite IH. simpl. rewrite not_elem_of_cons. split; [intros []; auto | tauto].
Qed.

Lemma find_char_None c s : find_char c s = None <-> c ∉ s.
Proof.
  induction s as [|x s IH]; [split; [intros _; apply not_elem_of_nil | done]|].
  cbn [find_char]. rewrite not_elem_of_cons. case_decide; [split; [done | intros []; congruence]|].
  rewrite fmap_None, IH. split; [auto | tauto].
Qed.

Lemma find_char_app c a b :
  c ∉ a -> find_char c (a ++ c :: b) = Some (length a).
Proof.
  intros Hc. apply find_char_Some. rewrite take_app_length.
  split; [|done]. by rewrite list_lookup_middle.
Qed.

(** ** Writing *)

Lemma strncpy_length dst src n dst' : strncpy dst src n = Some dst' -> length dst' = length dst.
Proof.
  unfold strncpy. case_decide; [|done]. intros [= <-].
  rewrite length_app, length_take, length_app, length_replicate, length_drop. lia.
Qed.

Lemma store_length buf i c buf' : store buf i c = Some buf' -> length buf' = length buf.
Proof. unfold store. case_decide; [|done]. intros [= <-]. apply length_insert. Qed.

Lemma cstr_take_insert_nul n (l : bytes) :
  n < length l -> cstr (<[n := NUL]> l) = take n (cstr l).
Proof.
  revert l. induction n as [|n IH]; intros [|c l] Hn; simpl in *; try lia; [done|].
  unfold cstr in *. simpl. destruct (is_nul c); [done|]. simpl. f_equal. apply IH. lia.
Qed.

Lemma take_insert_le {A} n m (x : A) (l : list A) : n <= m -> take n (<[m := x]> l) = take n l.
Proof. intros. by rewrite take_insert_ge. Qed.

(** The terminated copy succeeds in every non-empty buffer and holds the
    truncated source string. *)
Lemma strncpy_term_lt dst src n :
  n < length dst ->
  exists dst', strncpy_term dst src n = Some dst' /\ length dst' = length dst /\
    cstr dst' = take n (cstr src).
Proof.
  intros Hl. unfold strncpy_term, strncpy. rewrite decide_True by lia. simpl.
  set (d := take n (cstr src ++ replicate n NUL) ++ drop n dst).
  assert (length d = length dst) as Hd.
  { unfold d. rewrite length_app, length_take, length_app, length_replicate, length_drop. lia. }
  unfold store. rewrite decide_True by lia.
  eexists. split; [done|]. split; [by rewrite length_insert|].
  rewrite cstr_take_insert_nul by lia. unfold d.
  destruct (decide (n <= strlen src)) as [Hs|Hs]; unfold strlen in Hs.
  - rewrite take_app_le by lia. rewrite cstr_app by auto with lith.
    rewrite take_app_le by (rewrite length_take; lia). by rewrite take_take, Nat.min_id.
  - rewrite (take_ge (cstr src)) by lia. rewrite take_app_ge by lia.
    rewrite <- app_assoc, cstr_app by auto with lith.
    assert (n - length (cstr src) = S (n - length (cstr src) - 1)) as -> by lia.
    rewrite take_app_ge by lia. rewrite take_replicate.
    destruct n as [|n]; [lia|].
    replace (S (S n - length (cstr src) - 1) `min` S n) with (S (S n - length (cstr src) - 1)) by lia.
    simpl. rewrite cstr_nul. by rewrite take_nil, app_nil_r.
Qed.

Lemma strncpy_term_spec dst src n :
  length dst = S n ->
  exists dst', strncpy_term dst src n = Some dst' /\ length dst' = S n /\
    cstr dst' = take n (cstr src).
Proof. intros Hl. rewrite <- Hl. apply strncpy_term_lt. lia. Qed.

Lemma strcat_spec dst src :
  strlen dst + strlen src < length dst ->
  exists dst', strcat dst src = Some dst' /\ length dst' = length dst /\
    cstr dst' = cstr dst ++ cstr src.
Proof.
  unfold strlen. intros Hl. unfold strcat.
  set (s := cstr dst ++ cstr src ++ [NUL]).
  assert (length s = length (cstr dst) + length (cstr src) + 1) as Hs
    by (unfold s; rewrite !length_app; simpl; lia).
  rewrite decide_True by lia. eexists. split; [done|]. split.
  - rewrite length_app, length_drop. lia.
  - unfold s. rewrite <- !app_assoc. rewrite app_assoc. simpl.
    apply cstr_term. rewrite no_nul_app. auto with lith.
Qed.

(** [strcat] is undefined exactly when the result does not fit. *)
Lemma strcat_None dst src :
  strcat dst src = None <-> length dst <= strlen dst + strlen src.
Proof.
  unfold strcat, strlen. rewrite !length_app. simpl. case_decide; split; done || lia.
Qed.
