(* ===== verification/CFormat.v ===== *)
(** * Numbers and formatted output

    [strtol] and [atoi], which read decimal numbers, and the [printf] family,
    which writes them: the conversions [%d], [%ld], [%zu], [%s] and [%%] that
    the program uses. [long] and [size_t] have 64 bits, [int] has 32; the
    conversion of an out-of-range [long] to [int] wraps, as it does with the
    program's compilers. *)

From S2P Require Import Prelude CString.

Local Open Scope Z_scope.

(** ** Reading *)

Definition digit_val (c : ascii) : Z := code c - 48.

Fixpoint read_digits (s : bytes) (acc : Z) : Z :=
  match s with
  | [] => acc
  | c :: s' => if isdigit c then read_digits s' (acc * 10 + digit_val c) else acc
  end.

(** Out-of-range values saturate (C11 7.22.1.4p8). *)
Definition clamp_long (z : Z) : Z := Z.max LONG_MIN (Z.min LONG_MAX z).

(** [strtol(p, NULL, 10)]: blanks, an optional sign, digits. *)
Definition strtol (p : bytes) : Z :=
  let s := skip_while isspace p in
  clamp_long
    (if decide (deref s = "-"%char) then - read_digits (tail s) 0
     else if decide (deref s = "+"%char) then read_digits (tail s) 0
     else read_digits s 0).

Definition atoi (p : bytes) : Z := to_int (strtol p).

Lemma atoi_range p : (- 2 ^ 31 <= atoi p < 2 ^ 31)%Z.
Proof. apply to_int_range. Qed.

(** ** Writing *)

Definition digit_char (d : Z) : ascii := ascii_of_nat (Z.to_nat (48 + d)).

Fixpoint dec_digits (fuel : nat) (n : Z) : bytes :=
  match fuel with
  | O => []
  | S f =>
      if n <? 10 then [digit_char n]
      else dec_digits f (n / 10) ++ [digit_char (n mod 10)]
  end.

(** Decimal digits of a non-negative number; [log2 n + 1] rounds suffice, see
    [read_dec_digits]. *)
Definition print_nat (n : Z) : bytes := dec_digits (S (Z.to_nat (Z.log2 n))) n.

Definition print_Z (z : Z) : bytes :=
  if z <? 0 then "-"%char :: print_nat (- z) else print_nat z.

(** An argument of a [printf] call. *)
Inductive farg :=
  | FInt (z : Z)     (* [int], [long] or [size_t] *)
  | FStr (s : bytes) (* [char *] *).

(** A format is a sequence of literal text and conversions; [None] for a
    conversion the program does not use. *)
Inductive piece := PLit (s : bytes) | PInt | PStr.

Definition lit_cons (c : ascii) (ps : list piece) : list piece :=
  match ps with
  | PLit s :: ps' => PLit (c :: s) :: ps'
  | _ => PLit [c] :: ps
  end.

Fixpoint fmt_pieces (fmt : bytes) : option (list piece) :=
  match fmt with
  | [] => Some []
  | c :: f =>
      if Ascii.eqb c "%"%char then
        match f with
        | "%"%char :: f' => lit_cons "%"%char <$> fmt_pieces f'
        | "s"%char :: f' => cons PStr <$> fmt_pieces f'
        | "d"%char :: f' => cons PInt <$> fmt_pieces f'
        | "l"%char :: "d"%char :: f' => cons PInt <$> fmt_pieces f'
        | "z"%char :: "u"%char :: f' => cons PInt <$> fmt_pieces f'
        | _ => None
        end
      else lit_cons c <$> fmt_pieces f
  end.

Fixpoint render (ps : list piece) (args : list farg) : option bytes :=
  match ps, args with
  | [], _ => Some []
  | PLit s :: ps', _ => app s <$> render ps' args
  | PInt :: ps', FInt z :: args' => app (print_Z z) <$> render ps' args'
  | PStr :: ps', FStr s :: args' => app (cstr s) <$> render ps' args'
  | _, _ => None
  end.

(** The text a format produces; [None] when the arguments do not fit the
    conversions. *)
Definition format (fmt : bytes) (args : list farg) : option bytes :=
  ps ← fmt_pieces fmt; render ps args.

(** The string [snprintf(buf, size, fmt, ...)] leaves in [buf]. *)
Definition snprintf (size : nat) (fmt : bytes) (args : list farg) : option bytes :=
  take (size - 1) <$> format fmt args.

(** * Facts *)

(** ** Digits *)

Lemma digit_char_spec d :
  0 <= d < 10 -> isdigit (digit_char d) = true /\ digit_val (digit_char d) = d.
Proof.
  intros Hd. assert (d = 0 \/ d = 1 \/ d = 2 \/ d = 3 \/ d = 4 \/ d = 5 \/ d = 6 \/ d = 7 \/
    d = 8 \/ d = 9) as H by lia.
  repeat destruct H as [->|H]; try by vm_compute. subst. by vm_compute.
Qed.

Lemma digit_not_special c :
  isdigit c = true -> isspace c = false /\ c <> "-"%char /\ c <> "+"%char /\ c <> NUL.
Proof.
  unfold isdigit, isspace. intros [H1%Nat.leb_le H2%Nat.leb_le]%andb_prop. split_and!.
  - apply orb_false_intro; [apply Nat.eqb_neq; lia|].
    apply andb_false_intro2, Nat.leb_gt. lia.
  - intros ->. vm_compute in H1. lia.
  - intros ->. vm_compute in H1. lia.
  - intros ->. vm_compute in H1. lia.
Qed.

Definition all_digits (s : bytes) : Prop := Forall (fun c => isdigit c = true) s.

Lemma read_digits_app s k acc :
  all_digits s -> read_digits (s ++ k) acc = read_digits k (read_digits s acc).
Proof.
  intros H. revert acc. induction H as [|c s Hc _ IH]; intros acc; simpl; [done|].
  by rewrite Hc.
Qed.

Lemma read_digits_stop k acc : isdigit (deref k) = false -> read_digits k acc = acc.
Proof. destruct k as [|c k]; [done|]. unfold deref. simpl. by intros ->. Qed.

Lemma dec_digits_spec fuel n :
  0 <= n < 2 ^ Z.of_nat fuel ->
  all_digits (dec_digits fuel n) /\ read_digits (dec_digits fuel n) 0 = n /\
  (fuel <> O -> dec_digits fuel n <> []).
Proof.
  revert n. induction fuel as [|f IH]; intros n Hn.
  - simpl in Hn. split_and!; [constructor | simpl; lia | done].
  - cbn [dec_digits]. rewrite Nat2Z.inj_succ, Z.pow_succ_r in Hn by lia.
    destruct (Z.ltb_spec n 10).
    + destruct (digit_char_spec n) as [Hd Hv]; [lia|].
      split_and!; [by repeat constructor | | done]. cbn [read_digits]. rewrite Hd, Hv. lia.
    + destruct (IH (n / 10)) as (Ha & Hr & _).
      { split; [apply Z.div_pos; lia|]. apply Z.div_lt_upper_bound; lia. }
      pose proof (Z.mod_pos_bound n 10).
      destruct (digit_char_spec (n mod 10)) as [Hd Hv]; [lia|].
      split_and!.
      * apply Forall_app. split; [done | by repeat constructor].
      * rewrite read_digits_app by done. cbn [read_digits]. rewrite Hd, Hv, Hr.
        pose proof (Z.div_mod n 10). lia.
      * intros _. by destruct (dec_digits f (n / 10)).
Qed.

Lemma print_nat_spec n :
  0 <= n ->
  all_digits (print_nat n) /\ read_digits (print_nat n) 0 = n /\ print_nat n <> [].
Proof.
  intros Hn. unfold print_nat.
  destruct (dec_digits_spec (S (Z.to_nat (Z.log2 n))) n) as (? & ? & ?); [|by auto].
  rewrite Nat2Z.inj_succ, Z2Nat.id by apply Z.log2_nonneg.
  destruct (decide (n = 0)) as [->|]; [done|]. pose proof (Z.log2_spec n). lia.
Qed.

Lemma dec_digits_length fuel n k :
  0 <= n < 10 ^ Z.of_nat k -> (1 <= k)%nat -> (length (dec_digits fuel n) <= k)%nat.
Proof.
  revert n k. induction fuel as [|f IH]; intros n k Hn Hk; [simpl; lia|].
  cbn [dec_digits]. destruct (Z.ltb_spec n 10); [simpl; lia|].
  rewrite length_app. simpl. destruct k as [|[|k]]; [lia | simpl in Hn; lia |].
  assert (length (dec_digits f (n / 10)) <= S k)%nat; [|lia].
  apply IH; [|lia]. rewrite Nat2Z.inj_succ, Z.pow_succ_r in Hn by lia.
  split; [apply Z.div_pos; lia|]. apply Z.div_lt_upper_bound; lia.
Qed.

Lemma print_Z_length z k :
  - 10 ^ Z.of_nat k < z < 10 ^ Z.of_nat (S k) -> (1 <= k)%nat ->
  (length (print_Z z) <= S k)%nat.
Proof.
  intros Hz Hk. unfold print_Z, print_nat. destruct (Z.ltb_spec z 0); cbn [length].
  - apply le_n_S, dec_digits_length; lia.
  - apply dec_digits_length; lia.
Qed.

Lemma all_digits_no_nul s : all_digits s -> no_nul s.
Proof.
  intros Hs. apply (Forall_impl _ _ _ Hs).
  intros c (_ & _ & _ & ?)%digit_not_special. by apply is_nul_false.
Qed.

Lemma print_nat_no_nul n : 0 <= n -> no_nul (print_nat n).
Proof. intros (? & _ & _)%print_nat_spec. by apply all_digits_no_nul. Qed.

Lemma print_Z_chars z : Forall (fun c => isdigit c || bool_decide (c = "-"%char) = true) (print_Z z).
Proof.
  assert (forall n, 0 <= n -> Forall (fun c => isdigit c || bool_decide (c = "-"%char) = true) (print_nat n)) as H.
  { intros n (Ha & _ & _)%print_nat_spec. apply (Forall_impl _ _ _ Ha). by intros c ->. }
  unfold print_Z. destruct (Z.ltb_spec z 0); [constructor; [done|]|]; apply H; lia.
Qed.

(** A character that is neither a digit nor a sign is not printed. *)
Lemma print_Z_not_elem c z :
  isdigit c || bool_decide (c = "-"%char) = false -> c ∉ print_Z z.
Proof.
  intros Hc Hin. pose proof (print_Z_chars z) as Hf. rewrite Forall_forall in Hf.
  specialize (Hf c Hin). simpl in Hf. congruence.
Qed.

Lemma print_Z_no_nul z : no_nul (print_Z z).
Proof.
  unfold print_Z. destruct (Z.ltb_spec z 0); [constructor; [done|]|]; apply print_nat_no_nul; lia.
Qed.

(** ** Round trip of numbers *)

Lemma clamp_long_id z : LONG_MIN <= z <= LONG_MAX -> clamp_long z = z.
Proof. unfold clamp_long. lia. Qed.

Lemma clamp_long_range z : LONG_MIN <= clamp_long z <= LONG_MAX.
Proof. unfold clamp_long, LONG_MIN, LONG_MAX. lia. Qed.

Lemma strtol_range p : LONG_MIN <= strtol p <= LONG_MAX.
Proof. apply clamp_long_range. Qed.

Lemma strtol_spaces s k : Forall (fun c => isspace c = true) s -> strtol (s ++ k) = strtol k.
Proof. intros Hs. unfold strtol. by rewrite skip_while_all. Qed.

(** Reading back a printed number yields it, whatever follows its digits. *)
Lemma strtol_print z k :
  LONG_MIN <= z <= LONG_MAX -> isdigit (deref k) = false ->
  strtol (print_Z z ++ k) = z.
Proof.
  intros Hz Hk. unfold strtol, print_Z. destruct (Z.ltb_spec z 0) as [Hn|Hn].
  - cbn [app]. rewrite skip_while_hd by done. rewrite decide_True by done.
    cbn [tail]. destruct (print_nat_spec (- z)) as (Ha & Hr & _); [lia|].
    rewrite read_digits_app, Hr, read_digits_stop by done. rewrite clamp_long_id; lia.
  - destruct (print_nat_spec z) as (Ha & Hr & Hnil); [lia|].
    destruct (print_nat z) as [|c s]; [done|].
    pose proof (Forall_inv Ha) as Hc. destruct (digit_not_special c Hc) as (Hs & Hm & Hp & _).
    cbn [app]. rewrite skip_while_hd by done. unfold deref at 1 2. cbn [head default].
    rewrite !decide_False by done. rewrite (app_comm_cons s k c).
    rewrite read_digits_app, Hr, read_digits_stop by done. by rewrite clamp_long_id.
Qed.

Lemma atoi_print z k :
  - 2 ^ 31 <= z < 2 ^ 31 -> isdigit (deref k) = false -> atoi (print_Z z ++ k) = z.
Proof.
  intros Hz Hk. unfold atoi. rewrite strtol_print; [by apply to_int_id | | done].
  unfold LONG_MIN, LONG_MAX. lia.
Qed.

(** ** Formats *)

(** A format is split into pieces by evaluation, its arguments stay symbolic. *)
Lemma format_pieces fmt ps args :
  fmt_pieces fmt = Some ps -> format fmt args = render ps args.
Proof. unfold format. by intros ->. Qed.

Ltac format_step :=
  match goal with
  | |- context [format (lit ?s) ?args] =>
      let p := eval vm_compute in (fmt_pieces (lit s)) in
      match p with
      | Some ?ps =>
          rewrite (format_pieces (lit s) ps args) by (vm_compute; reflexivity);
          cbn [render fmap option_fmap option_map]
      end
  end.

Lemma snprintf_fits size fmt args s :
  format fmt args = Some s -> (length s < size)%nat -> snprintf size fmt args = Some s.
Proof. unfold snprintf. intros -> ?. simpl. f_equal. apply take_ge. lia. Qed.

Lemma snprintf_length size fmt args s :
  snprintf size fmt args = Some s -> (length s <= size - 1)%nat.
Proof.
  unfold snprintf. rewrite fmap_Some. intros (s' & _ & ->). rewrite length_take. lia.
Qed.

(** *** Totality and length of formatted text *)

Definition arg_len (a : farg) : nat :=
  match a with FInt z => length (print_Z z) | FStr s => strlen s end.

Fixpoint args_len (args : list farg) : nat :=
  match args with [] => 0 | a :: args' => arg_len a + args_len args' end.

(** The conversions consume exactly the arguments. *)
Fixpoint fits (ps : list piece) (args : list farg) : bool :=
  match ps, args with
  | [], [] => true
  | PLit _ :: ps', _ => fits ps' args
  | PInt :: ps', FInt _ :: args' => fits ps' args'
  | PStr :: ps', FStr _ :: args' => fits ps' args'
  | _, _ => false
  end.

Fixpoint lit_len (ps : list piece) : nat :=
  match ps with
  | [] => 0
  | PLit s :: ps' => length s + lit_len ps'
  | _ :: ps' => lit_len ps'
  end.

Definition lits_no_nul (ps : list piece) : bool :=
  forallb (fun p => match p with PLit s => bool_decide (no_nul s) | _ => true end) ps.

Lemma render_spec ps args :
  fits ps args = true -> lits_no_nul ps = true ->
  exists s, render ps args = Some s /\ no_nul s /\ (length s = lit_len ps + args_len args)%nat.
Proof.
  revert args. induction ps as [|[l| |] ps IH]; intros args Hf Hn; cbn [fits] in Hf.
  - destruct args; [|done]. exists []. split_and!; [done | constructor | done].
  - apply andb_prop in Hn as [Hl%bool_decide_eq_true Hn].
    destruct (IH args Hf Hn) as (s & Hs & Hs' & Hlen). exists (l ++ s). cbn [render]. rewrite Hs.
    split_and!; [done | by apply no_nul_app |]. rewrite length_app. cbn [lit_len]. lia.
  - destruct args as [|[z|t] args]; try done.
    destruct (IH args Hf Hn) as (s & Hs & Hs' & Hlen). exists (print_Z z ++ s). cbn [render].
    rewrite Hs. split_and!; [done | apply no_nul_app; split; [apply print_Z_no_nul | done] |].
    rewrite length_app. cbn [lit_len args_len arg_len]. lia.
  - destruct args as [|[z|t] args]; try done.
    destruct (IH args Hf Hn) as (s & Hs & Hs' & Hlen). exists (cstr t ++ s). cbn [render].
    rewrite Hs. split_and!; [done | apply no_nul_app; split; [apply cstr_no_nul | done] |].
    rewrite length_app. cbn [lit_len args_len arg_len]. unfold strlen. lia.
Qed.

(** What a format needs, as one test; [k] is the length of its literal text. *)
Definition fmt_ok (fmt : bytes) (args : list farg) (k : nat) : bool :=
  match fmt_pieces fmt with
  | Some ps => fits ps args && lits_no_nul ps && Nat.eqb (lit_len ps) k
  | None => false
  end.

Lemma format_spec fmt args k :
  fmt_ok fmt args k = true ->
  exists s, format fmt args = Some s /\ no_nul s /\ (length s = k + args_len args)%nat.
Proof.
  unfold fmt_ok, format. destruct (fmt_pieces fmt) as [ps|]; [|done].
  intros [[Hf Hn]%andb_prop <-%Nat.eqb_eq]%andb_prop. by apply render_spec.
Qed.

(** The buffer holds the whole text when it has room for it. *)
Lemma snprintf_spec size fmt args k :
  fmt_ok fmt args k = true -> (k + args_len args < size)%nat ->
  exists s, format fmt args = Some s /\ snprintf size fmt args = Some s /\ no_nul s /\
    (length s = k + args_len args)%nat.
Proof.
  intros (s & Hs & Hn & Hl)%format_spec Hlt. exists s. split_and!; [done| |done|done].
  apply snprintf_fits; [done | lia].
Qed.
