(* ===== verification/Effects.v ===== *)
(** * Programs with effects

    The C functions that call the system are translated to values of
    [prog op ans A]: a tree of calls [Vis e k], where [e : op] is the call and
    [k] says how the code goes on for each possible result [ans e]. [Undef] is
    undefined behaviour (a write past a buffer, a null dereference) and
    [Diverge] a loop that ran out of the bound it was given.

    A [protocol] says, for a ghost state [world], which results a call can
    have and what the call does to that state; a call outside of its contract
    (closing a file twice, unlocking a lock that is not held) has no next
    state. [wp] is the weakest precondition of a program under a protocol: it
    holds when the program, whatever the results are, makes no undefined step
    and breaks no contract, and its value and final ghost state satisfy the
    postcondition. *)

From S2P Require Import Prelude.

Section prog.
Context {op : Type} {ans : op -> Type}.

Inductive prog (A : Type) : Type :=
| Ret (a : A)
| Vis (e : op) (k : ans e -> prog A)
| Undef
| Diverge.

Global Arguments Ret {A} _.
Global Arguments Vis {A} _ _.
Global Arguments Undef {A}.
Global Arguments Diverge {A}.

Fixpoint bind {A B} (f : A -> prog B) (p : prog A) : prog B :=
  match p with
  | Ret a => f a
  | Vis e k => Vis e (fun r => bind f (k r))
  | Undef => Undef
  | Diverge => Diverge
  end.

(** One call. *)
Definition call (e : op) : prog (ans e) := Vis e Ret.

(** A computation without system calls that may be undefined. *)
Definition defined {A} (o : option A) : prog A :=
  match o with Some a => Ret a | None => Undef end.

(** [while (body)]: the body says whether to go round again ([inl]) or to
    leave ([inr]); [fuel] bounds the number of rounds. *)
Fixpoint loop {S R} (fuel : nat) (body : S -> prog (S + R)) (s : S) : prog R :=
  match fuel with
  | O => Diverge
  | S f =>
      bind (fun x => match x with
                     | inl s' => loop f body s'
                     | inr r => Ret r
                     end) (body s)
  end.
End prog.

(** ** Effects

    [only P p]: whatever the results are, the program makes no calls but those
    in [P]. [until P Q p]: it makes calls in [P], and from the first other one
    on only calls in [Q]. *)

Section only.
Context {op : Type} {ans : op -> Type} (P : op -> bool).

Fixpoint only {A} (p : prog (op := op) (ans := ans) A) : Prop :=
  match p with
  | Vis e k => P e = true /\ forall r, only (k r)
  | _ => True
  end.

Lemma only_ret {A} (a : A) : only (Ret a).
Proof. done. Qed.

Lemma only_bind {A B} (f : A -> prog B) p : only p -> (forall a, only (f a)) -> only (bind f p).
Proof. intros Hp Hf. induction p as [a|e k IH| |]; cbn; [apply Hf | | done..]. naive_solver. Qed.

Lemma only_call e : P e = true -> only (call e).
Proof. done. Qed.

Lemma only_defined {A} (o : option A) : only (defined o).
Proof. by destruct o. Qed.

Lemma only_loop {S R} fuel (body : S -> prog (S + R)) s :
  (forall s, only (body s)) -> only (loop fuel body s).
Proof.
  intros Hb. revert s. induction fuel as [|n IH]; intros s; cbn [loop]; [done|].
  apply only_bind; [apply Hb|]. by intros [s'|r].
Qed.
End only.

Section until.
Context {op : Type} {ans : op -> Type} (P Q : op -> bool).

Fixpoint until {A} (p : prog (op := op) (ans := ans) A) : Prop :=
  match p with
  | Vis e k => if P e then forall r, until (k r) else Q e = true /\ forall r, only Q (k r)
  | _ => True
  end.

Lemma only_until {A} (p : prog (op := op) (ans := ans) A) : only Q p -> until p.
Proof. induction p as [a|e k IH| |]; cbn; try done. intros [He Hk]. destruct (P e); naive_solver. Qed.

Lemma until_bind {A B} (f : A -> prog B) p : until p -> (forall a, only Q (f a)) -> until (bind f p).
Proof.
  intros Hp Hf. induction p as [a|e k IH| |]; cbn in *; [by apply only_until | | done..].
  destruct (P e); [naive_solver|]. destruct Hp as [He Hk]. split; [done|]. intros r. by apply only_bind.
Qed.

Lemma bind_until {A B} (f : A -> prog B) p : only P p -> (forall a, until (f a)) -> until (bind f p).
Proof.
  intros Hp Hf. induction p as [a|e k IH| |]; cbn in *; [by apply Hf | | done..].
  destruct Hp as [-> Hk]. naive_solver.
Qed.
End until.

Ltac head_of t := match t with ?f _ => head_of f | _ => t end.

(** Follows the program through its calls, functions unfolded as they come. *)
Ltac only_tac :=
  repeat match goal with
  | |- forall _, _ => intros ?
  | |- only _ (Ret _) => apply only_ret
  | |- only _ (defined _) => apply only_defined
  | |- only _ (call _) => apply only_call; reflexivity
  | |- only _ (loop _ _ _) => apply only_loop
  | |- only _ (bind _ _) => apply only_bind
  | |- only _ (match ?x with _ => _ end) => destruct x
  | |- only _ ?p => progress cbv beta zeta
  | |- only _ ?p => let f := head_of p in unfold f
  end.

(** ** Protocols *)

Record protocol {op : Type} {ans : op -> Type} : Type := Protocol {
  world : Type;
  answers : forall e : op, world -> ans e -> Prop;
  observe : forall e : op, world -> ans e -> world -> Prop;
}.
Arguments protocol {op} ans.
Arguments answers {op ans} _ _ _ _.
Arguments observe {op ans} _ _ _ _ _.
Arguments world {op ans} _.

Section wp.
Context {op : Type} {ans : op -> Type} (P : protocol ans).

(** [D] is what is said of a loop that runs out of its bound: [False] asks
    for termination. *)
Fixpoint wp (D : Prop) {A} (p : prog A) (w : world P) (Q : A -> world P -> Prop) : Prop :=
  match p with
  | Ret a => Q a w
  | Vis e k =>
      forall r, answers P e w r -> exists w', observe P e w r w' /\ wp D (k r) w' Q
  | Undef => False
  | Diverge => D
  end.

Lemma wp_mono D {A} (p : prog A) w (Q Q' : A -> world P -> Prop) :
  wp D p w Q -> (forall a w', Q a w' -> Q' a w') -> wp D p w Q'.
Proof.
  revert w. induction p as [a|e k IH| |]; simpl; intros w Hp HQ; auto.
  intros r Hr. destruct (Hp r Hr) as (w' & Hw & Hk). eauto.
Qed.

Lemma wp_bind D {A B} (p : prog A) (f : A -> prog B) w (Q : B -> world P -> Prop) :
  wp D p w (fun a w' => wp D (f a) w' Q) -> wp D (bind f p) w Q.
Proof.
  revert w. induction p as [a|e k IH| |]; simpl; intros w Hp; auto.
  intros r Hr. destruct (Hp r Hr) as (w' & Hw & Hk). exists w'. split; [done|]. by apply IH.
Qed.

Lemma wp_bind_inv D {A B} (p : prog A) (f : A -> prog B) w (Q : B -> world P -> Prop) :
  wp D (bind f p) w Q -> wp D p w (fun a w' => wp D (f a) w' Q).
Proof.
  revert w. induction p as [a|e k IH| |]; simpl; intros w Hp; auto.
  intros r Hr. destruct (Hp r Hr) as (w' & Hw & Hk). exists w'. split; [done|]. by apply IH.
Qed.

Lemma wp_weaken_diverge (D D' : Prop) {A} (p : prog A) w (Q : A -> world P -> Prop) :
  (D -> D') -> wp D p w Q -> wp D' p w Q.
Proof.
  intros HD. revert w. induction p as [a|e k IH| |]; simpl; intros w Hp; auto.
  intros r Hr. destruct (Hp r Hr) as (w' & Hw & Hk). eauto.
Qed.

(** The rule for a called function whose contract is known. *)
Lemma wp_call_spec D {A B} (p : prog A) (f : A -> prog B) w (R : A -> world P -> Prop)
    (Q : B -> world P -> Prop) :
  wp D p w R -> (forall a w', R a w' -> wp D (f a) w' Q) -> wp D (bind f p) w Q.
Proof. intros Hp Hf. apply wp_bind. by apply (wp_mono _ _ _ _ _ Hp). Qed.

Lemma wp_ret D {A} (a : A) w (Q : A -> world P -> Prop) : Q a w -> wp D (Ret a) w Q.
Proof. done. Qed.

Lemma wp_call D e w (Q : ans e -> world P -> Prop) :
  (forall r, answers P e w r -> exists w', observe P e w r w' /\ Q r w') ->
  wp D (call e) w Q.
Proof. done. Qed.

Lemma wp_defined D {A} (o : option A) a w (Q : A -> world P -> Prop) :
  o = Some a -> Q a w -> wp D (defined o) w Q.
Proof. by intros ->. Qed.

(** Total correctness of a loop: an invariant, and a measure that every
    round that goes on decreases. *)
Lemma wp_loop D {S R} (I : S -> world P -> Prop) (m : S -> world P -> nat)
    (body : S -> prog (S + R)) (Q : R -> world P -> Prop) fuel s w :
  I s w -> m s w < fuel ->
  (forall s w, I s w ->
     wp D (body s) w (fun x w' =>
       match x with
       | inl s' => I s' w' /\ m s' w' < m s w
       | inr r => Q r w'
       end)) ->
  wp D (loop fuel body s) w Q.
Proof.
  intros HI Hm Hbody. revert s w HI Hm. induction fuel as [|f IH]; intros s w HI Hm; [lia|].
  cbn [loop]. eapply wp_call_spec; [by apply Hbody|].
  intros [s'|r] w' HQ; [|done]. destruct HQ as [HI' Hm']. apply IH; [done | lia].
Qed.
End wp.

(** ** Running programs

    A [handler] answers every call from a state of its own; programs run on
    it, so that the definitions can be evaluated on concrete systems. *)
Section run.
Context {op : Type} {ans : op -> Type}.

Inductive outcome (A : Type) := Done (a : A) | Undefined | OutOfFuel.
Global Arguments Done {A} _.
Global Arguments Undefined {A}.
Global Arguments OutOfFuel {A}.

Fixpoint run {S A} (h : forall e : op, S -> ans e * S) (p : prog A) (s : S) : outcome A * S :=
  match p with
  | Ret a => (Done a, s)
  | Vis e k => let '(r, s') := h e s in run h (k r) s'
  | Undef => (Undefined, s)
  | Diverge => (OutOfFuel, s)
  end.

(** A handler implements a protocol when, for related states, its result is
    one the protocol allows and the states stay related. *)
Definition implements {S} (P : protocol ans) (h : forall e : op, S -> ans e * S)
    (Rel : S -> world P -> Prop) : Prop :=
  forall e s w, Rel s w ->
    answers P e w (fst (h e s)) /\
    forall w', observe P e w (fst (h e s)) w' -> Rel (snd (h e s)) w'.

(** What [wp] says is true of every run. *)
Lemma wp_run_sound {S A} P (h : forall e : op, S -> ans e * S) Rel (p : prog A) w s
    (Q : A -> world P -> Prop) :
  implements P h Rel -> Rel s w -> wp P False p w Q ->
  exists a w' s', run h p s = (Done a, s') /\ Rel s' w' /\ Q a w'.
Proof.
  intros Himp. revert w s. induction p as [a|e k IH| |]; simpl; intros w s HR Hp; try done.
  - by exists a, w, s.
  - destruct (Himp e s w HR) as [Hans Hnext].
    destruct (Hp _ Hans) as (w' & Hw & Hk).
    destruct (h e s) as [r s']. simpl in *. apply (IH r w'); auto.
Qed.
End run.
