(* ===== verification/Types.v ===== *)
(** * The data of the program

    The structures of [include/*.h]. A [char] array is the byte list of its
    whole storage; a pointer to a heap block is the block's address, and a
    record that owns a block carries its bytes with it. *)

From S2P Require Import Prelude CString.

(** ** Constants *)

Definition MAX_CACHE_ENTRIES : nat := 32.
Definition MAX_CACHE_FILE_SIZE : Z := 1024 * 1024.
Definition MAX_PATH_SIZE : nat := 256.
Definition BUFFER_SIZE : nat := 4096.
Definition BACKLOG : Z := 10.
Definition LITH_VERSION : bytes := lit "1.0.9".

(** ** Configuration (common.h) *)

Record ServerConfig := mkConfig {
  port : Z;
  public_dir : bytes;     (* char[256] *)
  use_cache : Z;
  ssl_cert_path : bytes;  (* char[256] *)
  ssl_key_path : bytes;   (* char[256] *)
}.

Definition set_port v c := mkConfig v (public_dir c) (use_cache c) (ssl_cert_path c) (ssl_key_path c).
Definition set_public_dir v c := mkConfig (port c) v (use_cache c) (ssl_cert_path c) (ssl_key_path c).
Definition set_use_cache v c := mkConfig (port c) (public_dir c) v (ssl_cert_path c) (ssl_key_path c).
Definition set_ssl_cert_path v c := mkConfig (port c) (public_dir c) (use_cache c) v (ssl_key_path c).
Definition set_ssl_key_path v c := mkConfig (port c) (public_dir c) (use_cache c) (ssl_cert_path c) v.

(** A [ServerConfig] in static storage, before anything is assigned. *)
Definition config_zero : ServerConfig :=
  mkConfig 0 (replicate 256 NUL) 0 (replicate 256 NUL) (replicate 256 NUL).

(** The values C can hold in a [ServerConfig], its strings terminated. *)
Record config_wf (c : ServerConfig) : Prop := {
  wf_public_dir : length (public_dir c) = 256 /\ strlen (public_dir c) < 256;
  wf_ssl_cert_path : length (ssl_cert_path c) = 256 /\ strlen (ssl_cert_path c) < 256;
  wf_ssl_key_path : length (ssl_key_path c) = 256 /\ strlen (ssl_key_path c) < 256;
  wf_port : (- 2 ^ 31 <= port c < 2 ^ 31)%Z;
  wf_use_cache : (- 2 ^ 31 <= use_cache c < 2 ^ 31)%Z;
}.

(** ** Requests (http_parser.h) *)

Inductive HttpMethod := METHOD_GET | METHOD_POST | METHOD_UNKNOWN.

#[export] Instance HttpMethod_eq_dec : EqDecision HttpMethod.
Proof. solve_decision. Defined.

Record HttpRequest := mkRequest {
  method : HttpMethod;
  path : bytes;              (* char[MAX_PATH_SIZE] *)
  content_length : Z;        (* long *)
  body_start : option nat;   (* offset in the receive buffer; [None] is NULL *)
  keep_alive : bool;
}.

(** ** Static cache (cache.h) *)

Record block := mkBlock { addr : nat; data : bytes }.

Record CacheEntry := mkEntry {
  filepath : bytes;          (* char[256] *)
  content : option block;    (* heap block; [None] is NULL *)
  entry_size : Z;            (* size_t size *)
  mime_type : bytes;         (* char[64] *)
  last_modified : Z;         (* time_t *)
  is_active : bool;
}.

Record LithCache := mkCache {
  entries : list CacheEntry; (* CacheEntry[MAX_CACHE_ENTRIES] *)
  entry_count : nat;
}.

(** The heap blocks a cache owns. *)
Definition owned_blocks (es : list CacheEntry) : list nat :=
  addr <$> omap content es.

(** ** Work queue (server.h) *)

Record Node := mkNode { socket : Z; next : option nat }.

(** The part of [ThreadPool_t] its mutex protects, with the heap nodes the
    list owns. *)
Record PoolQueue := mkPoolQueue {
  head_ptr : option nat;
  tail_ptr : option nat;
  pool_size : Z;
  shutdown : bool;
  nodes : gmap nat Node;
}.

(** ** Logging (logger.h) *)

Inductive LogLevel := LOG_INFO | LOG_WARN | LOG_ERROR.

(** ** Results of system calls *)

Record file_stat := mkStat { st_size : Z; st_mtime : Z }.

(** What the disk holds under a name. *)
Record file := mkFile { contents : bytes; mtime : Z }.

Definition stat_of (f : file) : file_stat := mkStat (Z.of_nat (length (contents f))) (mtime f).
