(* ===== verification/HttpParser.v ===== *)
(** * The HTTP request parser (src/http_parser.c)

    [parse_http_request], [get_mime_type] and [get_error_html], with the facts
    that make up the parser's contract: what it extracts from any buffer, that
    nothing of an earlier request survives. *)

From S2P Require Import Prelude CString CFormat Types.

(** ** Code *)

Definition method_to_str (m : HttpMethod) : bytes :=
  match m with
  | METHOD_GET => lit "GET"
  | METHOD_POST => lit "POST"
  | METHOD_UNKNOWN => lit "UNKNOWN"
  end.

(** The loop of step 3: copy [*ptr++] to [path[i++]] up to a blank or the
    end of the array. *)
Fixpoint copy_path (ptr : bytes) (p : bytes) (i : nat) : option (bytes * nat) :=
  match ptr with
  | [] => Some (p, i)
  | c :: ptr' =>
      if negb (is_nul c) && negb (isspace c) && (i <? MAX_PATH_SIZE - 1) then
        p' ← store p i c;
        copy_path ptr' p' (S i)
      else Some (p, i)
  end.

(** Three attempts at a header name; the first that occurs wins. *)
Definition find_header (buffer n1 n2 n3 : bytes) : option nat :=
  match strstr buffer n1 with
  | Some k => Some k
  | None => match strstr buffer n2 with
            | Some k => Some k
            | None => strstr buffer n3
            end
  end.

Definition is_space (c : ascii) : bool := bool_decide (c = SP).

Definition parse_content_length (buffer : bytes) : Z :=
  match find_header buffer (lit "Content-Length:") (lit "content-length:") (lit "CONTENT-LENGTH:") with
  | Some k => strtol (skip_while is_space (drop (k + 15) buffer))
  | None => 0
  end.

Definition parse_connection (buffer : bytes) : bool :=
  match find_header buffer (lit "Connection:") (lit "connection:") (lit "CONNECTION:") with
  | Some k =>
      let v := skip_while is_space (drop (k + 11) buffer) in
      if decide (strncasecmp v (lit "close") 5 = 0%Z) then false
      else if decide (strncasecmp v (lit "keep-alive") 10 = 0%Z) then true
      else true
  | None => true
  end.

Definition parse_body_start (buffer : bytes) : option nat :=
  (fun k => k + 4) <$> strstr buffer (lit "\r\n\r\n").

(** [req->path] after the [memset] of step 1. *)
Definition cleared_path (req : HttpRequest) : bytes :=
  replicate MAX_PATH_SIZE NUL ++ drop MAX_PATH_SIZE (path req).

(** The result code and the request structure; [None] is undefined
    behaviour. NULL arguments are [None]. *)
Definition parse_http_request (buffer : option bytes) (req : option HttpRequest)
    : option (Z * option HttpRequest) :=
  match buffer, req with
  | Some buf, Some r =>
      let start := if decide (strncmp buf (lit "GET ") 4 = 0%Z) then Some (METHOD_GET, 4)
                   else if decide (strncmp buf (lit "POST ") 5 = 0%Z) then Some (METHOD_POST, 5)
                   else None in
      match start with
      | None => Some ((-1)%Z, Some (mkRequest METHOD_UNKNOWN (cleared_path r) 0 None true))
      | Some (m, skip) =>
          '(p, i) ← copy_path (drop skip buf) (cleared_path r) 0;
          p' ← store p i NUL;
          Some (0%Z, Some (mkRequest m p' (parse_content_length buf) (parse_body_start buf)
                             (parse_connection buf)))
      end
  | _, _ => Some ((-1)%Z, req)
  end.

Definition get_mime_type (path : option bytes) : bytes :=
  match path with
  | None => lit "application/octet-stream"
  | Some p =>
      match strrchr p "."%char with
      | None => lit "application/octet-stream"
      | Some k =>
          let ext := drop k p in
          let ext_is s := bool_decide (strcmp ext (lit s) = 0%Z) in
          if ext_is ".html" || ext_is ".htm" then lit "text/html"
          else if ext_is ".css" then lit "text/css"
          else if ext_is ".js" then lit "application/javascript"
          else if ext_is ".png" then lit "image/png"
          else if ext_is ".jpg" || ext_is ".jpeg" then lit "image/jpeg"
          else if ext_is ".gif" then lit "image/gif"
          else if ext_is ".ico" then lit "image/x-icon"
          else if ext_is ".json" then lit "application/json"
          else if ext_is ".txt" then lit "text/plain"
          else lit "application/octet-stream"
      end
  end.

(** The page template of [get_error_html]. *)
Definition error_template : bytes := lit
"<!DOCTYPE html>\n<html lang=\qen\q>\n<head>\n    <meta charset=\qUTF-8\q>\n    <meta name=\qviewport\q content=\qwidth=device-width, initial-scale=1.0\q>\n    <title>%d - %s</title>\n    <style>\n        body { font-family: 'Segoe UI', system-ui, sans-serif; background: #0f172a; color: #f8fafc; display: flex; justify-content: center; align-items: center; min-height: 100vh; margin: 0; }\n        .error-card { text-align: center; background: #1e293b; padding: 3rem; border-radius: 12px; box-shadow: 0 10px 25px rgba(0,0,0,0.3); max-width: 450px; width: 90%%; border: 1px solid rgba(239, 68, 68, 0.2); }\n        h1 { font-size: 4rem; margin: 0; color: #ef4444; font-weight: 800; }\n        h2 { font-size: 1.5rem; margin: 0.5rem 0 1rem 0; color: #e2e8f0; }\n        p { color: #94a3b8; line-height: 1.6; margin-bottom: 2rem; }\n        .footer { font-size: 0.8rem; color: #64748b; border-top: 1px solid #334155; padding-top: 1rem; }\n    </style>\n</head>\n<body>\n    <div class=\qerror-card\q>\n        <h1>%d</h1>\n        <h2>%s</h2>\n        <p>%s</p>\n        <div class=\qfooter\q>LITH Server • Powered by FomaDev</div>\n    </div>\n</body>\n</html>".

(** What [snprintf] leaves in the static [error_buffer[2048]]. *)
Definition get_error_html (status_code : Z) (title message : bytes) : option bytes :=
  snprintf 2048 error_template
    [FInt status_code; FStr title; FInt status_code; FStr title; FStr message].

(** * Facts *)

(** ** The path *)

Definition ends_token (c : ascii) : bool := is_nul c || isspace c.

(** What step 3 reads: the first 255 bytes of the token at [ptr]. *)
Definition path_token (ptr : bytes) : bytes := take (MAX_PATH_SIZE - 1) (take_until ends_token ptr).

Lemma path_token_no_nul ptr : no_nul (path_token ptr).
Proof.
  apply Forall_take. apply (Forall_impl _ _ _ (take_until_Forall ends_token ptr)).
  intros c [? _]%orb_false_elim. done.
Qed.

Lemma path_token_length ptr : length (path_token ptr) < MAX_PATH_SIZE.
Proof. unfold path_token, MAX_PATH_SIZE. rewrite length_take. lia. Qed.

Lemma copy_path_spec ptr p i :
  length p = MAX_PATH_SIZE -> i < MAX_PATH_SIZE ->
  let s := take (MAX_PATH_SIZE - 1 - i) (take_until ends_token ptr) in
  copy_path ptr p i = Some (take i p ++ s ++ drop (i + length s) p, i + length s).
Proof.
  revert p i. induction ptr as [|c ptr IH]; intros p i Hp Hi; cbn [copy_path take_until].
  - cbn. rewrite take_nil. cbn. by rewrite Nat.add_0_r, take_drop.
  - replace (negb (is_nul c) && negb (isspace c)) with (negb (ends_token c))
      by (unfold ends_token; by destruct (is_nul c), (isspace c)).
    destruct (ends_token c); cbn [negb andb].
    { rewrite take_nil. cbn. by rewrite Nat.add_0_r, take_drop. }
    destruct (Nat.ltb_spec i (MAX_PATH_SIZE - 1)).
    + unfold store. rewrite decide_True by lia. cbn [mbind option_bind].
      rewrite IH by (rewrite ?length_insert; lia).
      replace (MAX_PATH_SIZE - 1 - i) with (S (MAX_PATH_SIZE - 1 - S i)) by lia.
      cbn [take length]. set (s := take (MAX_PATH_SIZE - 1 - S i) _).
      rewrite (take_S_r _ i c) by (apply list_lookup_insert_eq; lia).
      rewrite take_insert_le, drop_insert_lt, <- app_assoc by lia. cbn [app].
      by rewrite !Nat.add_succ_r.
    + replace (MAX_PATH_SIZE - 1 - i) with 0 by lia. cbn. by rewrite Nat.add_0_r, take_drop.
Qed.

Lemma cleared_path_eq r :
  length (path r) = MAX_PATH_SIZE -> cleared_path r = replicate MAX_PATH_SIZE NUL.
Proof. intros Hl. unfold cleared_path. rewrite drop_ge by lia. apply app_nil_r. Qed.

(** The array after step 3: the token and NULs. *)
Definition path_array (s : bytes) : bytes := s ++ replicate (MAX_PATH_SIZE - length s) NUL.

Lemma path_array_cstr s : no_nul s -> cstr (path_array s) = s.
Proof. intros. unfold path_array. by rewrite cstr_app, cstr_replicate, app_nil_r. Qed.

Lemma path_array_length s : length s <= MAX_PATH_SIZE -> length (path_array s) = MAX_PATH_SIZE.
Proof. intros. unfold path_array. rewrite length_app, length_replicate. lia. Qed.

Lemma copy_path_cleared ptr :
  ('(p, i) ← copy_path ptr (replicate MAX_PATH_SIZE NUL) 0; store p i NUL)
  = Some (path_array (path_token ptr)).
Proof.
  rewrite copy_path_spec by (rewrite ?length_replicate; unfold MAX_PATH_SIZE; lia).
  rewrite Nat.sub_0_r, take_0. cbn [app]. fold (path_token ptr). rewrite Nat.add_0_l.
  pose proof (path_token_length ptr). rewrite drop_replicate. fold (path_array (path_token ptr)).
  cbn [mbind option_bind]. unfold store.
  assert (length (path_array (path_token ptr)) = MAX_PATH_SIZE) as Hl by (apply path_array_length; lia).
  rewrite decide_True by lia. f_equal. apply list_insert_id.
  unfold path_array. rewrite lookup_app_r, Nat.sub_diag by done.
  apply lookup_replicate. split; [done | lia].
Qed.

(** ** The request line *)

(** The method a buffer starts with, and the length of its keyword. *)
Definition request_method (buf : bytes) : option (HttpMethod * nat) :=
  if starts_with (lit "GET ") (cstr buf) then Some (METHOD_GET, 4)
  else if starts_with (lit "POST ") (cstr buf) then Some (METHOD_POST, 5)
  else None.

Lemma strncmp_prefix buf k n :
  no_nul k -> length k = n -> strncmp buf k n = 0%Z <-> starts_with k (cstr buf) = true.
Proof.
  intros Hk <-. rewrite strncmp_eq, starts_with_true, (cstr_id k) by done.
  rewrite (take_ge k) by done. split.
  - intros H. exists (drop (length k) (cstr buf)). by rewrite <- H at 1; rewrite take_drop.
  - intros [s ->]. by rewrite take_app_length.
Qed.

(** The parser's result, on every buffer: it never writes past [path], and the
    structure it leaves is a function of the buffer alone. *)
Definition parsed (buf : bytes) : Z * HttpRequest :=
  match request_method buf with
  | None => ((-1)%Z, mkRequest METHOD_UNKNOWN (replicate MAX_PATH_SIZE NUL) 0 None true)
  | Some (m, k) =>
      (0%Z, mkRequest m (path_array (path_token (drop k buf))) (parse_content_length buf)
              (parse_body_start buf) (parse_connection buf))
  end.

Lemma request_method_eq buf :
  (if decide (strncmp buf (lit "GET ") 4 = 0%Z) then Some (METHOD_GET, 4)
   else if decide (strncmp buf (lit "POST ") 5 = 0%Z) then Some (METHOD_POST, 5)
   else None) = request_method buf.
Proof.
  unfold request_method.
  rewrite (decide_bool _ (starts_with (lit "GET ") (cstr buf)))
    by (apply strncmp_prefix; by_compute).
  by rewrite (decide_bool _ (starts_with (lit "POST ") (cstr buf)))
    by (apply strncmp_prefix; by_compute).
Qed.

Lemma parse_http_request_eq buf r :
  length (path r) = MAX_PATH_SIZE ->
  parse_http_request (Some buf) (Some r) = Some (prod_map id Some (parsed buf)).
Proof.
  intros Hl. unfold parse_http_request, parsed.
  rewrite cleared_path_eq, request_method_eq by done.
  destruct (request_method buf) as [[m k]|]; [|done].
  pose proof (copy_path_cleared (drop k buf)) as Hc.
  destruct (copy_path _ _ 0) as [[p i]|]; [|done].
  cbn [mbind option_bind] in Hc |- *. by rewrite Hc.
Qed.
