(* ===== verification/HttpContent.v ===== *)
(** * MIME types and error pages

    [get_mime_type] against a table keyed by extension, and the error page of
    [get_error_html], which its buffer holds without truncation. *)

From S2P Require Import Prelude CString CFormat Types HttpParser.

(** ** MIME types *)

Definition octet_stream : bytes := lit "application/octet-stream".

(** The types by extension, the dot included. *)
Definition mime_table : list (bytes * bytes) :=
  [(lit ".html", lit "text/html"); (lit ".htm", lit "text/html");
   (lit ".css", lit "text/css"); (lit ".js", lit "application/javascript");
   (lit ".png", lit "image/png"); (lit ".jpg", lit "image/jpeg");
   (lit ".jpeg", lit "image/jpeg"); (lit ".gif", lit "image/gif");
   (lit ".ico", lit "image/x-icon"); (lit ".json", lit "application/json");
   (lit ".txt", lit "text/plain")].

Fixpoint assoc (k : bytes) (l : list (bytes * bytes)) : option bytes :=
  match l with
  | [] => None
  | (k', v) :: l' => if bool_decide (k = k') then Some v else assoc k l'
  end.

Definition mime_of_ext (e : bytes) : bytes := default octet_stream (assoc e mime_table).

Lemma strrchr_last p base c e :
  cstr p = base ++ c :: e -> c ∉ e -> strrchr p c = Some (length base).
Proof.
  intros Hp Hc. unfold strrchr, strlen. rewrite Hp, reverse_app, reverse_cons, <- app_assoc.
  cbn [app]. rewrite find_char_app by by rewrite elem_of_reverse.
  cbn [fmap option_fmap option_map]. apply (f_equal Some).
  rewrite length_reverse, length_app. cbn [length]. lia.
Qed.

Lemma strrchr_absent p c : c ∉ cstr p -> strrchr p c = None.
Proof.
  intros Hc. unfold strrchr. rewrite (proj2 (find_char_None c _)); [done|].
  by rewrite elem_of_reverse.
Qed.

Lemma cstr_drop n p : n <= strlen p -> cstr (drop n p) = drop n (cstr p).
Proof.
  revert p. induction n as [|n IH]; intros p Hn; [by rewrite !drop_0|].
  destruct p as [|c p]; [done|]. unfold strlen, cstr in *. cbn [take_until] in *.
  destruct (is_nul c); cbn [length drop] in *; [lia|]. apply IH. lia.
Qed.

Lemma strcmp_lit p s : no_nul s -> bool_decide (strcmp p s = 0%Z) = bool_decide (cstr p = s).
Proof.
  intros Hs. apply bool_decide_ext. rewrite strcmp_eq. by rewrite (cstr_id s).
Qed.

Lemma get_mime_type_by_ext p base e :
  cstr p = base ++ "."%char :: e -> "."%char ∉ e ->
  get_mime_type (Some p) = mime_of_ext ("."%char :: e).
Proof.
  intros Hp He. unfold get_mime_type. rewrite (strrchr_last p base _ e) by done.
  assert (cstr (drop (length base) p) = "."%char :: e) as Hd.
  { rewrite cstr_drop by (unfold strlen; rewrite Hp, length_app; lia).
    by rewrite Hp, drop_app_exact. }
  cbv zeta. rewrite !strcmp_lit by by_compute. rewrite Hd.
  unfold mime_of_ext, mime_table. cbn [assoc].
  repeat (case_bool_decide; [done|]). done.
Qed.

Lemma get_mime_type_no_ext p :
  "."%char ∉ cstr p -> get_mime_type (Some p) = octet_stream.
Proof. intros Hp. unfold get_mime_type. by rewrite strrchr_absent. Qed.

(** Only the string matters, not the bytes behind it. *)
Lemma get_mime_type_cstr p : get_mime_type (Some (cstr p)) = get_mime_type (Some p).
Proof.
  destruct (decide ("."%char ∈ cstr p)) as [Hin|Hno].
  - assert (exists base e, cstr p = base ++ "."%char :: e /\ ("."%char ∉ e)) as (base & e & Hp & He).
    { clear -Hin. induction (cstr p) as [|c l IH]; [by apply not_elem_of_nil in Hin|].
      destruct (decide ("."%char ∈ l)) as [Hl|Hl].
      - destruct (IH Hl) as (base & e & -> & He). by exists (c :: base), e.
      - apply elem_of_cons in Hin as [<-|Hin]; [by exists [], l | done]. }
    rewrite !(get_mime_type_by_ext _ base e); by rewrite ?cstr_idemp.
  - rewrite !get_mime_type_no_ext; by rewrite ?cstr_idemp.
Qed.

(** Every type fits the [char[64]] of a cache entry. *)
Lemma get_mime_type_fits p :
  no_nul (get_mime_type p) /\ length (get_mime_type p) <= 24.
Proof.
  assert (forall s, bool_decide (no_nul s /\ length s <= 24) = true ->
    no_nul s /\ length s <= 24) as H by (intros s; by intros ?%bool_decide_eq_true).
  unfold get_mime_type.
  repeat case_match; apply H; vm_compute; reflexivity.
Qed.

(** ** Error pages *)

(** The whole page, before [snprintf] cuts it to the buffer. *)
Definition error_page (status_code : Z) (title message : bytes) : option bytes :=
  format error_template
    [FInt status_code; FStr title; FInt status_code; FStr title; FStr message].

Definition is_int (z : Z) : Prop := (- 2 ^ 31 <= z < 2 ^ 31)%Z.

Lemma print_int_length z : is_int z -> length (print_Z z) <= 11.
Proof.
  intros Hz. unfold is_int in Hz. apply print_Z_length; [|lia].
  change (10 ^ Z.of_nat 10)%Z with 10000000000%Z. change (10 ^ Z.of_nat 11)%Z with 100000000000%Z. lia.
Qed.

Lemma print_size_length z : (- 2 ^ 63 <= z < 2 ^ 64)%Z -> length (print_Z z) <= 20.
Proof.
  intros Hz. apply print_Z_length; [|lia].
  change (10 ^ Z.of_nat 19)%Z with 10000000000000000000%Z.
  change (10 ^ Z.of_nat 20)%Z with 100000000000000000000%Z. lia.
Qed.

Lemma error_page_complete status_code title message :
  is_int status_code -> 2 * strlen title + strlen message <= 900 ->
  exists page, error_page status_code title message = Some page /\
    get_error_html status_code title message = Some page /\
    no_nul page /\ length page < 2048.
Proof.
  intros Hc Hl. pose proof (print_int_length status_code Hc) as Hp.
  unfold get_error_html, error_page.
  destruct (snprintf_spec 2048 error_template
    [FInt status_code; FStr title; FInt status_code; FStr title; FStr message] 1114)
    as (page & Hf & Hs & Hn & Hlen); [vm_compute; reflexivity | cbn [args_len arg_len]; lia |].
  exists page. split_and!; [done|done|done|].
  rewrite Hlen. cbn [args_len arg_len]. lia.
Qed.
