(* ===== verification/Invariants.v ===== *)
(** * Invariants of the shared data

    What the cache's rwlock and the queue's mutex protect: the well-formedness
    of the cache and of the linked work queue, how a cache may change between
    two critical sections of a thread, and the first-in-first-out queue the
    linked one implements. *)

From S2P Require Import Prelude CString Types HttpParser.

(** ** The static cache *)

(** The type of an entry is that of the file it was added for, of whose name
    the array may hold the beginning only. *)
Definition entry_typed (e : CacheEntry) : Prop :=
  exists p, cstr (filepath e) = take 255 (cstr p) /\ cstr (mime_type e) = get_mime_type (Some p).

(** A slot in use: terminated strings, the type that goes with the name, and a
    heap block of exactly [entry_size] bytes, none larger than [M]. *)
Record entry_wf (M : Z) (e : CacheEntry) : Prop := {
  ewf_filepath : length (filepath e) = 256;
  ewf_filepath_term : strlen (filepath e) < 256;
  ewf_mime : length (mime_type e) = 64;
  ewf_mime_term : strlen (mime_type e) < 64;
  ewf_type : entry_typed e;
  ewf_content : exists b, content e = Some b /\ entry_size e = Z.of_nat (length (data b));
  ewf_size : (entry_size e <= M)%Z;
  ewf_active : is_active e = true;
}.

Record slot_free (e : CacheEntry) : Prop := {
  sf_filepath : length (filepath e) = 256;
  sf_mime : length (mime_type e) = 64;
  sf_content : content e = None;
  sf_active : is_active e = false;
}.

Definition owned (c : LithCache) : gset nat := list_to_set (owned_blocks (entries c)).

Record cache_inv (M : Z) (c : LithCache) : Prop := {
  ci_length : length (entries c) = MAX_CACHE_ENTRIES;
  ci_count : entry_count c <= MAX_CACHE_ENTRIES;
  ci_used : forall i e, entries c !! i = Some e -> i < entry_count c -> entry_wf M e;
  ci_free : forall i e, entries c !! i = Some e -> entry_count c <= i -> slot_free e;
  ci_blocks : NoDup (owned_blocks (entries c));
}.

(** Entries are only appended, and keep their key and type. *)
Definition same_key (e e' : CacheEntry) : Prop :=
  filepath e' = filepath e /\ mime_type e' = mime_type e /\ is_active e' = is_active e.

Definition cache_evolves (c c' : LithCache) : Prop :=
  entry_count c <= entry_count c' /\
  forall i e, i < entry_count c -> entries c !! i = Some e ->
    exists e', entries c' !! i = Some e' /\ same_key e e'.

Lemma cache_evolves_refl c : cache_evolves c c.
Proof. split; [done|]. intros i e _ ?. by exists e. Qed.

Lemma cache_evolves_trans c1 c2 c3 :
  cache_evolves c1 c2 -> cache_evolves c2 c3 -> cache_evolves c1 c3.
Proof.
  intros [H1 E1] [H2 E2]. split; [lia|]. intros i e Hi He.
  destruct (E1 i e Hi He) as (e2 & He2 & ?&?&?).
  destruct (E2 i e2 ltac:(lia) He2) as (e3 & He3 & ?&?&?).
  exists e3. split; [done|]. split_and!; congruence.
Qed.

#[export] Instance cache_evolves_preorder : PreOrder cache_evolves.
Proof. split; [exact cache_evolves_refl | exact cache_evolves_trans]. Qed.

Lemma cache_inv_mono M M' c : (M <= M')%Z -> cache_inv M c -> cache_inv M' c.
Proof.
  intros HM [? ? Hu ? ?]. split; auto. intros i e He Hi.
  destruct (Hu i e He Hi). split; auto. lia.
Qed.

(** ** The work queue *)

(** [chain ns p l]: from [p], the nodes [ns] link the addresses and sockets
    [l], and end with NULL. *)
Fixpoint chain (ns : gmap nat Node) (p : option nat) (l : list (nat * Z)) : Prop :=
  match l with
  | [] => p = None
  | (a, s) :: l' => p = Some a /\ exists n, ns !! a = Some n /\ socket n = s /\ chain ns (next n) l'
  end.

Record queue_rep (q : PoolQueue) (l : list (nat * Z)) : Prop := {
  qr_chain : chain (nodes q) (head_ptr q) l;
  qr_tail : tail_ptr q = fst <$> last l;
  qr_size : pool_size q = Z.of_nat (length l);
  qr_nodup : NoDup l.*1;
  qr_dom : dom (nodes q) = list_to_set l.*1;
}.

(** The sockets queued are distinct descriptors. *)
Definition queue_inv (q : PoolQueue) : Prop :=
  exists l, queue_rep q l /\ NoDup l.*2 /\ Forall (fun s => (0 <= s < INT_MAX)%Z) l.*2.

Definition queue_blocks (q : PoolQueue) : gset nat := dom (nodes q).

Definition queue_socks (q : PoolQueue) : gset Z :=
  list_to_set ((fun kn : nat * Node => socket kn.2) <$> map_to_list (nodes q)).

Lemma elem_of_queue_socks q s :
  s ∈ queue_socks q <-> exists a n, nodes q !! a = Some n /\ socket n = s.
Proof.
  unfold queue_socks. rewrite elem_of_list_to_set, list_elem_of_fmap. split.
  - intros ([a n] & -> & H%elem_of_map_to_list). by exists a, n.
  - intros (a & n & H & <-). exists (a, n). split; [done|]. by apply elem_of_map_to_list.
Qed.

Lemma chain_lookup ns p l a s :
  chain ns p l -> (a, s) ∈ l -> exists n, ns !! a = Some n /\ socket n = s.
Proof.
  revert p. induction l as [|[b t] l IH]; intros p; simpl; [by intros _ ?%not_elem_of_nil|].
  intros (-> & n & Hn & Hs & Hc) [[= -> ->]|Hin]%elem_of_cons; [by exists n | by eapply IH].
Qed.

(** The socket set of a represented queue is that of its list. *)
Lemma queue_rep_socks q l : queue_rep q l -> queue_socks q = list_to_set l.*2.
Proof.
  intros [Hc _ _ _ Hd]. apply set_eq. intros s.
  rewrite elem_of_queue_socks, elem_of_list_to_set, list_elem_of_fmap. split.
  - intros (a & n & Hn & <-).
    assert (a ∈ dom (nodes q)) as Ha by (apply elem_of_dom; eauto).
    rewrite Hd, elem_of_list_to_set, list_elem_of_fmap in Ha.
    destruct Ha as ([a' t] & -> & Hin). destruct (chain_lookup _ _ _ _ _ Hc Hin) as (n' & Hn' & <-).
    exists (a', socket n'). split; [|done]. simpl in *. congruence.
  - intros ([a t] & -> & Hin). destruct (chain_lookup _ _ _ _ _ Hc Hin) as (n & Hn & <-).
    by exists a, n.
Qed.

(** A queue represents one list only. *)
Lemma chain_functional ns p l l' : chain ns p l -> chain ns p l' -> l = l'.
Proof.
  revert p l'. induction l as [|[a s] l IH]; intros p [|[a' s'] l']; simpl; try done.
  - by intros -> [? _].
  - by intros [? _] ->.
  - intros (-> & n & Hn & <- & Hc) ([= <-] & n' & Hn' & <- & Hc').
    assert (n = n') as <- by congruence. f_equal. by eapply IH.
Qed.

(** Nodes outside of the chain do not matter to it. *)
Lemma chain_frame ns ns' p l :
  (forall a, a ∈ l.*1 -> ns' !! a = ns !! a) -> chain ns p l -> chain ns' p l.
Proof.
  revert p. induction l as [|[a s] l IH]; intros p Heq; simpl; [done|].
  intros (-> & n & Hn & Hs & Hc). split; [done|]. exists n. split_and!; [|done|].
  - rewrite Heq; [done|]. simpl. by left.
  - apply IH; [|done]. intros b Hb. apply Heq. simpl. by right.
Qed.

(** * The first-in-first-out queue

    What the critical sections on the linked list are to the sockets that
    wait, whatever thread makes them. *)

(** The sockets waiting, oldest first. *)
Definition queued (q : PoolQueue) (l : list Z) : Prop :=
  exists k, queue_rep q k /\ k.*2 = l.

Inductive queue_op := Push (s : Z) | Pop (s : Z) | Idle | Stop.

(** What one critical section does to the queue. *)
Definition queue_step (q : PoolQueue) (op : queue_op) (q' : PoolQueue) : Prop :=
  exists l l', queued q l /\ queued q' l' /\
  match op with
  | Push s => l' = l ++ [s] /\ shutdown q = false /\ shutdown q' = false
  | Pop s => l = s :: l' /\ shutdown q = false /\ shutdown q' = false
  | Idle => l' = l /\ shutdown q' = shutdown q
  | Stop => l' = l /\ shutdown q' = true
  end.

(** A run: the threads' critical sections in the order the mutex lets them
    in, each starting from the queue the one before left. *)
Inductive queue_run : PoolQueue -> list queue_op -> PoolQueue -> Prop :=
  | run_nil q : queue_run q [] q
  | run_cons q op q1 ops q2 : queue_step q op q1 -> queue_run q1 ops q2 -> queue_run q (op :: ops) q2.

Definition pushed (ops : list queue_op) : list Z :=
  omap (fun op => match op with Push s => Some s | _ => None end) ops.

Definition popped (ops : list queue_op) : list Z :=
  omap (fun op => match op with Pop s => Some s | _ => None end) ops.

Lemma queued_functional q l l' : queued q l -> queued q l' -> l = l'.
Proof.
  intros (k & Hk & <-) (k' & Hk' & <-). f_equal.
  eapply chain_functional; [apply Hk | apply Hk'].
Qed.

(** First in, first out: what was waiting and what came in since is what went
    out followed by what waits now. *)
Lemma queue_run_fifo q ops q' l l' :
  queue_run q ops q' -> queued q l -> queued q' l' -> l ++ pushed ops = popped ops ++ l'.
Proof.
  intros Hrun. revert l. induction Hrun as [q|q op q1 ops q2 Hs Hrun IH]; intros l Hl Hl'.
  - simpl. rewrite app_nil_r. by eapply queued_functional.
  - destruct Hs as (k & k1 & Hk & Hk1 & Hop). specialize (IH k1 Hk1 Hl').
    destruct op as [s|s| |]; destruct_and! Hop; subst; cbn [pushed popped omap list_omap].
    + rewrite (queued_functional _ _ _ Hl Hk). rewrite <- app_assoc in IH. exact IH.
    + rewrite (queued_functional _ _ _ Hl Hk). simpl. f_equal. exact IH.
    + by rewrite (queued_functional _ _ _ Hl Hk).
    + by rewrite (queued_functional _ _ _ Hl Hk).
Qed.

(** The socket a critical section takes, read off the queue before and after:
    the oldest one, when there are fewer than before. *)
Definition section_pop (p : PoolQueue * PoolQueue) : option Z :=
  if decide (pool_size p.2 < pool_size p.1)%Z
  then a ← head_ptr p.1; n ← nodes p.1 !! a; Some (socket n) else None.

Lemma section_pop_step q op q' :
  queue_step q op q' -> option_list (section_pop (q, q')) = popped [op].
Proof.
  intros (l & l' & (k & Hk & <-) & (k' & Hk' & <-) & Hop). unfold section_pop. cbn [fst snd].
  rewrite (qr_size _ _ Hk), (qr_size _ _ Hk'), <- (length_fmap snd k), <- (length_fmap snd k').
  destruct op as [s|s| |]; destruct Hop as [Hl _]; rewrite Hl.
  - rewrite decide_False; [done|]. rewrite length_app. lia.
  - rewrite decide_True by (cbn; lia). pose proof (qr_chain _ _ Hk) as Hc.
    destruct k as [|[a s'] k]; [done|]. cbn [fmap list_fmap snd] in Hl. injection Hl as -> _.
    destruct Hc as (-> & n & Hn & <- & _). cbn [mbind option_bind]. by rewrite Hn.
  - by rewrite decide_False by lia.
  - by rewrite decide_False by lia.
Qed.

Lemma section_pop_same q : section_pop (q, q) = None.
Proof. unfold section_pop. cbn. by rewrite decide_False by lia. Qed.

Lemma popped_app ops ops' : popped (ops ++ ops') = popped ops ++ popped ops'.
Proof. apply omap_app. Qed.

Lemma queue_step_idle q : queue_inv q -> queue_step q Idle q.
Proof. intros (l & Hl & _). exists l.*2, l.*2. by split_and!; [exists l|exists l|..]. Qed.

(** What a thread owes the others when it gives the mutex back: its section
    was one operation of that queue. *)
Definition queue_evolves (q q' : PoolQueue) : Prop := exists op, queue_step q op q'.

Lemma queue_evolves_refl q : queue_inv q -> queue_evolves q q.
Proof. exists Idle. by apply queue_step_idle. Qed.

Lemma queue_run_snoc q ops q1 op q2 :
  queue_run q ops q1 -> queue_step q1 op q2 -> queue_run q (ops ++ [op]) q2.
Proof.
  induction 1 as [q|q op' q1 ops q3 Hs Hrun IH]; intros Hop.
  - by eapply run_cons, run_nil.
  - eapply run_cons; [done|]. by apply IH.
Qed.

(** No socket is overtaken: the [n]th to come is the [n]th to go. *)
Lemma queue_run_turn q ops q' l l' n :
  queue_run q ops q' -> queued q l -> queued q' l' -> n < length (popped ops) ->
  popped ops !! n = (l ++ pushed ops) !! n.
Proof.
  intros Hrun Hl Hl' Hn. rewrite (queue_run_fifo _ _ _ _ _ Hrun Hl Hl'). by rewrite lookup_app_l.
Qed.

Lemma queue_run_app q ops q1 ops' q2 :
  queue_run q ops q1 -> queue_run q1 ops' q2 -> queue_run q (ops ++ ops') q2.
Proof. induction 1; [done|]. intros H'. eapply run_cons; [done|]. by apply IHqueue_run. Qed.

(** Once the pool is shut down nothing comes or goes. *)
Lemma queue_run_stopped q ops q' :
  queue_run q ops q' -> shutdown q = true -> shutdown q' = true /\ pushed ops = [] /\ popped ops = [].
Proof.
  induction 1 as [q|q op q1 ops q2 (l & l' & _ & _ & Hop) Hrun IH]; intros Hq; [done|].
  destruct op as [x|x| |]; destruct_and! Hop; try congruence; apply IH; congruence.
Qed.

Lemma empty_queue_rep b : queue_rep (mkPoolQueue None None 0 b ∅) [].
Proof. split; [done..|constructor|]. cbn. by rewrite dom_empty_L. Qed.

Lemma empty_queue_inv b : queue_inv (mkPoolQueue None None 0 b ∅).
Proof. exists []. split_and!; [apply empty_queue_rep | constructor..]. Qed.
