(* ===== verification/System.v ===== *)
(** * The system under the program

    The calls the program makes ([syscall]), the results each can have and its
    effect on the ghost state of the calling thread ([os]). The ghost state
    counts what the thread owns: heap blocks, open streams, sockets, TLS
    sessions and the two locks; and it records what is read and written. Data
    that a lock protects is the result of taking it and an argument of
    releasing it, so that other threads act between two critical sections only;
    the result satisfies the data's invariant and the thread has to
    re-establish it.

    [env] fixes what the documentation of the calls leaves open: the disk,
    whether other processes leave it alone, whether memory runs out, whether
    another thread produces an error page at the same time, whether the peer
    stays, whether sockets and TLS contexts can be opened. The calls that set
    the server up leave a trace ([w_setup]). *)

From S2P Require Import Prelude CString Types Effects Invariants.

(** ** Calls *)

Inductive whence := SEEK_SET | SEEK_END.

Inductive syscall : Type :=
  (* logging *)
  | SClock
  | SPrint (s : bytes)
  (* streams and files *)
  | SFopen (p : bytes)
  | SStat (p : bytes)
  | SFseek (h : nat) (o : whence)
  | SFtell (h : nat)
  | SFread (h : nat) (cap n : Z)  (* [cap]: size of the destination block *)
  | SFgets (h : nat) (n : nat)
  | SFclose (h : nat)
  (* heap *)
  | SMalloc (n : Z)
  | SFree (a : nat)
  (* the cache's rwlock *)
  | SRwInit (c : LithCache)
  | SRdlock
  | SWrlock
  | SRwUnlock (c : LithCache)
  | SRwDestroy (c : LithCache)
  (* the static buffer of get_error_html *)
  | SErrStore (s : bytes)
  | SErrLoad
  (* TLS *)
  | SSslLibrary
  | SCtxNew
  | SCtxCertificate (ctx : nat) (p : bytes)
  | SCtxPrivateKey (ctx : nat) (p : bytes)
  | SCtxCheckKey (ctx : nat)
  | SCtxFree (ctx : nat)
  | SErrPrint
  | SEvpCleanup
  | SSslNew (ctx : option nat)
  | SSslSetFd (ssl : nat) (s : Z)
  | SSslAccept (ssl : nat)
  | SSslRead (ssl : nat) (n : Z)
  | SSslWrite (ssl : nat) (d : bytes) (n : Z)
  | SSslShutdown (ssl : nat)
  | SSslFree (ssl : nat)
  (* sockets *)
  | SSocket
  | SReuseAddr (s : Z)
  | SBind (s : Z) (port : Z)
  | SListen (s : Z) (backlog : Z)
  | SAccept (s : Z)
  | SSetTimeout (s : Z) (ms : Z)
  | SPeek (s : Z) (n : Z)
  | SRecv (s : Z) (n : Z)
  | SSend (s : Z) (d : bytes)
  | SShutdownWr (s : Z)
  | SClose (s : Z)
  (* the work queue's mutex and condition variable *)
  | SPoolInit (q : PoolQueue)
  | SPoolLock
  | SPoolUnlock (q : PoolQueue)
  | SCondWait (q : PoolQueue)
  | SCondSignal
  | SCondBroadcast
  | SMutexDestroy
  | SCondDestroy
  | SReadShutdown
  | SThreadCreate
  | SThreadDetach
  (* the process *)
  | SSignal (sig : Z)
  | SGetcwd (n : nat)
  | SPrintErr (s : bytes)
  | SFork
  | SSetsid
  | SUmask (mask : Z)
  | SChdir (p : bytes)
  | SCloseFd (fd : Z)
  | SOpen (p : bytes)
  | SDup2 (fd fd2 : Z).

Definition result (e : syscall) : Type :=
  match e with
  | SClock => Z * Z * Z
  | SFopen _ => option nat
  | SStat _ => option file_stat
  | SFtell _ => Z
  | SFread _ _ _ => bytes
  | SFgets _ _ => option bytes
  | SMalloc _ => option nat
  | SRdlock | SWrlock => LithCache
  | SErrLoad => bytes
  | SCtxNew => option nat
  | SCtxCertificate _ _ | SCtxPrivateKey _ _ => Z
  | SCtxCheckKey _ => bool
  | SSslNew _ => option nat
  | SSslAccept _ => Z
  | SSslRead _ _ => bytes
  | SSslWrite _ _ _ => Z
  | SSetTimeout _ _ => Z
  | SPeek _ _ | SRecv _ _ => bytes
  | SSend _ _ => Z
  | SPoolLock | SCondWait _ => PoolQueue
  | SSocket | SReuseAddr _ | SBind _ _ | SListen _ _ | SAccept _ => Z
  | SReadShutdown => bool
  | SThreadCreate => bool
  | SGetcwd _ => option bytes
  | SFork | SSetsid | SChdir _ | SOpen _ => Z
  | _ => unit
  end.

Abbreviation io := (prog (op := syscall) (ans := result)).
Abbreviation sys_call := (call (op := syscall) (ans := result)).
Abbreviation ensure := (defined (op := syscall) (ans := result)).

(** Sequencing, in the order of the C statements. *)
Notation "'let!' x := p 'in' k" :=
  (bind (op := syscall) (ans := result) (fun x => k) p)
  (at level 10, x pattern, p at level 100, k at level 200).
Notation "p ;;; k" :=
  (bind (op := syscall) (ans := result) (fun _ => k) p)
  (at level 199, right associativity, format "p ;;; '/' k").

(** ** The ghost state of a thread *)

Inductive lock_state :=
  | Unlocked
  | ReadLocked (c : LithCache)
  | WriteLocked (c : LithCache)
  | Destroyed.

(** What a daemon changes of its process: forks made, new session, file mode
    mask, working directory, open descriptors. *)
Record process := mkProcess {
  p_forks : nat;
  p_session : bool;
  p_umask : option Z;
  p_cwd : bytes;
  p_fds : gmap Z bytes;
}.

(** What a thread has set up for good, or until it is undone: a socket bound to a
    port, a socket that listens, the certificate and the key a TLS context has,
    found to fit each other, the work queue as it was made. *)
Inductive setup :=
  | BoundTo (s port : Z)
  | Listens (s : Z)
  | Certified (ctx : nat) (p : bytes)
  | Keyed (ctx : nat) (p : bytes)
  | KeyChecked (ctx : nat)
  | PoolMade (q : PoolQueue).

Record os := mkOs {
  w_lock : lock_state; (* the cache's rwlock, with the cache it was taken on *)
  w_seen : option LithCache; (* the last cache state this thread saw *)
  w_crit : list (bool * LithCache * LithCache); (* its critical sections on the cache: write?, before, after *)
  w_heap : gset nat; (* heap blocks this thread owns *)
  w_files : gmap nat (bytes * Z); (* open streams: name and offset *)
  w_err : bytes; (* the static error page buffer *)
  w_ctx : gset nat; (* live TLS contexts *)
  w_ssl : gset nat; (* live TLS sessions *)
  w_in : list bytes; (* what it has read and peeked, call by call *)
  w_out : bytes; (* plaintext written to the TLS session *)
  w_reads : nat; (* reads the peers still have data for *)
  w_socks : gset Z; (* open sockets this thread owns *)
  w_sent : bytes; (* bytes sent on a clear socket *)
  w_pool : option PoolQueue; (* the queue mutex, with the queue it was taken on *)
  w_pcrit : list (PoolQueue * PoolQueue); (* its critical sections on the queue *)
  w_wakes : nat; (* wake-ups of the condition variable still to come that find nothing to do *)
  w_threads : nat; (* worker threads created *)
  w_proc : process; (* attributes of the process *)
  w_setup : list setup; (* what it has set up, in order *)
}.

Definition set_w_lock (v : lock_state) (w : os) : os :=
  mkOs v (w_seen w) (w_crit w) (w_heap w) (w_files w) (w_err w) (w_ctx w) (w_ssl w) (w_in w) (w_out w) (w_reads w) (w_socks w) (w_sent w) (w_pool w) (w_pcrit w) (w_wakes w) (w_threads w) (w_proc w) (w_setup w).
Definition set_w_seen (v : option LithCache) (w : os) : os :=
  mkOs (w_lock w) v (w_crit w) (w_heap w) (w_files w) (w_err w) (w_ctx w) (w_ssl w) (w_in w) (w_out w) (w_reads w) (w_socks w) (w_sent w) (w_pool w) (w_pcrit w) (w_wakes w) (w_threads w) (w_proc w) (w_setup w).
Definition set_w_crit (v : list (bool * LithCache * LithCache)) (w : os) : os :=
  mkOs (w_lock w) (w_seen w) v (w_heap w) (w_files w) (w_err w) (w_ctx w) (w_ssl w) (w_in w) (w_out w) (w_reads w) (w_socks w) (w_sent w) (w_pool w) (w_pcrit w) (w_wakes w) (w_threads w) (w_proc w) (w_setup w).
Definition set_w_heap (v : gset nat) (w : os) : os :=
  mkOs (w_lock w) (w_seen w) (w_crit w) v (w_files w) (w_err w) (w_ctx w) (w_ssl w) (w_in w) (w_out w) (w_reads w) (w_socks w) (w_sent w) (w_pool w) (w_pcrit w) (w_wakes w) (w_threads w) (w_proc w) (w_setup w).
Definition set_w_files (v : gmap nat (bytes * Z)) (w : os) : os :=
  mkOs (w_lock w) (w_seen w) (w_crit w) (w_heap w) v (w_err w) (w_ctx w) (w_ssl w) (w_in w) (w_out w) (w_reads w) (w_socks w) (w_sent w) (w_pool w) (w_pcrit w) (w_wakes w) (w_threads w) (w_proc w) (w_setup w).
Definition set_w_err (v : bytes) (w : os) : os :=
  mkOs (w_lock w) (w_seen w) (w_crit w) (w_heap w) (w_files w) v (w_ctx w) (w_ssl w) (w_in w) (w_out w) (w_reads w) (w_socks w) (w_sent w) (w_pool w) (w_pcrit w) (w_wakes w) (w_threads w) (w_proc w) (w_setup w).
Definition set_w_ctx (v : gset nat) (w : os) : os :=
  mkOs (w_lock w) (w_seen w) (w_crit w) (w_heap w) (w_files w) (w_err w) v (w_ssl w) (w_in w) (w_out w) (w_reads w) (w_socks w) (w_sent w) (w_pool w) (w_pcrit w) (w_wakes w) (w_threads w) (w_proc w) (w_setup w).
Definition set_w_ssl (v : gset nat) (w : os) : os :=
  mkOs (w_lock w) (w_seen w) (w_crit w) (w_heap w) (w_files w) (w_err w) (w_ctx w) v (w_in w) (w_out w) (w_reads w) (w_socks w) (w_sent w) (w_pool w) (w_pcrit w) (w_wakes w) (w_threads w) (w_proc w) (w_setup w).
Definition set_w_in (v : list bytes) (w : os) : os :=
  mkOs (w_lock w) (w_seen w) (w_crit w) (w_heap w) (w_files w) (w_err w) (w_ctx w) (w_ssl w) v (w_out w) (w_reads w) (w_socks w) (w_sent w) (w_pool w) (w_pcrit w) (w_wakes w) (w_threads w) (w_proc w) (w_setup w).
Definition set_w_out (v : bytes) (w : os) : os :=
  mkOs (w_lock w) (w_seen w) (w_crit w) (w_heap w) (w_files w) (w_err w) (w_ctx w) (w_ssl w) (w_in w) v (w_reads w) (w_socks w) (w_sent w) (w_pool w) (w_pcrit w) (w_wakes w) (w_threads w) (w_proc w) (w_setup w).
Definition set_w_reads (v : nat) (w : os) : os :=
  mkOs (w_lock w) (w_seen w) (w_crit w) (w_heap w) (w_files w) (w_err w) (w_ctx w) (w_ssl w) (w_in w) (w_out w) v (w_socks w) (w_sent w) (w_pool w) (w_pcrit w) (w_wakes w) (w_threads w) (w_proc w) (w_setup w).
Definition set_w_socks (v : gset Z) (w : os) : os :=
  mkOs (w_lock w) (w_seen w) (w_crit w) (w_heap w) (w_files w) (w_err w) (w_ctx w) (w_ssl w) (w_in w) (w_out w) (w_reads w) v (w_sent w) (w_pool w) (w_pcrit w) (w_wakes w) (w_threads w) (w_proc w) (w_setup w).
Definition set_w_sent (v : bytes) (w : os) : os :=
  mkOs (w_lock w) (w_seen w) (w_crit w) (w_heap w) (w_files w) (w_err w) (w_ctx w) (w_ssl w) (w_in w) (w_out w) (w_reads w) (w_socks w) v (w_pool w) (w_pcrit w) (w_wakes w) (w_threads w) (w_proc w) (w_setup w).
Definition set_w_pool (v : option PoolQueue) (w : os) : os :=
  mkOs (w_lock w) (w_seen w) (w_crit w) (w_heap w) (w_files w) (w_err w) (w_ctx w) (w_ssl w) (w_in w) (w_out w) (w_reads w) (w_socks w) (w_sent w) v (w_pcrit w) (w_wakes w) (w_threads w) (w_proc w) (w_setup w).
Definition set_w_pcrit (v : list (PoolQueue * PoolQueue)) (w : os) : os :=
  mkOs (w_lock w) (w_seen w) (w_crit w) (w_heap w) (w_files w) (w_err w) (w_ctx w) (w_ssl w) (w_in w) (w_out w) (w_reads w) (w_socks w) (w_sent w) (w_pool w) v (w_wakes w) (w_threads w) (w_proc w) (w_setup w).
Definition set_w_wakes (v : nat) (w : os) : os :=
  mkOs (w_lock w) (w_seen w) (w_crit w) (w_heap w) (w_files w) (w_err w) (w_ctx w) (w_ssl w) (w_in w) (w_out w) (w_reads w) (w_socks w) (w_sent w) (w_pool w) (w_pcrit w) v (w_threads w) (w_proc w) (w_setup w).
Definition set_w_threads (v : nat) (w : os) : os :=
  mkOs (w_lock w) (w_seen w) (w_crit w) (w_heap w) (w_files w) (w_err w) (w_ctx w) (w_ssl w) (w_in w) (w_out w) (w_reads w) (w_socks w) (w_sent w) (w_pool w) (w_pcrit w) (w_wakes w) v (w_proc w) (w_setup w).
Definition set_w_proc (v : process) (w : os) : os :=
  mkOs (w_lock w) (w_seen w) (w_crit w) (w_heap w) (w_files w) (w_err w) (w_ctx w) (w_ssl w) (w_in w) (w_out w) (w_reads w) (w_socks w) (w_sent w) (w_pool w) (w_pcrit w) (w_wakes w) (w_threads w) v (w_setup w).
Definition set_w_setup (v : list setup) (w : os) : os :=
  mkOs (w_lock w) (w_seen w) (w_crit w) (w_heap w) (w_files w) (w_err w) (w_ctx w) (w_ssl w) (w_in w) (w_out w) (w_reads w) (w_socks w) (w_sent w) (w_pool w) (w_pcrit w) (w_wakes w) (w_threads w) (w_proc w) v.

Definition note (l : list setup) (w : os) : os := set_w_setup (w_setup w ++ l) w.

(** ** The environment *)

Record env := mkEnv {
  disk : bytes -> option file;  (* files by name *)
  quiet : bool;      (* the disk is readable and nobody else writes to it *)
  regular : bool;    (* every file opened is a regular one: ftell succeeds *)
  ample : bool;      (* memory does not run out *)
  solo : bool;       (* no other thread produces an error page meanwhile *)
  alone : bool;      (* no other thread takes the cache's lock for writing *)
  peer_ok : bool;    (* the peer stays connected while it is written to *)
  lenient : bool;    (* locks may be destroyed while they are in use, as glibc allows *)
  opens : bool;      (* there is a descriptor, a free port, and a key that fits the certificate *)
  max_file : Z;      (* no file is larger than this *)
}.

Record env_wf (E : env) : Prop := {
  ew_sizes : forall p f, disk E p = Some f -> (Z.of_nat (length (contents f)) <= max_file E)%Z;
  ew_max : (MAX_CACHE_FILE_SIZE <= max_file E)%Z;
}.

(** What serving files relies on. *)
Class Ordinary (E : env) : Prop := {
  or_wf : env_wf E;
  or_regular : regular E = true;
  or_max : (max_file E <= INT_MAX)%Z;
  or_quiet : quiet E = true;
}.

(** Ownership moves with the locks. *)
Definition gain_cache (c : LithCache) (w : os) : os := set_w_heap (w_heap w ∪ owned c) w.
Definition lose_cache (c : LithCache) (w : os) : os := set_w_heap (w_heap w ∖ owned c) w.

Definition gain_queue (q : PoolQueue) (w : os) : os :=
  set_w_pool (Some q)
    (set_w_heap (w_heap w ∪ queue_blocks q) (set_w_socks (w_socks w ∪ queue_socks q) w)).

Definition lose_queue (q0 q : PoolQueue) (w : os) : os :=
  set_w_pool None (set_w_pcrit (w_pcrit w ++ [(q0, q)])
    (set_w_heap (w_heap w ∖ queue_blocks q) (set_w_socks (w_socks w ∖ queue_socks q) w))).

(** The sockets the thread has taken from the queue, oldest first. *)
Definition taken (w : os) : list Z := omap section_pop (w_pcrit w).

Definition on_proc (f : process -> process) (w : os) : os := set_w_proc (f (w_proc w)) w.

Definition on_fds (f : gmap Z bytes -> gmap Z bytes) (w : os) : os :=
  on_proc (fun p => mkProcess (p_forks p) (p_session p) (p_umask p) (p_cwd p) (f (p_fds p))) w.

Section protocol.
Context (E : env).

(** An entry is as new as the file of its name. *)
Definition entry_fresh (e : CacheEntry) : Prop :=
  forall f, disk E (cstr (filepath e)) = Some f -> (mtime f <= last_modified e)%Z.

(** An entry that claims to be as new as the file holds what the file does. A
    name that fills its array may be cut off, and stand for another file. *)
Definition entry_true (e : CacheEntry) : Prop :=
  strlen (filepath e) < 255 -> forall f, disk E (cstr (filepath e)) = Some f ->
  (mtime f <= last_modified e)%Z -> data <$> content e = Some (contents f).

(** A cache is well formed, and tells the truth about the disk. *)
Record cache_ok (c : LithCache) : Prop := {
  co_inv : cache_inv (max_file E) c;
  co_true : quiet E = true -> forall i e, entries c !! i = Some e -> i < entry_count c -> entry_true e;
}.

(** What other threads may do to the cache: add entries, and bring entries up
    to date. *)
Definition cache_follows (c c' : LithCache) : Prop :=
  cache_evolves c c' /\
  (quiet E = true -> forall i e e', i < entry_count c -> entries c !! i = Some e ->
     entries c' !! i = Some e' -> entry_fresh e -> entry_fresh e').

#[export] Instance cache_follows_preorder : PreOrder cache_follows.
Proof.
  split.
  - intros c. split; [reflexivity|]. intros _ i e e' _ He He'. by simplify_eq.
  - intros c1 c2 c3 [H12 F12] [H23 F23]. split; [by etransitivity|].
    intros Hq i e1 e3 Hi He1 He3 Hf. destruct (proj2 H12 i e1 Hi He1) as (e2 & He2 & _).
    apply (F23 Hq i e2 e3); [destruct H12; lia | done | done |]. by apply (F12 Hq i e1 e2).
Qed.

(** The states of the cache another thread may have left. *)
Definition cache_visible (w : os) (c : LithCache) : Prop :=
  cache_ok c /\
  match w_seen w with
  | Some c0 => cache_follows c0 c /\ (alone E = true -> c = c0)
  | None => True
  end.

Definition queue_visible (w : os) (q : PoolQueue) : Prop :=
  queue_inv q /\ queue_blocks q ## w_heap w /\ queue_socks q ## w_socks w.

(** Locks are taken in one order: the rwlock may be taken under the mutex, the
    mutex not under the rwlock. *)
Definition rw_free (w : os) : Prop :=
  match w_lock w with Unlocked | Destroyed => True | _ => False end.

Definition may_lock (w : os) : Prop := w_pool w = None /\ rw_free w.

Lemma may_lock_unlocked w : w_pool w = None -> w_lock w = Unlocked -> may_lock w.
Proof. intros Hp Hl. split; [done|]. unfold rw_free. by rewrite Hl. Qed.

(** The mutex is held since the queue was [q0], one operation of the queue
    has made it [q], and the thread owns what [q] links. *)
Record may_release (q0 q : PoolQueue) (w : os) : Prop := {
  mr_held : w_pool w = Some q0;
  mr_step : queue_evolves q0 q;
  mr_inv : queue_inv q;
  mr_blocks : queue_blocks q ⊆ w_heap w;
  mr_socks : queue_socks q ⊆ w_socks w;
}.

(** A string in the static buffer of [get_error_html]. *)
Definition err_page (s : bytes) : Prop := no_nul s /\ length s < 2048.

(** What a stream on [p] at offset [o] still holds. *)
Definition remaining (p : bytes) (o : Z) : bytes :=
  match disk E p with
  | Some f => drop (Z.to_nat o) (contents f)
  | None => []
  end.

(** [fgets(line, n, h)] on a text: up to [n - 1] bytes, through the first
    newline. *)
Fixpoint next_line (n : nat) (s : bytes) : bytes :=
  match n, s with
  | O, _ | _, [] => []
  | S n', c :: s' => if decide (c = LF) then [c] else c :: next_line n' s'
  end.

Lemma next_line_prefix n s : exists k, s = next_line n s ++ k.
Proof.
  revert s. induction n as [|n IH]; intros [|c s]; cbn [next_line]; try by eexists.
  case_decide; [by eexists|]. destruct (IH s) as [k Hk]. exists k. simpl. by f_equal.
Qed.

Lemma next_line_length n s : length (next_line n s) <= n.
Proof.
  revert s. induction n as [|n IH]; intros [|c s]; cbn [next_line length]; try lia.
  case_decide; cbn [length]; [lia|]. specialize (IH s). lia.
Qed.

Definition sys_answers (e : syscall) (w : os) : result e -> Prop :=
  match e return result e -> Prop with
  | SFopen p => fun r =>
      match r with
      | Some h => h ∉ dom (w_files w)
      | None => True
      end /\ (quiet E = true -> (is_Some r <-> is_Some (disk E p)))
  | SStat p => fun r =>
      (forall st, r = Some st -> (0 <= st_size st <= max_file E)%Z) /\
      (quiet E = true -> r = stat_of <$> disk E p)
  | SFtell h => fun r =>
      (-1 <= r <= max_file E)%Z /\ (regular E = true -> (0 <= r)%Z) /\
      (quiet E = true -> forall p o, w_files w !! h = Some (p, o) -> r = o)
  | SFread h _ n => fun r =>
      ((0 <= n)%Z -> (Z.of_nat (length r) <= n)%Z) /\
      (quiet E = true -> forall p o, w_files w !! h = Some (p, o) ->
         r = take (Z.to_nat n) (remaining p o))
  | SFgets h n => fun r =>
      match r with
      | Some s => s <> [] /\ length s <= n - 1 /\
          (forall p o, w_files w !! h = Some (p, o) -> (o + Z.of_nat (length s) <= max_file E)%Z)
      | None => True
      end /\
      (quiet E = true -> forall p o, w_files w !! h = Some (p, o) ->
         r = match next_line (n - 1) (remaining p o) with [] => None | s => Some s end)
  | SMalloc n => fun r =>
      match r with
      | Some a => a ∉ w_heap w
      | None => ample E = false \/ n = 0%Z
      end
  | SRdlock => fun c => w_lock w = Unlocked -> cache_visible w c
  | SWrlock => fun c => w_lock w = Unlocked -> cache_visible w c /\ owned c ## w_heap w
  | SErrLoad => fun r => err_page (w_err w) -> err_page r /\ (solo E = true -> r = w_err w)
  | SCtxNew => fun r => match r with Some c => c ∉ w_ctx w | None => opens E = false end
  | SCtxCertificate _ _ | SCtxPrivateKey _ _ => fun r => opens E = true -> (0 < r)%Z
  | SCtxCheckKey _ => fun r => opens E = true -> r = true
  | SBind _ _ | SListen _ _ => fun r => opens E = true -> (0 <= r)%Z
  | SSslNew ctx => fun r => match r with Some s => is_Some ctx /\ s ∉ w_ssl w | None => True end
  | SSocket => fun r => (r = (-1)%Z /\ opens E = false) \/ ((0 <= r < INT_MAX)%Z /\ r ∉ w_socks w)
  | SAccept _ => fun r => r = (-1)%Z \/ ((0 <= r < INT_MAX)%Z /\ r ∉ w_socks w)
  | SSslRead _ n => fun r => ((0 <= n)%Z -> (Z.of_nat (length r) <= n)%Z) /\ (r <> [] -> 0 < w_reads w)
  | SSslWrite _ _ n => fun r => (r = n \/ r <= 0)%Z /\ (peer_ok E = true -> (0 < n)%Z -> r = n)
  | SPeek _ n | SRecv _ n => fun r => ((0 <= n)%Z -> (Z.of_nat (length r) <= n)%Z) /\ (r <> [] -> 0 < w_reads w)
  | SPoolLock => fun q => w_pool w = None -> queue_visible w q
  | SCondWait q => fun q' => (exists q0, may_release q0 q w) -> queue_visible (lose_queue q q w) q' /\
      (head_ptr q' = None -> shutdown q' = false -> 0 < w_wakes w)
  | SGetcwd n => fun r => match r with Some s => no_nul s /\ length s < n | None => True end
  | SSend _ d => fun r => (-1 <= r <= Z.of_nat (length d))%Z /\ (peer_ok E = true -> r = Z.of_nat (length d))
  | SOpen _ => fun r => r = (-1)%Z \/ ((0 <= r)%Z /\ p_fds (w_proc w) !! r = None /\
      forall k, (0 <= k < r)%Z -> is_Some (p_fds (w_proc w) !! k))
  | _ => fun _ => True
  end.

(** Bytes a call may not read past the end of what it is given. *)
Definition sends (d : bytes) (n : Z) : bytes := take (Z.to_nat n) d.

(** Where the contract of a call is weaker than its documentation. [SSslWrite]:
    SSL_write(3) leaves a call with no bytes undefined, which an empty file
    leads to (http_router.c); here, as in OpenSSL, nothing is sent then.
    [SSslShutdown]: after a fatal error on the session, which the end of the
    request loop may come from, SSL_shutdown(3) forbids the call; here it does
    nothing but fail. [SSend], [SSslWrite]: a peer that is gone makes them
    fail; the signal [SIGPIPE] that comes with it, which [main] neither handles
    nor ignores, ends the process, and with it what is spoken of.
    [SMutexDestroy], [SCondDestroy]: POSIX asks that nobody uses the mutex or
    waits for the condition; a thread by itself can only be sure of that when
    there are no others. *)

(** A read that brings something takes it from the peer; one that brings
    nothing has seen the end, a timeout or an error. *)
Definition after_read (r : bytes) (w : os) : os :=
  set_w_in (w_in w ++ [r]) match r with [] => w | _ => set_w_reads (w_reads w - 1) w end.

Definition sys_observe (e : syscall) (w : os) : result e -> os -> Prop :=
  match e return result e -> os -> Prop with
  | SFopen p => fun r w' =>
      w' = match r with Some h => set_w_files (<[h := (p, 0%Z)]> (w_files w)) w | None => w end
  | SFseek h o => fun _ w' => exists p o0, w_files w !! h = Some (p, o0) /\
      w' = set_w_files (<[h := (p, match o with
                                   | SEEK_SET => 0%Z
                                   | SEEK_END => Z.of_nat (length (remaining p 0))
                                   end)]> (w_files w)) w
  | SFtell h => fun _ w' => h ∈ dom (w_files w) /\ w' = w
  | SFread h cap n => fun r w' => (0 <= n <= cap)%Z /\ exists p o, w_files w !! h = Some (p, o) /\
      w' = set_w_files (<[h := (p, (o + Z.of_nat (length r))%Z)]> (w_files w)) w
  | SFgets h n => fun r w' => exists p o, w_files w !! h = Some (p, o) /\
      w' = set_w_files (<[h := (p, (o + Z.of_nat (length (default [] r)))%Z)]> (w_files w)) w
  | SFclose h => fun _ w' => h ∈ dom (w_files w) /\ w' = set_w_files (delete h (w_files w)) w
  | SMalloc n => fun r w' => (0 <= n)%Z /\
      w' = match r with Some a => set_w_heap ({[a]} ∪ w_heap w) w | None => w end
  | SFree a => fun _ w' => a ∈ w_heap w /\ w' = set_w_heap (w_heap w ∖ {[a]}) w
  | SRdlock => fun c w' => w_lock w = Unlocked /\
      w' = set_w_lock (ReadLocked c) (set_w_seen (Some c) w)
  | SWrlock => fun c w' => w_lock w = Unlocked /\
      w' = set_w_lock (WriteLocked c) (set_w_seen (Some c) (gain_cache c w))
  | SRwUnlock c => fun _ w' =>
      match w_lock w with
      | ReadLocked c0 => c = c0 /\
          w' = set_w_lock Unlocked (set_w_crit (w_crit w ++ [(false, c0, c)]) w)
      | WriteLocked c0 =>
          cache_ok c /\ cache_follows c0 c /\ owned c ⊆ w_heap w /\
          w' = set_w_lock Unlocked (set_w_seen (Some c)
                 (set_w_crit (w_crit w ++ [(true, c0, c)]) (lose_cache c w)))
      | _ => False
      end
  | SRwInit c => fun _ w' => cache_ok c /\ owned c ⊆ w_heap w /\
      w' = set_w_lock Unlocked (set_w_seen (Some c) (lose_cache c w))
  | SRwDestroy c => fun _ w' => (w_lock w = Unlocked \/ lenient E = true) /\ w' = set_w_lock Destroyed w
  | SErrStore s => fun _ w' => err_page s /\ w' = set_w_err s w
  | SCtxNew => fun r w' =>
      w' = match r with Some c => set_w_ctx ({[c]} ∪ w_ctx w) w | None => w end
  | SCtxCertificate c p => fun r w' => c ∈ w_ctx w /\
      w' = if decide (0 < r)%Z then note [Certified c p] w else w
  | SCtxPrivateKey c p => fun r w' => c ∈ w_ctx w /\
      w' = if decide (0 < r)%Z then note [Keyed c p] w else w
  | SCtxCheckKey c => fun r w' => c ∈ w_ctx w /\ w' = if r then note [KeyChecked c] w else w
  | SCtxFree c => fun _ w' => c ∈ w_ctx w /\ w' = set_w_ctx (w_ctx w ∖ {[c]}) w
  | SSslNew ctx => fun r w' => match ctx with Some c => c ∈ w_ctx w | None => True end /\
      w' = match r with Some s => set_w_ssl ({[s]} ∪ w_ssl w) w | None => w end
  | SSslSetFd s k => fun _ w' => s ∈ w_ssl w /\ k ∈ w_socks w /\ w' = w
  | SSslAccept s => fun _ w' => s ∈ w_ssl w /\ w' = w
  | SSslRead s n => fun r w' => s ∈ w_ssl w /\ (0 <= n)%Z /\ w' = after_read r w
  | SSslWrite s d n => fun r w' => s ∈ w_ssl w /\ (n <= Z.of_nat (length d))%Z /\
      w' = if decide (0 < r)%Z then set_w_out (w_out w ++ sends d n) w else w
  | SSslShutdown s => fun _ w' => s ∈ w_ssl w /\ w' = w
  | SSslFree s => fun _ w' => s ∈ w_ssl w /\ w' = set_w_ssl (w_ssl w ∖ {[s]}) w
  | SSocket => fun r w' =>
      w' = if decide (r = (-1)%Z) then w else set_w_socks ({[r]} ∪ w_socks w) w
  | SAccept s => fun r w' => s ∈ w_socks w /\
      w' = if decide (r = (-1)%Z) then w else set_w_socks ({[r]} ∪ w_socks w) w
  | SReuseAddr s => fun _ w' => s ∈ w_socks w /\ w' = w
  | SBind s port => fun r w' => s ∈ w_socks w /\
      w' = if decide (0 <= r)%Z then note [BoundTo s port] w else w
  | SListen s _ => fun r w' => s ∈ w_socks w /\
      w' = if decide (0 <= r)%Z then note [Listens s] w else w
  | SSetTimeout s _ => fun _ w' => s ∈ w_socks w /\ w' = w
  | SPeek s n => fun r w' => s ∈ w_socks w /\ (0 <= n)%Z /\ w' = set_w_in (w_in w ++ [r]) w
  | SRecv s n => fun r w' => s ∈ w_socks w /\ (0 <= n)%Z /\ w' = after_read r w
  | SSend s d => fun r w' => s ∈ w_socks w /\ w' = set_w_sent (w_sent w ++ take (Z.to_nat r) d) w
  | SShutdownWr s => fun _ w' => s ∈ w_socks w /\ w' = w
  | SClose s => fun _ w' => s ∈ w_socks w /\ w' = set_w_socks (w_socks w ∖ {[s]}) w
  | SPoolLock => fun q w' => may_lock w /\ w' = gain_queue q w
  | SPoolUnlock q => fun _ w' => exists q0, may_release q0 q w /\ w' = lose_queue q0 q w
  | SCondWait q => fun q' w' => exists q0, may_release q0 q w /\ (rw_free w /\ q0 = q) /\
      w' = set_w_wakes (w_wakes w - match head_ptr q' with None => 1 | Some _ => 0 end)
             (gain_queue q' (lose_queue q0 q w))
  | SPoolInit q => fun _ w' => w_pool w = None /\ queue_inv q /\ nodes q = ∅ /\ w' = note [PoolMade q] w
  | SMutexDestroy => fun _ w' => w_pool w = None /\ (w_threads w = 0 \/ lenient E = true) /\ w' = w
  | SCondDestroy => fun _ w' => (w_threads w = 0 \/ lenient E = true) /\ w' = w
  | SThreadCreate => fun r w' => w' = if r then set_w_threads (S (w_threads w)) w else w
  | SFork => fun r w' => w' = if decide (0 <= r)%Z then on_proc (fun p =>
      mkProcess (S (p_forks p)) (p_session p) (p_umask p) (p_cwd p) (p_fds p)) w else w
  | SSetsid => fun r w' => w' = if decide (0 <= r)%Z then on_proc (fun p =>
      mkProcess (p_forks p) true (p_umask p) (p_cwd p) (p_fds p)) w else w
  | SUmask m => fun _ w' => w' = on_proc (fun p =>
      mkProcess (p_forks p) (p_session p) (Some m) (p_cwd p) (p_fds p)) w
  | SChdir d => fun r w' => w' = if decide (0 <= r)%Z then on_proc (fun p =>
      mkProcess (p_forks p) (p_session p) (p_umask p) d (p_fds p)) w else w
  | SCloseFd fd => fun _ w' => w' = on_fds (delete fd) w
  | SOpen f => fun r w' => w' = if decide (0 <= r)%Z then on_fds (insert r f) w else w
  | SDup2 a b => fun _ w' => exists f, p_fds (w_proc w) !! a = Some f /\
      w' = on_fds (insert b f) w
  | _ => fun _ w' => w' = w
  end.

Definition sys : protocol result :=
  Protocol syscall result os sys_answers sys_observe.
End protocol.

Coercion co_inv : cache_ok >-> cache_inv.

(** An empty queue may be found by anyone. *)
Lemma empty_queue_visible w q :
  queue_rep q [] -> queue_visible w q.
Proof.
  intros Hq. pose proof (qr_dom _ _ Hq) as Hd. cbn in Hd. split_and!.
  - exists []. split_and!; [done | constructor..].
  - unfold queue_blocks. rewrite Hd. set_solver.
  - rewrite (queue_rep_socks _ _ Hq). set_solver.
Qed.

(** A call and its result determine the next ghost state. *)
Lemma sys_observe_functional E e w r w1 w2 :
  sys_observe E e w r w1 -> sys_observe E e w r w2 -> w1 = w2.
Proof.
  destruct e; cbn [sys_observe]; try congruence; intros H1 H2;
    try destruct (w_lock w); repeat match goal with
    | H : exists _, _ |- _ => destruct H
    | H : _ /\ _ |- _ => destruct H
    | H : may_release _ _ _ |- _ => apply mr_held in H
    end; simplify_eq; done.
Qed.

(** ** Local calls *)

(** What a call hands out. *)
Definition new_blocks (e : syscall) : result e -> gset nat :=
  match e return result e -> gset nat with
  | SMalloc _ => fun r => match r with Some a => {[a]} | None => ∅ end
  | _ => fun _ => ∅
  end.

Definition new_socks (e : syscall) : result e -> gset Z :=
  match e return result e -> gset Z with
  | SSocket | SAccept _ => fun r => if decide (r = (-1)%Z) then ∅ else {[r]}
  | _ => fun _ => ∅
  end.

(** The calls on the shared locks. *)
Definition lock_call (e : syscall) : bool :=
  match e with
  | SRdlock | SWrlock | SRwUnlock _ | SRwInit _ | SRwDestroy _
  | SPoolLock | SPoolUnlock _ | SCondWait _ | SPoolInit _ | SMutexDestroy | SCondDestroy => true
  | _ => false
  end.

(** The other calls leave the locks alone, and the thread owns nothing more
    than before but what the call hands out. *)
Record local_change (w w' : os) (bs : gset nat) (ss : gset Z) : Prop := {
  lc_lock : w_lock w' = w_lock w;
  lc_seen : w_seen w' = w_seen w;
  lc_pool : w_pool w' = w_pool w;
  lc_blocks : w_heap w' ⊆ w_heap w ∪ bs;
  lc_socks : w_socks w' ⊆ w_socks w ∪ ss;
}.

Lemma local_change_refl w bs ss : local_change w w bs ss.
Proof. split; [done..|set_solver|set_solver]. Qed.

Lemma observe_local E e w r w' :
  lock_call e = false -> sys_observe E e w r w' -> local_change w w' (new_blocks e r) (new_socks e r).
Proof.
  destruct e; try discriminate; intros _; cbn [sys_observe new_blocks new_socks]; intros Hw;
    repeat match goal with
    | H : exists _, _ |- _ => destruct H
    | H : _ /\ _ |- _ => destruct H
    end; subst; unfold after_read; try apply local_change_refl; repeat case_match;
    try apply local_change_refl; split; cbn; set_solver.
Qed.
