(* ===== verification/Interleaving.v ===== *)
(** * Threads side by side

    The rules of [System.v] speak of one thread and let others act between two
    of its critical sections. Here the threads run side by side, in any order,
    over one cache, one queue and one error page buffer: a lock is taken only
    when it is free and yields what the last owner left, a thread that waits
    for the condition variable has let the mutex go, and blocks and sockets
    are new to every thread when they are handed out. [moves_sys_inv]
    shows that threads that keep their contracts one by one keep them together:
    no thread does anything undefined, nothing is owned twice, and the queue
    has made a run of a first-in-first-out queue ([history_run]);
    [works_ends] that rounds end in any order of steps; [history_took] that
    what went out of the queue was taken by one thread each. *)

From S2P Require Import Prelude CString Types Effects Invariants System.

(** ** States *)

(** A thread runs the body of its loop over and over, until the body says
    [inr]; with [inl] a round hands a number to the next, for the main thread
    the listening socket. The body, what the thread has still to do of this
    round, its ghost state, and the queue it gave back when it is inside of
    [pthread_cond_wait]. *)
Record thread := mkThread {
  body : Z -> io (Z + unit);
  code : io (Z + unit);
  local : os;
  asleep : option PoolQueue;
}.

(** What the threads share, and who holds the locks. *)
Record system := mkSystem {
  threads : list thread;
  sh_cache : LithCache;
  writer : option nat;
  readers : gset nat;
  sh_queue : PoolQueue;
  holder : option nat;
  sh_err : bytes;
}.

(** Who may own a block or a socket. *)
Inductive party := ThreadOf (i : nat) | CacheOf | QueueOf.

#[export] Instance party_eq_dec : EqDecision party.
Proof. solve_decision. Defined.

Definition own_blocks (t : thread) : gset nat :=
  match asleep t with Some q => w_heap (local t) ∖ queue_blocks q | None => w_heap (local t) end.

Definition own_socks (t : thread) : gset Z :=
  match asleep t with Some q => w_socks (local t) ∖ queue_socks q | None => w_socks (local t) end.

Definition blocks_of (s : system) (p : party) : gset nat :=
  match p with
  | ThreadOf i => default ∅ (own_blocks <$> threads s !! i)
  | CacheOf => match writer s with None => owned (sh_cache s) | Some _ => ∅ end
  | QueueOf => match holder s with None => queue_blocks (sh_queue s) | Some _ => ∅ end
  end.

Definition socks_of (s : system) (p : party) : gset Z :=
  match p with
  | ThreadOf i => default ∅ (own_socks <$> threads s !! i)
  | CacheOf => ∅
  | QueueOf => match holder s with None => queue_socks (sh_queue s) | Some _ => ∅ end
  end.

(** Nothing is owned twice. *)
Definition apart {A} `{Countable A} (f : party -> gset A) : Prop :=
  forall p p', p <> p' -> f p ## f p'.

(** ** Steps *)

Section steps.
(** Between two rounds new peers come, with at most [bound] things to say. *)
Context (E : env) (bound : nat).

(** Up to its next unlock the program only wakes up those who wait, and it gives
    the queue back with the flag of the shutdown raised. *)
Fixpoint raising {A} (p : io A) : Prop :=
  match p with
  | Vis e k =>
      match e with
      | SPoolUnlock q => shutdown q = true
      | SCondBroadcast => forall r, raising (k r)
      | _ => False
      end
  | _ => False
  end.

(** The flag is raised, or is being raised: whoever reads it without the mutex
    finds it raised then at the earliest. *)
Definition raised (s : system) : Prop :=
  shutdown (sh_queue s) = true \/
  exists i t, holder s = Some i /\ threads s !! i = Some t /\ raising (code t).

(** The results the call of thread [i] can have now. The calls that set the
    locks up and take them down are no part of the serving phase. *)
Definition permits (s : system) (t : thread) (e : syscall) : result e -> Prop :=
  match e return result e -> Prop with
  | SRdlock => fun c => writer s = None /\ c = sh_cache s
  | SWrlock => fun c => writer s = None /\ readers s = ∅ /\ c = sh_cache s
  | SPoolLock => fun q => holder s = None /\ q = sh_queue s
  | SCondWait q => fun q' => asleep t = Some q /\ holder s = None /\ q' = sh_queue s /\
      (head_ptr q' = None -> shutdown q' = false -> 0 < w_wakes (local t))
  | SErrLoad => fun r => r = sh_err s
  | SReadShutdown => fun b => b = true -> raised s
  | SRwInit _ | SRwDestroy _ | SPoolInit _ | SMutexDestroy | SCondDestroy => fun _ => False
  | e => sys_answers E e (local t)
  end.

Definition offers (s : system) (t : thread) (e : syscall) (r : result e) : Prop :=
  permits s t e r /\
  (forall p, new_blocks e r ## blocks_of s p) /\ (forall p, new_socks e r ## socks_of s p).

Definition with_thread (i : nat) (t : thread) (s : system) : system :=
  mkSystem (<[i := t]> (threads s)) (sh_cache s) (writer s) (readers s) (sh_queue s) (holder s) (sh_err s).

(** What the call changes of the shared state. *)
Definition shared_after (i : nat) (t : thread) (e : syscall) (s : system) : system :=
  match e with
  | SRdlock =>
      mkSystem (threads s) (sh_cache s) (writer s) ({[i]} ∪ readers s) (sh_queue s) (holder s) (sh_err s)
  | SWrlock =>
      mkSystem (threads s) (sh_cache s) (Some i) (readers s) (sh_queue s) (holder s) (sh_err s)
  | SRwUnlock c =>
      match w_lock (local t) with
      | WriteLocked _ => mkSystem (threads s) c None (readers s) (sh_queue s) (holder s) (sh_err s)
      | _ => mkSystem (threads s) (sh_cache s) (writer s) (readers s ∖ {[i]}) (sh_queue s) (holder s) (sh_err s)
      end
  | SPoolLock | SCondWait _ =>
      mkSystem (threads s) (sh_cache s) (writer s) (readers s) (sh_queue s) (Some i) (sh_err s)
  | SPoolUnlock q => mkSystem (threads s) (sh_cache s) (writer s) (readers s) q None (sh_err s)
  | SErrStore b => mkSystem (threads s) (sh_cache s) (writer s) (readers s) (sh_queue s) (holder s) b
  | _ => s
  end.

(** Thread [i] moves. *)
Inductive step (i : nat) (s : system) : system -> Prop :=
  | step_call t e k r w' :
      threads s !! i = Some t -> code t = Vis e k ->
      offers s t e r -> sys_observe E e (local t) r w' ->
      step i s (with_thread i (mkThread (body t) (k r) w' None) (shared_after i t e s))
  | step_sleep t q k q0 :
      threads s !! i = Some t -> code t = Vis (SCondWait q) k -> asleep t = None ->
      may_release q0 q (local t) -> rw_free (local t) ->
      step i s (with_thread i (mkThread (body t) (code t) (local t) (Some q))
        (mkSystem (threads s) (sh_cache s) (writer s) (readers s) q None (sh_err s)))
  | step_again t v k j :
      threads s !! i = Some t -> code t = Ret (inl v) -> k < bound -> j + 1 < bound ->
      step i s (with_thread i
        (mkThread (body t) (body t v) (set_w_wakes j (set_w_reads k (local t))) None) s).

Definition moves (s s' : system) : Prop := exists i, step i s s'.

(** What a move is to the queue: a thread that gives the mutex back has made
    one operation, and nothing else changes the queue. *)
Definition section_of (s s' : system) (ops : list queue_op) : Prop :=
  match holder s, holder s' with
  | Some _, None => exists op, queue_step (sh_queue s) op (sh_queue s') /\ ops = [op]
  | _, _ => sh_queue s' = sh_queue s /\ ops = []
  end.

(** The moves from one state to another, with the queue's operations. *)
Inductive history (s : system) : list queue_op -> system -> Prop :=
  | h_start : history s [] s
  | h_move ops s1 ops' s2 :
      history s ops s1 -> moves s1 s2 -> section_of s1 s2 ops' -> history s (ops ++ ops') s2.

(** A thread at work: it is inside of a round. *)
Definition works (i : nat) (s s' : system) : Prop :=
  step i s s' /\ exists t e k, threads s !! i = Some t /\ code t = Vis e k.

(** A thread goes wrong when it does something undefined, exceeds the bound
    of a loop, or makes a call outside of its contract. *)
Definition goes_wrong (s : system) (i : nat) : Prop :=
  exists t, threads s !! i = Some t /\
  (code t = Undef \/ code t = Diverge \/
   (exists e k r, code t = Vis e k /\ offers s t e r /\ forall w', ~ sys_observe E e (local t) r w') \/
   (exists q k, code t = Vis (SCondWait q) k /\ asleep t = None /\
      forall q0, ~ (may_release q0 q (local t) /\ rw_free (local t)))).
End steps.

Lemma threads_shared_after i t e s : threads (shared_after i t e s) = threads s.
Proof. destruct e; cbn; try done. by destruct (w_lock (local t)). Qed.

(** ** Rounds end

    Every call brings a thread nearer to the end of its round, and a thread
    falls asleep once for each call: whatever the order in which the threads
    take their turns, the rounds that have begun end. *)

Definition nearer (t' t : thread) : Prop :=
  match code t with Vis _ k => exists r, code t' = k r | _ => False end \/
  (code t' = code t /\ asleep t = None /\ is_Some (asleep t')).

(** A thread is at the end of its chain when all that come after its call are. *)
Lemma nearer_acc t :
  (forall t', match code t with Vis _ k => exists r, code t' = k r | _ => False end -> Acc nearer t') ->
  Acc nearer t.
Proof.
  intros Hnext. constructor. intros t' [Hn|(Hc & _ & [q Hq])]; [by apply Hnext|].
  constructor. intros t2 [Hn|(_ & Hn & _)]; [|congruence]. apply Hnext. by rewrite Hc in Hn.
Qed.

Lemma nearer_wf : well_founded nearer.
Proof.
  intros t. remember (code t) as p eqn:Hc. revert t Hc.
  induction p as [a|e k IH| |]; intros t Hc; apply nearer_acc; rewrite <- Hc; [by intros ? []| |by intros ? []..].
  intros t' [r Hr]. by apply (IH r).
Qed.

Definition one_nearer (l' l : list thread) : Prop :=
  exists i t t', l !! i = Some t /\ l' = <[i := t']> l /\ nearer t' t.

Lemma one_nearer_wf : well_founded one_nearer.
Proof.
  intros l. induction l as [|t l IH]; [by constructor; intros l' (i & t & t' & Hi & _)|].
  revert l IH. induction (nearer_wf t) as [t _ IHt]. intros l Hl. induction Hl as [l Hacc IHl].
  constructor. intros l' (i & t1 & t2 & Hi & -> & Hn). destruct i as [|i]; cbn in Hi |- *.
  - injection Hi as <-. by apply IHt; [|constructor].
  - apply IHl. by exists i, t1, t2.
Qed.

Lemma works_nearer E bound i s s' : works E bound i s s' ->
  exists t t', threads s !! i = Some t /\ threads s' = <[i := t']> (threads s) /\ nearer t' t.
Proof.
  intros [Hst (t0 & e0 & k0 & H0 & Hv)].
  destruct Hst as [t e k r w' Hi Hc _ _ | t q k q0 Hi Hc Ha _ _ | t v k j Hi Hc _ _]; [| | congruence];
    eexists t, _; (split; [done|]); cbn [threads with_thread]; rewrite ?threads_shared_after;
    (split; [reflexivity|]); unfold nearer; cbn [code asleep].
  - left. rewrite Hc. by exists r.
  - right. split_and!; [done | done | by eexists].
Qed.

(** Threads that begin no new round come to rest, in any order of steps. *)
Lemma works_ends E bound : well_founded (fun s' s => exists i, works E bound i s s').
Proof.
  apply (wf_projected one_nearer threads); [|apply one_nearer_wf].
  intros s' s [i Hw]. exists i. by eapply works_nearer.
Qed.

(** ** Moving resources *)

Section moving.
Context {A : Type} `{Countable A}.
Implicit Types f g : party -> gset A.

(** A thread and a shared structure exchange what they own, and the thread
    may get something new. *)
Lemma apart_move f g i K (N : gset A) :
  apart f -> K <> ThreadOf i ->
  (forall p, p <> ThreadOf i -> p <> K -> g p = f p) ->
  g (ThreadOf i) ∪ g K ⊆ f (ThreadOf i) ∪ f K ∪ N -> g (ThreadOf i) ## g K ->
  (forall p, N ## f p) -> apart g.
Proof.
  intros Hf HK Hg Hsub Hd HN.
  assert (forall p p', p = ThreadOf i \/ p = K -> p' <> ThreadOf i -> p' <> K -> g p ## g p') as Hout.
  { intros p p' Hp Hi HK'. rewrite (Hg p') by done.
    pose proof (Hf (ThreadOf i) p' ltac:(done)). pose proof (Hf K p' ltac:(done)).
    pose proof (HN p'). destruct Hp as [-> | ->]; set_solver. }
  intros p p' Hne.
  destruct (decide (p = ThreadOf i \/ p = K)) as [Hp|Hp], (decide (p' = ThreadOf i \/ p' = K)) as [Hp'|Hp'].
  - destruct Hp as [-> | ->], Hp' as [-> | ->]; done || by symmetry.
  - apply Hout; naive_solver.
  - symmetry. apply Hout; naive_solver.
  - rewrite (Hg p), (Hg p') by naive_solver. by apply Hf.
Qed.

(** Where one party owns everything, nothing is owned twice. *)
Lemma apart_owner f p0 : (forall p, p <> p0 -> f p = ∅) -> apart f.
Proof.
  intros Hf p p' Hne. destruct (decide (p = p0)) as [->|Hp].
  - rewrite (Hf p') by congruence. apply disjoint_empty_r.
  - rewrite (Hf p Hp). apply disjoint_empty_l.
Qed.
End moving.

(** * Safety *)

(** The call a program makes next. *)
Definition next_call {A} (p : io A) : option syscall :=
  match p with Vis e _ => Some e | _ => None end.

(** Nothing is promised about the other threads, nor that a socket can be had. *)
Class Shared (E : env) : Prop := {
  not_alone : alone E = false;
  not_solo : solo E = false;
  not_opens : opens E = false;
}.

(** What the contracts [Ready] and [Post] of the threads owe the system they
    run in: new peers do not disturb a thread that is ready, and between two
    rounds, and at the end, a thread holds no lock. *)
Class Crew (bound : nat) (Ready : nat -> Z -> os -> Prop) (Post : nat -> os -> Prop) : Prop := {
  crew_refill i v w k j : Ready i v w -> k < bound -> j + 1 < bound ->
    Ready i v (set_w_wakes j (set_w_reads k w));
  crew_ready i v w : Ready i v w -> may_lock w;
  crew_post i w : Post i w -> may_lock w;
}.

Section safety.
Context (E : env) (Ready : nat -> Z -> os -> Prop) (Post : nat -> os -> Prop).

(** A round ends ready for the next, or with the promise of the thread. *)
Definition round_end (i : nat) (x : Z + unit) (w : os) : Prop :=
  match x with inl v => Ready i v w | inr _ => Post i w end.

(** What is true of each thread: it keeps its contract from here on, the locks
    it believes to hold are its own, and the others know. *)
Record thread_inv (s : system) (i : nat) (t : thread) : Prop := {
  ti_wp : wp (sys E) False (code t) (local t) (round_end i);
  ti_body : forall v w, Ready i v w -> wp (sys E) False (body t v) w (round_end i);
  ti_sleep : forall q, asleep t = Some q -> next_call (code t) = Some (SCondWait q) /\
    (exists q0, may_release q0 q (local t)) /\ rw_free (local t);
  ti_write : forall c, w_lock (local t) = WriteLocked c -> writer s = Some i /\ c = sh_cache s;
  ti_write_back : writer s = Some i -> exists c, w_lock (local t) = WriteLocked c;
  ti_read : forall c, w_lock (local t) = ReadLocked c -> i ∈ readers s /\ c = sh_cache s;
  ti_read_back : i ∈ readers s -> exists c, w_lock (local t) = ReadLocked c;
  ti_seen : forall c, w_seen (local t) = Some c -> cache_follows E c (sh_cache s);
  ti_hold : forall q, w_pool (local t) = Some q -> asleep t = None -> holder s = Some i /\ q = sh_queue s;
  ti_hold_back : holder s = Some i -> asleep t = None /\ exists q, w_pool (local t) = Some q;
}.

Record sys_inv (s : system) : Prop := {
  si_thread : forall i t, threads s !! i = Some t -> thread_inv s i t;
  si_holders : forall i, writer s = Some i \/ i ∈ readers s \/ holder s = Some i ->
    is_Some (threads s !! i);
  si_blocks : apart (blocks_of s);
  si_socks : apart (socks_of s);
  si_rw : writer s = None \/ readers s = ∅;
  si_cache : cache_ok E (sh_cache s);
  si_queue : queue_inv (sh_queue s);
  si_err : err_page (sh_err s);
}.

Lemma awake s i t e k :
  thread_inv s i t -> code t = Vis e k -> (forall q, e <> SCondWait q) -> asleep t = None.
Proof.
  intros Ht Hc He. destruct (asleep t) as [q|] eqn:Hq; [|done].
  destruct (ti_sleep _ _ _ Ht q Hq) as [Hn _]. rewrite Hc in Hn. injection Hn as ->. by destruct (He q).
Qed.

Lemma own_apart s i t :
  sys_inv s -> threads s !! i = Some t ->
  (forall p, p <> ThreadOf i -> blocks_of s p ## own_blocks t /\ socks_of s p ## own_socks t).
Proof.
  intros Hs Hi p Hp.
  pose proof (si_blocks _ Hs p (ThreadOf i) Hp) as Hb. pose proof (si_socks _ Hs p (ThreadOf i) Hp) as Hk.
  cbn [blocks_of socks_of] in Hb, Hk. rewrite Hi in Hb, Hk. by split.
Qed.

(** A thread that goes to sleep may, and leaves the queue as it found it. *)
Lemma wait_contract s i t q k :
  sys_inv s -> threads s !! i = Some t -> code t = Vis (SCondWait q) k ->
  may_release q q (local t) /\ rw_free (local t).
Proof.
  intros Hs Hi Hc. pose proof (ti_wp _ _ _ (si_thread _ Hs i t Hi)) as Hwp. rewrite Hc in Hwp.
  destruct (Hwp (mkPoolQueue None None 0 true ∅)) as (w' & (q0 & Hm & [Hf ->] & _) & _); [|done].
  intros _. split; [|done]. apply empty_queue_visible, empty_queue_rep.
Qed.

Context `{!Shared E}.

(** What the shared state offers is what a thread alone was told to expect. *)
Lemma offers_answers s i t e k r :
  sys_inv s -> threads s !! i = Some t -> code t = Vis e k ->
  offers E s t e r -> sys_answers E e (local t) r.
Proof.
  pose proof not_alone as Hal. pose proof not_solo as Hso.
  intros Hs Hi Hc [Hp _]. pose proof (si_thread _ Hs i t Hi) as Ht.
  pose proof (own_apart s i t Hs Hi) as Hown.
  assert (cache_visible E (local t) (sh_cache s)) as Hcv.
  { split; [apply Hs|]. destruct (w_seen (local t)) as [c0|] eqn:Hc0; [|done].
    split; [by eapply ti_seen | congruence]. }
  destruct e; cbn [permits] in Hp; try exact Hp; try done.
  - destruct Hp as [_ ->]. by intros _.
  - destruct Hp as (Hw & _ & ->). intros _. split; [done|].
    pose proof (proj1 (Hown CacheOf ltac:(done))) as Hd. cbn [blocks_of] in Hd. rewrite Hw in Hd.
    unfold own_blocks in Hd. by rewrite (awake s i t _ k Ht Hc) in Hd.
  - cbn in Hp. subst r. intros _. split; [apply Hs | congruence].
  - destruct Hp as [Hh ->]. intros _. destruct (Hown QueueOf ltac:(done)) as [Hb Hk].
    cbn [blocks_of socks_of] in Hb, Hk. rewrite Hh in Hb, Hk. unfold own_blocks, own_socks in Hb, Hk.
    rewrite (awake s i t _ k Ht Hc) in Hb, Hk by done. split_and!; [apply Hs | done | done].
  - destruct Hp as (Hsl & Hh & -> & Hwake). intros _. split; [|done].
    destruct (Hown QueueOf ltac:(done)) as [Hb Hk].
    cbn [blocks_of socks_of] in Hb, Hk. rewrite Hh in Hb, Hk. unfold own_blocks, own_socks in Hb, Hk.
    rewrite Hsl in Hb, Hk. split_and!; [apply Hs | done | done].
Qed.

(** No thread of a well-formed system goes wrong. *)
Lemma sys_inv_safe s i :
  sys_inv s -> ~ goes_wrong E s i.
Proof.
  intros Hs (t & Hi & Hw). pose proof (si_thread _ Hs i t Hi) as Ht.
  pose proof (ti_wp _ _ _ Ht) as Hwp.
  destruct Hw as [Hu | [Hu | [(e & k & r & Hc & Ho & Hno) | (q & k & Hc & Ha & Hno)]]].
  - by rewrite Hu in Hwp.
  - by rewrite Hu in Hwp.
  - rewrite Hc in Hwp. destruct (Hwp r) as (w' & Hw & _); [by eapply offers_answers|]. by eapply Hno.
  - by destruct (Hno q (wait_contract s i t q k Hs Hi Hc)).
Qed.

(** ** Every step keeps the system well formed *)

(** What thread [j] relies on when another thread changes the shared state. *)
Record relies (j : nat) (s s1 : system) : Prop := {
  rl_writer : writer s = Some j -> writer s1 = Some j /\ sh_cache s1 = sh_cache s;
  rl_writer_back : writer s1 = Some j -> writer s = Some j;
  rl_reader : j ∈ readers s -> j ∈ readers s1 /\ sh_cache s1 = sh_cache s;
  rl_reader_back : j ∈ readers s1 -> j ∈ readers s;
  rl_cache : cache_follows E (sh_cache s) (sh_cache s1);
  rl_holder : holder s = Some j -> holder s1 = Some j /\ sh_queue s1 = sh_queue s;
  rl_holder_back : holder s1 = Some j -> holder s = Some j;
}.

Lemma relies_thread j s s1 t : relies j s s1 -> thread_inv s j t -> thread_inv s1 j t.
Proof.
  intros [Hw Hwb Hr Hrb Hc Hh Hhb] [Twp Tbo Tsl Twr Twb Trd Trb Tse Tho Thb].
  split; [done|done|done| |by eauto| |by eauto| | |by eauto].
  - intros c Hl. destruct (Twr c Hl) as [H1 ->]. destruct (Hw H1) as [? ->]. done.
  - intros c Hl. destruct (Trd c Hl) as [H1 ->]. destruct (Hr H1) as [? ->]. done.
  - intros c Hl. etransitivity; [by apply Tse | done].
  - intros q Hq Ha. destruct (Tho q Hq Ha) as [H1 ->]. destruct (Hh H1) as [? ->]. done.
Qed.

Lemma relies_refl j s s1 :
  writer s1 = writer s -> readers s1 = readers s -> sh_cache s1 = sh_cache s ->
  holder s1 = holder s -> sh_queue s1 = sh_queue s -> relies j s s1.
Proof. intros Hw Hr Hc Hh Hq. by split; rewrite ?Hw, ?Hr, ?Hc, ?Hh, ?Hq. Qed.

(** One thread moves, and exchanges resources with [K]. *)
Lemma sys_inv_update s s1 i t t' K bs ss :
  sys_inv s -> threads s !! i = Some t -> threads s1 = threads s ->
  K <> ThreadOf i ->
  (forall p, p <> ThreadOf i -> p <> K -> blocks_of s1 p = blocks_of s p /\ socks_of s1 p = socks_of s p) ->
  thread_inv s1 i t' -> (forall j, j <> i -> relies j s s1) ->
  own_blocks t' ∪ blocks_of s1 K ⊆ own_blocks t ∪ blocks_of s K ∪ bs -> own_blocks t' ## blocks_of s1 K ->
  own_socks t' ∪ socks_of s1 K ⊆ own_socks t ∪ socks_of s K ∪ ss -> own_socks t' ## socks_of s1 K ->
  (forall p, bs ## blocks_of s p) -> (forall p, ss ## socks_of s p) ->
  writer s1 = None \/ readers s1 = ∅ -> cache_ok E (sh_cache s1) ->
  queue_inv (sh_queue s1) -> err_page (sh_err s1) ->
  sys_inv (with_thread i t' s1).
Proof.
  intros Hs Hi Hth HK Hsame Ht' Hrel Hb Hbd Hk Hkd Hbs Hss Hrw Hci Hqi Herr.
  assert (i < length (threads s1)) as Hlen by (rewrite Hth; by eapply lookup_lt_Some).
  assert (forall p, p <> ThreadOf i -> blocks_of (with_thread i t' s1) p = blocks_of s1 p /\
    socks_of (with_thread i t' s1) p = socks_of s1 p) as Hwt.
  { intros [j| |] Hp; cbn; [|done..]. rewrite list_lookup_insert_ne; [done|]. by intros ->. }
  assert (blocks_of (with_thread i t' s1) (ThreadOf i) = own_blocks t' /\
    socks_of (with_thread i t' s1) (ThreadOf i) = own_socks t') as [Eb Ek].
  { cbn. by rewrite list_lookup_insert_eq. }
  assert (forall j, is_Some (threads s !! j) -> is_Some (threads (with_thread i t' s1) !! j)) as Hex.
  { intros j [tj Hj]. cbn. destruct (decide (j = i)) as [->|Hne].
    - rewrite list_lookup_insert_eq by done. by eexists.
    - rewrite list_lookup_insert_ne, Hth by done. by eexists. }
  split; [| | | |done..].
  - intros j tj. cbn. intros [(<- & -> & _)|[Hne Hj]]%list_lookup_insert_Some; [by destruct Ht'; split|].
    rewrite Hth in Hj. pose proof (relies_thread j s s1 tj (Hrel j ltac:(done)) (si_thread _ Hs j tj Hj)) as [].
    by split.
  - intros j Hj. apply Hex. destruct (decide (j = i)) as [->|Hne]; [by eexists|].
    apply (si_holders _ Hs). destruct (Hrel j Hne) as [_ Hwb _ Hrb _ _ Hhb]. cbn in Hj. naive_solver.
  - apply (apart_move (blocks_of s) _ i K bs); [apply Hs | done | | | | done].
    + intros p Hp HpK. by rewrite (proj1 (Hwt p Hp)), (proj1 (Hsame p Hp HpK)).
    + rewrite Eb, (proj1 (Hwt K HK)). cbn [blocks_of]. by rewrite Hi.
    + by rewrite Eb, (proj1 (Hwt K HK)).
  - apply (apart_move (socks_of s) _ i K ss); [apply Hs | done | | | | done].
    + intros p Hp HpK. by rewrite (proj2 (Hwt p Hp)), (proj2 (Hsame p Hp HpK)).
    + rewrite Ek, (proj2 (Hwt K HK)). cbn [socks_of]. by rewrite Hi.
    + by rewrite Ek, (proj2 (Hwt K HK)).
Qed.

(** The fields of a changed ghost state. *)
Ltac os_fields :=
  cbn [set_w_lock set_w_seen set_w_crit set_w_heap set_w_socks set_w_pool set_w_pcrit set_w_wakes
       gain_cache lose_cache gain_queue lose_queue w_lock w_seen w_heap w_socks w_pool w_wakes] in *.

(** *** One lemma per kind of call

    Thread [i], whose state was well formed, has made its call; [w'] is its
    ghost state after it. *)

Section calls.
Context (s : system) (i : nat) (t : thread) (c : io (Z + unit)) (w' : os).
Context (Hs : sys_inv s) (Hi : threads s !! i = Some t) (Hwp : wp (sys E) False c w' (round_end i)).

Abbreviation after s1 := (with_thread i (mkThread (body t) c w' None) s1).

Lemma call_local e r :
  lock_call e = false -> asleep t = None -> offers E s t e r -> sys_observe E e (local t) r w' ->
  sys_inv (after (shared_after i t e s)).
Proof.
  intros He Ha (_ & Hnb & Hns) Hw. pose proof (si_thread _ Hs i t Hi) as Ht.
  destruct (observe_local _ _ _ _ _ He Hw) as [El Es Ep Eb Ek].
  assert (err_page (sh_err (shared_after i t e s))) as Herr.
  { destruct e; try apply Hs; try done. by destruct Hw. }
  assert (exists b, shared_after i t e s = mkSystem (threads s) (sh_cache s) (writer s) (readers s)
    (sh_queue s) (holder s) b) as [b Hb].
  { destruct e; try discriminate He; cbn; try (exists (sh_err s); by destruct s). by eexists. }
  rewrite Hb in Herr |- *.
  eapply (sys_inv_update s _ i t _ CacheOf (new_blocks e r) (new_socks e r));
    [done | done | done | done | by intros [] | | | | | | | done | done | apply Hs | apply Hs | apply Hs | done].
  - split; cbn [code local asleep writer readers sh_cache holder sh_queue]; rewrite ?El, ?Es, ?Ep;
      [done | apply Ht | done | apply Ht | apply Ht | apply Ht | apply Ht | apply Ht | |].
    + intros q Hq _. by apply Ht.
    + intros Hh. split; [done | by apply Ht].
  - intros j Hj. by apply relies_refl.
  - unfold own_blocks. rewrite Ha. cbn. cbn in Eb. set_solver.
  - cbn. pose proof (proj1 (own_apart s i t Hs Hi CacheOf ltac:(done))) as Hd.
    pose proof (Hnb CacheOf) as Hn. unfold own_blocks in *. rewrite Ha in Hd. cbn in *. set_solver.
  - unfold own_socks. rewrite Ha. cbn. set_solver.
  - cbn. set_solver.
Qed.

Lemma call_rdlock :
  asleep t = None -> writer s = None -> sys_observe E SRdlock (local t) (sh_cache s) w' ->
  sys_inv (after (shared_after i t SRdlock s)).
Proof.
  intros Ha Hfree [Hl ->]. pose proof (si_thread _ Hs i t Hi) as Ht.
  pose proof (own_apart s i t Hs Hi CacheOf ltac:(done)) as [Hb Hk].
  eapply (sys_inv_update s _ i t _ CacheOf ∅ ∅);
    [done | done | done | done | by intros [] | | | | | | | set_solver | set_solver | by left | apply Hs | apply Hs | apply Hs].
  - split; cbn [code local asleep writer readers sh_cache holder sh_queue shared_after]; os_fields;
      [done | apply Ht | done | done | by rewrite Hfree | intros ? [= <-]; set_solver | by eexists
      | intros ? [= <-]; reflexivity | |].
    + intros q Hq _. by apply Ht.
    + intros Hh. split; [done | by apply Ht].
  - intros j Hj. split; cbn; [by rewrite Hfree | done | set_solver | set_solver | done | done | done].
  - unfold own_blocks. rewrite Ha. cbn. set_solver.
  - unfold own_blocks in *. rewrite Ha in Hb. cbn in *. done.
  - unfold own_socks. rewrite Ha. cbn. set_solver.
  - cbn. set_solver.
Qed.

Lemma call_wrlock :
  asleep t = None -> writer s = None -> readers s = ∅ ->
  sys_observe E SWrlock (local t) (sh_cache s) w' ->
  sys_inv (after (shared_after i t SWrlock s)).
Proof.
  intros Ha Hfree Hno [Hl ->]. pose proof (si_thread _ Hs i t Hi) as Ht.
  eapply (sys_inv_update s _ i t _ CacheOf ∅ ∅);
    [done | done | done | done | by intros [] | | | | | | | set_solver | set_solver | by right | apply Hs | apply Hs | apply Hs].
  - split; cbn [code local asleep writer readers sh_cache holder sh_queue shared_after]; os_fields;
      [done | apply Ht | done | by intros ? [= <-] | by eexists | done | by rewrite Hno
      | intros ? [= <-]; reflexivity | |].
    + intros q Hq _. by apply Ht.
    + intros Hh. split; [done | by apply Ht].
  - intros j Hj. split; cbn; [by rewrite Hfree | congruence | by rewrite Hno | done | done | done | done].
  - unfold own_blocks. rewrite Ha. cbn. rewrite Hfree. set_solver.
  - cbn. set_solver.
  - unfold own_socks. rewrite Ha. cbn. set_solver.
  - cbn. set_solver.
Qed.

Lemma call_rwunlock c1 :
  asleep t = None -> sys_observe E (SRwUnlock c1) (local t) tt w' ->
  sys_inv (after (shared_after i t (SRwUnlock c1) s)).
Proof.
  intros Ha Hw. pose proof (si_thread _ Hs i t Hi) as Ht. cbn [sys_observe shared_after] in *.
  destruct (w_lock (local t)) as [|c0|c0|] eqn:Hl; [done| | |done].
  - destruct Hw as [-> ->]. destruct (ti_read _ _ _ Ht c0 Hl) as [Hr ->].
    pose proof (own_apart s i t Hs Hi CacheOf ltac:(done)) as [Hb _].
    eapply (sys_inv_update s _ i t _ CacheOf ∅ ∅);
      [done | done | done | done | by intros [] | | | | | | | set_solver | set_solver | | apply Hs | apply Hs | apply Hs].
    + split; cbn [code local asleep writer readers sh_cache holder sh_queue]; os_fields;
        [done | apply Ht | done | done | | done | set_solver | apply Ht | intros q Hq _; by apply Ht |].
      * intros Hwr. destruct (ti_write_back _ _ _ Ht Hwr). congruence.
      * intros Hh. split; [done | by apply Ht].
    + intros j Hj. split; cbn; [done | done | set_solver | set_solver | done | done | done].
    + unfold own_blocks. rewrite Ha. cbn. set_solver.
    + unfold own_blocks in *. rewrite Ha in Hb. cbn in *. done.
    + unfold own_socks. rewrite Ha. cbn. set_solver.
    + cbn. set_solver.
    + cbn. destruct (si_rw _ Hs) as [?|He]; [by left | right; set_solver].
  - destruct Hw as (Hinv & Hev & Hsub & ->). destruct (ti_write _ _ _ Ht c0 Hl) as [Hwr ->].
    eapply (sys_inv_update s _ i t _ CacheOf ∅ ∅);
      [done | done | done | done | by intros [] | | | | | | | set_solver | set_solver | by left | done | apply Hs | apply Hs].
    + split; cbn [code local asleep writer readers sh_cache holder sh_queue]; os_fields;
        [done | apply Ht | done | done | done | done | | intros ? [= <-]; reflexivity | intros q Hq _; by apply Ht |].
      * intros Hr. destruct (ti_read_back _ _ _ Ht Hr). congruence.
      * intros Hh. split; [done | by apply Ht].
    + assert (readers s = ∅) as Hno by (destruct (si_rw _ Hs); congruence).
      intros j Hj. split; cbn; [by rewrite Hwr; intros [= ->] | done | set_solver | done | done | done | done].
    + unfold own_blocks. rewrite Ha. cbn. set_solver.
    + cbn. set_solver.
    + unfold own_socks. rewrite Ha. cbn. set_solver.
    + cbn. set_solver.
Qed.

(** Taking the mutex, by [pthread_mutex_lock] or at a wake-up: [w0] is the
    ghost state in which the thread owns none of the queue. *)
Lemma take_mutex s1 w0 :
  s1 = mkSystem (threads s) (sh_cache s) (writer s) (readers s) (sh_queue s) (Some i) (sh_err s) ->
  holder s = None -> w_lock w' = w_lock (local t) -> w_seen w' = w_seen (local t) ->
  w_heap w0 = own_blocks t -> w_socks w0 = own_socks t ->
  w_pool w' = Some (sh_queue s) -> w_heap w' = w_heap w0 ∪ queue_blocks (sh_queue s) ->
  w_socks w' = w_socks w0 ∪ queue_socks (sh_queue s) ->
  sys_inv (after s1).
Proof.
  intros -> Hfree El Es Eb0 Ek0 Ep Eb Ek. pose proof (si_thread _ Hs i t Hi) as Ht.
  eapply (sys_inv_update s _ i t _ QueueOf ∅ ∅);
    [done | done | done | done | by intros [] | | | | | | | set_solver | set_solver | apply Hs | apply Hs | apply Hs | apply Hs].
  - split; cbn [code local asleep writer readers sh_cache holder sh_queue]; rewrite ?El, ?Es, ?Ep;
      [done | apply Ht | done | apply Ht | apply Ht | apply Ht | apply Ht | apply Ht | by intros ? [= <-]
      | intros _; split; [done | by eexists]].
  - intros j Hj. split; cbn; [done | done | done | done | done | by rewrite Hfree | congruence].
  - unfold own_blocks at 1. cbn. rewrite Hfree, Eb, Eb0. set_solver.
  - cbn. set_solver.
  - unfold own_socks at 1. cbn. rewrite Hfree, Ek, Ek0. set_solver.
  - cbn. set_solver.
Qed.

Lemma call_poollock :
  asleep t = None -> holder s = None -> sys_observe E SPoolLock (local t) (sh_queue s) w' ->
  sys_inv (after (shared_after i t SPoolLock s)).
Proof.
  intros Ha Hfree [Hl Hw]. apply (take_mutex _ (local t)); rewrite ?Hw; try done.
  - unfold own_blocks. by rewrite Ha.
  - unfold own_socks. by rewrite Ha.
Qed.

Lemma call_wake q :
  asleep t = Some q -> holder s = None -> sys_observe E (SCondWait q) (local t) (sh_queue s) w' ->
  sys_inv (after (shared_after i t (SCondWait q) s)).
Proof.
  intros Ha Hfree (q0 & Hm & _ & Hw). apply (take_mutex _ (lose_queue q0 q (local t))); rewrite ?Hw; try done.
  - unfold own_blocks. by rewrite Ha.
  - unfold own_socks. by rewrite Ha.
Qed.

(** Giving the mutex back, for good or to wait. *)
Lemma give_mutex s1 q q0 b a c' w1 :
  s1 = mkSystem (threads s) (sh_cache s) (writer s) (readers s) q None (sh_err s) ->
  asleep t = None -> may_release q0 q (local t) ->
  thread_inv s1 i (mkThread b c' w1 a) ->
  own_blocks (mkThread b c' w1 a) = w_heap (local t) ∖ queue_blocks q ->
  own_socks (mkThread b c' w1 a) = w_socks (local t) ∖ queue_socks q ->
  sys_inv (with_thread i (mkThread b c' w1 a) s1).
Proof.
  clear Hwp w' c. intros -> Ha Hm Ht' Eb Ek. pose proof (si_thread _ Hs i t Hi) as Ht.
  destruct Hm as [Hq0 Hev Hinv Hb Hk]. destruct (ti_hold _ _ _ Ht q0 Hq0 Ha) as [Hh ->].
  eapply (sys_inv_update s _ i t _ QueueOf ∅ ∅);
    [done | done | done | done | by intros [] | done | | | | | | set_solver | set_solver | apply Hs | apply Hs | done | apply Hs].
  - intros j Hj. split; cbn; [done | done | done | done | done | | done]. rewrite Hh. by intros [= ->].
  - rewrite Eb. unfold own_blocks. rewrite Ha. cbn. set_solver.
  - rewrite Eb. cbn. set_solver.
  - rewrite Ek. unfold own_socks. rewrite Ha. cbn. set_solver.
  - rewrite Ek. cbn. set_solver.
Qed.

Lemma call_poolunlock q :
  asleep t = None -> sys_observe E (SPoolUnlock q) (local t) tt w' ->
  sys_inv (after (shared_after i t (SPoolUnlock q) s)).
Proof.
  intros Ha (q0 & Hm & ->). pose proof (si_thread _ Hs i t Hi) as Ht.
  eapply give_mutex; [done | done | done | | done | done].
  split; cbn [code local asleep writer readers sh_cache holder sh_queue]; os_fields;
    [done | apply Ht | done | apply Ht | apply Ht | apply Ht | apply Ht | apply Ht | done | done].
Qed.
End calls.

Lemma sleep_inv s i t q k q0 :
  sys_inv s -> threads s !! i = Some t -> code t = Vis (SCondWait q) k -> asleep t = None ->
  may_release q0 q (local t) -> rw_free (local t) ->
  sys_inv (with_thread i (mkThread (body t) (code t) (local t) (Some q))
    (mkSystem (threads s) (sh_cache s) (writer s) (readers s) q None (sh_err s))).
Proof.
  intros Hs Hi Hc Ha Hm Hf. pose proof (si_thread _ Hs i t Hi) as Ht.
  eapply give_mutex; [exact Hs | exact Hi | done | done | done | | done | done].
  split; cbn [code local asleep writer readers sh_cache holder sh_queue];
    [apply Ht | apply Ht | | apply Ht | apply Ht | apply Ht | apply Ht | apply Ht | done | done].
  intros q1 [= <-]. rewrite Hc. cbn. split_and!; [done | by exists q0 | done].
Qed.

Lemma awake_call s i t :
  thread_inv s i t -> (forall q, next_call (code t) <> Some (SCondWait q)) -> asleep t = None.
Proof.
  intros Ht Hn. destruct (asleep t) as [q|] eqn:Hq; [|done].
  destruct (ti_sleep _ _ _ Ht q Hq) as [Hc _]. by destruct (Hn q).
Qed.

Context (bound : nat) `{!Crew bound Ready Post}.

Lemma again_inv s i t v k j :
  sys_inv s -> threads s !! i = Some t -> code t = Ret (inl v) -> k < bound -> j + 1 < bound ->
  sys_inv (with_thread i (mkThread (body t) (body t v) (set_w_wakes j (set_w_reads k (local t))) None) s).
Proof.
  intros Hs Hi Hc Hk Hj. pose proof (si_thread _ Hs i t Hi) as Ht.
  assert (asleep t = None) as Ha by (apply (awake_call s i); [done | by rewrite Hc]).
  pose proof (ti_wp _ _ _ Ht) as Hready. rewrite Hc in Hready. cbn in Hready.
  pose proof (crew_refill i v (local t) k j Hready Hk Hj) as Hready'.
  eapply (sys_inv_update s _ i t _ CacheOf ∅ ∅);
    [done | done | done | done | done | | intros; by apply relies_refl | | | | | set_solver | set_solver
    | apply Hs | apply Hs | apply Hs | apply Hs].
  - destruct Ht as [Twp Tbo Tsl Twr Twb Trd Trb Tse Tho Thb].
    split; cbn [body code local asleep]; [by apply Tbo | done | done | done | done | done | done | done | |].
    + intros q Hq _. by apply Tho.
    + intros Hh. split; [done | by apply Thb].
  - unfold own_blocks. rewrite Ha. cbn. set_solver.
  - pose proof (proj1 (own_apart s i t Hs Hi CacheOf ltac:(done))) as Hd.
    unfold own_blocks in *. rewrite Ha in Hd. cbn in *. by symmetry.
  - unfold own_socks. rewrite Ha. cbn. set_solver.
  - cbn. set_solver.
Qed.

(** Whatever thread moves, the system stays well formed. *)
Lemma step_sys_inv i s s' : sys_inv s -> step E bound i s s' -> sys_inv s'.
Proof.
  intros Hs [t e k r w' Hi Hc Ho Hw | t q k q0 Hi Hc Ha Hm Hf | t v k j Hi Hc Hk Hj];
    [|by eapply sleep_inv | by apply again_inv].
  pose proof (si_thread _ Hs i t Hi) as Ht. pose proof (ti_wp _ _ _ Ht) as Hwp. rewrite Hc in Hwp.
  destruct (Hwp r) as (w1 & Hw1 & Hk); [by eapply offers_answers|].
  rewrite (sys_observe_functional _ _ _ _ _ _ Hw1 Hw) in Hk. clear w1 Hw1 Hwp.
  pose proof (awake s i t e k Ht Hc) as Hawake. pose proof Ho as [Hp _].
  destruct (lock_call e) eqn:He; [|].
  2: { apply (call_local s i t (k r) w' Hs Hi Hk e r); [done | | done | done].
       apply Hawake. intros q ->. done. }
  destruct e; try discriminate He; cbn [permits] in Hp; try done.
  - destruct Hp as [? ->]. eapply call_rdlock; eauto.
  - destruct Hp as (? & ? & ->). eapply call_wrlock; eauto.
  - destruct r. eapply call_rwunlock; eauto.
  - destruct Hp as [? ->]. eapply call_poollock; eauto.
  - destruct r. eapply call_poolunlock; eauto.
  - destruct Hp as (? & ? & -> & _). eapply call_wake; eauto.
Qed.

Lemma moves_sys_inv s s' : sys_inv s -> rtc (moves E bound) s s' -> sys_inv s'.
Proof. intros Hs. induction 1 as [|s1 s2 s3 [i Hi] _ IH]; [done|]. by apply IH, (step_sys_inv i s1). Qed.

(** Every move is one operation of the queue or none. *)
Lemma step_section i s s' : sys_inv s -> step E bound i s s' -> exists ops, section_of s s' ops.
Proof.
  assert (forall t q q0, sys_inv s -> threads s !! i = Some t -> asleep t = None ->
    may_release q0 q (local t) -> is_Some (holder s) /\ exists op, queue_step (sh_queue s) op q) as Hgive.
  { intros t q q0 Hs Hi Ha [Hq0 Hop _ _ _].
    destruct (ti_hold _ _ _ (si_thread _ Hs i t Hi) q0 Hq0 Ha) as [Hh ->]. split; [by eexists | done]. }
  unfold section_of.
  intros Hs [t e k r w' Hi Hc Ho Hw | t q k q0 Hi Hc Ha Hm Hf | t v k j Hi Hc Hk Hj]; cbn [with_thread holder sh_queue].
  - pose proof (awake s i t e k (si_thread _ Hs i t Hi) Hc) as Hawake. destruct Ho as [Hp _].
    destruct e; cbn [shared_after with_thread holder sh_queue permits] in *; try (by exists []; destruct (holder s)).
    + exists []. by destruct (w_lock (local t)); destruct (holder s).
    + destruct Hw as (q0 & Hm & _). destruct (Hgive t q q0 Hs Hi (Hawake ltac:(done)) Hm) as [[? ->] [op Hop]].
      by exists [op], op.
  - destruct (Hgive t q q0 Hs Hi Ha Hm) as [[? ->] [op Hop]]. by exists [op], op.
  - exists []. by destruct (holder s).
Qed.

Lemma section_run s s' ops : section_of s s' ops -> queue_run (sh_queue s) ops (sh_queue s').
Proof.
  unfold section_of. intros H. destruct (holder s), (holder s');
    (destruct H as [op [Hop ->]]; by eapply run_cons, run_nil) || (destruct H as [-> ->]; apply run_nil).
Qed.

Lemma history_run s ops s' : history E bound s ops s' -> queue_run (sh_queue s) ops (sh_queue s').
Proof.
  induction 1 as [|ops s1 ops' s2 _ IH _ Hsec]; [apply run_nil|].
  eapply queue_run_app; [done | by apply section_run].
Qed.

Lemma history_moves s ops s' : history E bound s ops s' -> rtc (moves E bound) s s'.
Proof. induction 1 as [|ops s1 ops' s2 _ IH Hm _]; [done|]. by eapply rtc_r. Qed.

(** A thread that has ended has kept its promise. *)
Lemma sys_inv_ended s i t :
  sys_inv s -> threads s !! i = Some t -> code t = Ret (inr tt) -> Post i (local t).
Proof. intros Hs Hi Hc. pose proof (ti_wp _ _ _ (si_thread _ Hs i t Hi)) as Hwp. by rewrite Hc in Hwp. Qed.
End safety.

(** * Who has taken what

    The sockets that were popped are those the threads have taken, each by one
    thread. *)

(** The critical sections of a thread on the queue; a thread that waits has
    ended one that it will note when it wakes up. *)
Definition sections (t : thread) : list (PoolQueue * PoolQueue) :=
  w_pcrit (local t) ++
  match asleep t, w_pool (local t) with Some q, Some q0 => [(q0, q)] | _, _ => [] end.

Definition took (t : thread) : list Z := omap section_pop (sections t).

Lemma took_awake t : asleep t = None -> took t = taken (local t).
Proof. intros Ha. unfold took, sections. by rewrite Ha, app_nil_r. Qed.

Lemma observe_pcrit E e w r w' :
  sys_observe E e w r w' -> (forall q, e <> SPoolUnlock q) -> (forall q, e <> SCondWait q) ->
  w_pcrit w' = w_pcrit w.
Proof.
  destruct e; cbn [sys_observe]; intros Hw H1 H2; try (by destruct (H1 q)); try (by destruct (H2 q));
    repeat match goal with
    | H : exists _, _ |- _ => destruct H
    | H : _ /\ _ |- _ => destruct H
    end; subst; try done; unfold after_read in *; repeat case_match; try done;
    repeat match goal with H : _ /\ _ |- _ => destruct H end; by subst.
Qed.

Section taken.
Context (E : env) (Ready : nat -> Z -> os -> Prop) (Post : nat -> os -> Prop) `{!Shared E}.
Context (bound : nat) `{!Crew bound Ready Post}.

Abbreviation inv := (sys_inv E Ready Post).

(** A section that ends, of which the thread makes a note or will. *)
Lemma section_taken i s s' t q q0 ops :
  inv s -> threads s !! i = Some t -> asleep t = None -> may_release q0 q (local t) ->
  holder s' = None -> sh_queue s' = q -> section_of s s' ops ->
  omap section_pop (w_pcrit (local t) ++ [(q0, q)]) = taken (local t) ++ popped ops.
Proof.
  intros Hs Hi Ha [Hq0 _ _ _ _] Hh' Hq' Hsec.
  destruct (ti_hold _ _ _ _ _ _ (si_thread _ _ _ _ Hs i t Hi) q0 Hq0 Ha) as [Hh ->].
  unfold section_of in Hsec. rewrite Hh, Hh', Hq' in Hsec. destruct Hsec as (op & Hop & ->).
  rewrite omap_app. unfold taken. f_equal. rewrite <- (section_pop_step _ _ _ Hop). cbn.
  by destruct (section_pop _).
Qed.

Lemma section_none s s' ops : section_of s s' ops -> holder s = None \/ is_Some (holder s') -> ops = [].
Proof.
  unfold section_of. intros H [Hn|[x Hx]]; [rewrite Hn in H | rewrite Hx in H; destruct (holder s)]; by destruct H.
Qed.

Lemma section_kept s s' ops : section_of s s' ops -> holder s' = holder s -> ops = [].
Proof. intros H Hh. apply (section_none s s'); [done|]. rewrite Hh. destruct (holder s); eauto. Qed.

Lemma step_took i s s' ops :
  inv s -> step E bound i s s' -> section_of s s' ops ->
  exists t t', threads s !! i = Some t /\ threads s' = <[i := t']> (threads s) /\ took t' = took t ++ popped ops.
Proof.
  intros Hs [t e k r w' Hi Hc Ho Hw | t q k q0 Hi Hc Ha Hm Hf | t v k j Hi Hc Hk Hj] Hsec;
    pose proof (si_thread _ _ _ _ Hs i t Hi) as Ht; exists t; eexists; (split; [done|]).
  - cbn [threads with_thread]. rewrite threads_shared_after. split; [done|].
    rewrite took_awake by done. cbn [local]. destruct Ho as [Hp _].
    pose proof (awake E Ready Post s i t e k Ht Hc) as Hawake.
    assert ((forall q, e <> SPoolUnlock q) -> (forall q, e <> SCondWait q) ->
      holder (shared_after i t e s) = holder s \/ holder s = None -> taken w' = took t ++ popped ops) as Hsame.
    { intros Hu Hw' Hh. rewrite took_awake by by apply Hawake. unfold taken.
      rewrite (observe_pcrit _ _ _ _ _ Hw Hu Hw'). assert (ops = []) as ->; [|by rewrite app_nil_r].
      destruct Hh; [by apply (section_kept s _ ops Hsec) | apply (section_none s _ ops Hsec); by left]. }
    destruct e; try (apply Hsame; by auto).
    + apply Hsame; [done..|]. cbn. left. by destruct (w_lock (local t)).
    + apply Hsame; [done..|]. right. by destruct Hp.
    + destruct Hw as (q0 & Hm & ->). rewrite took_awake by by apply Hawake.
      by eapply section_taken; [.. | exact Hsec]; try apply Hawake.
    + destruct Hp as (Hq & Hh & -> & _). destruct Hw as (q0 & Hm & _ & ->).
      rewrite (section_none s _ ops Hsec) by by left. unfold took, sections, taken.
      by rewrite Hq, (mr_held _ _ _ Hm), app_nil_r.
  - split; [done|]. rewrite (took_awake t) by done. unfold took, sections. cbn [asleep local].
    rewrite (mr_held _ _ _ Hm). by eapply section_taken; [.. | exact Hsec].
  - split; [done|]. rewrite (section_kept _ _ _ Hsec) by done. rewrite app_nil_r.
    rewrite !took_awake; [done | | done]. apply (awake_call E Ready Post s i); [done | by rewrite Hc].
Qed.

(** What was popped since is what the threads have taken since. *)
Lemma history_took s ops s' :
  inv s -> history E bound s ops s' ->
  concat (took <$> threads s') ≡ₚ concat (took <$> threads s) ++ popped ops.
Proof.
  intros Hs. induction 1 as [|ops s1 ops' s2 Hh IH [i Hi] Hsec]; [by rewrite app_nil_r|].
  pose proof (moves_sys_inv E Ready Post bound s s1 Hs (history_moves E bound s ops s1 Hh)) as Hs1.
  destruct (step_took i s1 s2 ops' Hs1 Hi Hsec) as (t & t' & Ht & -> & Htk).
  rewrite popped_app, app_assoc, <- IH, list_fmap_insert, Htk.
  apply (concat_insert_app _ i (took t)). by rewrite list_lookup_fmap, Ht.
Qed.
End taken.
