(* ===== verification/Machine.v ===== *)
(** * A machine to run the program on

    A concrete system for one thread: a disk, incoming bytes, a cache and a
    queue that nobody else touches, and the smallest free name for whatever is
    asked for. Every call gets a result the protocol of [System.v] allows, so
    the protocol can be kept by a real system, and what the contracts say of
    all runs is true of the runs of this one, which can be evaluated. *)

From S2P Require Import Prelude CString Types Effects Invariants System.

(** ** Free names *)

Definition free_nat (X : gset nat) : nat := S (max_list (elements X)).

Lemma free_nat_fresh X : free_nat X ∉ X.
Proof.
  intros H. unfold free_nat in H. apply elem_of_elements in H.
  apply max_list_elem_of_le in H. lia.
Qed.

(** Above the standard descriptors. *)
Definition free_fd (X : gset Z) : Z := Z.of_nat (3 + max_list (Z.to_nat <$> elements X)).

Lemma free_fd_fresh X : free_fd X ∉ X.
Proof.
  intros H. apply elem_of_elements in H.
  pose proof (list_elem_of_fmap_2 Z.to_nat _ _ H) as H'. apply max_list_elem_of_le in H'.
  unfold free_fd in *. lia.
Qed.

(** The lowest descriptor that is closed. *)
Fixpoint lowest_fd (fds : gmap Z bytes) (fuel : nat) (k : Z) : Z :=
  match fuel with
  | O => -1
  | S fuel' =>
      match fds !! k with None => k | Some _ => lowest_fd fds fuel' (k + 1) end
  end.

Lemma lowest_fd_spec fds fuel k :
  (0 <= k)%Z -> (forall j, (0 <= j < k)%Z -> is_Some (fds !! j)) ->
  let r := lowest_fd fds fuel k in
  r = (-1)%Z \/ ((0 <= r)%Z /\ fds !! r = None /\ forall j, (0 <= j < r)%Z -> is_Some (fds !! j)).
Proof.
  revert k. induction fuel as [|fuel IH]; intros k Hk Hlow; cbn [lowest_fd]; [by left|].
  destruct (fds !! k) as [f|] eqn:Hf; [|by right].
  apply IH; [lia|]. intros j Hj. destruct (decide (j = k)) as [->|]; [by eexists|]. apply Hlow. lia.
Qed.

(** ** The machine *)

Record machine := mkMachine {
  m_os : os;             (* what the thread owns, and the process *)
  m_cache : LithCache;   (* the cache, while the thread does not write it *)
  m_queue : PoolQueue;   (* the queue, while the thread does not hold the mutex *)
  m_in : list bytes;     (* what the peer sends, in pieces *)
  m_conns : nat;         (* connections still to come *)
}.

Section machine.
Context (E : env).

Definition stream_at (w : os) (h : nat) : bytes :=
  match w_files w !! h with Some (p, o) => remaining E p o | None => [] end.

(** A piece of what the peer sends. *)
Definition incoming (m : machine) (n : Z) : bytes :=
  match w_reads (m_os m), m_in m with
  | S _, d :: _ => take (Z.to_nat n) d
  | _, _ => []
  end.

Definition consumed (m : machine) (n : Z) : list bytes :=
  match incoming m n, m_in m with
  | _ :: _, d :: ds => match drop (Z.to_nat n) d with [] => ds | d' => d' :: ds end
  | _, _ => m_in m
  end.

(** Whoever waits for an empty queue is woken by the shutdown. *)
Definition woken (q : PoolQueue) : PoolQueue :=
  match head_ptr q with
  | None => mkPoolQueue (head_ptr q) (tail_ptr q) (pool_size q) true (nodes q)
  | Some _ => q
  end.

Definition new_socket (m : machine) : Z :=
  let z := free_fd (w_socks (m_os m) ∪ queue_socks (m_queue m)) in
  if decide (z < INT_MAX)%Z then z else (-1)%Z.

Definition answer (e : syscall) (m : machine) : result e :=
  let w := m_os m in
  match e return result e with
  | SClock => (12, 0, 0)%Z
  | SFopen p => match disk E p with Some _ => Some (free_nat (dom (w_files w))) | None => None end
  | SStat p => stat_of <$> disk E p
  | SFtell h => match w_files w !! h with Some (_, o) => o | None => 0%Z end
  | SFread h _ n => take (Z.to_nat n) (stream_at w h)
  | SFgets h n => match next_line (n - 1) (stream_at w h) with [] => None | s => Some s end
  | SMalloc _ => Some (free_nat (w_heap w ∪ owned (m_cache m) ∪ queue_blocks (m_queue m)))
  | SRdlock | SWrlock => m_cache m
  | SErrLoad => w_err w
  | SCtxNew => Some (free_nat (w_ctx w))
  | SCtxCertificate _ _ | SCtxPrivateKey _ _ => 1%Z
  | SCtxCheckKey _ => true
  | SSslNew ctx => match ctx with Some _ => Some (free_nat (w_ssl w)) | None => None end
  | SSslAccept _ => 1%Z
  | SSslRead _ n | SPeek _ n | SRecv _ n => incoming m n
  | SSslWrite _ _ n => n
  | SSocket => new_socket m
  | SAccept _ => match m_conns m with O => (-1)%Z | S _ => new_socket m end
  | SReuseAddr _ | SBind _ _ | SListen _ _ | SSetTimeout _ _ => 0%Z
  | SSend _ d => Z.of_nat (length d)
  | SPoolLock => m_queue m
  | SCondWait q => woken q
  | SReadShutdown => shutdown (m_queue m)
  | SThreadCreate => true
  | SGetcwd n =>
      let d := p_cwd (w_proc w) in
      if decide (no_nul d /\ length d < n) then Some d else None
  | SFork | SChdir _ => 0%Z
  | SSetsid => 1%Z
  | SOpen _ => lowest_fd (p_fds (w_proc w)) (S (size (p_fds (w_proc w)))) 0
  | SPrint _ | SFseek _ _ | SFclose _ | SFree _ | SRwInit _ | SRwUnlock _ | SRwDestroy _
  | SErrStore _ | SSslLibrary | SCtxFree _ | SErrPrint | SEvpCleanup | SSslSetFd _ _
  | SSslShutdown _ | SSslFree _ | SShutdownWr _ | SClose _ | SPoolInit _ | SPoolUnlock _
  | SCondSignal | SCondBroadcast | SMutexDestroy | SCondDestroy | SThreadDetach | SSignal _ | SPrintErr _
  | SUmask _ | SCloseFd _ | SDup2 _ _ => tt
  end.

(** The ghost state after a call within its contract. *)
Definition next_os (e : syscall) (w : os) : result e -> os :=
  match e return result e -> os with
  | SFopen p => fun r =>
      match r with Some h => set_w_files (<[h := (p, 0%Z)]> (w_files w)) w | None => w end
  | SFseek h o => fun _ =>
      match w_files w !! h with
      | Some (p, _) => set_w_files (<[h := (p, match o with
                         | SEEK_SET => 0%Z
                         | SEEK_END => Z.of_nat (length (remaining E p 0))
                         end)]> (w_files w)) w
      | None => w
      end
  | SFread h _ _ => fun r =>
      match w_files w !! h with
      | Some (p, o) => set_w_files (<[h := (p, (o + Z.of_nat (length r))%Z)]> (w_files w)) w
      | None => w
      end
  | SFgets h _ => fun r =>
      match w_files w !! h with
      | Some (p, o) =>
          set_w_files (<[h := (p, (o + Z.of_nat (length (default [] r)))%Z)]> (w_files w)) w
      | None => w
      end
  | SFclose h => fun _ => set_w_files (delete h (w_files w)) w
  | SMalloc _ => fun r => match r with Some a => set_w_heap ({[a]} ∪ w_heap w) w | None => w end
  | SFree a => fun _ => set_w_heap (w_heap w ∖ {[a]}) w
  | SRdlock => fun c => set_w_lock (ReadLocked c) (set_w_seen (Some c) w)
  | SWrlock => fun c => set_w_lock (WriteLocked c) (set_w_seen (Some c) (gain_cache c w))
  | SRwUnlock c => fun _ =>
      match w_lock w with
      | ReadLocked c0 => set_w_lock Unlocked (set_w_crit (w_crit w ++ [(false, c0, c)]) w)
      | WriteLocked c0 => set_w_lock Unlocked (set_w_seen (Some c)
          (set_w_crit (w_crit w ++ [(true, c0, c)]) (lose_cache c w)))
      | _ => w
      end
  | SRwInit c => fun _ => set_w_lock Unlocked (set_w_seen (Some c) (lose_cache c w))
  | SRwDestroy _ => fun _ => set_w_lock Destroyed w
  | SErrStore s => fun _ => set_w_err s w
  | SCtxNew => fun r => match r with Some c => set_w_ctx ({[c]} ∪ w_ctx w) w | None => w end
  | SCtxFree c => fun _ => set_w_ctx (w_ctx w ∖ {[c]}) w
  | SSslNew _ => fun r => match r with Some s => set_w_ssl ({[s]} ∪ w_ssl w) w | None => w end
  | SSslFree s => fun _ => set_w_ssl (w_ssl w ∖ {[s]}) w
  | SSslRead _ _ | SRecv _ _ => fun r => after_read r w
  | SPeek _ _ => fun r => set_w_in (w_in w ++ [r]) w
  | SSslWrite _ d n => fun r =>
      if decide (0 < r)%Z then set_w_out (w_out w ++ sends d n) w else w
  | SSocket | SAccept _ => fun r =>
      if decide (r = (-1)%Z) then w else set_w_socks ({[r]} ∪ w_socks w) w
  | SSend _ d => fun r => set_w_sent (w_sent w ++ take (Z.to_nat r) d) w
  | SCtxCertificate c p => fun r => if decide (0 < r)%Z then note [Certified c p] w else w
  | SCtxPrivateKey c p => fun r => if decide (0 < r)%Z then note [Keyed c p] w else w
  | SCtxCheckKey c => fun r => match r with true => note [KeyChecked c] w | false => w end
  | SBind s p => fun r => if decide (0 <= r)%Z then note [BoundTo s p] w else w
  | SListen s _ => fun r => if decide (0 <= r)%Z then note [Listens s] w else w
  | SPoolInit q => fun _ => note [PoolMade q] w
  | SClose s => fun _ => set_w_socks (w_socks w ∖ {[s]}) w
  | SPoolLock => fun q => gain_queue q w
  | SPoolUnlock q => fun _ =>
      match w_pool w with Some q0 => lose_queue q0 q w | None => w end
  | SCondWait q => fun q' =>
      match w_pool w with
      | Some q0 => set_w_wakes (w_wakes w - match head_ptr q' with None => 1 | Some _ => 0 end)
                     (gain_queue q' (lose_queue q0 q w))
      | None => w
      end
  | SThreadCreate => fun r => match r with true => set_w_threads (S (w_threads w)) w | false => w end
  | SFork => fun r => if decide (0 <= r)%Z then on_proc (fun p =>
      mkProcess (S (p_forks p)) (p_session p) (p_umask p) (p_cwd p) (p_fds p)) w else w
  | SSetsid => fun r => if decide (0 <= r)%Z then on_proc (fun p =>
      mkProcess (p_forks p) true (p_umask p) (p_cwd p) (p_fds p)) w else w
  | SUmask m => fun _ => on_proc (fun p =>
      mkProcess (p_forks p) (p_session p) (Some m) (p_cwd p) (p_fds p)) w
  | SChdir d => fun r => if decide (0 <= r)%Z then on_proc (fun p =>
      mkProcess (p_forks p) (p_session p) (p_umask p) d (p_fds p)) w else w
  | SCloseFd fd => fun _ => on_fds (delete fd) w
  | SOpen f => fun r => if decide (0 <= r)%Z then on_fds (insert r f) w else w
  | SDup2 a b => fun _ =>
      match p_fds (w_proc w) !! a with Some f => on_fds (insert b f) w | None => w end
  | _ => fun _ => w
  end.

Lemma observe_next e w r w' : sys_observe E e w r w' -> w' = next_os e w r.
Proof.
  destruct e; cbn [sys_observe next_os]; try done; intros H;
    repeat match goal with
    | H : exists _, _ |- _ => destruct H
    | H : _ /\ _ |- _ => destruct H
    | H : may_release _ _ _ |- _ => apply mr_held in H
    | H : ?x = Some _ |- context [match ?x with _ => _ end] => rewrite H
    end; subst; try done; repeat case_match; simplify_eq; try done; naive_solver.
Qed.

Definition advance (e : syscall) (m : machine) : machine :=
  let w := next_os e (m_os m) (answer e m) in
  match e with
  | SRwInit c | SRwUnlock c => mkMachine w c (m_queue m) (m_in m) (m_conns m)
  | SPoolInit q | SPoolUnlock q => mkMachine w (m_cache m) q (m_in m) (m_conns m)
  | SCondWait q => mkMachine w (m_cache m) (woken q) (m_in m) (m_conns m)
  | SSslRead _ n | SRecv _ n =>
      mkMachine w (m_cache m) (m_queue m)
        (consumed m n) (m_conns m)
  | SAccept _ => mkMachine w (m_cache m) (m_queue m) (m_in m) (pred (m_conns m))
  | _ => mkMachine w (m_cache m) (m_queue m) (m_in m) (m_conns m)
  end.

Definition machine_step (e : syscall) (m : machine) : result e * machine := (answer e m, advance e m).

(** ** The machine keeps the protocol *)

(** The cache is not being written. *)
Definition cache_out (w : os) : Prop :=
  match w_lock w with Unlocked | ReadLocked _ => True | _ => False end.

(** Streams are where files are. *)
Definition streams_ok (w : os) : Prop :=
  forall h p o, w_files w !! h = Some (p, o) -> (0 <= o <= max_file E)%Z.

(** What the thread does not own is well formed and apart from what it owns;
    it has seen the last state of the cache; the streams are where files are. *)
Record machine_ok (m : machine) (w : os) : Prop := {
  mk_os : m_os m = w;
  mk_cache_inv : cache_ok E (m_cache m);
  mk_queue_inv : queue_inv (m_queue m);
  mk_cache_apart : cache_out w -> owned (m_cache m) ## w_heap w;
  mk_cache_seen : cache_out w -> forall c, w_seen w = Some c -> c = m_cache m;
  mk_cache_read : forall c, w_lock w = ReadLocked c -> c = m_cache m;
  mk_queue_apart : w_pool w = None ->
    queue_blocks (m_queue m) ## w_heap w /\ queue_socks (m_queue m) ## w_socks w;
  mk_apart : cache_out w -> w_pool w = None -> owned (m_cache m) ## queue_blocks (m_queue m);
  mk_streams : streams_ok w;
}.

Lemma contents_bounded p (o : Z) :
  env_wf E -> (0 <= o <= max_file E)%Z -> (o + Z.of_nat (length (remaining E p o)) <= max_file E)%Z.
Proof.
  intros HE Ho. unfold remaining. destruct (disk E p) as [f|] eqn:Hf; [|simpl; lia].
  pose proof (ew_sizes _ HE p f Hf). rewrite length_drop. lia.
Qed.

Lemma woken_inv q : queue_inv q -> queue_inv (woken q).
Proof.
  unfold woken. destruct (head_ptr q) eqn:Hh; [done|]. intros (l & [Hc Ht Hz Hn Hd] & Hl).
  exists l. split; [|done]. by split; rewrite ?Hh in *.
Qed.

Lemma woken_same q : queue_blocks (woken q) = queue_blocks q /\ queue_socks (woken q) = queue_socks q.
Proof. unfold woken. by destruct (head_ptr q). Qed.

Lemma new_socket_ok m :
  new_socket m = (-1)%Z \/ ((0 <= new_socket m < INT_MAX)%Z /\ (new_socket m ∉ w_socks (m_os m)) /\
    (new_socket m ∉ queue_socks (m_queue m))).
Proof.
  unfold new_socket. cbv zeta. case_decide; [right|by left].
  pose proof (free_fd_fresh (w_socks (m_os m) ∪ queue_socks (m_queue m))) as Hf.
  apply not_elem_of_union in Hf as [H1 H2]. split_and!; [|done|done|done]. unfold free_fd. lia.
Qed.

Lemma incoming_ok m n :
  ((0 <= n)%Z -> (Z.of_nat (length (incoming m n)) <= n)%Z) /\ (incoming m n <> [] -> 0 < w_reads (m_os m)).
Proof.
  unfold incoming. destruct (w_reads (m_os m)); [simpl; split; [lia|done]|].
  destruct (m_in m) as [|d ds]; [simpl; split; [lia|done]|]. split; [|lia].
  intros Hn. rewrite length_take. lia.
Qed.

(** Calls that do not touch the locks depend on the thread alone. *)
Lemma local_answers e m :
  env_wf E -> opens E = false -> lock_call e = false -> streams_ok (m_os m) -> sys_answers E e (m_os m) (answer e m).
Proof.
  intros HE Hop He Hst. pose proof (incoming_ok m) as Hin. pose proof (new_socket_ok m) as Hns.
  destruct e; try discriminate He; cbn [sys_answers answer]; try done.
  - (* fopen *) destruct (disk E p) as [f|]; split; try done. apply free_nat_fresh.
  - (* stat *) split; [|done]. intros st Hs. destruct (disk E p) as [f|] eqn:Hf; [|done].
    injection Hs as <-. cbn. pose proof (ew_sizes _ HE p f Hf). lia.
  - (* ftell *) destruct (w_files (m_os m) !! h) as [[p o]|] eqn:Hh.
    + pose proof (Hst h p o Hh). split_and!; [lia | lia | lia|]. by intros _ p' o' [= _ ->].
    + pose proof (ew_max _ HE). unfold MAX_CACHE_FILE_SIZE in *. split_and!; [lia | lia | lia|done].
  - (* fread *) split.
    + intros Hn. rewrite length_take. lia.
    + intros _ p o Hh. unfold stream_at. by rewrite Hh.
  - (* fgets *) split.
    + destruct (next_line _ _) as [|x l] eqn:Hl; [done|]. split; [done|].
      pose proof (next_line_length (n - 1) (stream_at (m_os m) h)) as Hlen. rewrite Hl in Hlen.
      split; [done|]. intros p o Hh. unfold stream_at in Hl. rewrite Hh in Hl.
      pose proof (contents_bounded p o HE (Hst h p o Hh)) as Hb.
      destruct (next_line_prefix (n - 1) (remaining E p o)) as [k Hk]. rewrite Hl in Hk.
      rewrite Hk, length_app in Hb. lia.
    + intros _ p o Hh. unfold stream_at. by rewrite Hh.
  - (* malloc *) pose proof (free_nat_fresh (w_heap (m_os m) ∪ owned (m_cache m) ∪ queue_blocks (m_queue m))).
    set_solver.
  - (* ctx *) apply free_nat_fresh.
  - (* ssl *) destruct ctx; [|done]. split; [done | apply free_nat_fresh].
  - (* ssl_write *) split; [by left | done].
  - (* socket *) naive_solver.
  - (* accept *) destruct (m_conns m); [by left | naive_solver].
  - (* send *) split; [lia | done].
  - (* getcwd *) by case_decide.
  - (* open *) apply lowest_fd_spec; [lia|]. intros j Hj. lia.
Qed.

Lemma machine_answers e m w : env_wf E -> opens E = false -> machine_ok m w -> sys_answers E e w (answer e m).
Proof.
  intros HE Hop [<- Hci Hqi Hca Hcs Hcr Hqa Hap Hst].
  destruct (lock_call e) eqn:He; [|by apply local_answers].
  assert (w_lock (m_os m) = Unlocked -> cache_visible E (m_os m) (m_cache m)) as Hcv.
  { intros Hl. split; [done|]. assert (cache_out (m_os m)) as Ho by (unfold cache_out; by rewrite Hl).
    destruct (w_seen (m_os m)) as [c0|] eqn:Hs; [|done]. by rewrite (Hcs Ho c0 eq_refl). }
  destruct e; try discriminate He; cbn [sys_answers answer]; try done.
  - (* wrlock *) intros Hl. split; [by apply Hcv|]. apply Hca. unfold cache_out. by rewrite Hl.
  - (* mutex *) intros Hp. by split_and!; [|apply Hqa..].
  - (* cond_wait *) intros [q0 Hm]. destruct (woken_same q) as [Eb Ek]. split.
    + split_and!; [by apply woken_inv, Hm | rewrite Eb; cbn; set_solver | rewrite Ek; cbn; set_solver].
    + unfold woken. destruct (head_ptr q) eqn:Hh; cbn; congruence.
Qed.

(** A read ends where the file ends. *)
Definition stays_in (w : os) (e : syscall) : result e -> Prop :=
  match e return result e -> Prop with
  | SFread h _ _ => fun r => length r <= length (stream_at w h)
  | SFgets h _ => fun r => length (default [] r) <= length (stream_at w h)
  | _ => fun _ => True
  end.

Lemma streams_kept e w r w' :
  env_wf E -> streams_ok w -> stays_in w e r -> sys_observe E e w r w' -> streams_ok w'.
Proof.
  intros HE Hst Hin Hw. rewrite (observe_next _ _ _ _ Hw). clear Hw.
  pose proof (ew_max _ HE) as Hmax. unfold MAX_CACHE_FILE_SIZE in Hmax. unfold streams_ok in *.
  assert (forall h p o (d : bytes), w_files w !! h = Some (p, o) -> length d <= length (remaining E p o) ->
    (0 <= o + Z.of_nat (length d) <= max_file E)%Z) as Hadd.
  { intros h p o d Hh Hd. pose proof (Hst h p o Hh). pose proof (contents_bounded p o HE (Hst h p o Hh)). lia. }
  destruct e; cbn [next_os stays_in] in *; unfold after_read in *; try exact Hst;
    try (repeat case_match; exact Hst); unfold stream_at in *.
  - destruct r as [h|]; [|exact Hst]. intros h' p' o. cbn.
    intros [(<- & [= <- <-])|[_ Hh]]%lookup_insert_Some; [lia | by eapply Hst].
  - destruct (w_files w !! h) as [[p o0]|] eqn:Hh; [|exact Hst]. intros h' p' o'. cbn.
    intros [(<- & [= <- <-])|[_ Hh']]%lookup_insert_Some; [|by eapply Hst].
    pose proof (contents_bounded p 0 HE). destruct o; lia.
  - destruct (w_files w !! h) as [[p o0]|] eqn:Hh; [|exact Hst]. intros h' p' o'. cbn.
    intros [(<- & [= <- <-])|[_ Hh']]%lookup_insert_Some; [by apply (Hadd h p o0) | by eapply Hst].
  - destruct (w_files w !! h) as [[p o0]|] eqn:Hh; [|exact Hst]. intros h' p' o'. cbn.
    intros [(<- & [= <- <-])|[_ Hh']]%lookup_insert_Some; [by apply (Hadd h p o0) | by eapply Hst].
  - intros h' p' o'. cbn. intros [_ Hh']%lookup_delete_Some. by eapply Hst.
Qed.

Lemma answer_stays_in e m : stays_in (m_os m) e (answer e m).
Proof.
  destruct e; cbn; try done.
  - rewrite length_take. lia.
  - destruct (next_line_prefix (n - 1) (stream_at (m_os m) h)) as [k Hk].
    rewrite Hk at 2. rewrite length_app. destruct (next_line _ _); cbn; lia.
Qed.

Lemma streams_next e m w w' :
  env_wf E -> machine_ok m w -> sys_observe E e w (answer e m) w' -> streams_ok w'.
Proof.
  intros HE Hok Hw. eapply streams_kept; [done | apply Hok | | done].
  destruct Hok as [<- _ _ _ _ _ _ _ _]. apply answer_stays_in.
Qed.

(** What is handed out is nobody's. *)
Lemma answer_new e m :
  new_blocks e (answer e m) ## owned (m_cache m) ∪ queue_blocks (m_queue m) /\
  new_socks e (answer e m) ## queue_socks (m_queue m).
Proof.
  pose proof (free_nat_fresh (w_heap (m_os m) ∪ owned (m_cache m) ∪ queue_blocks (m_queue m))) as Hfree.
  assert ((if decide (new_socket m = (-1)%Z) then ∅ else {[new_socket m]}) ## queue_socks (m_queue m)) as Hns.
  { case_decide; [apply disjoint_empty_l|]. apply disjoint_singleton_l.
    by destruct (new_socket_ok m) as [?|(_ & _ & ?)]. }
  destruct e; cbn [new_blocks new_socks answer]; (split; [try apply disjoint_empty_l | try apply disjoint_empty_l; try exact Hns]).
  - set_solver.
  - destruct (m_conns m); [|exact Hns]. rewrite decide_True by done. apply disjoint_empty_l.
Qed.

Lemma next_local e m w w' :
  env_wf E -> lock_call e = false -> machine_ok m w -> sys_observe E e w (answer e m) w' ->
  machine_ok (advance e m) w'.
Proof.
  intros HE He Hok Hw. pose proof (streams_next e m w w' HE Hok Hw) as Hst.
  pose proof (answer_new e m) as [Hnb Hns]. pose proof (observe_next _ _ _ _ Hw) as Hnext.
  destruct Hok as [<- Hci Hqi Hca Hcs Hcr Hqa Hap _].
  destruct (observe_local _ _ _ _ _ He Hw) as [El Es Ep Eb Ek].
  assert (exists l k, advance e m = mkMachine w' (m_cache m) (m_queue m) l k) as (l & k & ->).
  { rewrite Hnext. destruct e; try discriminate He; by eexists _, _. }
  unfold cache_out in *. split; cbn [m_os m_cache m_queue]; unfold cache_out; rewrite ?El, ?Es, ?Ep; try done.
  - intros Hl. specialize (Hca Hl). set_solver.
  - intros Hp. destruct (Hqa Hp). set_solver.
Qed.

Lemma next_lock e m w w' :
  env_wf E -> lock_call e = true -> machine_ok m w -> sys_observe E e w (answer e m) w' ->
  machine_ok (advance e m) w'.
Proof.
  intros HE He Hok Hw. pose proof (streams_next e m w w' HE Hok Hw) as Hst.
  pose proof (observe_next _ _ _ _ Hw) as Hnext. destruct Hok as [<- Hci Hqi Hca Hcs Hcr Hqa Hap _].
  unfold cache_out in *.
  destruct e; try discriminate He; cbn [sys_observe answer] in Hw.
  - (* rwlock_init *) destruct Hw as (Hinv & Hsub & ->). split; cbn; try done; set_solver.
  - (* rdlock *) destruct Hw as [Hl ->]. rewrite Hl in *. split; cbn; try done; naive_solver.
  - (* wrlock *) destruct Hw as [Hl ->]. rewrite Hl in *. split; cbn; try done.
    intros Hp. destruct (Hqa Hp). specialize (Hap I Hp). set_solver.
  - (* unlock *) destruct (w_lock (m_os m)) as [|c0|c0|] eqn:Hl; try done.
    + destruct Hw as [-> ->]. rewrite (Hcr c0 eq_refl) in *. split; cbn; rewrite ?Hl; try done; naive_solver.
    + destruct Hw as (Hinv & _ & Hsub & ->). split; cbn; rewrite ?Hl; try done; set_solver.
  - (* rwlock_destroy *) destruct Hw as [_ ->]. by split.
  - (* pool_init *) destruct Hw as (Hp & Hinv & Hno & ->). split; cbn; try done.
    + unfold queue_blocks, queue_socks. rewrite Hno, dom_empty_L, map_to_list_empty. set_solver.
    + unfold queue_blocks. rewrite Hno, dom_empty_L. set_solver.
  - (* lock *) destruct Hw as [[Hp _] ->]. destruct (Hqa Hp) as [Hb Hk]. split; cbn; try done.
    intros Hl. specialize (Hca Hl). specialize (Hap Hl Hp). set_solver.
  - (* unlock *) destruct Hw as (q0 & Hm & ->). destruct Hm as [Hq0 _ Hinv Hb Hk].
    split; cbn; rewrite ?Hq0; try done; try set_solver.
  - (* cond_wait *) destruct Hw as (q0 & Hm & _ & ->). destruct Hm as [Hq0 _ Hinv Hb Hk].
    destruct (woken_same q) as [Eb Ek]. split; cbn; rewrite ?Hq0, ?Eb; try done; [by apply woken_inv|].
    intros Hl. specialize (Hca Hl). clear Hnext Hst Hqa Hap Hcs. set_solver.
  - (* mutex_destroy *) destruct Hw as (_ & _ & ->). by split.
  - (* cond_destroy *) destruct Hw as (_ & ->). by split.
Qed.

(** Every call gets an allowed result, and leads to a machine of this kind. *)
Theorem machine_implements : env_wf E -> opens E = false -> implements (sys E) machine_step machine_ok.
Proof.
  intros HE Hop e m w Hok. split; [by apply machine_answers|]. intros w' Hw. cbn [machine_step snd fst] in *.
  destruct (lock_call e) eqn:He; [by eapply next_lock | by eapply next_local].
Qed.

(** What a contract says is true of the run on the machine: it ends, with a
    result and a state that satisfy the postcondition. *)
Theorem machine_run {A} (p : io A) m (Q : A -> os -> Prop) :
  env_wf E -> opens E = false -> machine_ok m (m_os m) -> wp (sys E) False p (m_os m) Q ->
  exists a m', run machine_step p m = (Done a, m') /\ Q a (m_os m') /\ machine_ok m' (m_os m').
Proof.
  intros HE Hop Hok Hwp.
  destruct (wp_run_sound (sys E) machine_step machine_ok p (m_os m) m Q (machine_implements HE Hop) Hok Hwp)
    as (a & w' & m' & Hrun & Hok' & HQ).
  assert (m_os m' = w') as <- by apply Hok'. by exists a, m'.
Qed.
End machine.
