(* ===== verification/Progress.v ===== *)
(** * Threads do not block each other

    On the system of [Interleaving.v]: in every state a thread has come to the
    end of its round, can move, waits for work on an empty queue, or waits for
    a lock while somebody who holds one can move. The mutex is never asked for
    under the rwlock, so holders of the rwlock wait for nothing, and holders of
    the mutex for these at most. *)

From S2P Require Import Prelude CString Types Effects Invariants System Interleaving Machine.

(** The calls of threads at work: not those that set the locks up or take
    them down. *)
Definition serving_call (e : syscall) : bool :=
  match e with SRwInit _ | SRwDestroy _ | SPoolInit _ | SMutexDestroy | SCondDestroy => false | _ => true end.

(** On a quiet disk a read ends where the file ends. *)
Lemma quiet_stays_in E e w r w' :
  quiet E = true -> sys_answers E e w r -> sys_observe E e w r w' -> stays_in E w e r.
Proof.
  intros Hquiet. destruct e; try done; cbn [sys_answers sys_observe stays_in]; unfold stream_at.
  - intros [_ Hr] (_ & p & o & Hh & _). rewrite Hh, (Hr Hquiet p o Hh). rewrite length_take. lia.
  - intros [_ Hr] (p & o & Hh & _). rewrite Hh, (Hr Hquiet p o Hh).
    destruct (next_line_prefix (n - 1) (remaining E p o)) as [k Hk]. rewrite Hk at 2.
    rewrite length_app. destruct (next_line _ _); cbn; lia.
Qed.

(** Everything anybody owns. *)
Definition all_blocks (s : system) : gset nat :=
  ⋃ (own_blocks <$> threads s) ∪ blocks_of s CacheOf ∪ blocks_of s QueueOf.
Definition all_socks (s : system) : gset Z :=
  ⋃ (own_socks <$> threads s) ∪ socks_of s CacheOf ∪ socks_of s QueueOf.

Lemma blocks_of_all s p : blocks_of s p ⊆ all_blocks s.
Proof.
  destruct p as [i| |]; unfold all_blocks; try set_solver. cbn.
  destruct (threads s !! i) as [t|] eqn:Hi; cbn; [|set_solver].
  intros x Hx. do 2 apply elem_of_union_l. apply elem_of_union_list. exists (own_blocks t).
  split; [|done]. apply list_elem_of_fmap_2. by eapply list_elem_of_lookup_2.
Qed.

Lemma socks_of_all s p : socks_of s p ⊆ all_socks s.
Proof.
  destruct p as [i| |]; unfold all_socks; try set_solver. cbn.
  destruct (threads s !! i) as [t|] eqn:Hi; cbn; [|set_solver].
  intros x Hx. do 2 apply elem_of_union_l. apply elem_of_union_list. exists (own_socks t).
  split; [|done]. apply list_elem_of_fmap_2. by eapply list_elem_of_lookup_2.
Qed.

Section progress.
Context (E : env) `{!Shared E} (bound : nat) (Ready : nat -> Z -> os -> Prop) (Post : nat -> os -> Prop) `{!Crew bound Ready Post}.
Context (HE : env_wf E) (Hquiet : quiet E = true).

Abbreviation inv := (sys_inv E Ready Post).

(** What progress asks for besides the invariant. *)
Record runnable (t : thread) : Prop := {
  ru_streams : streams_ok E (local t);
  ru_code : only serving_call (code t);
  ru_body : forall v, only serving_call (body t v);
}.

Definition all_runnable (s : system) : Prop := forall i t, threads s !! i = Some t -> runnable t.

Lemma runnable_update s1 s i t' :
  threads s1 = threads s -> all_runnable s -> runnable t' -> all_runnable (with_thread i t' s1).
Proof.
  intros Hth Hs Ht j tj. cbn. rewrite Hth.
  intros [(_ & -> & _)|[_ Hj]]%list_lookup_insert_Some; [done | by eapply Hs].
Qed.

Lemma step_runnable i s s' : inv s -> all_runnable s -> step E bound i s s' -> all_runnable s'.
Proof.
  intros Hs Hr [t e k r w' Hi Hc Ho Hw | t q k q0 Hi Hc Ha Hm Hf | t v k j Hi Hc Hk Hj];
    destruct (Hr i t Hi) as [Hst Hco Hbo]; eapply runnable_update;
    [apply threads_shared_after | done | | reflexivity | done | by split | reflexivity | done | by split; [|apply Hbo|]].
  rewrite Hc in Hco. split; cbn [local code body]; [| apply Hco | done].
  eapply streams_kept; [done | done | | done]. eapply quiet_stays_in; [done| |done].
  by eapply offers_answers.
Qed.

Lemma moves_runnable s s' :
  inv s -> all_runnable s -> rtc (moves E bound) s s' -> all_runnable s'.
Proof.
  intros Hs Hr Hst. induction Hst as [|s1 s2 s3 [i Hi] _ IH]; [done|].
  apply IH; [by eapply step_sys_inv | by eapply step_runnable].
Qed.

(** ** A call that needs no lock *)

Lemma local_offer e w (bs : gset nat) (ss : gset Z) :
  lock_call e = false -> streams_ok E w ->
  exists r, sys_answers E e w r /\ new_blocks e r ## bs /\ new_socks e r ## ss.
Proof.
  intros He Hst. set (m := mkMachine w (mkCache [] 0) (mkPoolQueue None None 0 false ∅) [] 0).
  pose proof (local_answers E e m HE not_opens He Hst) as Hans.
  destruct e; try discriminate He;
    try (eexists; split; [exact Hans | cbn [new_blocks new_socks]; split; apply disjoint_empty_l]).
  - exists (Some (free_nat (w_heap w ∪ bs))). cbn [sys_answers new_blocks new_socks].
    pose proof (free_nat_fresh (w_heap w ∪ bs)). split_and!; set_solver.
  - exists (-1)%Z. cbn [sys_answers new_blocks new_socks]. rewrite decide_True by done.
    split_and!; [left; split; [done | exact not_opens] | apply disjoint_empty_l..].
Qed.

(** ** What a thread is up to *)

Definition can_move (s : system) (i : nat) : Prop := exists s', works E bound i s s'.

(** A thread that does not move has come to the end of its round, or waits for
    the rwlock, for the mutex, or for work. *)
Inductive status (s : system) (i : nat) (t : thread) : Prop :=
  | st_moves : can_move s i -> status s i t
  | st_over x : code t = Ret x -> status s i t
  | st_idle q : asleep t = Some q -> holder s = None -> head_ptr (sh_queue s) = None ->
      shutdown (sh_queue s) = false -> status s i t
  | st_rw j : w_lock (local t) = Unlocked -> writer s = Some j \/ j ∈ readers s -> status s i t
  | st_mutex j : holder s = Some j -> rw_free (local t) ->
      is_Some (asleep t) \/ w_pool (local t) = None -> status s i t.

Lemma call_moves s i t e k r :
  inv s -> threads s !! i = Some t -> code t = Vis e k -> offers E s t e r -> can_move s i.
Proof.
  intros Hs Hi Hc Ho. pose proof (ti_wp _ _ _ _ _ _ (si_thread _ _ _ _ Hs i t Hi)) as Hwp. rewrite Hc in Hwp.
  destruct (Hwp r) as (w' & Hw & _); [by eapply offers_answers|].
  eexists. split; [by eapply step_call | by eexists _, _, _].
Qed.

(** A call that hands nothing out can be made when its result is permitted. *)
Lemma permitted_moves s i t e k r :
  inv s -> threads s !! i = Some t -> code t = Vis e k -> permits E s t e r ->
  new_blocks e r = ∅ -> new_socks e r = ∅ -> can_move s i.
Proof.
  intros Hs Hi Hc Hp Hb Hk. eapply call_moves; [done | done | done |].
  split; [exact Hp|]. rewrite Hb, Hk. split; intros p; set_solver.
Qed.

Lemma local_moves s i t e k :
  inv s -> runnable t -> threads s !! i = Some t -> code t = Vis e k -> lock_call e = false -> can_move s i.
Proof.
  intros Hs [Hst _ _] Hi Hc He.
  destruct (local_offer e (local t) (all_blocks s) (all_socks s) He Hst) as (r & Hr & Hb & Hk).
  pose proof (blocks_of_all s). pose proof (socks_of_all s).
  assert (forall r', permits E s t e r' -> new_blocks e r' = new_blocks e r -> new_socks e r' = new_socks e r ->
    can_move s i) as Hmove.
  { intros r' Hp Eb Ek. eapply call_moves; [done | done | done |]. split; [exact Hp|].
    rewrite Eb, Ek. split; intros p; set_solver. }
  destruct e; try discriminate He; try (by apply (Hmove r)); [by apply (Hmove (sh_err s)) | by apply (Hmove false)].
Qed.

(** What the contracts say of a thread that asks for a lock. *)
Lemma rw_contract s i t e k :
  inv s -> threads s !! i = Some t -> code t = Vis e k -> e = SRdlock \/ e = SWrlock ->
  w_lock (local t) = Unlocked.
Proof.
  intros Hs Hi Hc He. pose proof (ti_wp _ _ _ _ _ _ (si_thread _ _ _ _ Hs i t Hi)) as Hwp.
  rewrite Hc in Hwp. destruct He as [-> | ->]; destruct (w_lock (local t)) eqn:Hl; try done;
    destruct (Hwp (sh_cache s)) as (w' & [Hu _] & _); try congruence; intros Hl'; congruence.
Qed.

Lemma mutex_contract s i t k :
  inv s -> threads s !! i = Some t -> code t = Vis SPoolLock k -> may_lock (local t).
Proof.
  intros Hs Hi Hc. pose proof (ti_wp _ _ _ _ _ _ (si_thread _ _ _ _ Hs i t Hi)) as Hwp.
  rewrite Hc in Hwp. destruct (Hwp (mkPoolQueue None None 0 true ∅)) as (w' & [Hm _] & _); [|done].
  intros _. apply empty_queue_visible, empty_queue_rep.
Qed.

Lemma thread_status s i t :
  inv s -> runnable t -> threads s !! i = Some t -> status s i t.
Proof.
  intros Hs Hr Hi. pose proof (si_thread _ _ _ _ Hs i t Hi) as Ht.
  pose proof (ti_wp _ _ _ _ _ _ Ht) as Hwp. destruct (code t) as [x|e k| |] eqn:Hc; try done.
  - by apply (st_over _ _ _ x).
  - clear Hwp. destruct (lock_call e) eqn:He; [|apply st_moves; by eapply local_moves].
    destruct e; try discriminate He;
      try (pose proof (ru_code _ Hr) as Ho; rewrite Hc in Ho; by destruct Ho).
    + (* rdlock *) pose proof (rw_contract s i t _ k Hs Hi Hc (or_introl eq_refl)) as Hl.
      destruct (writer s) as [j|] eqn:Hw; [apply (st_rw _ _ _ j); auto|].
      apply st_moves. by eapply (permitted_moves s i t SRdlock k (sh_cache s)).
    + (* wrlock *) pose proof (rw_contract s i t _ k Hs Hi Hc (or_intror eq_refl)) as Hl.
      destruct (writer s) as [j|] eqn:Hw; [apply (st_rw _ _ _ j); auto|].
      destruct (decide (readers s = ∅)) as [Hno|Hsome].
      * apply st_moves. by eapply (permitted_moves s i t SWrlock k (sh_cache s)).
      * apply set_choose_L in Hsome as [j Hj]. apply (st_rw _ _ _ j); auto.
    + (* unlock *) apply st_moves. by eapply (permitted_moves s i t (SRwUnlock c) k tt).
    + (* mutex *) destruct (mutex_contract s i t k Hs Hi Hc) as [Hp Hf].
      destruct (holder s) as [j|] eqn:Hh; [apply (st_mutex _ _ _ j); auto|].
      apply st_moves. by eapply (permitted_moves s i t SPoolLock k (sh_queue s)).
    + (* unlock *) apply st_moves. by eapply (permitted_moves s i t (SPoolUnlock q) k tt).
    + (* cond_wait *) destruct (asleep t) as [q'|] eqn:Ha.
      2: { destruct (wait_contract _ _ _ s i t q k Hs Hi Hc) as (Hm & Hf).
           apply st_moves. eexists. split; [by eapply step_sleep | by eexists _, _, _]. }
      destruct (ti_sleep _ _ _ _ _ _ Ht q' Ha) as (Hn & _ & Hf). rewrite Hc in Hn. injection Hn as ->.
      destruct (holder s) as [j|] eqn:Hh; [apply (st_mutex _ _ _ j); [done | done | left; by eexists]|].
      destruct (head_ptr (sh_queue s)) as [a|] eqn:Hhd.
      { apply st_moves. eapply (permitted_moves s i t (SCondWait q') k (sh_queue s)); try done.
        cbn [permits]. split_and!; [done | done | done | congruence]. }
      destruct (shutdown (sh_queue s)) eqn:Hsd.
      { apply st_moves. eapply (permitted_moves s i t (SCondWait q') k (sh_queue s)); try done.
        cbn [permits]. split_and!; [done | done | done | congruence]. }
      by apply (st_idle _ _ _ q').
Qed.

(** Between two rounds, and at its end, a thread holds no lock. *)
Lemma over_may_lock s i t x : inv s -> threads s !! i = Some t -> code t = Ret x -> may_lock (local t).
Proof.
  intros Hs Hi Hc. pose proof (ti_wp _ _ _ _ _ _ (si_thread _ _ _ _ Hs i t Hi)) as Hwp.
  rewrite Hc in Hwp. destruct x; [by eapply crew_ready | by eapply crew_post].
Qed.

(** Whoever holds the rwlock moves. *)
Lemma rw_holder_moves s j :
  inv s -> all_runnable s -> writer s = Some j \/ j ∈ readers s -> can_move s j.
Proof.
  intros Hs Hr Hj. destruct (si_holders _ _ _ _ Hs j) as [t Ht]; [tauto|].
  pose proof (si_thread _ _ _ _ Hs j t Ht) as Hti.
  assert (~ rw_free (local t)) as Hheld.
  { unfold rw_free. destruct Hj as [Hj|Hj].
    - destruct (ti_write_back _ _ _ _ _ _ Hti Hj) as [c ->]. tauto.
    - destruct (ti_read_back _ _ _ _ _ _ Hti Hj) as [c ->]. tauto. }
  destruct (thread_status s j t Hs (Hr j t Ht) Ht) as [Hm|x Hc|q Ha _ _ _|k Hl _|k _ Hf _]; [done| | | |done].
  - exfalso. apply Hheld. by eapply over_may_lock.
  - exfalso. apply Hheld. by eapply ti_sleep.
  - exfalso. apply Hheld. unfold rw_free. by rewrite Hl.
Qed.

Definition holds_lock (s : system) (j : nat) : Prop :=
  writer s = Some j \/ j ∈ readers s \/ holder s = Some j.

(** Whoever holds the mutex moves, or waits for one that moves. *)
Lemma mutex_holder_moves s j :
  inv s -> all_runnable s -> holder s = Some j -> exists k, holds_lock s k /\ can_move s k.
Proof.
  intros Hs Hr Hj. destruct (si_holders _ _ _ _ Hs j) as [t Ht]; [tauto|].
  pose proof (si_thread _ _ _ _ Hs j t Ht) as Hti.
  destruct (ti_hold_back _ _ _ _ _ _ Hti Hj) as [Ha [q Hq]]. unfold holds_lock.
  destruct (thread_status s j t Hs (Hr j t Ht) Ht) as [Hm|x Hc|q' Ha' _ _ _|k Hl Hk|k _ _ [[q' Ha']|Hn]];
    [| | congruence | | congruence | congruence].
  - exists j. tauto.
  - exfalso. destruct (over_may_lock s j t x Hs Ht Hc) as [Hn _]. congruence.
  - exists k. split; [tauto|]. by apply rw_holder_moves.
Qed.

(** A thread waits for work when there is none. *)
Definition waits_for_work (s : system) (t : thread) : Prop :=
  is_Some (asleep t) /\ holder s = None /\ head_ptr (sh_queue s) = None /\ shutdown (sh_queue s) = false.

(** No thread is left behind. *)
Theorem no_deadlock s i t :
  inv s -> all_runnable s -> threads s !! i = Some t ->
  (exists x, code t = Ret x) \/ can_move s i \/ waits_for_work s t \/
  exists j, holds_lock s j /\ can_move s j.
Proof.
  intros Hs Hr Hi.
  destruct (thread_status s i t Hs (Hr i t Hi) Hi) as [Hm|x Hc|q Ha Hh Hhd Hsd|j _ Hj|j Hj _ _];
    [tauto|by left; exists x| | |].
  - right. right. left. split_and!; [by eexists | done..].
  - do 3 right. exists j. split; [unfold holds_lock; tauto | by apply rw_holder_moves].
  - do 3 right. by eapply mutex_holder_moves.
Qed.

(** When nobody works any more, everybody has come to the end of the round or
    waits for work, and there is none. *)
Theorem at_rest s i t :
  inv s -> all_runnable s -> (forall j, ~ can_move s j) -> threads s !! i = Some t ->
  (exists x, code t = Ret x) \/ waits_for_work s t.
Proof.
  intros Hs Hr Hrest Hi.
  destruct (no_deadlock s i t Hs Hr Hi) as [?|[Hm|[?|(j & _ & Hm)]]]; [tauto| |tauto|]; by apply Hrest in Hm.
Qed.
End progress.
