(* ===== verification/Draining.v ===== *)
(** * Work runs out

    On the system of [Interleaving.v]: when no more connections come in, the
    threads that serve them, which begin one round after the other, in any
    order, come to rest. They never put anything into the queue, every round
    that is to be repeated has taken something out of it, and a round that ends
    the thread has seen the flag of the shutdown; [watched] reads that off the
    code of a round, [drains_acc] concludes. *)

From S2P Require Import Prelude CString Types Effects Invariants System Interleaving Machine Progress.

(** ** What a round does to the queue

    [held]: the size of the queue when the round has taken the mutex; [seen]:
    the round has seen the flag raised. [Q] is what is true of both when the
    program returns; the queue never gets longer. *)

Fixpoint watched {A} (Q : option Z -> bool -> A -> Prop) (held : option Z) (seen : bool) (p : io A) : Prop :=
  match p with
  | Ret a => Q held seen a
  | Vis e k =>
      match e as e0 return (result e0 -> io A) -> Prop with
      | SPoolLock => fun k => forall q, queue_inv q -> watched Q (Some (pool_size q)) (seen || shutdown q) (k q)
      | SCondWait _ => fun k => forall q, queue_inv q -> watched Q (Some (pool_size q)) (seen || shutdown q) (k q)
      | SPoolUnlock q => fun k => (forall n, held = Some n -> (pool_size q <= n)%Z) /\ watched Q None seen (k tt)
      | SReadShutdown => fun k => forall b, watched Q held (seen || b) (k b)
      | _ => fun k => forall r, watched Q held seen (k r)
      end k
  | _ => True
  end.

(** The calls that have nothing to do with the queue. *)
Definition calm (e : syscall) : bool :=
  match e with SPoolLock | SCondWait _ | SPoolUnlock _ | SReadShutdown => false | _ => true end.

Section watched.
Context {A B : Type}.
Implicit Types (p : io A).

Lemma watched_vis_calm Q held seen e (k : result e -> io A) :
  calm e = true -> watched Q held seen (Vis e k) <-> forall r, watched Q held seen (k r).
Proof. by destruct e. Qed.

Lemma watched_mono (Q Q' : option Z -> bool -> A -> Prop) held seen p :
  watched Q held seen p -> (forall h s a, Q h s a -> Q' h s a) -> watched Q' held seen p.
Proof.
  intros Hp HQ. revert held seen Hp. induction p as [a|e k IH| |]; intros held seen Hp; try done; [by apply HQ|].
  destruct e; cbn in Hp |- *; try (intros r; by apply IH, Hp); try (intros ? ?; by apply IH, Hp).
  destruct Hp as [Hn Hp]. split; [done | by apply IH].
Qed.

Lemma watched_bind (Q : option Z -> bool -> B -> Prop) (Q' : option Z -> bool -> A -> Prop) held seen
    (f : A -> io B) p :
  watched Q' held seen p -> (forall h s a, Q' h s a -> watched Q h s (f a)) -> watched Q held seen (bind f p).
Proof.
  intros Hp Hf. revert held seen Hp. induction p as [a|e k IH| |]; intros held seen Hp; try done; [by apply Hf|].
  destruct e; cbn in Hp |- *; try (intros r; by apply IH, Hp); try (intros ? ?; by apply IH, Hp).
  destruct Hp as [Hn Hp]. split; [done | by apply IH].
Qed.

(** A program that leaves the queue alone. *)
Lemma watched_calm (Q : option Z -> bool -> A -> Prop) held seen p :
  only calm p -> (forall a, Q held seen a) -> watched Q held seen p.
Proof.
  intros Hp HQ. induction p as [a|e k IH| |]; try done; [apply HQ|].
  destruct Hp as [He Hk]. apply watched_vis_calm; [done|]. intros r. by apply IH.
Qed.
End watched.

(** A loop keeps an invariant of its rounds. *)
Lemma watched_loop {S R} (I : option Z -> bool -> S -> Prop) (Q : option Z -> bool -> R -> Prop) fuel
    (body : S -> io (S + R)) held seen st :
  (forall h s x, I h s x ->
    watched (fun h' s' y => match y with inl x' => I h' s' x' | inr r => Q h' s' r end) h s (body x)) ->
  I held seen st -> watched Q held seen (loop fuel body st).
Proof.
  intros Hb. revert held seen st. induction fuel as [|n IH]; intros held seen st Hst; cbn [loop]; [done|].
  eapply watched_bind; [by apply Hb|]. intros h s [x|r] Hx; [by apply IH | exact Hx].
Qed.

(** How the round that hands [u] to the next one ends. *)
Definition ends (u : Z) (_ : option Z) (seen : bool) (x : Z + unit) : Prop :=
  match x with inl v => v = u | inr _ => seen = true end.

(** ** Sums *)

Lemma sum_list_insert (l : list nat) i x y :
  l !! i = Some y -> sum_list (<[i := x]> l) + y = sum_list l + x.
Proof.
  revert i. induction l as [|z l IH]; intros [|i]; [done | done | |].
  - intros [= ->]. change (x + sum_list l + y = y + sum_list l + x). lia.
  - intros Hi. specialize (IH i Hi). change (z + sum_list (<[i := x]> l) + y = z + sum_list l + x). lia.
Qed.

Section draining.
Context (E : env) `{!Shared E} (bound : nat) (Ready : nat -> Z -> os -> Prop) (Post : nat -> os -> Prop).
Context `{!Crew bound Ready Post}.

(** A thread that is ready for a round has taken at least as many connections
    as it has done rounds. *)
Context (Hcount : forall i v w, 2 <= i -> Ready i v w -> (v <= Z.of_nat (length (taken w)))%Z).

Abbreviation inv := (sys_inv E Ready Post).

(** The first two threads, which bring the work, begin no new round; the others
    may. *)
Definition drains (s s' : system) : Prop :=
  exists i, works E bound i s s' \/ (2 <= i /\ step E bound i s s').

Lemma drains_moves s s' : drains s s' -> moves E bound s s'.
Proof. intros [i [[Hi _]|[_ Hi]]]; by exists i. Qed.

(** ** The flag stays up *)

Lemma section_flag s s' ops :
  section_of s s' ops -> shutdown (sh_queue s) = true -> shutdown (sh_queue s') = true.
Proof.
  unfold section_of. intros H Hs.
  assert (forall op, queue_step (sh_queue s) op (sh_queue s') -> shutdown (sh_queue s') = true) as Hop.
  { intros op (l & l' & _ & _ & Hop). destruct op; destruct_and! Hop; congruence. }
  destruct (holder s), (holder s'); try (by destruct H as [-> _]). destruct H as (op & H & _). by eapply Hop.
Qed.

Lemma step_raised i s s' : inv s -> step E bound i s s' -> raised s -> raised s'.
Proof.
  intros Hs Hst [Hup|(j & tj & Hh & Hj & Hr)].
  { left. destruct (step_section _ _ _ _ _ _ _ Hs Hst) as [ops Hsec]. by eapply section_flag. }
  pose proof (si_thread _ _ _ _ Hs j tj Hj) as Htj.
  assert (forall t' s1, i <> j -> threads s1 = threads s -> holder s1 = holder s -> raised (with_thread i t' s1)) as Hother.
  { intros t' s1 Hij Hth Hh1. right. exists j, tj. cbn. rewrite Hth, Hh1, list_lookup_insert_ne by done. done. }
  assert (forall t q q0, threads s !! i = Some t -> asleep t = None -> may_release q0 q (local t) -> i = j) as Hrel.
  { intros t q q0 Hi Ha [Hq0 _ _ _ _].
    destruct (ti_hold _ _ _ _ _ _ (si_thread _ _ _ _ Hs i t Hi) q0 Hq0 Ha) as [Hh' _]. congruence. }
  destruct Hst as [t e k r w' Hi Hc Ho Hw | t q k q0 Hi Hc Ha Hm Hf | t v k n Hi Hc Hk Hn].
  - destruct (decide (i = j)) as [->|Hij].
    + assert (tj = t) as -> by congruence. rewrite Hc in Hr. cbn in Hr.
      destruct e; try done; [by left|].
      right. exists j. eexists. cbn. split; [done|]. rewrite list_lookup_insert_eq by (by eapply lookup_lt_Some).
      split; [done | apply Hr].
    + destruct Ho as [Hp _]. apply Hother; [done | apply threads_shared_after|].
      destruct e; cbn [shared_after permits] in *; try done; try (by destruct (w_lock (local t))).
      * destruct Hp; congruence.
      * destruct Hw as (q0 & Hm & _). exfalso. apply Hij. eapply Hrel; [done| |done].
        eapply awake; [by apply (si_thread _ _ _ _ Hs i t Hi) | done | done].
      * destruct Hp as (_ & ? & _). congruence.
  - assert (i = j) as -> by (by eapply Hrel). assert (tj = t) as -> by congruence. by rewrite Hc in Hr.
  - destruct (decide (i = j)) as [->|Hij]; [|by apply Hother].
    assert (tj = t) as -> by congruence. by rewrite Hc in Hr.
Qed.

(** ** What is true of a thread that takes work *)

Definition held_of (t : thread) : option Z := pool_size <$> w_pool (local t).

(** It is in the round that hands [u] on, and has taken all of the rounds
    before. *)
Record taker (s : system) (t : thread) (u : Z) : Prop := {
  tk_code : exists seen, watched (ends u) (held_of t) seen (code t) /\ (seen = true -> raised s);
  tk_took : (u <= Z.of_nat (length (took t)) + 1)%Z;
  tk_body : forall v, watched (ends (v + 1)) None false (body t v);
}.

Lemma taker_step i s s' t u : inv s -> step E bound i s s' -> taker s t u -> taker s' t u.
Proof.
  intros Hs Hst [(seen & Hw & Hr) Ht Hb]. split; [|done..]. exists seen. split; [done|].
  intros Hseen. by eapply step_raised, Hr.
Qed.

(** The other calls leave the mutex as it is. *)
Lemma observe_pool e w r w' : calm e = true \/ e = SReadShutdown -> sys_observe E e w r w' -> w_pool w' = w_pool w.
Proof.
  intros He Hw. destruct (lock_call e) eqn:Hl; [|by eapply lc_pool, observe_local].
  destruct e; try discriminate Hl; try (by destruct He); cbn in Hw; try destruct (w_lock w); try done;
    destruct_and? Hw; by subst.
Qed.

Definition queue_length (s : system) : nat := Z.to_nat (pool_size (sh_queue s)).

(** A section that leaves no more than it found takes what is missing. *)
Lemma section_length s s' ops :
  section_of s s' ops -> (pool_size (sh_queue s') <= pool_size (sh_queue s))%Z ->
  queue_length s' + length (popped ops) = queue_length s.
Proof.
  unfold section_of, queue_length. intros H Hle.
  assert (forall op, queue_step (sh_queue s) op (sh_queue s') ->
    Z.to_nat (pool_size (sh_queue s')) + length (popped [op]) = Z.to_nat (pool_size (sh_queue s))) as Hop.
  { intros op (l & l' & (k & Hk & <-) & (k' & Hk' & <-) & Hop).
    rewrite (qr_size _ _ Hk), (qr_size _ _ Hk'), <- (length_fmap snd k), <- (length_fmap snd k') in *.
    destruct op; destruct Hop as [Heq _]; rewrite Heq in *; cbn in *; rewrite ?length_app in *; cbn in *; lia. }
  destruct (holder s), (holder s'); try (destruct H as [-> ->]; cbn; lia).
  destruct H as (op & H & ->). by apply Hop.
Qed.

(** A step of such a thread brings it nearer to the end of its round, and what
    it takes is gone from the queue; or it begins the next round. *)
Lemma taker_moves i s s' t u :
  inv s -> 2 <= i -> threads s !! i = Some t -> taker s t u -> step E bound i s s' ->
  exists t' u', threads s' = <[i := t']> (threads s) /\ taker s' t' u' /\
    ((u' = u /\ nearer t' t /\ queue_length s' + length (took t') = queue_length s + length (took t)) \/
     (u' = (u + 1)%Z /\ queue_length s' = queue_length s /\ took t' = took t /\ (u <= Z.of_nat (length (took t)))%Z)).
Proof.
  intros Hs H2 Hi [(seen & Hwa & Hseen) Htk Hbo] Hst.
  pose proof (step_raised i s s' Hs Hst) as Hraised.
  destruct (step_section _ _ _ _ _ _ _ Hs Hst) as [ops Hsec].
  destruct (step_took E Ready Post bound i s s' ops Hs Hst Hsec) as (t0 & t' & Hi0 & Hth & Htook).
  assert (t0 = t) as -> by congruence. exists t'.
  pose proof (si_thread _ _ _ _ Hs i t Hi) as Hti.
  assert (took t' = took t ++ popped ops -> (u <= Z.of_nat (length (took t')) + 1)%Z) as Htk'.
  { intros ->. rewrite length_app. lia. }
  assert ((pool_size (sh_queue s') <= pool_size (sh_queue s))%Z ->
    queue_length s' + length (took t') = queue_length s + length (took t)) as Hlen.
  { intros Hle. pose proof (section_length _ _ _ Hsec Hle). rewrite Htook, length_app. lia. }
  assert (i < length (threads s)) as Hlt by by eapply lookup_lt_Some.
  destruct Hst as [t1 e k r w' Hi1 Hc Ho Hw | t1 q k q0 Hi1 Hc Ha Hm Hf | t1 v k n Hi1 Hc Hk Hn];
    assert (t1 = t) as -> by congruence; cbn [with_thread threads] in Hth; rewrite ?threads_shared_after in Hth;
    apply (f_equal (fun l => l !! i)) in Hth; rewrite !list_lookup_insert_eq in Hth by done; injection Hth as <-.
  - exists u. split; [cbn; by rewrite threads_shared_after|].
    pose proof (awake E Ready Post s i t e k Hti Hc) as Hawake. destruct Ho as [Hp _].
    assert (nearer (mkThread (body t) (k r) w' None) t) as Hnear by (left; rewrite Hc; by exists r).
    rewrite Hc in Hwa.
    assert (forall seen', watched (ends u) (held_of (mkThread (body t) (k r) w' None)) seen' (k r) ->
      (seen' = true -> raised s) -> (pool_size (sh_queue (shared_after i t e s)) <= pool_size (sh_queue s))%Z ->
      taker (with_thread i (mkThread (body t) (k r) w' None) (shared_after i t e s))
        (mkThread (body t) (k r) w' None) u /\
      ((u = u /\ nearer (mkThread (body t) (k r) w' None) t /\
        queue_length (with_thread i (mkThread (body t) (k r) w' None) (shared_after i t e s)) +
        length (took (mkThread (body t) (k r) w' None)) = queue_length s + length (took t)) \/
       (u = (u + 1)%Z /\
        queue_length (with_thread i (mkThread (body t) (k r) w' None) (shared_after i t e s)) = queue_length s /\
        took (mkThread (body t) (k r) w' None) = took t /\ (u <= Z.of_nat (length (took t)))%Z))) as Hdone.
    { intros seen' Hwa' Hs' Hle. split.
      - split; [exists seen'; auto | by apply Htk' | done].
      - left. split_and!; [done | done | by apply Hlen]. }
    destruct (calm e) eqn:Hcalm.
    + apply (Hdone seen); [| done |].
      * unfold held_of. cbn [local]. rewrite (observe_pool e _ _ _ (or_introl Hcalm) Hw). by apply watched_vis_calm.
      * destruct e; try discriminate Hcalm; cbn; try lia. destruct (w_lock (local t)); cbn; lia.
    + destruct e; try discriminate Hcalm; cbn [permits shared_after] in *; cbn [watched] in Hwa.
      * destruct Hp as [_ ->]. destruct Hw as [_ ->]. apply (Hdone (seen || shutdown (sh_queue s))).
        -- apply Hwa. apply Hs.
        -- intros [?|?]%orb_true_iff; [by apply Hseen | by left].
        -- cbn. lia.
      * destruct Hw as (q0 & Hm & ->). destruct Hwa as [Hsz Hwa]. destruct r. apply (Hdone seen); [done | done |].
        pose proof (mr_held _ _ _ Hm) as Hq0. cbn.
        destruct (ti_hold _ _ _ _ _ _ Hti q0 Hq0 (Hawake ltac:(done))) as [_ <-].
        apply Hsz. unfold held_of. by rewrite Hq0.
      * destruct Hp as (_ & _ & -> & _). destruct Hw as (q0 & _ & _ & ->). apply (Hdone (seen || shutdown (sh_queue s))).
        -- apply Hwa. apply Hs.
        -- intros [?|?]%orb_true_iff; [by apply Hseen | by left].
        -- cbn. lia.
      * apply (Hdone (seen || r)); [| |cbn; lia].
        -- unfold held_of. cbn [local]. rewrite (observe_pool _ _ _ _ (or_intror eq_refl) Hw). apply Hwa.
        -- intros [?|?]%orb_true_iff; [by apply Hseen | by apply Hp].
  - exists u. split; [done|].
    destruct (wait_contract E Ready Post s i t q k Hs Hi Hc) as [[Hq _ _ _ _] _].
    destruct (ti_hold _ _ _ _ _ _ Hti q Hq Ha) as [_ ->]. split.
    + split; [exists seen; split; [done | auto] | by apply Htk' | done].
    + left. split_and!; [done | right; split_and!; [done | done | by eexists] | by apply Hlen].
  - exists (u + 1)%Z. split; [done|]. rewrite Hc in Hwa. cbn in Hwa. subst v.
    pose proof (ti_wp _ _ _ _ _ _ Hti) as Hwp. rewrite Hc in Hwp. cbn in Hwp.
    assert (asleep t = None) as Ha by (eapply awake_call; [done | by rewrite Hc]).
    assert (took t = taken (local t)) as Htaken by by apply took_awake.
    pose proof (Hcount i u (local t) H2 Hwp) as Hcnt. rewrite <- Htaken in Hcnt.
    destruct (crew_ready i u (local t) Hwp) as [Hp0 _]. split.
    + split; [|rewrite took_awake by done; cbn; fold (taken (local t)); rewrite <- Htaken; lia | done].
      exists false. split; [|done]. unfold held_of. cbn [local set_w_wakes set_w_reads w_pool]. rewrite Hp0. apply Hbo.
    + right. split_and!; [done | done | rewrite took_awake by done; by rewrite Htaken | done].
Qed.

(** ** The measure *)

(** The threads after the first two take work; [us] says in which round each
    is. *)
Definition takers (s : system) (us : list Z) : Prop := Forall2 (taker s) (drop 2 (threads s)) us.

(** The rounds that may still begin: one for each connection that waits, and
    one for each that has been taken in the round that runs. *)
Definition rounds_left (s : system) (us : list Z) : nat :=
  queue_length s + sum_list (zip_with (fun t u => Z.to_nat (Z.of_nat (length (took t)) + 1 - u)) (drop 2 (threads s)) us).

Lemma takers_step i s s' us : inv s -> step E bound i s s' -> drop 2 (threads s') = drop 2 (threads s) ->
  takers s us -> takers s' us.
Proof.
  intros Hs Hst Hd Hus. unfold takers. rewrite Hd. eapply Forall2_impl; [exact Hus|].
  intros t u. by apply (taker_step i s).
Qed.

(** What a step of a thread that takes work does to the measure. *)
Lemma takers_moves i s s' us :
  inv s -> takers s us -> step E bound (S (S i)) s s' ->
  exists us', takers s' us' /\ take 2 (threads s') = take 2 (threads s) /\
    (rounds_left s' us' < rounds_left s us \/
     (rounds_left s' us' = rounds_left s us /\ one_nearer (drop 2 (threads s')) (drop 2 (threads s)))).
Proof.
  intros Hs Hus Hst. assert (exists t, threads s !! S (S i) = Some t) as [t Hi] by by destruct Hst; eexists.
  assert (drop 2 (threads s) !! i = Some t) as Hdi by by rewrite lookup_drop.
  destruct (Forall2_lookup_l _ _ _ _ _ Hus Hdi) as (u & Hu & Htk).
  destruct (taker_moves (S (S i)) s s' t u Hs ltac:(lia) Hi Htk Hst) as (t' & u' & Hth & Htk' & Hcase).
  assert (drop 2 (threads s') = <[i := t']> (drop 2 (threads s))) as Hd.
  { rewrite Hth. rewrite drop_insert_ge by lia. by replace (S (S i) - 2) with i by lia. }
  assert (takers s' (<[i := u']> us)) as Hus'.
  { unfold takers. rewrite Hd. apply Forall2_insert; [|done]. eapply Forall2_impl; [exact Hus|].
    intros t1 u1. by apply (taker_step (S (S i)) s). }
  exists (<[i := u']> us). split; [done|]. split; [rewrite Hth; by rewrite take_insert_ge by lia|].
  pose proof (tk_took _ _ _ Htk). pose proof (tk_took _ _ _ Htk').
  unfold rounds_left. rewrite Hd, <- insert_zip_with.
  set (l := zip_with _ (drop 2 (threads s)) us).
  assert (l !! i = Some (Z.to_nat (Z.of_nat (length (took t)) + 1 - u))) as Hl.
  { unfold l. rewrite lookup_zip_with, Hdi. cbn [mbind option_bind]. by rewrite Hu. }
  pose proof (sum_list_insert l i (Z.to_nat (Z.of_nat (length (took t')) + 1 - u')) _ Hl) as Hsum.
  destruct Hcase as [(-> & Hn & Hq)|(-> & Hq & Htt & Hle)].
  - right. split; [lia|]. by exists i, t, t'.
  - left. rewrite Htt in *. lia.
Qed.

(** A step of one of the first two brings these nearer to their ends. *)
Lemma first_moves i s s' us :
  inv s -> takers s us -> i < 2 -> works E bound i s s' ->
  takers s' us /\ one_nearer (take 2 (threads s')) (take 2 (threads s)).
Proof.
  intros Hs Hus H2 Hw. destruct (works_nearer E bound i s s' Hw) as (t & t' & Hi & Hth & Hn). split.
  - eapply takers_step; [done | apply Hw | | done]. rewrite Hth. by apply drop_insert_lt.
  - exists i, t, t'. split_and!; [by rewrite lookup_take_lt | | done]. rewrite Hth. by apply take_insert_lt.
Qed.

(** Whoever moves, also the first two in a new round. *)
Lemma step_takers i s s' us : inv s -> takers s us -> step E bound i s s' -> exists us', takers s' us'.
Proof.
  intros Hs Hus Hst. destruct i as [|[|i]]; [| |destruct (takers_moves i s s' us) as (us' & ? & _); try done; by exists us'].
  all: exists us; eapply takers_step; [done | exact Hst | | done];
    destruct (step_section _ _ _ _ _ _ _ Hs Hst) as [ops Hsec];
    destruct (step_took E Ready Post bound _ s s' ops Hs Hst Hsec) as (t & t' & _ & -> & _);
    apply drop_insert_lt; lia.
Qed.

Lemma moves_takers s s' us : inv s -> takers s us -> rtc (moves E bound) s s' -> exists us', takers s' us'.
Proof.
  intros Hs Hus Hst. revert us Hus. induction Hst as [|s1 s2 s3 [i Hi] _ IH]; intros us Hus; [by exists us|].
  destruct (step_takers i s1 s2 us Hs Hus Hi) as [us' Hus']. eapply IH; [by eapply step_sys_inv | done].
Qed.

(** Whatever the order of the steps, the work runs out: there is no endless
    sequence of them. *)
Theorem drains_acc s us : inv s -> takers s us -> Acc (fun s2 s1 => drains s1 s2) s.
Proof.
  remember (take 2 (threads s)) as a eqn:Ha. revert s us Ha.
  induction (one_nearer_wf a) as [a _ IHa]. intros s us Ha.
  remember (rounds_left s us) as n eqn:Hn. revert s us Ha Hn.
  induction n as [n IHn] using lt_wf_ind. intros s us Ha Hn.
  remember (drop 2 (threads s)) as b eqn:Hb. revert s us Ha Hn Hb.
  induction (one_nearer_wf b) as [b _ IHb]. intros s us Ha Hn Hb Hs Hus.
  constructor. intros s' Hst.
  assert (inv s') as Hs'.
  { destruct (drains_moves _ _ Hst) as [j Hj]. by eapply step_sys_inv. }
  assert ((exists i, i < 2 /\ works E bound i s s') \/ exists i, step E bound (S (S i)) s s') as Hcase.
  { destruct Hst as [i [Hw|[Hi Hw]]]; [destruct (decide (i < 2)) as [Hlt|Hge]; [left; by exists i | right]|right].
    - destruct i as [|[|i]]; [lia | lia | exists i; apply Hw].
    - destruct i as [|[|i]]; [lia | lia | by exists i]. }
  destruct Hcase as [(i & Hi & Hw)|[i Hi]].
  - destruct (first_moves i s s' us Hs Hus Hi Hw) as [Hus' Hnear].
    apply (IHa (take 2 (threads s'))) with us; [by subst a | done..].
  - destruct (takers_moves i s s' us Hs Hus Hi) as (us' & Hus' & Htake & [Hlt|[Heq Hnear]]).
    + apply (IHn (rounds_left s' us')) with us'; [by subst n | by rewrite Htake | done..].
    + apply (IHb (drop 2 (threads s'))) with us'; [by subst b | by rewrite Htake | congruence | done..].
Qed.

(** ** When nothing goes on any more *)

Context (HE : env_wf E) (Hquiet : quiet E = true) (Hbound : 1 < bound).

(** A thread that takes work waits for it, in vain, or has come to its end
    because the flag is up. *)
Lemma takers_rest s us i t :
  inv s -> all_runnable E s -> takers s us -> (forall s', ~ drains s s') -> threads s !! S (S i) = Some t ->
  waits_for_work s t \/ (code t = Ret (inr tt) /\ shutdown (sh_queue s) = true).
Proof.
  intros Hs Hr Hus Hrest Hi.
  assert (forall j, ~ can_move E bound s j) as Hstill by (intros j [s' Hj]; apply (Hrest s'); exists j; by left).
  destruct (at_rest E bound Ready Post HE Hquiet s _ t Hs Hr Hstill Hi) as [[[v|[]] Hc]|Hw]; [| |by left].
  - exfalso. eapply Hrest. exists (S (S i)). right. split; [lia|]. by apply (step_again _ _ _ _ t v 0 0); try lia.
  - right. split; [done|]. change (threads s !! (2 + i) = Some t) in Hi. rewrite <- lookup_drop in Hi.
    destruct (Forall2_lookup_l _ _ _ _ _ Hus Hi) as (u & _ & [(seen & Hwa & Hseen) _ _]).
    rewrite Hc in Hwa. destruct (Hseen Hwa) as [Hup|(j & tj & Hh & _)]; [done|]. exfalso.
    destruct (mutex_holder_moves E bound Ready Post HE Hquiet s j Hs Hr Hh) as (k & _ & Hk). by apply (Hstill k).
Qed.

(** The first two threads have come to the end of a round, the others to their
    own end or to [pthread_cond_wait], and the queue is empty: nothing goes on. *)
Definition stands_still (i : nat) (t : thread) : bool :=
  match code t with
  | Ret (inr _) => true
  | Ret (inl _) => i <? 2
  | Vis _ _ => bool_decide (is_Some (asleep t)) && (w_wakes (local t) =? 0)
  | _ => false
  end.

Definition nothing_left (s : system) : bool :=
  forallb id (imap stands_still (threads s)) &&
  bool_decide (head_ptr (sh_queue s) = None) && negb (shutdown (sh_queue s)).

Lemma nothing_left_rest s s' : inv s -> nothing_left s = true -> ~ drains s s'.
Proof.
  clear HE Hquiet Hbound Hcount. unfold nothing_left. rewrite !andb_true_iff, bool_decide_eq_true, negb_true_iff, forallb_forall.
  intros Hs [[Hall Hh] Hd] Hst.
  assert (forall i t, threads s !! i = Some t -> stands_still i t = true) as Hstill.
  { intros i t Hi. apply (Hall (stands_still i t)), list_elem_of_In, list_elem_of_lookup. exists i.
    by rewrite list_lookup_imap, Hi. }
  assert (exists i, step E bound i s s' /\ forall t v, threads s !! i = Some t -> code t = Ret (inl v) -> 2 <= i)
    as (i & Hi & Hv).
  { destruct Hst as [i [[Hw (t & e & k & Ht & Hc)]|[H2 Hw]]]; exists i; (split; [done|]); intros t' v Ht' Hc'; congruence. }
  destruct Hi as [t e k r w' Ht Hc [Hp _] _ | t q k q0 Ht Hc Ha _ _ | t v k j Ht Hc _ _]; specialize (Hstill _ t Ht);
    unfold stands_still in Hstill; rewrite Hc in Hstill.
  - apply andb_true_iff in Hstill as [[q Hq]%bool_decide_eq_true Hw0%Nat.eqb_eq].
    destruct (ti_sleep _ _ _ _ _ _ (si_thread _ _ _ _ Hs i t Ht) q Hq) as [Hn _]. rewrite Hc in Hn. injection Hn as ->.
    destruct Hp as (_ & _ & -> & Hwake). specialize (Hwake Hh Hd). lia.
  - apply andb_true_iff in Hstill as [[q' Hq]%bool_decide_eq_true _]. congruence.
  - specialize (Hv t v Ht Hc). apply Nat.ltb_lt in Hstill. lia.
Qed.
End draining.
