(* ===== verification/Schedule.v ===== *)
(** * Threads side by side, run

    The system of [Interleaving.v] under a schedule: whose turn it is is
    written down, the answers to the calls are computed, and what comes out
    can be evaluated. A schedule that is not blocked is a history of the
    system, so what is shown of all histories is true of it. *)

From S2P Require Import Prelude CString Types Effects Invariants System Interleaving Machine Progress.

(** ** The queue, read *)

(** The sockets along the links. *)
Fixpoint walk (ns : gmap nat Node) (p : option nat) (n : nat) : list Z :=
  match n, p with
  | S n', Some a => match ns !! a with Some x => socket x :: walk ns (next x) n' | None => [] end
  | _, _ => []
  end.

Definition sockets_of (q : PoolQueue) : list Z :=
  walk (nodes q) (head_ptr q) (Z.to_nat (pool_size q)).

Lemma walk_chain ns p l : chain ns p l -> walk ns p (length l) = l.*2.
Proof.
  revert p. induction l as [|[a s] l IH]; intros p; cbn [chain walk length]; [done|].
  intros (-> & x & -> & <- & Hc). by rewrite (IH _ Hc).
Qed.

Lemma sockets_of_queued q l : queued q l -> sockets_of q = l.
Proof.
  intros (k & [Hc _ Hz _ _] & <-). unfold sockets_of. rewrite Hz, Nat2Z.id. by apply walk_chain.
Qed.

(** The operation that made [q'] of [q]. *)
Definition op_between (q q' : PoolQueue) : queue_op :=
  if negb (eqb (shutdown q) (shutdown q')) then Stop
  else if decide (length (sockets_of q) < length (sockets_of q')) then Push (List.last (sockets_of q') 0%Z)
  else if decide (length (sockets_of q') < length (sockets_of q)) then Pop (List.hd 0%Z (sockets_of q))
  else Idle.

Lemma op_between_step q op q' : queue_step q op q' -> queue_step q (op_between q q') q'.
Proof.
  intros (l & l' & Hl & Hl' & Hop). exists l, l'. split_and!; [done | done|].
  unfold op_between. rewrite (sockets_of_queued _ _ Hl), (sockets_of_queued _ _ Hl').
  destruct op as [x|x| |]; destruct_and! Hop; subst;
    repeat match goal with H : shutdown _ = _ |- _ => rewrite H end.
  - rewrite eqb_reflx. cbn [negb]. rewrite decide_True by (rewrite length_app; simpl; lia).
    by rewrite List.last_last.
  - rewrite eqb_reflx. cbn [negb]. rewrite decide_False by (simpl; lia).
    by rewrite decide_True by (simpl; lia).
  - rewrite eqb_reflx. cbn [negb]. by rewrite !decide_False by lia.
  - destruct (shutdown q) eqn:Hq; cbn [eqb negb]; [|done]. rewrite !decide_False by lia. split; congruence.
Qed.

(** ** Turns *)

(** Whose turn it is, what the peer of that thread says when it is asked, and
    whether somebody wants to be connected. *)
Record turn := mkTurn { who : nat; said : bytes; called : bool }.

Section schedule.
Context (E : env) (bound : nat).

(** The thread as the machine sees it: what anybody owns is taken. *)
Definition widen (s : system) (w : os) : os :=
  set_w_heap (w_heap w ∪ all_blocks s) (set_w_socks (w_socks w ∪ all_socks s) w).

Definition seen_by (s : system) (t : thread) (u : turn) : machine :=
  mkMachine (widen s (local t)) (sh_cache s) (sh_queue s) [said u] (if called u then 1 else 0).

Definition reply (s : system) (t : thread) (u : turn) (e : syscall) : result e :=
  match e return result e with
  | SErrLoad => sh_err s
  | SRdlock | SWrlock => sh_cache s
  | SPoolLock | SCondWait _ => sh_queue s
  | e => answer E e (seen_by s t u)
  end.

(** The lock is free, the condition may have come true. *)
Definition not_blocked (s : system) (t : thread) (e : syscall) : bool :=
  match e with
  | SRdlock => bool_decide (writer s = None)
  | SWrlock => bool_decide (writer s = None) && bool_decide (readers s = ∅)
  | SPoolLock => bool_decide (holder s = None)
  | SCondWait _ => bool_decide (holder s = None) &&
      (bool_decide (head_ptr (sh_queue s) <> None) || shutdown (sh_queue s) || (0 <? w_wakes (local t)))
  | e => serving_call e
  end.

(** The thread is about to wait, and gives this queue back. *)
Definition falls_asleep (t : thread) : option PoolQueue :=
  match next_call (code t), asleep t with Some (SCondWait q), None => Some q | _, _ => None end.

Definition take_turn (s : system) (u : turn) : option system :=
  let i := who u in
  t ← threads s !! i;
  match falls_asleep t, code t with
  | Some q, _ => Some (with_thread i (mkThread (body t) (code t) (local t) (Some q))
      (mkSystem (threads s) (sh_cache s) (writer s) (readers s) q None (sh_err s)))
  | None, Ret (inl v) => Some (with_thread i
      (mkThread (body t) (body t v) (set_w_wakes (bound - 2) (set_w_reads (bound - 1) (local t))) None) s)
  | None, Vis e k =>
      if not_blocked s t e then
        let r := reply s t u e in
        Some (with_thread i (mkThread (body t) (k r) (next_os E e (local t) r) None) (shared_after i t e s))
      else None
  | None, _ => None
  end.

Definition ops_between (s s' : system) : list queue_op :=
  match holder s, holder s' with
  | Some _, None => [op_between (sh_queue s) (sh_queue s')]
  | _, _ => []
  end.

Fixpoint take_turns (s : system) (us : list turn) : option (list queue_op * system) :=
  match us with
  | [] => Some ([], s)
  | u :: us' =>
      s1 ← take_turn s u;
      '(ops, s2) ← take_turns s1 us';
      Some (ops_between s s1 ++ ops, s2)
  end.

(** ** A schedule is a history *)

Lemma widen_answers s w e r :
  lock_call e = false -> sys_answers E e (widen s w) r ->
  sys_answers E e w r /\ new_blocks e r ## all_blocks s /\ new_socks e r ## all_socks s.
Proof.
  intros He Hr. destruct e; try discriminate He; cbn [sys_answers new_blocks new_socks] in *;
    try (split; [exact Hr | split; apply disjoint_empty_l]).
  - destruct r as [a|]; cbn in Hr; set_solver.
  - case_decide as Hd; cbn in Hr; set_solver.
  - case_decide as Hd; cbn in Hr; set_solver.
Qed.

Section sound.
Context `{!Shared E} (Ready : nat -> Z -> os -> Prop) (Post : nat -> os -> Prop) `{!Crew bound Ready Post}.
Context (HE : env_wf E) (Hquiet : quiet E = true).

Abbreviation inv := (sys_inv E Ready Post).

Lemma reply_offered s i t u e k :
  inv s -> runnable E t -> threads s !! i = Some t -> code t = Vis e k ->
  not_blocked s t e = true -> (forall q, e = SCondWait q -> asleep t = Some q) ->
  offers E s t e (reply s t u e).
Proof.
  intros Hs [Hst _ _] Hi Hc Hfree Hsl.
  destruct (lock_call e) eqn:He.
  { assert (new_blocks e (reply s t u e) = ∅ /\ new_socks e (reply s t u e) = ∅) as [Hb Hk]
      by (by destruct e; try discriminate He).
    split; [|rewrite Hb, Hk; split; intros p; apply disjoint_empty_l].
    destruct e; try discriminate He; try discriminate Hfree; cbn [not_blocked permits reply] in *;
      rewrite ?andb_true_iff, ?bool_decide_eq_true in Hfree; try done; try tauto.
    destruct Hfree as [Hh Hq]. split_and!; [by apply Hsl | done | done|]. intros Hn Hd.
    rewrite Hn, Hd in Hq. cbn in Hq. destruct (w_wakes (local t)); [done | lia]. }
  assert (sys_answers E e (widen s (local t)) (answer E e (seen_by s t u))) as Ha.
  { apply (local_answers E e (seen_by s t u)); [done | exact not_opens | done | exact Hst]. }
  destruct (widen_answers s _ e _ He Ha) as (Hr & Hb & Hk).
  pose proof (blocks_of_all s). pose proof (socks_of_all s).
  assert (reply s t u e = answer E e (seen_by s t u) \/ e = SErrLoad) as Hre by (destruct e; auto; discriminate He).
  split; [|split; intros pa; destruct Hre as [-> | ->]; set_solver].
  destruct e; try discriminate He; try done. intros Hsd. by left.
Qed.

Lemma falls_asleep_spec t q :
  falls_asleep t = Some q -> asleep t = None /\ exists k, code t = Vis (SCondWait q) k.
Proof.
  unfold falls_asleep. destruct (code t) as [x|e k| |]; cbn [next_call]; try done.
  destruct e; try done. destruct (asleep t); [done|]. intros [= <-]. split; [done | by exists k].
Qed.

Lemma stays_awake t e k q :
  falls_asleep t = None -> code t = Vis e k -> e = SCondWait q -> is_Some (asleep t).
Proof. unfold falls_asleep. intros Hf Hc ->. rewrite Hc in Hf. cbn in Hf. by destruct (asleep t). Qed.

Lemma take_turn_step s u s' :
  1 < bound -> inv s -> all_runnable E s -> take_turn s u = Some s' -> step E bound (who u) s s'.
Proof.
  intros Hbound Hs Hr Ht. unfold take_turn in Ht.
  destruct (threads s !! who u) as [t|] eqn:Hi; [|done]. cbn [mbind option_bind] in Ht.
  pose proof (si_thread _ _ _ _ Hs _ t Hi) as Hti. destruct (falls_asleep t) as [q|] eqn:Hf.
  - injection Ht as <-. destruct (falls_asleep_spec t q Hf) as [Ha [k Hc]].
    destruct (wait_contract _ _ _ s _ t q k Hs Hi Hc) as [Hm Hfree]. by eapply step_sleep.
  - destruct (code t) as [[v|]|e k| |] eqn:Hc; try done.
    + injection Ht as <-. by apply step_again; [| |lia|lia].
    + destruct (not_blocked s t e) eqn:Hfree; [|done]. injection Ht as <-.
      assert (offers E s t e (reply s t u e)) as Ho.
      { apply (reply_offered s (who u) t u e k); [done | by eapply Hr | done | done | done|].
        intros q ->. destruct (stays_awake t _ k q Hf Hc eq_refl) as [q' Hq'].
        destruct (ti_sleep _ _ _ _ _ _ Hti q' Hq') as [Hn _]. rewrite Hc in Hn. by injection Hn as ->. }
      pose proof (ti_wp _ _ _ _ _ _ Hti) as Hwp. rewrite Hc in Hwp.
      destruct (Hwp (reply s t u e)) as (w' & Hw & _); [by eapply offers_answers|].
      rewrite <- (observe_next _ _ _ _ _ Hw). by eapply step_call.
Qed.

Lemma section_ops_between s s' ops : section_of s s' ops -> section_of s s' (ops_between s s').
Proof.
  unfold section_of, ops_between. intros H. destruct (holder s), (holder s'); try (by destruct H).
  destruct H as [op [Hop _]]. exists (op_between (sh_queue s) (sh_queue s')).
  split; [by eapply op_between_step | done].
Qed.

(** What a schedule leads to is reached by the history it wrote down. *)
Theorem take_turns_history s0 ops0 s us ops s' :
  1 < bound -> inv s -> all_runnable E s -> history E bound s0 ops0 s ->
  take_turns s us = Some (ops, s') -> history E bound s0 (ops0 ++ ops) s'.
Proof.
  intros Hb. revert ops0 s ops. induction us as [|u us IH]; intros ops0 s ops Hs Hr H0 Ht; cbn [take_turns] in Ht.
  { injection Ht as <- <-. by rewrite app_nil_r. }
  destruct (take_turn s u) as [s1|] eqn:H1; [|done]. cbn [mbind option_bind] in Ht.
  destruct (take_turns s1 us) as [[ops1 s2]|] eqn:H2; [|done]. cbn in Ht. injection Ht as <- <-.
  pose proof (take_turn_step s u s1 Hb Hs Hr H1) as Hst. rewrite app_assoc.
  destruct (step_section _ _ _ _ _ _ _ Hs Hst) as [ops' Hsec].
  apply (IH _ s1); [by eapply step_sys_inv | by eapply step_runnable | | done].
  eapply h_move; [done | by eexists | by eapply section_ops_between].
Qed.
End sound.
End schedule.
