(* ===== verification/Logger.v ===== *)
(** * Logging (src/logger.c) *)

From S2P Require Import Prelude CString CFormat Types Effects Invariants System.

Definition CLR_RESET : bytes := lit "\e[0m".
Definition CLR_INFO : bytes := lit "\e[32m".
Definition CLR_WARN : bytes := lit "\e[33m".
Definition CLR_ERROR : bytes := lit "\e[31m".

(** [%H], [%M] and [%S] of [strftime]. *)
Definition two_digits (n : Z) : bytes := [digit_char (n / 10); digit_char (n mod 10)].

Definition time_str (t : Z * Z * Z) : bytes :=
  let '(h, m, s) := t in
  two_digits h ++ lit ":" ++ two_digits m ++ lit ":" ++ two_digits s.

(** The two assignments of the [switch]; the enumeration leaves nothing for
    its default case. *)
Definition log_style (level : LogLevel) : bytes * bytes :=
  match level with
  | LOG_INFO => (lit "INFO", CLR_INFO)
  | LOG_WARN => (lit "WARN", CLR_WARN)
  | LOG_ERROR => (lit "ERROR", CLR_ERROR)
  end.

Definition lith_log (level : LogLevel) (fmt : bytes) (args : list farg) : io unit :=
  let! now := sys_call SClock in
  let (prefix, color) := log_style level in
  let! head := ensure (format (lit "[%s] %s[%s]%s ")
                 [FStr (time_str now); FStr color; FStr prefix; FStr CLR_RESET]) in
  sys_call (SPrint head) ;;;
  let! msg := ensure (format fmt args) in
  sys_call (SPrint msg) ;;;
  sys_call (SPrint (lit "\n")).

(** A message whose arguments fit its format leaves the ghost state alone. *)
Lemma wp_lith_log E D level fmt args msg w (Q : unit -> os -> Prop) :
  format fmt args = Some msg -> Q tt w -> wp (sys E) D (lith_log level fmt args) w Q.
Proof.
  intros Hf HQ. unfold lith_log. cbn. intros now _. exists w. split; [done|].
  destruct (log_style level) as [prefix color].
  format_step. cbn. intros [] _. exists w. split; [done|]. rewrite Hf. cbn.
  intros [] _. exists w. split; [done|]. intros [] _. by exists w.
Qed.

(** What is to be shown of a message is what is to be shown of the code behind. *)
Lemma wp_lith_log_inv E D level fmt args msg w (Q : unit -> os -> Prop) :
  format fmt args = Some msg -> wp (sys E) D (lith_log level fmt args) w Q -> Q tt w.
Proof.
  intros Hf Hwp. unfold lith_log in Hwp. cbn in Hwp. destruct (Hwp (0, 0, 0)%Z I) as (? & -> & H1).
  destruct (log_style level) as [prefix color]. revert H1.
  format_step. cbn. intros H1. destruct (H1 tt I) as (? & -> & H2). rewrite Hf in H2. cbn in H2.
  destruct (H2 tt I) as (? & -> & H3). by destruct (H3 tt I) as (? & -> & HQ).
Qed.
