(* ===== verification/HttpMessages.v ===== *)
(** * Requests as clients write them

    Rendering of HTTP messages, line by line, the reading of single headers in
    any message, and the round trip of requests with [parse_http_request]. *)

From S2P Require Import Prelude CString CFormat Types HttpParser.

(** ** Messages *)

(** Header lines, each ended by CR LF. *)
Fixpoint render_lines (ls : list bytes) : bytes :=
  match ls with
  | [] => []
  | l :: ls' => l ++ CR :: LF :: render_lines ls'
  end.

Definition render_message (ls : list bytes) (body : bytes) : bytes :=
  render_lines ls ++ CR :: LF :: body.

Definition line_ok (l : bytes) : Prop := l <> [] /\ (CR ∉ l) /\ (LF ∉ l) /\ (NUL ∉ l).

(** [n] does not occur in [s]. *)
Definition free (n s : bytes) : Prop := find_sub s n = None.

#[export] Instance free_dec n s : Decision (free n s).
Proof. unfold free. apply _. Defined.

Lemma render_lines_app a b : render_lines (a ++ b) = render_lines a ++ render_lines b.
Proof. induction a as [|l a IH]; simpl; [done|]. by rewrite IH, <- !app_assoc. Qed.

Lemma render_lines_no_nul ls : Forall line_ok ls -> no_nul (render_lines ls).
Proof.
  induction 1 as [|l ls (_ & _ & _ & Hn) _ IH]; simpl; [constructor|].
  apply no_nul_app. split; [by apply no_nul_not_elem|]. by repeat constructor.
Qed.

Lemma render_message_cstr ls body :
  Forall line_ok ls -> cstr (render_message ls body) = render_message ls (cstr body).
Proof.
  intros Hl. unfold render_message. rewrite cstr_app by by apply render_lines_no_nul. done.
Qed.

(** ** Searching a message *)

Lemma find_sub_skip c n a s :
  c ∉ a -> find_sub (a ++ s) (c :: n) = (fun i => length a + i) <$> find_sub s (c :: n).
Proof.
  induction a as [|x a IH]; intros Hc.
  - simpl. by destruct (find_sub s _).
  - apply not_elem_of_cons in Hc as [Hx Hc]. cbn [app find_sub starts_with].
    rewrite decide_False by done. rewrite IH by done. by destruct (find_sub s _).
Qed.

Lemma free_no_char c n s : c ∈ n -> c ∉ s -> free n s.
Proof.
  intros Hn Hs. apply find_sub_None. intros i [_ [k Hk]]. apply Hs.
  rewrite <- (take_drop i s), Hk.
  apply elem_of_app. right. apply elem_of_app. by left.
Qed.

Section lines.
Context (n : bytes) (HCR : CR ∉ n) (HLF : LF ∉ n) (Hnil : n <> []).

Lemma find_sub_crlf s :
  find_sub (CR :: LF :: s) n = (fun i => 2 + i) <$> find_sub s n.
Proof.
  rewrite !find_sub_stop_hd by done. by destruct (find_sub s n).
Qed.

(** A search passes over the lines that are free of the pattern. *)
Lemma find_sub_lines ls rest :
  Forall (free n) ls ->
  find_sub (render_lines ls ++ rest) n =
  (fun i => length (render_lines ls) + i) <$> find_sub rest n.
Proof.
  induction 1 as [|l ls Hl _ IH]; simpl; [by destruct (find_sub rest n)|].
  rewrite <- app_assoc. cbn [app]. rewrite find_sub_stop by done. unfold free in Hl. rewrite Hl.
  rewrite find_sub_stop_hd, IH, length_app by done. destruct (find_sub rest n); simpl; [|done]. f_equal. lia.
Qed.

Lemma find_header_line ls1 v ls2 body :
  Forall (free n) ls1 ->
  find_sub (render_message (ls1 ++ (n ++ v) :: ls2) body) n = Some (length (render_lines ls1)).
Proof.
  intros Hl. unfold render_message. rewrite render_lines_app, <- app_assoc.
  rewrite find_sub_lines by done. cbn [render_lines].
  rewrite <- !app_assoc, find_sub_here. simpl. f_equal. lia.
Qed.

Lemma find_absent ls body :
  Forall (free n) ls -> free n body -> find_sub (render_message ls body) n = None.
Proof.
  intros Hl Hb. unfold render_message. rewrite find_sub_lines by done.
  rewrite find_sub_crlf. unfold free in Hb. by rewrite Hb.
Qed.
End lines.

(** The blank line is where the lines end. *)
Lemma find_sub_crlf_next x s :
  x <> CR ->
  find_sub (CR :: LF :: x :: s) [CR; LF; CR; LF] =
  (fun i => 2 + i) <$> find_sub (x :: s) [CR; LF; CR; LF].
Proof.
  intros Hx. cbn [find_sub starts_with].
  rewrite !(decide_False (P := CR = x)) by congruence.
  rewrite !(decide_True (P := CR = CR)), !(decide_True (P := LF = LF)) by done.
  rewrite (decide_False (P := CR = LF)) by exact CR_neq_LF.
  by destruct (find_sub s _).
Qed.

Lemma find_marker l ls body :
  Forall line_ok (l :: ls) ->
  find_sub (render_message (l :: ls) body) (lit "\r\n\r\n") =
  Some (length (render_lines (l :: ls)) - 2).
Proof.
  change (lit "\r\n\r\n") with [CR; LF; CR; LF].
  unfold render_message. revert l. induction ls as [|l2 ls IH]; intros l Hok;
    pose proof (Forall_inv Hok) as (_ & Hc & _);
    cbn [render_lines]; rewrite <- app_assoc, find_sub_skip by done.
  - cbn. rewrite length_app. apply (f_equal Some). simpl. lia.
  - apply Forall_inv_tail in Hok. specialize (IH l2 Hok).
    pose proof (Forall_inv Hok) as (Hl2 & Hc2 & _). clear Hok.
    destruct l2 as [|x l2]; [done|]. apply not_elem_of_cons in Hc2 as [Hx _].
    cbn [app render_lines] in IH |- *. rewrite find_sub_crlf_next by congruence.
    rewrite IH. cbn [fmap option_fmap option_map]. apply (f_equal Some).
    rewrite !length_app. cbn [length]. rewrite !length_app. cbn [length]. lia.
Qed.

(** ** Headers in a message *)

Definition header_name (n : bytes) : Prop := (CR ∉ n) /\ (LF ∉ n) /\ n <> [] /\ no_nul n.

#[export] Instance header_name_dec n : Decision (header_name n).
Proof. unfold header_name. apply _. Defined.

Section header.
Context (n : bytes) (Hn : header_name n).

Lemma strstr_message ls1 v ls2 body :
  Forall line_ok (ls1 ++ (n ++ v) :: ls2) -> Forall (free n) ls1 ->
  strstr (render_message (ls1 ++ (n ++ v) :: ls2) body) n = Some (length (render_lines ls1)).
Proof.
  intros Hok Hf. destruct Hn as (? & ? & ? & ?). unfold strstr.
  rewrite render_message_cstr, (cstr_id n) by done. by apply find_header_line.
Qed.

Lemma strstr_absent ls body :
  Forall line_ok ls -> Forall (free n) ls -> free n (cstr body) ->
  strstr (render_message ls body) n = None.
Proof.
  intros Hok Hf Hb. destruct Hn as (? & ? & ? & ?). unfold strstr.
  rewrite render_message_cstr, (cstr_id n) by done. by apply find_absent.
Qed.

Lemma drop_header ls1 v ls2 body :
  drop (length (render_lines ls1) + length n) (render_message (ls1 ++ (n ++ v) :: ls2) body) =
  v ++ CR :: LF :: render_message ls2 body.
Proof.
  unfold render_message. rewrite render_lines_app, <- app_assoc. cbn [render_lines].
  rewrite <- drop_drop, drop_app_exact, <- !app_assoc, drop_app_exact. done.
Qed.
End header.

Lemma skip_spaces_isspace s : skip_while isspace (skip_while is_space s) = skip_while isspace s.
Proof.
  induction s as [|c s IH]; simpl; [done|]. unfold is_space at 1. case_bool_decide as Hc.
  - by rewrite IH, Hc.
  - done.
Qed.

Lemma strtol_skip_spaces s : strtol (skip_while is_space s) = strtol s.
Proof. unfold strtol. by rewrite skip_spaces_isspace. Qed.

Lemma strtol_space s : strtol (SP :: s) = strtol s.
Proof. done. Qed.

(** The spellings of the two headers the parser knows, in the order it tries
    them. *)
Definition content_length_names : list bytes :=
  [lit "Content-Length:"; lit "content-length:"; lit "CONTENT-LENGTH:"].
Definition connection_names : list bytes :=
  [lit "Connection:"; lit "connection:"; lit "CONNECTION:"].

Lemma header_names_ok : Forall header_name (content_length_names ++ connection_names).
Proof. by_compute. Qed.

(** A spelling is found unless an earlier spelling occurs anywhere in the
    message. *)
Lemma find_header_spelled n1 n2 n3 n ls1 v ls2 body :
  Forall header_name [n1; n2; n3] ->
  Forall line_ok (ls1 ++ (n ++ v) :: ls2) -> Forall (free n) ls1 ->
  let msg := render_message (ls1 ++ (n ++ v) :: ls2) body in
  n = n1 \/ (n = n2 /\ strstr msg n1 = None) \/
    (n = n3 /\ strstr msg n1 = None /\ strstr msg n2 = None) ->
  find_header msg n1 n2 n3 = Some (length (render_lines ls1)).
Proof.
  intros Hns Hok Hf msg. unfold find_header. inversion_clear Hns as [|?? H1 H23].
  inversion_clear H23 as [|?? H2 H3]. apply Forall_inv in H3.
  assert (header_name n -> strstr msg n = Some (length (render_lines ls1))) as Hm
    by (intros; by apply strstr_message).
  intros [->|[[-> E1]|(-> & E1 & E2)]]; rewrite ?E1, ?E2; by rewrite Hm.
Qed.

Lemma find_header_absent n1 n2 n3 ls body :
  Forall header_name [n1; n2; n3] -> Forall line_ok ls ->
  Forall (fun n => Forall (free n) ls /\ free n (cstr body)) [n1; n2; n3] ->
  find_header (render_message ls body) n1 n2 n3 = None.
Proof.
  intros Hns Hok Hf. unfold find_header.
  repeat match goal with H : Forall _ (_ :: _) |- _ => inversion_clear H end.
  destruct_and!. by rewrite !strstr_absent.
Qed.

Lemma parse_content_length_value ls1 v ls2 body :
  let n := lit "Content-Length:" in
  Forall line_ok (ls1 ++ (n ++ v) :: ls2) -> Forall (free n) ls1 ->
  parse_content_length (render_message (ls1 ++ (n ++ v) :: ls2) body) =
  strtol (v ++ CR :: LF :: render_message ls2 body).
Proof.
  intros n Hok Hf. unfold parse_content_length.
  rewrite (find_header_spelled _ _ _ n) by (by_compute || auto).
  rewrite strtol_skip_spaces. change 15 with (length n). by rewrite drop_header.
Qed.


(** ** The Connection header *)

Lemma tolower_nul c : is_nul (tolower c) = is_nul c.
Proof. by destruct c as [[] [] [] [] [] [] [] []]. Qed.

Lemma cstr_tolower s : cstr (tolower <$> s) = tolower <$> cstr s.
Proof.
  unfold cstr. induction s as [|c s IH]; simpl; [done|]. rewrite tolower_nul.
  destruct (is_nul c); [done|]. simpl. by f_equal.
Qed.

(** Comparison with a lower-case keyword, as [strncasecmp] makes it. *)
Definition says (k v : bytes) : bool := starts_with k (tolower <$> cstr v).

Lemma strncasecmp_says v k n :
  no_nul k -> tolower <$> k = k -> length k = n ->
  strncasecmp v k n = 0%Z <-> says k v = true.
Proof.
  intros Hk Hl Hn. unfold strncasecmp, says. rewrite Hl, strncmp_prefix by done.
  by rewrite cstr_tolower.
Qed.

Lemma parse_connection_eq buf :
  parse_connection buf =
  match find_header buf (lit "Connection:") (lit "connection:") (lit "CONNECTION:") with
  | Some k => negb (says (lit "close") (skip_while is_space (drop (k + 11) buf)))
  | None => true
  end.
Proof.
  unfold parse_connection. destruct (find_header _ _ _ _) as [k|]; [|done].
  rewrite (decide_bool _ (says (lit "close") (skip_while is_space (drop (k + 11) buf))))
    by (apply strncasecmp_says; by_compute).
  destruct (says _ _); [done|]. by case_decide.
Qed.

Lemma parse_connection_value ls1 v ls2 body :
  let n := lit "Connection:" in
  Forall line_ok (ls1 ++ (n ++ v) :: ls2) -> Forall (free n) ls1 ->
  parse_connection (render_message (ls1 ++ (n ++ v) :: ls2) body) =
  negb (says (lit "close") (skip_while is_space (v ++ CR :: LF :: render_message ls2 body))).
Proof.
  intros n Hok Hf. rewrite parse_connection_eq.
  rewrite (find_header_spelled _ _ _ n) by (by_compute || auto).
  change 11 with (length n). by rewrite drop_header.
Qed.

(** ** Requests *)

Record client_request := mkClient {
  cr_method : HttpMethod;
  cr_target : bytes;
  cr_headers : list bytes;   (* other header lines *)
  cr_length : Z;
  cr_close : bool;
  cr_body : bytes;
}.

Definition request_line (m : HttpMethod) (target : bytes) : bytes :=
  method_to_str m ++ SP :: target ++ lit " HTTP/1.1".

Definition connection_value (close : bool) : bytes :=
  if close then lit "close" else lit "keep-alive".

Definition request_lines (c : client_request) : list bytes :=
  request_line (cr_method c) (cr_target c) :: cr_headers c ++
    [lit "Content-Length:" ++ SP :: print_Z (cr_length c);
     lit "Connection:" ++ SP :: connection_value (cr_close c)].

Definition render_request (c : client_request) : bytes :=
  render_message (request_lines c) (cr_body c).

(** A request the program can read: a path that fits, a length that is a
    [long], and no earlier line that looks like one of the two headers. *)
Record client_ok (c : client_request) : Prop := {
  ok_method : cr_method c <> METHOD_UNKNOWN;
  ok_target : Forall (fun x => ends_token x = false) (cr_target c);
  ok_target_length : length (cr_target c) < MAX_PATH_SIZE;
  ok_target_colon : ":"%char ∉ cr_target c;
  ok_headers : Forall line_ok (cr_headers c);
  ok_headers_free : Forall (fun l => free (lit "Content-Length:") l /\ free (lit "Connection:") l)
                      (cr_headers c);
  ok_length : (LONG_MIN <= cr_length c <= LONG_MAX)%Z;
}.

(** What the client means by it. *)
Definition meant (c : client_request) : HttpRequest :=
  mkRequest (cr_method c) (path_array (cr_target c)) (cr_length c)
    (Some (length (render_lines (request_lines c)) + 2)) (negb (cr_close c)).

Lemma target_chars t x :
  Forall (fun x => ends_token x = false) t -> ends_token x = true -> x ∉ t.
Proof. intros Ht Hx Hin. rewrite Forall_forall in Ht. specialize (Ht x Hin). congruence. Qed.

Lemma request_line_not_elem c m t :
  c ∉ t -> c ∉ method_to_str m ++ SP :: lit " HTTP/1.1" -> c ∉ request_line m t.
Proof.
  unfold request_line. generalize (lit " HTTP/1.1"). intros k.
  rewrite !not_elem_of_app, !not_elem_of_cons, !not_elem_of_app. tauto.
Qed.

Lemma request_line_ok m t :
  Forall (fun x => ends_token x = false) t -> line_ok (request_line m t).
Proof.
  intros Ht. split_and!.
  - by destruct m.
  - apply request_line_not_elem; [by apply target_chars | destruct m; by_compute].
  - apply request_line_not_elem; [by apply target_chars | destruct m; by_compute].
  - apply request_line_not_elem; [by apply target_chars | destruct m; by_compute].
Qed.

Lemma number_line_ok n z :
  header_name n -> line_ok (n ++ SP :: print_Z z).
Proof.
  intros (HCR & HLF & Hnil & Hn%no_nul_not_elem). split_and!; [by destruct n| | |].
  all: apply not_elem_of_app; split; [done|]; apply not_elem_of_cons; split; [by_compute|].
  all: by apply print_Z_not_elem.
Qed.

Lemma request_lines_ok c : client_ok c -> Forall line_ok (request_lines c).
Proof.
  intros [Hm Ht Hl Hc Hh Hf Hlen]. unfold request_lines. constructor; [by apply request_line_ok|].
  apply Forall_app. split; [done|]. constructor; [|constructor; [|constructor]].
  - apply number_line_ok. by_compute.
  - destruct (cr_close c); by_compute.
Qed.

Lemma path_token_target t rest :
  Forall (fun x => ends_token x = false) t -> length t < MAX_PATH_SIZE ->
  path_token (t ++ SP :: rest) = t.
Proof.
  intros Ht Hl. unfold path_token. rewrite take_until_none, take_until_hd, app_nil_r by done.
  apply take_ge. unfold MAX_PATH_SIZE in *. lia.
Qed.

Lemma request_line_start m t ls body :
  render_message (request_line m t :: ls) body =
  method_to_str m ++ SP :: t ++ SP :: lit "HTTP/1.1" ++ CR :: LF :: render_message ls body.
Proof.
  unfold render_message, request_line. cbn [render_lines].
  change (lit " HTTP/1.1") with (SP :: lit "HTTP/1.1").
  by repeat (rewrite <- !app_assoc; cbn [app]).
Qed.

Lemma request_method_render m t ls body :
  m <> METHOD_UNKNOWN ->
  exists k, request_method (render_message (request_line m t :: ls) body) = Some (m, k) /\
    drop k (render_message (request_line m t :: ls) body) =
      t ++ SP :: lit "HTTP/1.1" ++ CR :: LF :: render_message ls body.
Proof. rewrite request_line_start. intros Hm. by destruct m; [exists 4 | exists 5 |]. Qed.

Lemma request_free c n :
  client_ok c -> ":"%char ∈ n -> free n (request_line (cr_method c) (cr_target c)).
Proof.
  intros [] Hn. apply (free_no_char ":"%char); [done|].
  apply request_line_not_elem; [done|]. destruct (cr_method c); by_compute.
Qed.

Lemma parse_body_start_render l ls body :
  Forall line_ok (l :: ls) ->
  parse_body_start (render_message (l :: ls) body) = Some (length (render_lines (l :: ls)) + 2).
Proof.
  intros Hok. unfold parse_body_start, strstr.
  rewrite render_message_cstr, (cstr_id (lit _)) by (done || by_compute).
  rewrite find_marker by done. cbn [fmap option_fmap option_map]. apply (f_equal Some).
  cbn [render_lines]. rewrite length_app. cbn [length]. lia.
Qed.

Lemma render_request_nonempty c : client_ok c -> render_request c <> [].
Proof.
  intros Hc H. unfold render_request, request_lines, request_line in H.
  pose proof (ok_method c Hc). by destruct (cr_method c).
Qed.

(** The parser recovers what the client meant. *)
Lemma parsed_render c : client_ok c -> parsed (render_request c) = (0%Z, meant c).
Proof.
  intros Hc. pose proof (request_lines_ok c Hc) as Hok. pose proof (request_free c) as Hfree.
  unfold parsed, render_request, meant, request_lines in *.
  set (rl := request_line (cr_method c) (cr_target c)) in *.
  set (cl := lit "Content-Length:" ++ _) in *. set (cn := lit "Connection:" ++ _) in *.
  destruct (request_method_render (cr_method c) (cr_target c) (cr_headers c ++ [cl; cn]) (cr_body c))
    as (k & Ek & Ed); [apply Hc|]. fold rl in Ek, Ed. rewrite Ek, Ed.
  rewrite path_token_target by apply Hc. do 2 f_equal.
  - pose proof (parse_content_length_value (rl :: cr_headers c) (SP :: print_Z (cr_length c)) [cn]
      (cr_body c)) as H. cbv zeta in H. fold cl in H. cbn [app] in H. rewrite H; [|done|].
    + rewrite strtol_space. apply strtol_print; [apply Hc | done].
    + constructor; [apply Hfree; [done | by_compute]|].
      apply (Forall_impl _ _ _ (ok_headers_free c Hc)). tauto.
  - by apply parse_body_start_render.
  - pose proof (parse_connection_value (rl :: cr_headers c ++ [cl])
      (SP :: connection_value (cr_close c)) [] (cr_body c)) as H.
    cbv zeta in H. fold cn in H. cbn [app] in H. rewrite <- app_assoc in H. cbn [app] in H.
    rewrite H; [|done|].
    + by destruct (cr_close c).
    + constructor; [apply Hfree; [done | by_compute]|]. apply Forall_app. split.
      * apply (Forall_impl _ _ _ (ok_headers_free c Hc)). tauto.
      * constructor; [|constructor]. apply (free_no_char "i"%char); [by_compute|].
        apply not_elem_of_app. split; [by_compute|]. apply not_elem_of_cons.
        split; [by_compute|]. by apply print_Z_not_elem.
Qed.

(** The search for a header knows three spellings, and no line boundaries: a
    name in another case is not found, a longer name is. *)
Example mixed_case_length_ignored :
  parse_content_length (lit "POST / HTTP/1.1\r\nContent-length: 5\r\n\r\nhello") = 0%Z.
Proof. vm_compute. reflexivity. Qed.

Example longer_name_taken :
  parse_content_length (lit "POST / HTTP/1.1\r\nX-Content-Length: 9\r\nContent-Length: 5\r\n\r\nhello") = 9%Z.
Proof. vm_compute. reflexivity. Qed.
