(* ===== verification/SystemRules.v ===== *)
(** * Proof rules of the system calls

    One rule per call the components make, derived from the protocol of
    [System.v]; [wp_rule] picks the rule for the next call. *)

From S2P Require Import Prelude CString CFormat Types Effects Invariants System Logger.

(** [SSL_write(ssl, s, (int)strlen(s))] *)
Definition ssl_write_str (ssl : nat) (s : bytes) : io Z :=
  sys_call (SSslWrite ssl s (to_int (Z.of_nat (strlen s)))).

Section rules.
Context (E : env) (D : Prop) {A : Type}.
Implicit Types (w : os) (Q : A -> os -> Prop).

Abbreviation wps p w Q := (wp (sys E) D p w Q).

Lemma wp_vis e (k : result e -> io A) w Q :
  (forall r, sys_answers E e w r -> exists w', sys_observe E e w r w' /\ wps (k r) w' Q) ->
  wps (bind k (sys_call e)) w Q.
Proof. done. Qed.

Lemma wp_vis_last e w (Q : result e -> os -> Prop) :
  (forall r, sys_answers E e w r -> exists w', sys_observe E e w r w' /\ Q r w') ->
  wp (sys E) D (sys_call e) w Q.
Proof. done. Qed.

Lemma wp_ensure {B} (o : option B) b (k : B -> io A) w Q :
  o = Some b -> wps (k b) w Q -> wps (bind k (ensure o)) w Q.
Proof. by intros ->. Qed.

Lemma wp_log level fmt args msg (k : unit -> io A) w Q :
  format fmt args = Some msg -> wps (k tt) w Q -> wps (bind k (lith_log level fmt args)) w Q.
Proof. intros Hf Hk. apply wp_bind. by eapply wp_lith_log. Qed.

Lemma wp_fopen p (k : option nat -> io A) w Q :
  ((quiet E = true -> disk E p = None) -> wps (k None) w Q) ->
  (forall h, h ∉ dom (w_files w) -> (quiet E = true -> is_Some (disk E p)) ->
     wps (k (Some h)) (set_w_files (<[h := (p, 0%Z)]> (w_files w)) w) Q) ->
  wps (bind k (sys_call (SFopen p))) w Q.
Proof.
  intros HN HS. apply wp_vis. intros r [Hr Hd]. cbn. eexists. split; [done|].
  destruct r as [h|].
  - apply HS; [done|]. intros Hq. apply Hd; [done|]. by exists h.
  - apply HN. intros Hq. destruct (disk E p) as [f|]; [|done].
    exfalso. destruct (proj2 (Hd Hq)) as [? ?]; [by exists f | done].
Qed.

Lemma wp_stat p (k : option file_stat -> io A) w Q :
  ((quiet E = true -> disk E p = None) -> wps (k None) w Q) ->
  (forall st, (0 <= st_size st <= max_file E)%Z ->
     (quiet E = true -> exists f, disk E p = Some f /\ st = stat_of f) ->
     wps (k (Some st)) w Q) ->
  wps (bind k (sys_call (SStat p))) w Q.
Proof.
  intros HN HS. apply wp_vis. intros r [Hr Hd]. cbn. exists w. split; [done|].
  destruct r as [st|].
  - apply HS; [by apply Hr|]. intros Hq. specialize (Hd Hq).
    destruct (disk E p) as [f|]; [|done]. exists f. split; [done|]. by inversion Hd.
  - apply HN. intros Hq. specialize (Hd Hq). by destruct (disk E p).
Qed.

Lemma wp_fseek h o p o0 (k : unit -> io A) w Q :
  w_files w !! h = Some (p, o0) ->
  wps (k tt) (set_w_files (<[h := (p, match o with
                                     | SEEK_SET => 0%Z
                                     | SEEK_END => Z.of_nat (length (remaining E p 0))
                                     end)]> (w_files w)) w) Q ->
  wps (bind k (sys_call (SFseek h o))) w Q.
Proof. intros Hh Hk. apply wp_vis. intros [] _. eexists. split; [by exists p, o0 | done]. Qed.

Lemma wp_ftell h p o (k : Z -> io A) w Q :
  w_files w !! h = Some (p, o) ->
  (forall z, (-1 <= z <= max_file E)%Z -> (regular E = true -> (0 <= z)%Z) ->
     (quiet E = true -> z = o) -> wps (k z) w Q) ->
  wps (bind k (sys_call (SFtell h))) w Q.
Proof.
  intros Hh Hk. apply wp_vis. intros z (Hz & Hr & Hq). exists w.
  split; [split; [apply elem_of_dom; eauto | done]|]. apply Hk; eauto.
Qed.

Lemma wp_fread h cap n p o (k : bytes -> io A) w Q :
  w_files w !! h = Some (p, o) -> (0 <= n <= cap)%Z ->
  (forall s, (Z.of_nat (length s) <= n)%Z ->
     (quiet E = true -> s = take (Z.to_nat n) (remaining E p o)) ->
     wps (k s) (set_w_files (<[h := (p, (o + Z.of_nat (length s))%Z)]> (w_files w)) w) Q) ->
  wps (bind k (sys_call (SFread h cap n))) w Q.
Proof.
  intros Hh Hn Hk. apply wp_vis. intros s [Hs Hq]. eexists.
  split; [split; [done | by exists p, o]|]. apply Hk; [apply Hs; lia | eauto].
Qed.

Lemma wp_fclose h (k : unit -> io A) w Q :
  h ∈ dom (w_files w) ->
  wps (k tt) (set_w_files (delete h (w_files w)) w) Q ->
  wps (bind k (sys_call (SFclose h))) w Q.
Proof. intros Hh Hk. apply wp_vis. intros [] _. by eexists. Qed.

Lemma wp_malloc n (k : option nat -> io A) w Q :
  (0 <= n)%Z ->
  (ample E = false \/ n = 0%Z -> wps (k None) w Q) ->
  (forall a, a ∉ w_heap w -> wps (k (Some a)) (set_w_heap ({[a]} ∪ w_heap w) w) Q) ->
  wps (bind k (sys_call (SMalloc n))) w Q.
Proof.
  intros Hn HN HS. apply wp_vis. intros [a|] Hr; (eexists; split; [by split|]); auto.
Qed.

Lemma wp_free a (k : unit -> io A) w Q :
  a ∈ w_heap w -> wps (k tt) (set_w_heap (w_heap w ∖ {[a]}) w) Q ->
  wps (bind k (sys_call (SFree a))) w Q.
Proof. intros Ha Hk. apply wp_vis. intros [] _. by eexists. Qed.

Lemma wp_rwinit c (k : unit -> io A) w Q :
  cache_ok E c -> owned c ⊆ w_heap w ->
  wps (k tt) (set_w_lock Unlocked (set_w_seen (Some c) (lose_cache c w))) Q ->
  wps (bind k (sys_call (SRwInit c))) w Q.
Proof. intros Hi Ho Hk. apply wp_vis. intros [] _. eexists. by split; [split_and!|]. Qed.

Lemma wp_rdlock (k : LithCache -> io A) w Q :
  w_lock w = Unlocked ->
  (forall c, cache_visible E w c ->
     wps (k c) (set_w_lock (ReadLocked c) (set_w_seen (Some c) w)) Q) ->
  wps (bind k (sys_call SRdlock)) w Q.
Proof. intros Hl Hk. apply wp_vis. intros c Hc. eexists. split; [by split | by apply Hk, Hc]. Qed.

Lemma wp_wrlock (k : LithCache -> io A) w Q :
  w_lock w = Unlocked ->
  (forall c, cache_visible E w c -> owned c ## w_heap w ->
     wps (k c) (set_w_lock (WriteLocked c) (set_w_seen (Some c) (gain_cache c w))) Q) ->
  wps (bind k (sys_call SWrlock)) w Q.
Proof. intros Hl Hk. apply wp_vis. intros c Hc. eexists. split; [by split | by apply Hk; apply Hc]. Qed.

Lemma wp_rdunlock c (k : unit -> io A) w Q :
  w_lock w = ReadLocked c ->
  wps (k tt) (set_w_lock Unlocked (set_w_crit (w_crit w ++ [(false, c, c)]) w)) Q ->
  wps (bind k (sys_call (SRwUnlock c))) w Q.
Proof. intros Hl Hk. apply wp_vis. intros [] _. cbn. rewrite Hl. by eexists. Qed.

Lemma wp_wrunlock c0 c (k : unit -> io A) w Q :
  w_lock w = WriteLocked c0 -> cache_ok E c -> cache_follows E c0 c ->
  owned c ⊆ w_heap w ->
  wps (k tt) (set_w_lock Unlocked (set_w_seen (Some c)
               (set_w_crit (w_crit w ++ [(true, c0, c)]) (lose_cache c w)))) Q ->
  wps (bind k (sys_call (SRwUnlock c))) w Q.
Proof.
  intros Hl Hi He Ho Hk. apply wp_vis. intros [] _. cbn. rewrite Hl. eexists. by split_and!.
Qed.

Lemma wp_errstore s (k : unit -> io A) w Q :
  err_page s -> wps (k tt) (set_w_err s w) Q -> wps (bind k (sys_call (SErrStore s))) w Q.
Proof. intros Hs Hk. apply wp_vis. intros [] _. by eexists. Qed.

Lemma wp_errload (k : bytes -> io A) w Q :
  err_page (w_err w) ->
  (forall s, no_nul s -> length s < 2048 -> (solo E = true -> s = w_err w) -> wps (k s) w Q) ->
  wps (bind k (sys_call SErrLoad)) w Q.
Proof.
  intros He Hk. apply wp_vis. intros s Hs. destruct (Hs He) as ([? ?] & ?).
  exists w. split; [done | auto].
Qed.

Lemma wp_ssl_write s d n (k : Z -> io A) w Q :
  s ∈ w_ssl w -> (n <= Z.of_nat (length d))%Z ->
  (peer_ok E = false \/ (n <= 0)%Z -> forall r, wps (k r) w Q) ->
  (wps (k n) (set_w_out (w_out w ++ sends d n) w) Q) ->
  wps (bind k (sys_call (SSslWrite s d n))) w Q.
Proof.
  intros Hs Hn HN HS. apply wp_vis. intros r [Hr Hp]. eexists.
  split; [by split_and!|]. case_decide as Hd.
  - assert (r = n) as -> by lia. done.
  - apply HN. destruct (peer_ok E); [|by left]. right.
    destruct (decide (0 < n)%Z); [|lia]. rewrite Hp in Hd by done. lia.
Qed.

(** The same with one continuation: what the session has received is known
    when the peer is there. *)
Lemma wp_write s d n (k : Z -> io A) w Q :
  s ∈ w_ssl w -> (0 <= n <= Z.of_nat (length d))%Z ->
  (forall z o, (peer_ok E = true -> o = w_out w ++ sends d n) ->
     wps (k z) (set_w_out o w) Q) ->
  wps (bind k (sys_call (SSslWrite s d n))) w Q.
Proof.
  intros Hs Hn Hk. assert (set_w_out (w_out w) w = w) as Hw by by destruct w.
  apply wp_ssl_write; [done | lia | |].
  - intros Hor r. rewrite <- Hw. apply Hk. intros Hp. destruct Hor as [?|?]; [congruence|].
    assert (n = 0%Z) as -> by lia. unfold sends. by rewrite take_0, app_nil_r.
  - apply Hk. done.
Qed.

Lemma wp_ssl_read s n (k : bytes -> io A) w Q :
  s ∈ w_ssl w -> (0 <= n)%Z ->
  wps (k []) (set_w_in (w_in w ++ [[]]) w) Q ->
  (forall d, d <> [] -> (Z.of_nat (length d) <= n)%Z -> 0 < w_reads w ->
     wps (k d) (set_w_in (w_in w ++ [d]) (set_w_reads (w_reads w - 1) w)) Q) ->
  wps (bind k (sys_call (SSslRead s n))) w Q.
Proof.
  intros Hs Hn HN HS. apply wp_vis. intros d [Hd Hr]. eexists. split; [by split_and!|].
  destruct d as [|c d]; [done|]. by apply HS; auto.
Qed.

Lemma wp_close s (k : unit -> io A) w Q :
  s ∈ w_socks w -> wps (k tt) (set_w_socks (w_socks w ∖ {[s]}) w) Q ->
  wps (bind k (sys_call (SClose s))) w Q.
Proof. intros Hs Hk. apply wp_vis. intros [] _. by eexists. Qed.

Lemma wp_write_str s d (k : Z -> io A) w Q :
  s ∈ w_ssl w -> no_nul d -> (Z.of_nat (length d) <= INT_MAX)%Z ->
  (forall z o, (peer_ok E = true -> o = w_out w ++ d) -> wps (k z) (set_w_out o w) Q) ->
  wps (bind k (ssl_write_str s d)) w Q.
Proof.
  intros Hs Hd Hl Hk. unfold ssl_write_str, strlen. rewrite cstr_id by done.
  rewrite to_int_id by (unfold INT_MAX in *; lia).
  apply wp_write; [done | lia |]. intros z o Ho. apply Hk. intros Hp. rewrite (Ho Hp).
  unfold sends. by rewrite Nat2Z.id, take_ge.
Qed.
End rules.

(** Projections of updated states. *)
Ltac os_simpl :=
  cbn [set_w_lock set_w_seen set_w_crit set_w_heap set_w_files set_w_err set_w_ctx set_w_ssl
       set_w_in set_w_out set_w_reads set_w_socks set_w_sent set_w_pool set_w_pcrit set_w_wakes
       set_w_threads set_w_proc set_w_setup note gain_cache lose_cache gain_queue lose_queue w_lock w_seen w_crit
       w_heap w_files w_err w_ctx w_ssl w_in w_out w_reads w_socks w_sent w_pool w_pcrit w_wakes
       w_threads w_proc w_setup] in *.

Lemma os_ext (w w' : os) :
  w_lock w = w_lock w' -> w_seen w = w_seen w' -> w_crit w = w_crit w' ->
  w_heap w = w_heap w' -> w_files w = w_files w' -> w_err w = w_err w' -> w_ctx w = w_ctx w' ->
  w_ssl w = w_ssl w' -> w_in w = w_in w' -> w_out w = w_out w' -> w_reads w = w_reads w' ->
  w_socks w = w_socks w' -> w_sent w = w_sent w' -> w_pool w = w_pool w' ->
  w_pcrit w = w_pcrit w' -> w_wakes w = w_wakes w' -> w_threads w = w_threads w' ->
  w_proc w = w_proc w' -> w_setup w = w_setup w' -> w = w'.
Proof. destruct w, w'; simpl; intros; by subst. Qed.

(** States are compared field by field. *)
Ltac os_eq := apply os_ext; os_simpl; try reflexivity.

Lemma note_nil w : note [] w = w.
Proof. os_eq. apply app_nil_r. Qed.

Lemma note_note l l' w : note l' (note l w) = note (l ++ l') w.
Proof. os_eq. symmetry. apply app_assoc. Qed.
