(* ===== verification/Utils.v ===== *)
(** * Server utilities (src/server/utils.c)

    The path filter, with what it means for the files a request can name, and
    [read_file]. *)

From S2P Require Import Prelude CString Types Effects Invariants System SystemRules.

(** ** Code *)

Definition lith_close_socket (s : Z) : io unit := sys_call (SClose s).

Definition is_safe_path (path : option bytes) : bool :=
  match path with
  | None => false
  | Some p => match strstr p (lit "..") with Some _ => false | None => true end
  end.

(** A value of type [long], or undefined behaviour on overflow. *)
Definition long_ok (z : Z) : option Z :=
  if decide (LONG_MIN <= z <= LONG_MAX)%Z then Some z else None.

(** The block returned, and the value left in [*size]. The data of the block
    are its initialised bytes: what was read, and the terminator. *)
Definition read_file (filename : bytes) (size0 : Z) : io (option block * Z) :=
  let! f := sys_call (SFopen (cstr filename)) in
  match f with
  | None => Ret (None, size0)
  | Some f =>
      sys_call (SFseek f SEEK_END) ;;;
      let! size := sys_call (SFtell f) in
      sys_call (SFseek f SEEK_SET) ;;;
      let! n := ensure (long_ok (size + 1)) in
      let! content := sys_call (SMalloc (to_size n)) in
      match content with
      | None => sys_call (SFclose f) ;;; Ret (None, size)
      | Some a =>
          let! read_elements := sys_call (SFread f (to_size n) (to_size size)) in
          let! d := ensure (if decide (Z.of_nat (length read_elements) < to_size n)%Z
                            then Some (read_elements ++ [NUL]) else None) in
          sys_call (SFclose f) ;;;
          Ret (Some (mkBlock a d), size)
      end
  end.

(** * The path filter *)

(** Path names are sequences of components separated by slashes. *)
Fixpoint components_aux (cur : bytes) (s : bytes) : list bytes :=
  match s with
  | [] => [cur]
  | c :: s' =>
      if decide (c = "/"%char) then cur :: components_aux [] s'
      else components_aux (cur ++ [c]) s'
  end.

Definition components (s : bytes) : list bytes := components_aux [] s.

(** Lexical resolution, from the directory [dir] (innermost component
    first): an empty component and [.] stay, [..] leaves the directory. *)
Definition resolve_step (dir : list bytes) (c : bytes) : list bytes :=
  if decide (c = [] \/ c = lit ".") then dir
  else if decide (c = lit "..") then tail dir
  else c :: dir.

Definition resolve (dir : list bytes) (s : bytes) : list bytes :=
  foldl resolve_step dir (components s).

(** [f] is [dir] or something below it. *)
Definition below (dir f : list bytes) : Prop := exists k, f = k ++ dir.

Lemma is_safe_path_spec p :
  is_safe_path (Some p) = true <-> forall i, ~ occurs_at (lit "..") (cstr p) i.
Proof.
  unfold is_safe_path, strstr. change (cstr (lit "..")) with (lit "..").
  rewrite <- find_sub_None. by destruct (find_sub _ _).
Qed.

Lemma components_aux_app cur a b :
  components_aux cur (a ++ "/"%char :: b) = components_aux cur a ++ components b.
Proof.
  revert cur. induction a as [|c a IH]; intros cur; cbn [app components_aux].
  - by rewrite decide_True.
  - case_decide; cbn [app]; by rewrite IH.
Qed.

Lemma components_app a b : components (a ++ "/"%char :: b) = components a ++ components b.
Proof. apply components_aux_app. Qed.

(** A component of a path occurs in it. *)
Lemma components_aux_occurs cur s c :
  c ∈ components_aux cur s -> exists i k, drop i (cur ++ s) = c ++ k /\ i <= length (cur ++ s).
Proof.
  revert cur. induction s as [|x s IH]; intros cur; cbn [components_aux].
  - intros ->%list_elem_of_singleton. exists 0, []. rewrite drop_0. split; [done | lia].
  - case_decide as Hx.
    + intros [->|Hin]%elem_of_cons.
      * exists 0, (x :: s). rewrite drop_0. split; [done | lia].
      * destruct (IH [] Hin) as (i & k & Hi & Hl). exists (length (cur ++ [x]) + i), k.
        replace (cur ++ x :: s) with ((cur ++ [x]) ++ s) by by rewrite <- app_assoc.
        rewrite <- drop_drop, drop_app_exact. split; [done|].
        rewrite (length_app (cur ++ [x])). cbn [app] in Hl. lia.
    + intros Hin. destruct (IH _ Hin) as (i & k & Hi & Hl). rewrite <- app_assoc in *.
      by exists i, k.
Qed.

Lemma foldl_resolve_below dir cs :
  Forall (fun c => c <> lit "..") cs -> below dir (foldl resolve_step dir cs).
Proof.
  intros Hcs. assert (forall d, below dir d -> below dir (foldl resolve_step d cs)) as H.
  { induction Hcs as [|c cs Hc _ IH]; intros d Hd; [done|]. cbn [foldl]. apply IH.
    unfold resolve_step. rewrite (decide_False (P := c = lit "..")) by done.
    case_decide; [done|]. destruct Hd as [k ->]. by exists (c :: k). }
  apply H. by exists [].
Qed.

Lemma safe_components p :
  is_safe_path (Some p) = true -> Forall (fun c => c <> lit "..") (components (cstr p)).
Proof.
  intros Hs. rewrite is_safe_path_spec in Hs. apply Forall_forall. intros c Hc ->.
  destruct (components_aux_occurs [] _ _ Hc) as (i & k & Hi & Hl).
  apply (Hs i). split; [done | by exists k].
Qed.

(** The file a safe path with a leading slash names, once it is appended to
    the served directory, is below that directory. *)
Lemma safe_path_below root p base dir :
  is_safe_path (Some p) = true -> cstr p = "/"%char :: base ->
  below (resolve dir root) (resolve dir (root ++ cstr p)).
Proof.
  intros Hs Hp. apply safe_components in Hs. rewrite Hp in Hs |- *.
  unfold resolve. rewrite components_app, foldl_app. apply foldl_resolve_below.
  change ("/"%char :: base) with ([] ++ "/"%char :: base) in Hs.
  rewrite components_app, Forall_app in Hs. apply Hs.
Qed.

(** The filter does not ask for the slash: a path without one is appended to
    the last component of the directory, and names something beside it. *)
Example safe_path_beside :
  is_safe_path (Some (lit "-backup/x")) = true /\
  ~ below (resolve [] (lit "public")) (resolve [] (lit "public" ++ lit "-backup/x")).
Proof.
  split; [by_compute|]. intros [k Hk]. vm_compute in Hk.
  destruct k as [|a [|b k]]; simplify_eq/=. by destruct k.
Qed.

(** * Reading files *)

Section read_file.
Context (E : env) (Hreg : regular E = true) (Hmax : (max_file E < LONG_MAX)%Z).

(** What the caller of [read_file] gets, and the state it finds. *)
Definition read_file_post (fn : bytes) (w : os) (r : option block * Z) (w' : os) : Prop :=
  match r.1 with
  | Some b =>
      w' = set_w_heap ({[addr b]} ∪ w_heap w) w /\ (addr b ∉ w_heap w) /\
      (0 <= r.2 <= max_file E)%Z /\ (Z.of_nat (length (data b)) <= r.2 + 1)%Z /\
      (quiet E = true -> exists f, disk E (cstr fn) = Some f /\
         data b = contents f ++ [NUL] /\ r.2 = Z.of_nat (length (contents f)))
  | None => w' = w /\ (quiet E = true -> ample E = true -> disk E (cstr fn) = None)
  end.

Lemma wp_read_file fn s0 (w : os) :
  wp (sys E) False (read_file fn s0) w (read_file_post fn w).
Proof.
  unfold read_file. apply wp_fopen.
  { intros Hd. split; [done|]. auto. }
  intros h Hh Hdisk. eapply wp_fseek; [os_simpl; apply lookup_insert_eq|].
  eapply wp_ftell; [os_simpl; apply lookup_insert_eq|]. intros z Hz Hz0 Hzq.
  specialize (Hz0 Hreg). eapply wp_fseek; [os_simpl; apply lookup_insert_eq|].
  eapply (wp_ensure _ _ _ (z + 1)%Z).
  { unfold long_ok. rewrite decide_True; [done|]. unfold LONG_MIN, LONG_MAX in *. lia. }
  rewrite !to_size_id by (unfold LONG_MAX in *; lia).
  apply wp_malloc; [lia| |].
  - intros Ha. apply wp_fclose; [os_simpl; apply elem_of_dom_insert|].
    os_simpl. unfold read_file_post. cbn [fst]. split.
    + os_eq. rewrite !insert_insert_eq. apply delete_insert_id. by apply not_elem_of_dom.
    + destruct Ha as [Ha|Ha]; [congruence | lia].
  - os_simpl. intros a Ha. eapply wp_fread; [os_simpl; apply lookup_insert_eq | lia|].
    intros s Hs Hsq. eapply (wp_ensure _ _ _ (s ++ [NUL])).
    { rewrite decide_True; [done | lia]. }
    apply wp_fclose; [os_simpl; apply elem_of_dom_insert|].
    os_simpl. unfold read_file_post. simpl. split_and!.
    + os_eq. rewrite !insert_insert_eq. apply delete_insert_id. by apply not_elem_of_dom.
    + done.
    + lia.
    + lia.
    + rewrite length_app. simpl. lia.
    + intros Hq. specialize (Hzq Hq). specialize (Hsq Hq). destruct (Hdisk Hq) as [f Hf].
      exists f. unfold remaining in *. rewrite Hf in *. cbn [Z.to_nat] in *.
      change (Z.to_nat 0) with 0 in *. rewrite drop_0 in *.
      split_and!; [done| |done]. by rewrite Hsq, Hzq, Nat2Z.id, take_ge by lia.
Qed.
End read_file.
