(* ===== verification/Cache.v ===== *)
(** * The static RAM cache (src/server/cache.c)

    The five operations on [LithCache], and their contract: the invariant of
    the cache, its agreement with the disk and the ownership of its heap blocks
    are preserved on every path, no stream, lock or block is leaked, and the
    list of cached resources changes as [add_result] and [reload_post] say. *)

From S2P Require Import Prelude CString CFormat Types Effects Invariants System Logger SystemRules.
From S2P Require Import HttpParser HttpContent.

(** ** Code *)

Definition reset_entry (e : CacheEntry) : CacheEntry :=
  mkEntry (filepath e) None (entry_size e) (mime_type e) 0 false.

(** The call that initialises the lock comes before the loop in the source;
    here it takes the initial state of the data the lock protects. Nothing can
    take the lock until the threads are created. *)
Definition lith_cache_init (cache : LithCache) : io LithCache :=
  let es := foldl (fun es i => alter reset_entry i es) (entries cache) (seq 0 MAX_CACHE_ENTRIES) in
  sys_call (SRwInit (mkCache es 0)) ;;;
  lith_log LOG_INFO (lit "RAM Cache subsystem initialized seamlessly.") [] ;;;
  Ret (mkCache es 0).

Definition lith_cache_add (fp mime : bytes) : io Z :=
  let! cache := sys_call SWrlock in
  if decide (MAX_CACHE_ENTRIES <= entry_count cache) then
    sys_call (SRwUnlock cache) ;;; Ret (-1)%Z
  else
  let! file := sys_call (SFopen (cstr fp)) in
  match file with
  | None => sys_call (SRwUnlock cache) ;;; Ret (-2)%Z
  | Some f =>
  let! st := sys_call (SStat (cstr fp)) in
  match st with
  | None => sys_call (SFclose f) ;;; sys_call (SRwUnlock cache) ;;; Ret (-5)%Z
  | Some st =>
  if decide (MAX_CACHE_FILE_SIZE < st_size st)%Z then
    sys_call (SFclose f) ;;;
    sys_call (SRwUnlock cache) ;;;
    lith_log LOG_WARN (lit "Cache skip: File %s too large for RAM boundaries") [FStr fp] ;;;
    Ret (-3)%Z
  else
  let! buffer := sys_call (SMalloc (to_size (st_size st))) in
  match buffer with
  | None => sys_call (SFclose f) ;;; sys_call (SRwUnlock cache) ;;; Ret (-4)%Z
  | Some a =>
  let! d := sys_call (SFread f (to_size (st_size st)) (to_size (st_size st))) in
  sys_call (SFclose f) ;;;
  let idx := entry_count cache in
  let! e := ensure (entries cache !! idx) in
  let! fp' := ensure (strncpy_term (filepath e) fp 255) in
  let! mime' := ensure (strncpy_term (mime_type e) mime 63) in
  let e' := mkEntry fp' (Some (mkBlock a d)) (Z.of_nat (length d)) mime' (st_mtime st) true in
  sys_call (SRwUnlock (mkCache (<[idx := e']> (entries cache)) (S idx))) ;;;
  lith_log LOG_INFO (lit "Cached static resource: %s (%zu bytes mapped to RAM)")
    [FStr fp; FInt (Z.of_nat (length d))] ;;;
  Ret 0%Z
  end end end.

(** The loop of [lith_cache_lookup] over [entries[i .. n)]. *)
Fixpoint find_entry (es : list CacheEntry) (n i : nat) (fp : bytes) : option nat :=
  match n, es with
  | S n', e :: es' =>
      if is_active e && bool_decide (strcmp (filepath e) fp = 0%Z) then Some i
      else find_entry es' n' (S i) fp
  | _, _ => None
  end.

(** A hit returns the cache and the index of the entry, and keeps the read
    lock. *)
Definition lith_cache_lookup (fp : bytes) : io (option (LithCache * nat)) :=
  let! cache := sys_call SRdlock in
  match find_entry (entries cache) (entry_count cache) 0 fp with
  | Some i => Ret (Some (cache, i))
  | None => sys_call (SRwUnlock cache) ;;; Ret None
  end.

(** [free(p)]; freeing NULL does nothing. *)
Definition free_content (o : option block) : io unit :=
  match o with Some b => sys_call (SFree (addr b)) | None => Ret tt end.

Definition lith_cache_hot_reload (e : CacheEntry) : io (bool * CacheEntry) :=
  let! file := sys_call (SFopen (cstr (filepath e))) in
  match file with
  | None => Ret (false, e)
  | Some f =>
  let! st := sys_call (SStat (cstr (filepath e))) in
  match st with
  | None => sys_call (SFclose f) ;;; Ret (false, e)
  | Some st =>
  let! new_content := sys_call (SMalloc (to_size (st_size st))) in
  match new_content with
  | None => sys_call (SFclose f) ;;; Ret (false, e)
  | Some a =>
  let! d := sys_call (SFread f (to_size (st_size st)) (to_size (st_size st))) in
  sys_call (SFclose f) ;;;
  free_content (content e) ;;;
  let e' := mkEntry (filepath e) (Some (mkBlock a d)) (Z.of_nat (length d)) (mime_type e)
              (st_mtime st) (is_active e) in
  lith_log LOG_INFO (lit "[HOT-RELOAD] RAM Cache updated dynamically for: %s (%zu bytes updated)")
    [FStr (filepath e); FInt (Z.of_nat (length d))] ;;;
  Ret (true, e')
  end end end.

Fixpoint free_entries (es : list CacheEntry) : io unit :=
  match es with
  | [] => Ret tt
  | e :: es' => free_content (content e) ;;; free_entries es'
  end.

(** The lock is destroyed while it is held. *)
Definition lith_cache_destroy : io unit :=
  let! cache := sys_call SWrlock in
  free_entries (take (entry_count cache) (entries cache)) ;;;
  sys_call (SRwDestroy cache).

(** * Specification *)

(** What a cache promises: a list of resources. *)
Record resource := mkResource {
  r_path : bytes;
  r_mime : bytes;
  r_data : bytes;
  r_mtime : Z;
}.

Definition entry_resource (e : CacheEntry) : resource :=
  mkResource (cstr (filepath e)) (cstr (mime_type e))
    (match content e with Some b => data b | None => [] end) (last_modified e).

Definition cache_resources (c : LithCache) : list resource :=
  entry_resource <$> take (entry_count c) (entries c).

(** The entry a lookup finds: the first with that path. *)
Definition find_resource (l : list resource) (p : bytes) : option nat :=
  fst <$> list_find (fun r => r_path r = p) l.

(** What a resource is served as: the type of its file, whose name the cache
    knows up to its 255th character. *)
Definition resource_typed (r : resource) : Prop :=
  exists p, r_path r = take 255 (cstr p) /\ r_mime r = get_mime_type (Some p).

Lemma cache_resources_inv M c r :
  cache_inv M c -> r ∈ cache_resources c -> resource_typed r /\ (Z.of_nat (length (r_data r)) <= M)%Z.
Proof.
  intros Hinv (e & -> & [i Hi]%list_elem_of_lookup)%list_elem_of_fmap.
  apply lookup_take_Some in Hi as [He Hi]. pose proof (ci_used _ _ Hinv _ _ He Hi) as Hwf.
  destruct (ewf_type _ _ Hwf) as (p & Hp & Hm). destruct (ewf_content _ _ Hwf) as (b & Hb & Hz).
  pose proof (ewf_size _ _ Hwf). unfold entry_resource. rewrite Hb. cbn [r_data]. split; [by exists p | lia].
Qed.

Lemma resource_typed_mime r :
  resource_typed r -> length (r_path r) < 255 -> r_mime r = get_mime_type (Some (r_path r)).
Proof.
  intros (p & Hp & ->) Hl. rewrite Hp in *. rewrite length_take in Hl.
  by rewrite take_ge, get_mime_type_cstr by lia.
Qed.

(** * Blocks and invariant *)

Lemma owned_blocks_app es es' : owned_blocks (es ++ es') = owned_blocks es ++ owned_blocks es'.
Proof. unfold owned_blocks. by rewrite omap_app, fmap_app. Qed.

Definition entry_blocks (e : CacheEntry) : list nat := addr <$> option_list (content e).

Lemma owned_blocks_cons e es : owned_blocks (e :: es) = entry_blocks e ++ owned_blocks es.
Proof. unfold owned_blocks, entry_blocks. simpl. by destruct (content e). Qed.

Lemma owned_blocks_lookup es i e :
  es !! i = Some e -> owned_blocks es ≡ₚ entry_blocks e ++ owned_blocks (delete i es).
Proof.
  intros Hi. rewrite <- (take_drop_middle es i e Hi) at 1.
  rewrite delete_take_drop, !owned_blocks_app, owned_blocks_cons.
  by rewrite Permutation_app_swap_app.
Qed.

Lemma owned_blocks_insert es i e e' :
  es !! i = Some e -> owned_blocks (<[i := e']> es) ≡ₚ entry_blocks e' ++ owned_blocks (delete i es).
Proof.
  intros Hi. assert (i < length es) as Hl by by eapply lookup_lt_Some.
  rewrite (owned_blocks_lookup _ i e') by by apply list_lookup_insert_eq.
  by rewrite !delete_take_drop, take_insert_ge, drop_insert_lt by lia.
Qed.

Lemma owned_insert c i e e' n :
  entries c !! i = Some e ->
  NoDup (owned_blocks (entries c)) ->
  owned (mkCache (<[i := e']> (entries c)) n) =
    list_to_set (entry_blocks e') ∪ (owned c ∖ list_to_set (entry_blocks e)).
Proof.
  intros Hi Hnd. unfold owned. cbn [entries].
  rewrite (list_to_set_perm_L _ _ (owned_blocks_insert _ i e e' Hi)), list_to_set_app_L. f_equal.
  pose proof (owned_blocks_lookup _ i e Hi) as Hp.
  rewrite (list_to_set_perm_L _ _ Hp), list_to_set_app_L.
  rewrite Hp in Hnd. apply NoDup_app in Hnd as (_ & Hd & _).
  apply set_eq. intros x. specialize (Hd x).
  rewrite elem_of_difference, elem_of_union, !elem_of_list_to_set. tauto.
Qed.

Lemma blocks_insert_nodup es i e e' :
  es !! i = Some e -> NoDup (owned_blocks es) -> NoDup (entry_blocks e') ->
  (forall a, a ∈ entry_blocks e' -> a ∉ owned_blocks es) ->
  NoDup (owned_blocks (<[i := e']> es)).
Proof.
  intros Hi Hnd He' Hfresh. rewrite (owned_blocks_insert _ i e) by done.
  rewrite (owned_blocks_lookup _ i e Hi) in Hnd. apply NoDup_app in Hnd as (_ & _ & Hnd).
  apply NoDup_app. split_and!; [done| |done]. intros a Ha Hin. apply (Hfresh a Ha).
  rewrite (owned_blocks_lookup _ i e Hi). apply elem_of_app. by right.
Qed.

(** ** Adding an entry *)

Section update.
Context (M : Z) (c : LithCache) (Hinv : cache_inv M c).

Lemma cache_lookup_lt i : i < MAX_CACHE_ENTRIES -> exists e, entries c !! i = Some e.
Proof. intros Hi. apply lookup_lt_is_Some. by rewrite (ci_length M c Hinv). Qed.

Lemma cache_inv_append e e' b :
  entries c !! entry_count c = Some e -> entry_wf M e' -> content e' = Some b ->
  (addr b ∉ owned c) ->
  cache_inv M (mkCache (<[entry_count c := e']> (entries c)) (S (entry_count c))).
Proof.
  intros He Hwf Hb Hfresh. pose proof (lookup_lt_Some _ _ _ He) as Hlt.
  destruct Hinv as [Hlen Hcnt Hu Hf Hnd]. split; cbn [entries entry_count].
  - by rewrite length_insert.
  - lia.
  - intros i x Hx Hi. destruct (decide (i = entry_count c)) as [->|Hne].
    + rewrite list_lookup_insert_eq in Hx by done. by simplify_eq.
    + rewrite list_lookup_insert_ne in Hx by done. apply (Hu i x Hx). lia.
  - intros i x Hx Hi. rewrite list_lookup_insert_ne in Hx by lia. apply (Hf i x Hx). lia.
  - apply (blocks_insert_nodup _ _ e); [done|done| |]; unfold entry_blocks; rewrite Hb; simpl.
    + apply NoDup_singleton.
    + intros a ->%list_elem_of_singleton Hin. apply Hfresh. by apply elem_of_list_to_set.
Qed.

Lemma cache_evolves_append e' :
  cache_evolves c (mkCache (<[entry_count c := e']> (entries c)) (S (entry_count c))).
Proof.
  split; cbn [entries entry_count]; [lia|]. intros i x Hi Hx. exists x.
  split; [|done]. by rewrite list_lookup_insert_ne by lia.
Qed.

Lemma cache_resources_append e' :
  entry_count c < MAX_CACHE_ENTRIES ->
  cache_resources (mkCache (<[entry_count c := e']> (entries c)) (S (entry_count c))) =
  cache_resources c ++ [entry_resource e'].
Proof.
  intros Hlt. unfold cache_resources. cbn [entries entry_count].
  rewrite (take_S_r _ _ e') by (apply list_lookup_insert_eq; by rewrite (ci_length M c Hinv)).
  by rewrite take_insert_ge, fmap_app by done.
Qed.

(** ** Replacing the content of an entry *)

Lemma cache_inv_replace i e e' b :
  entries c !! i = Some e -> i < entry_count c -> entry_wf M e' -> content e' = Some b ->
  (addr b ∉ owned c) ->
  cache_inv M (mkCache (<[i := e']> (entries c)) (entry_count c)).
Proof.
  intros He Hi Hwf Hb Hfresh. pose proof (lookup_lt_Some _ _ _ He) as Hlt.
  destruct Hinv as [Hlen Hcnt Hu Hf Hnd]. split; cbn [entries entry_count].
  - by rewrite length_insert.
  - lia.
  - intros j x Hx Hj. destruct (decide (j = i)) as [->|Hne].
    + rewrite list_lookup_insert_eq in Hx by done. by simplify_eq.
    + rewrite list_lookup_insert_ne in Hx by done. by apply (Hu j x Hx).
  - intros j x Hx Hj. rewrite list_lookup_insert_ne in Hx by lia. by apply (Hf j x Hx).
  - apply (blocks_insert_nodup _ _ e); [done|done| |]; unfold entry_blocks; rewrite Hb; simpl.
    + apply NoDup_singleton.
    + intros a ->%list_elem_of_singleton Hin. apply Hfresh. by apply elem_of_list_to_set.
Qed.

Lemma cache_evolves_replace i e e' :
  entries c !! i = Some e -> same_key e e' ->
  cache_evolves c (mkCache (<[i := e']> (entries c)) (entry_count c)).
Proof.
  intros He Hk. split; cbn [entries entry_count]; [lia|]. intros j x Hj Hx.
  destruct (decide (j = i)) as [->|Hne].
  - exists e'. simplify_eq. split; [|done]. apply list_lookup_insert_eq.
    by eapply lookup_lt_Some.
  - exists x. split; [|done]. by rewrite list_lookup_insert_ne by done.
Qed.

Lemma cache_resources_replace i e' :
  i < entry_count c ->
  cache_resources (mkCache (<[i := e']> (entries c)) (entry_count c)) =
  <[i := entry_resource e']> (cache_resources c).
Proof.
  intros Hi. unfold cache_resources. cbn [entries entry_count].
  by rewrite take_insert_lt, list_fmap_insert by done.
Qed.
End update.

(** * Contracts *)

Section contracts.
Context (E : env).

(** ** What a change of one slot must keep *)

Lemma cache_ok_append c e e' b :
  cache_ok E c -> entries c !! entry_count c = Some e -> entry_wf (max_file E) e' -> content e' = Some b ->
  (addr b ∉ owned c) -> (quiet E = true -> entry_true E e') ->
  cache_ok E (mkCache (<[entry_count c := e']> (entries c)) (S (entry_count c))).
Proof.
  intros [Hinv Htrue] He Hwf Hb Ha Hnew. split; [by eapply cache_inv_append|].
  intros Hq i x. cbn [entries entry_count]. intros [(<- & -> & _)|[Hne Hx]]%list_lookup_insert_Some Hi;
    [by apply Hnew|]. apply (Htrue Hq i x Hx). lia.
Qed.

Lemma cache_follows_append c e' :
  cache_follows E c (mkCache (<[entry_count c := e']> (entries c)) (S (entry_count c))).
Proof.
  split; [by apply cache_evolves_append|]. intros _ i x x' Hi Hx. cbn [entries].
  rewrite list_lookup_insert_ne by lia. intros Hx'. by simplify_eq.
Qed.

Lemma cache_ok_replace c i e e' b :
  cache_ok E c -> entries c !! i = Some e -> i < entry_count c -> entry_wf (max_file E) e' ->
  content e' = Some b -> (addr b ∉ owned c) -> (quiet E = true -> entry_true E e') ->
  cache_ok E (mkCache (<[i := e']> (entries c)) (entry_count c)).
Proof.
  intros [Hinv Htrue] He Hi Hwf Hb Ha Hnew. split; [by eapply cache_inv_replace|].
  intros Hq j x. cbn [entries entry_count]. intros [(<- & -> & _)|[Hne Hx]]%list_lookup_insert_Some Hj;
    [by apply Hnew|]. by apply (Htrue Hq j x Hx).
Qed.

Lemma cache_follows_replace c i e e' :
  entries c !! i = Some e -> same_key e e' -> (quiet E = true -> entry_fresh E e') ->
  cache_follows E c (mkCache (<[i := e']> (entries c)) (entry_count c)).
Proof.
  intros He Hk Hf. split; [by eapply cache_evolves_replace|]. intros Hq j x x' Hj Hx. cbn [entries].
  intros [(<- & -> & _)|[Hne Hx']]%list_lookup_insert_Some Hfx; [by apply Hf | by simplify_eq].
Qed.

(** An entry read from the file of its name. *)
Lemma entry_read e a d :
  content e = Some (mkBlock a d) ->
  (strlen (filepath e) < 255 -> disk E (cstr (filepath e)) = Some (mkFile d (last_modified e))) ->
  entry_true E e.
Proof. intros Hc Hd Hl f Hf _. rewrite (Hd Hl) in Hf. injection Hf as <-. by rewrite Hc. Qed.

(** A critical section for writing that left [w] as it was, apart from the
    cache: [c0] before, [c1] after. *)
Definition cache_section (c0 c1 : LithCache) (w : os) : os :=
  set_w_seen (Some c1) (set_w_crit (w_crit w ++ [(true, c0, c1)]) w).

Lemma heap_section (c0 : LithCache) (H : gset nat) :
  owned c0 ## H -> (H ∪ owned c0) ∖ owned c0 = H.
Proof. intros Hd. apply set_eq. intros x. specialize (Hd x). set_solver. Qed.

Lemma wp_wrunlock_same D {A} c (k : unit -> io A) w Q :
  cache_visible E w c -> owned c ## w_heap w -> w_lock w = Unlocked ->
  wp (sys E) D (k tt) (cache_section c c w) Q ->
  wp (sys E) D (bind k (sys_call (SRwUnlock c)))
    (set_w_lock (WriteLocked c) (set_w_seen (Some c) (gain_cache c w))) Q.
Proof.
  intros Hv Hd Hl Hk. eapply (wp_wrunlock E D c c); os_simpl;
    [done | apply Hv | done | apply union_subseteq_r |].
  replace (set_w_lock _ _) with (cache_section c c w); [done|].
  os_eq; [done | by rewrite heap_section].
Qed.

(** Leaving with a stream still open. *)
Definition locked (c : LithCache) (w : os) : os :=
  set_w_lock (WriteLocked c) (set_w_seen (Some c) (gain_cache c w)).

Lemma wp_fclose_same D {A} f x (k : unit -> io A) (w : os) Q :
  f ∉ dom (w_files w) ->
  wp (sys E) D (k tt) w Q ->
  wp (sys E) D (bind k (sys_call (SFclose f))) (set_w_files (<[f := x]> (w_files w)) w) Q.
Proof.
  intros Hf Hk. apply wp_fclose; [os_simpl; apply elem_of_dom_insert|].
  replace (set_w_files _ _) with w; [done|].
  os_eq. symmetry. apply delete_insert_id. by apply not_elem_of_dom.
Qed.

(** ** Initialisation *)

(** The storage a cache is initialised in. *)
Definition cache_storage (c : LithCache) : Prop :=
  length (entries c) = MAX_CACHE_ENTRIES /\
  Forall (fun e => length (filepath e) = 256 /\ length (mime_type e) = 64) (entries c).

Lemma reset_all es k : foldl (fun es i => alter reset_entry i es) es (seq k (length es - k)) =
  take k es ++ (reset_entry <$> drop k es).
Proof.
  remember (length es - k) as n eqn:Hn. revert k es Hn.
  induction n as [|n IH]; intros k es Hn; cbn [seq foldl].
  - rewrite take_ge, drop_ge by lia. by rewrite app_nil_r.
  - rewrite IH by (rewrite length_alter; lia).
    destruct (lookup_lt_is_Some_2 es k) as [e He]; [lia|].
    rewrite (drop_S es e) by done. cbn [fmap list_fmap].
    rewrite (take_S_r _ _ (reset_entry e)) by by rewrite list_lookup_alter_eq, He.
    rewrite <- app_assoc. cbn [app]. f_equal; [by apply take_alter_ge|].
    by rewrite drop_alter_lt by lia.
Qed.

Lemma wp_lith_cache_init c (w : os) :
  cache_storage c ->
  wp (sys E) False (lith_cache_init c) w (fun c' w' =>
    w' = set_w_lock Unlocked (set_w_seen (Some c') w) /\
    cache_ok E c' /\ cache_resources c' = [] /\ owned c' = ∅).
Proof.
  intros [Hlen Hs]. unfold lith_cache_init.
  pose proof (reset_all (entries c) 0) as Hr. rewrite Nat.sub_0_r, Hlen, drop_0, take_0, app_nil_l in Hr.
  rewrite Hr.
  set (c' := mkCache (reset_entry <$> entries c) 0).
  assert (owned_blocks (entries c') = []) as Hb.
  { unfold c'. clear. unfold owned_blocks. cbn [entries]. by induction (entries c). }
  assert (owned c' = ∅) as Ho by (unfold owned; by rewrite Hb).
  assert (cache_ok E c') as Hinv.
  { split; [|intros _ i e _ Hi; cbn in Hi; lia]. split; cbn [entries entry_count c'].
    - by rewrite length_fmap.
    - lia.
    - intros i e _ Hi. lia.
    - intros i e He _. rewrite list_lookup_fmap, fmap_Some in He.
      destruct He as (e0 & He0 & ->). rewrite Forall_lookup in Hs. by destruct (Hs i e0 He0).
    - change (NoDup (owned_blocks (entries c'))). rewrite Hb. constructor. }
  assert (cache_resources c' = []) as Hr0 by reflexivity. clearbody c'.
  apply wp_rwinit; [done | rewrite Ho; apply empty_subseteq |].
  eapply wp_log; [by format_step|]. split_and!; [|done|done|done].
  os_eq. by rewrite Ho, difference_empty_L.
Qed.


(** ** Lookup *)

Lemma find_entry_from es n i fp :
  Forall (fun e => is_active e = true) (take n es) ->
  find_entry es n i fp =
  (fun k => i + k) <$> find_resource (entry_resource <$> take n es) (cstr fp).
Proof.
  revert n i. induction es as [|e es IH]; intros [|n] i Ha; [done..|].
  cbn [take] in Ha. inversion_clear Ha as [|?? He Hes]. cbn [find_entry take fmap list_fmap].
  rewrite He. cbn [andb]. unfold find_resource in *. cbn [list_find].
  rewrite (bool_decide_ext _ _ (strcmp_eq (filepath e) fp)).
  change (r_path (entry_resource e)) with (cstr (filepath e)).
  case_bool_decide as Hp; [rewrite decide_True by done | rewrite decide_False by done].
  - simpl. by rewrite Nat.add_0_r.
  - rewrite IH by done. destruct (list_find _ _) as [[k r]|]; simpl; [|done].
    by rewrite Nat.add_succ_r.
Qed.

Lemma find_entry_spec M c fp :
  cache_inv M c ->
  find_entry (entries c) (entry_count c) 0 fp = find_resource (cache_resources c) (cstr fp).
Proof.
  intros Hinv. rewrite find_entry_from.
  - unfold cache_resources. by destruct (find_resource _ _).
  - apply Forall_lookup. intros i e Hi. apply lookup_take_Some in Hi as [Hi Hlt].
    by apply (ci_used _ _ Hinv _ _ Hi Hlt).
Qed.

Definition lookup_post (fp : bytes) (w : os) (r : option (LithCache * nat)) (w' : os) : Prop :=
  exists c, cache_visible E w c /\
  match r with
  | Some (c', i) => c' = c /\ find_resource (cache_resources c) (cstr fp) = Some i /\
      w' = set_w_lock (ReadLocked c) (set_w_seen (Some c) w)
  | None => find_resource (cache_resources c) (cstr fp) = None /\
      w' = set_w_seen (Some c) (set_w_crit (w_crit w ++ [(false, c, c)]) w)
  end.

Lemma wp_lith_cache_lookup fp (w : os) :
  w_lock w = Unlocked -> wp (sys E) False (lith_cache_lookup fp) w (lookup_post fp w).
Proof.
  intros Hl. unfold lith_cache_lookup. apply wp_rdlock; [done|]. intros c Hv.
  rewrite (find_entry_spec _ _ _ (proj1 Hv)).
  destruct (find_resource _ _) as [i|] eqn:Hf.
  - exists c. by split_and!.
  - apply wp_rdunlock; [done|]. exists c. split_and!; [done|done|]. by os_eq.
Qed.

(** ** Destruction *)

Lemma wp_free_entries D {A} es (k : unit -> io A) (w : os) Q :
  NoDup (owned_blocks es) -> (list_to_set (owned_blocks es) ⊆ w_heap w) ->
  wp (sys E) D (k tt) (set_w_heap (w_heap w ∖ list_to_set (owned_blocks es)) w) Q ->
  wp (sys E) D (bind k (free_entries es)) w Q.
Proof.
  revert w. induction es as [|e es IH]; intros w Hnd Hsub Hk.
  - simpl. replace w with (set_w_heap (w_heap w ∖ list_to_set (owned_blocks [])) w); [done|].
    os_eq. change (w_heap w ∖ ∅ = w_heap w). set_solver.
  - rewrite owned_blocks_cons in *. unfold entry_blocks in *. cbn [free_entries].
    destruct (content e) as [b|]; simpl in Hnd, Hsub, Hk; cbn [free_content].
    + inversion_clear Hnd as [|?? Hb Hnd']. apply wp_bind, wp_free; [set_solver|].
      apply (wp_bind_inv _ D (free_entries es) k). apply IH; os_simpl; [done| |].
      * rewrite <- (elem_of_list_to_set (C := gset nat)) in Hb. set_solver.
      * match goal with |- wp _ _ _ ?v _ => match type of Hk with wp _ _ _ ?v' _ =>
          replace v with v' end end; [done|]. os_eq. set_solver.
    + by apply IH.
Qed.

Lemma owned_blocks_used M c :
  cache_inv M c -> owned_blocks (take (entry_count c) (entries c)) = owned_blocks (entries c).
Proof.
  intros Hinv. rewrite <- (take_drop (entry_count c) (entries c)) at 2.
  rewrite owned_blocks_app. assert (owned_blocks (drop (entry_count c) (entries c)) = []) as ->.
  { assert (Forall (fun e => content e = None) (drop (entry_count c) (entries c))) as H.
    { apply Forall_lookup. intros i e Hi. rewrite lookup_drop in Hi.
      apply (ci_free _ _ Hinv _ _ Hi). lia. }
    induction H as [|e es He _ IH]; [done|]. rewrite owned_blocks_cons. unfold entry_blocks.
    by rewrite He. }
  by rewrite app_nil_r.
Qed.

(** Every block of the cache is freed, once. *)
Lemma wp_free_all c (w : os) :
  cache_visible E w c -> owned c ## w_heap w ->
  wp (sys E) False (free_entries (take (entry_count c) (entries c))) (locked c w)
    (fun _ w' => w' = set_w_lock (WriteLocked c) (set_w_seen (Some c) w)).
Proof.
  intros [Hinv _] Hd. apply (wp_bind_inv _ False _ Ret).
  apply wp_free_entries; rewrite ?(owned_blocks_used _ _ Hinv); [apply Hinv | |].
  - unfold locked. os_simpl. apply union_subseteq_r.
  - cbn [wp]. unfold locked. os_eq. by apply heap_section.
Qed.

(** Freeing always comes to an end, and leaves the lock alone. *)
Lemma free_entries_runs es (w : os) (Q : unit -> os -> Prop) :
  wp (sys E) False (free_entries es) w Q -> exists w', Q tt w' /\ w_lock w' = w_lock w.
Proof.
  revert w. induction es as [|e es IH]; intros w Hwp; [by exists w|].
  cbn [free_entries] in Hwp. apply wp_bind_inv in Hwp. destruct (content e) as [b|].
  - destruct (Hwp tt I) as (w1 & [_ ->] & Hk). destruct (IH _ Hk) as (w' & HQ & Hl).
    by exists w'.
  - by apply IH.
Qed.

Context (c : LithCache) (w : os) (Hl : w_lock w = Unlocked) (Hv : cache_visible E w c)
  (Hd : owned c ## w_heap w).

(** The destruction itself is outside of the contract of
    [pthread_rwlock_destroy]: the lock is held. *)
Lemma lith_cache_destroy_held :
  lenient E = false -> ~ wp (sys E) False lith_cache_destroy w (fun _ _ => True).
Proof.
  intros Hlen Hwp. unfold lith_cache_destroy in Hwp. cbn [bind sys_call call wp] in Hwp.
  destruct (Hwp c (fun _ => conj Hv Hd)) as (w1 & [_ ->] & H).
  apply wp_bind_inv in H. destruct (free_entries_runs _ _ _ H) as (w2 & H2 & Hl2).
  cbn [call wp] in H2. destruct (H2 tt I) as (w3 & [[H3|H3] _] & _); [by rewrite Hl2 in H3 | congruence].
Qed.

End contracts.

(** A library that lets a held lock be destroyed: every block of the cache is
    freed exactly once, and nothing else. *)
Lemma wp_lith_cache_destroy E (w : os) :
  lenient E = true -> w_lock w = Unlocked ->
  wp (sys E) False lith_cache_destroy w (fun _ w' => exists c,
    cache_visible E w c /\ w' = set_w_lock Destroyed (set_w_seen (Some c) w)).
Proof.
  intros Hlen Hl. unfold lith_cache_destroy. apply wp_wrlock; [done|]. intros c Hv Hd.
  fold (locked c w). eapply wp_call_spec; [by apply wp_free_all|].
  intros _ w1 ->. apply wp_vis_last. intros [] _. eexists. split; [split; [by right | done]|].
  exists c. split; [done|]. by os_eq.
Qed.

Section updates.
Context (E : env) (HE : env_wf E) (Hmax : (max_file E < LONG_MAX)%Z).

(** ** Adding *)

(** The result codes of [lith_cache_add]. *)
Inductive add_result (fp mime : bytes) (c0 : LithCache) : Z -> LithCache -> Prop :=
| add_ok d mt c1 :
    entry_count c0 < MAX_CACHE_ENTRIES ->
    cache_resources c1 = cache_resources c0 ++
      [mkResource (take 255 (cstr fp)) (take 63 (cstr mime)) d mt] ->
    (Z.of_nat (length d) <= MAX_CACHE_FILE_SIZE)%Z ->
    (quiet E = true -> disk E (cstr fp) = Some (mkFile d mt)) ->
    add_result fp mime c0 0 c1
| add_full : entry_count c0 = MAX_CACHE_ENTRIES -> add_result fp mime c0 (-1) c0
| add_no_file r :
    r = (-2)%Z \/ r = (-5)%Z -> (quiet E = true -> disk E (cstr fp) = None) ->
    add_result fp mime c0 r c0
| add_too_large :
    (quiet E = true -> exists f, disk E (cstr fp) = Some f /\
       (MAX_CACHE_FILE_SIZE < Z.of_nat (length (contents f)))%Z) ->
    add_result fp mime c0 (-3) c0
| add_no_memory :
    (ample E = true -> quiet E = true -> exists mt, disk E (cstr fp) = Some (mkFile [] mt)) ->
    add_result fp mime c0 (-4) c0.

Definition add_post (fp mime : bytes) (w : os) (r : Z) (w' : os) : Prop :=
  exists c0 c1, cache_visible E w c0 /\ cache_ok E c1 /\ w' = cache_section c0 c1 w /\
    add_result fp mime c0 r c1.

(** The entry [lith_cache_add] builds, in the slot [e]. *)
Lemma new_entry e fp mime a d mt :
  slot_free e -> (Z.of_nat (length d) <= MAX_CACHE_FILE_SIZE)%Z -> cstr mime = get_mime_type (Some fp) ->
  exists fp' mime',
    strncpy_term (filepath e) fp 255 = Some fp' /\
    strncpy_term (mime_type e) mime 63 = Some mime' /\
    let e' := mkEntry fp' (Some (mkBlock a d)) (Z.of_nat (length d)) mime' mt true in
    entry_wf (max_file E) e' /\
    entry_resource e' = mkResource (take 255 (cstr fp)) (take 63 (cstr mime)) d mt.
Proof.
  intros [Hfl Hml _ _] Hd Hty.
  destruct (strncpy_term_spec (filepath e) fp 255 Hfl) as (fp' & Hfp & Hl & Hs).
  destruct (strncpy_term_spec (mime_type e) mime 63 Hml) as (mime' & Hm & Hml' & Hms).
  exists fp', mime'. split_and!; [done|done|]. cbv zeta. split.
  - split; cbn [filepath content entry_size mime_type last_modified is_active]; auto.
    + unfold strlen. rewrite Hs, length_take. lia.
    + unfold strlen. rewrite Hms, length_take. lia.
    + exists fp. split; [done|]. cbn [mime_type]. rewrite Hms, Hty. apply take_ge.
      pose proof (get_mime_type_fits (Some fp)). lia.
    + by exists (mkBlock a d).
    + pose proof (ew_max E HE). lia.
  - unfold entry_resource. simpl. by rewrite Hs, Hms.
Qed.

Lemma log_cached fp n : exists msg,
  format (lit "Cached static resource: %s (%zu bytes mapped to RAM)") [FStr fp; FInt n] = Some msg.
Proof. format_step. eauto. Qed.

Lemma log_too_large fp : exists msg,
  format (lit "Cache skip: File %s too large for RAM boundaries") [FStr fp] = Some msg.
Proof. format_step. eauto. Qed.

(** The last part of [lith_cache_add], once the file is read. *)
Lemma wp_add_publish fp mime c a d st w :
  w_lock w = Unlocked -> cache_visible E w c -> owned c ## w_heap w ->
  entry_count c < MAX_CACHE_ENTRIES -> (a ∉ w_heap w ∪ owned c) ->
  (Z.of_nat (length d) <= MAX_CACHE_FILE_SIZE)%Z ->
  cstr mime = get_mime_type (Some fp) ->
  (quiet E = true -> disk E (cstr fp) = Some (mkFile d (st_mtime st))) ->
  wp (sys E) False
    (let! e := ensure (entries c !! entry_count c) in
     let! fp' := ensure (strncpy_term (filepath e) fp 255) in
     let! mime' := ensure (strncpy_term (mime_type e) mime 63) in
     let e' := mkEntry fp' (Some (mkBlock a d)) (Z.of_nat (length d)) mime' (st_mtime st) true in
     sys_call (SRwUnlock (mkCache (<[entry_count c := e']> (entries c)) (S (entry_count c)))) ;;;
     lith_log LOG_INFO (lit "Cached static resource: %s (%zu bytes mapped to RAM)")
       [FStr fp; FInt (Z.of_nat (length d))] ;;;
     Ret 0%Z)
    (set_w_heap ({[a]} ∪ w_heap (locked c w)) (locked c w)) (add_post fp mime w).
Proof.
  intros Hl Hv Hd Hlt Ha Hsize Hty Hdisk. pose proof (proj1 Hv) as Hinv.
  destruct (cache_lookup_lt _ _ Hinv _ Hlt) as [e He].
  pose proof (ci_free _ _ Hinv _ _ He ltac:(lia)) as Hfree.
  destruct (new_entry e fp mime a d (st_mtime st) Hfree Hsize Hty) as (fp' & mime' & Hfp & Hm & Hwf & Hr).
  eapply wp_ensure; [done|]. eapply wp_ensure; [done|]. eapply wp_ensure; [done|]. cbv zeta.
  set (e' := mkEntry _ _ _ _ _ _) in *.
  set (c1 := mkCache (<[entry_count c := e']> (entries c)) (S (entry_count c))).
  assert (owned c1 = {[a]} ∪ owned c) as Hown.
  { unfold c1. rewrite (owned_insert c _ e) by (done || apply Hinv). unfold entry_blocks.
    rewrite (sf_content _ Hfree). simpl. set_solver. }
  assert (cache_ok E c1) as Hinv1.
  { apply (cache_ok_append E c e e' (mkBlock a d)); [done..|simpl; set_solver|].
    intros Hq. apply (entry_read E e' a d); [done|]. intros Hs. apply (f_equal r_path) in Hr.
    cbn [r_path entry_resource] in Hr. unfold strlen in Hs. rewrite Hr in *. rewrite length_take in Hs.
    rewrite take_ge by lia. by apply Hdisk. }
  eapply (wp_wrunlock E False c c1); os_simpl; [done | done | | |].
  - apply cache_follows_append.
  - rewrite Hown. set_solver.
  - destruct (log_cached fp (Z.of_nat (length d))) as [msg Hmsg]. eapply wp_log; [done|].
    exists c, c1. split_and!; [done|done| |].
    + os_eq; [done|]. unfold locked. os_simpl. rewrite Hown. clear -Hd Ha.
      apply set_eq. intros x. specialize (Hd x). set_solver.
    + apply (add_ok _ _ _ d (st_mtime st)); [done| |done|done].
      unfold c1. rewrite (cache_resources_append (max_file E)) by (done || apply Hinv). by rewrite Hr.
Qed.

Lemma wp_lith_cache_add fp mime (w : os) :
  w_lock w = Unlocked -> cstr mime = get_mime_type (Some fp) ->
  wp (sys E) False (lith_cache_add fp mime) w (add_post fp mime w).
Proof.
  intros Hl Hty. unfold lith_cache_add. apply wp_wrlock; [done|]. intros c Hv Hd.
  pose proof (proj1 Hv) as Hinv. fold (locked c w).
  assert (forall r, add_result fp mime c r c ->
    wp (sys E) False (sys_call (SRwUnlock c) ;;; Ret r) (locked c w) (add_post fp mime w)) as Hfail.
  { intros r Hr. apply wp_wrunlock_same; [done..|]. by exists c, c; split_and!. }
  case_decide as Hfull.
  { apply Hfail, add_full. pose proof (ci_count _ _ Hinv). lia. }
  apply wp_fopen.
  { intros Hno. apply Hfail, add_no_file; auto. }
  intros f Hf Hopen. apply wp_stat.
  { intros Hno. apply wp_fclose_same; [done|]. apply Hfail, add_no_file; auto. }
  intros st Hst Hstat. case_decide as Hbig.
  { apply wp_fclose_same; [done|]. apply wp_wrunlock_same; [done..|].
    destruct (log_too_large fp) as [msg Hmsg]. eapply wp_log; [done|].
    exists c, c. split_and!; [done..|]. apply add_too_large. intros Hq.
    destruct (Hstat Hq) as (file & Hfile & ->). by exists file. }
  rewrite to_size_id by (unfold MAX_CACHE_FILE_SIZE in *; lia).
  apply wp_malloc; [lia| |].
  { intros Ha. apply wp_fclose_same; [done|]. apply Hfail, add_no_memory. intros Ham Hq.
    destruct (Hstat Hq) as ([s mt] & Hfile & ->). destruct Ha as [Ha|Ha]; [congruence|].
    destruct s; [by exists mt | done]. }
  intros a Ha. eapply wp_fread; [os_simpl; apply lookup_insert_eq | lia |].
  intros d Hlen Hread. apply wp_fclose; [os_simpl; apply elem_of_dom_insert|].
  match goal with |- wp _ _ _ ?v _ =>
    replace v with (set_w_heap ({[a]} ∪ w_heap (locked c w)) (locked c w)) end.
  - apply wp_add_publish; [done..| | | | |].
    + lia.
    + done.
    + lia.
    + done.
    + intros Hq. destruct (Hstat Hq) as ([s mt] & Hfile & ->). rewrite Hfile.
      specialize (Hread Hq). unfold remaining in Hread. rewrite Hfile in Hread.
      simpl in Hread. rewrite Hread, drop_0, Nat2Z.id. by rewrite take_ge.
  - os_eq. rewrite insert_insert_eq. symmetry. apply delete_insert_id. by apply not_elem_of_dom.
Qed.

(** ** Reload *)

Definition reload_post (e : CacheEntry) (b : block) (w : os) (r : bool * CacheEntry) (w' : os) : Prop :=
  if r.1 then
    exists a d, (a ∉ w_heap w) /\ w' = set_w_heap ({[a]} ∪ (w_heap w ∖ {[addr b]})) w /\
      content r.2 = Some (mkBlock a d) /\ entry_wf (max_file E) r.2 /\ same_key e r.2 /\
      (quiet E = true -> disk E (cstr (filepath e)) = Some (mkFile d (last_modified r.2)))
  else w' = w /\ r.2 = e /\
    (quiet E = true -> ample E = true ->
      disk E (cstr (filepath e)) = None \/ exists mt, disk E (cstr (filepath e)) = Some (mkFile [] mt)).

Lemma log_reloaded fp n : exists msg,
  format (lit "[HOT-RELOAD] RAM Cache updated dynamically for: %s (%zu bytes updated)")
    [FStr fp; FInt n] = Some msg.
Proof. format_step. eauto. Qed.

Lemma wp_lith_cache_hot_reload e b (w : os) :
  entry_wf (max_file E) e -> content e = Some b -> addr b ∈ w_heap w ->
  wp (sys E) False (lith_cache_hot_reload e) w (reload_post e b w).
Proof.
  intros Hwf Hb Hin. unfold lith_cache_hot_reload. apply wp_fopen.
  { intros Hno. split_and!; auto. }
  intros f Hf Hopen. apply wp_stat.
  { intros Hno. apply wp_fclose_same; [done|]. split_and!; auto. }
  intros st Hst Hstat. rewrite to_size_id by (unfold LONG_MAX in *; lia).
  apply wp_malloc; [lia| |].
  { intros Ha. apply wp_fclose_same; [done|]. split_and!; [done|done|]. intros Hq Ham.
    destruct Ha as [Ha|Ha]; [congruence|]. right.
    destruct (Hstat Hq) as ([s mt] & Hfile & ->). destruct s; [by exists mt | done]. }
  intros a Ha. os_simpl. eapply wp_fread; [os_simpl; apply lookup_insert_eq | lia |].
  intros d Hlen Hread. apply wp_fclose; [os_simpl; apply elem_of_dom_insert|]. os_simpl.
  rewrite Hb. apply wp_free; [os_simpl; set_solver|]. cbv zeta.
  destruct (log_reloaded (filepath e) (Z.of_nat (length d))) as [msg Hmsg].
  eapply wp_log; [done|]. exists a, d. split_and!; [done | | done | | done |].
  - os_eq.
    + set_solver.
    + rewrite insert_insert_eq. apply delete_insert_id. by apply not_elem_of_dom.
  - destruct Hwf. split; simpl; auto; [by exists (mkBlock a d) | lia].
  - intros Hq. destruct (Hstat Hq) as ([s mt] & Hfile & ->). rewrite Hfile.
    specialize (Hread Hq). unfold remaining in Hread. rewrite Hfile in Hread.
    simpl in *. rewrite Hread, drop_0, Nat2Z.id. by rewrite take_ge.
Qed.
End updates.
