(* ===== verification/Router.v ===== *)
(** * Request routing (src/http_router.c)

    [send_http_error] and [handle_http_route]: which response a request gets,
    that its Content-Length is the length of the body that follows, that no
    buffer overflows, and that locks, blocks and streams are given back. *)

From S2P Require Import Prelude CString CFormat Types Effects Invariants System Logger SystemRules.
From S2P Require Import HttpParser HttpMessages HttpContent Utils Cache.

(** ** Code *)

(** [ClientContext] and [ExpandedClientContext]; the address is never read. *)
Record ExpandedClientContext := mkCtx {
  client_socket : Z;
  ssl_session : nat;
  ctx_public_dir : bytes;   (* char[256] *)
}.

(** The static buffer, whose string is [s]. *)
Definition error_buffer (s : bytes) : bytes := s ++ replicate (2048 - length s) NUL.

Definition conn_word (keep_alive : bool) : bytes :=
  if keep_alive then lit "keep-alive" else lit "close".

Definition error_header (status_code : Z) (status_text : bytes) (n : Z) (conn_state : bytes)
    : option bytes :=
  snprintf 384
    (lit "HTTP/1.1 %d %s\r\nContent-Length: %zu\r\nContent-Type: text/html\r\nConnection: %s\r\n\r\n")
    [FInt status_code; FStr status_text; FInt n; FStr conn_state].

Definition send_http_error (ssl : nat) (status_code : Z) (status_text description : bytes)
    (keep_alive : bool) : io unit :=
  let! page := ensure (get_error_html status_code status_text description) in
  sys_call (SErrStore page) ;;;
  let conn_state := if decide (status_code = 400)%Z then lit "close" else conn_word keep_alive in
  let! html := sys_call SErrLoad in
  let! header := ensure (error_header status_code status_text (Z.of_nat (strlen html)) conn_state) in
  ssl_write_str ssl header ;;;
  let! html1 := sys_call SErrLoad in
  let! html2 := sys_call SErrLoad in
  sys_call (SSslWrite ssl (error_buffer html2) (to_int (Z.of_nat (strlen html1)))) ;;;
  Ret tt.

(** The headers of the three 200 responses: [cached->size] is a [size_t],
    [file_size] a [long], and the type of a POST response a literal. *)
Definition ok_header (n : Z) (conn_state : bytes) (mime : bytes) : option bytes :=
  snprintf 384
    (lit "HTTP/1.1 200 OK\r\nContent-Length: %zu\r\nContent-Type: %s\r\nConnection: %s\r\nKeep-Alive: timeout=3, max=100\r\n\r\n")
    [FInt n; FStr mime; FStr conn_state].

Definition disk_header (n : Z) (conn_state : bytes) (mime : bytes) : option bytes :=
  snprintf 384
    (lit "HTTP/1.1 200 OK\r\nContent-Length: %ld\r\nContent-Type: %s\r\nConnection: %s\r\nKeep-Alive: timeout=3, max=100\r\n\r\n")
    [FInt n; FStr mime; FStr conn_state].

Definition post_header (n : Z) (conn_state : bytes) : option bytes :=
  snprintf 384
    (lit "HTTP/1.1 200 OK\r\nContent-Length: %zu\r\nContent-Type: application/json\r\nConnection: %s\r\nKeep-Alive: timeout=3, max=100\r\n\r\n")
    [FInt n; FStr conn_state].

Definition post_body (n : Z) : option bytes :=
  snprintf 512
    (lit "{\qstatus\q:\qsuccess\q,\qmessage\q:\qData received successfully secure by LITH\q,\qbytes_processed\q:%ld}")
    [FInt n].

Definition handle_post (ssl : nat) (req : HttpRequest) : io unit :=
  lith_log LOG_INFO (lit "POST Payload size: %ld bytes") [FInt (content_length req)] ;;;
  let! response_body := ensure (post_body (content_length req)) in
  let! header := ensure (post_header (Z.of_nat (strlen response_body)) (conn_word (keep_alive req))) in
  ssl_write_str ssl header ;;;
  ssl_write_str ssl response_body ;;;
  Ret tt.

(** [char file_path[512]]: the served directory, then the path. *)
Definition build_file_path (public_dir path : bytes) : option bytes :=
  d ← strncpy_term (replicate 512 NUL) public_dir 511;
  if decide (strcmp path (lit "/") = 0%Z) then strcat d (lit "/index.html") else strcat d path.

(** The reload inside of a hit: the read lock is given up, and taken again
    after the entry was reloaded under the write lock. *)
Definition reload_if_stale (file_path : bytes) (cache : LithCache) (i : nat) : io LithCache :=
  let! st := sys_call (SStat (cstr file_path)) in
  match st with
  | None => Ret cache
  | Some st =>
      let! cached := ensure (entries cache !! i) in
      if decide (last_modified cached < st_mtime st)%Z then
        sys_call (SRwUnlock cache) ;;;
        let! cache_w := sys_call SWrlock in
        let! e := ensure (entries cache_w !! i) in
        let! r := lith_cache_hot_reload e in
        sys_call (SRwUnlock (mkCache (<[i := r.2]> (entries cache_w)) (entry_count cache_w))) ;;;
        sys_call SRdlock
      else Ret cache
  end.

Definition serve_cached (ssl : nat) (req : HttpRequest) (file_path : bytes) (cache : LithCache)
    (i : nat) : io unit :=
  let! cache := reload_if_stale file_path cache i in
  lith_log LOG_INFO (lit "200 OK (RAM Cache hit) - Served: %s") [FStr (path req)] ;;;
  let! cached := ensure (entries cache !! i) in
  let! header := ensure (ok_header (entry_size cached) (conn_word (keep_alive req)) (mime_type cached)) in
  ssl_write_str ssl header ;;;
  let! b := ensure (content cached) in
  sys_call (SSslWrite ssl (data b) (to_int (entry_size cached))) ;;;
  sys_call (SRwUnlock cache).

Definition serve_from_disk (ssl : nat) (req : HttpRequest) (file_path : bytes) : io unit :=
  let! r := read_file file_path 0 in
  match r.1 with
  | Some b =>
      lith_log LOG_INFO (lit "200 OK (Disk Fallback) - Served: %s") [FStr (path req)] ;;;
      let! header := ensure (disk_header r.2 (conn_word (keep_alive req)) (get_mime_type (Some file_path))) in
      ssl_write_str ssl header ;;;
      sys_call (SSslWrite ssl (data b) (to_int r.2)) ;;;
      sys_call (SFree (addr b))
  | None =>
      lith_log LOG_WARN (lit "404 - Not Found: %s") [FStr file_path] ;;;
      send_http_error ssl 404 (lit "Not Found")
        (lit "The requested URL or resource could not be located on this server.") (keep_alive req)
  end.

Definition handle_get (cfg : ServerConfig) (ectx : ExpandedClientContext) (req : HttpRequest) : io unit :=
  let ssl := ssl_session ectx in
  if negb (is_safe_path (Some (path req))) then
    lith_log LOG_WARN (lit "Security Alert: Blocked traversal attempt on path: %s") [FStr (path req)] ;;;
    send_http_error ssl 403 (lit "Forbidden")
      (lit "Access to this resource is strictly prohibited.") (keep_alive req)
  else
    let! file_path := ensure (build_file_path (ctx_public_dir ectx) (path req)) in
    if decide (use_cache cfg = 1)%Z then
      let! cached := lith_cache_lookup file_path in
      match cached with
      | Some (cache, i) => serve_cached ssl req file_path cache i
      | None => serve_from_disk ssl req file_path
      end
    else serve_from_disk ssl req file_path.

(** The last two parameters are not used, in the source either. *)
Definition handle_http_route (cfg : ServerConfig) (ectx : ExpandedClientContext) (req : HttpRequest)
    (full_buffer : bytes) (total_received : Z) : io unit :=
  match method req with
  | METHOD_POST => handle_post (ssl_session ectx) req
  | METHOD_GET => handle_get cfg ectx req
  | METHOD_UNKNOWN => Ret tt
  end.

(** * Responses *)

(** The responses as messages. *)
Definition ok_lines (n : Z) (mime conn : bytes) : list bytes :=
  [lit "HTTP/1.1 200 OK"; lit "Content-Length:" ++ SP :: print_Z n;
   lit "Content-Type: " ++ mime; lit "Connection: " ++ conn;
   lit "Keep-Alive: timeout=3, max=100"].

Definition error_lines (status_code : Z) (status_text : bytes) (n : Z) (conn : bytes) : list bytes :=
  [lit "HTTP/1.1 " ++ print_Z status_code ++ SP :: status_text;
   lit "Content-Length:" ++ SP :: print_Z n;
   lit "Content-Type: text/html"; lit "Connection: " ++ conn].

Definition ok_response (body mime : bytes) (keep : bool) : bytes :=
  render_message (ok_lines (Z.of_nat (length body)) mime (conn_word keep)) body.

Definition error_response (status_code : Z) (status_text page : bytes) (keep : bool) : bytes :=
  render_message (error_lines status_code status_text (Z.of_nat (length page))
    (if decide (status_code = 400)%Z then lit "close" else conn_word keep)) page.

Lemma render_message_body ls body : render_message ls [] ++ body = render_message ls body.
Proof. unfold render_message. by rewrite <- app_assoc. Qed.

Lemma conn_word_ok keep : no_nul (conn_word keep) /\ length (conn_word keep) <= 10.
Proof. destruct keep; by_compute. Qed.

Lemma render_head_no_nul ls : Forall no_nul ls -> no_nul (render_message ls []).
Proof.
  intros Hl. unfold render_message. apply no_nul_app. split; [|by_compute].
  induction Hl as [|l ls Hl _ IH]; [constructor|]. cbn [render_lines].
  apply no_nul_app. split; [done|]. by repeat constructor.
Qed.

Lemma ok_lines_no_nul n mime keep :
  no_nul mime -> Forall no_nul (ok_lines n mime (conn_word keep)).
Proof.
  intros Hm. destruct (conn_word_ok keep) as [Hc _]. unfold ok_lines.
  rewrite !Forall_cons_iff, !no_nul_app, no_nul_cons. split_and!; try by_compute; try assumption.
  apply print_Z_no_nul.
Qed.

Ltac header_eq :=
  apply snprintf_fits;
  [ format_step; f_equal; unfold render_message; cbn [render_lines]; lit_norm;
    repeat (rewrite <- !app_assoc; cbn [app]); reflexivity
  | unfold render_message; cbn [render_lines]; lit_norm;
    repeat (rewrite length_app; cbn [length]); unfold strlen in *; lia ].

Lemma ok_header_fits n conn mime :
  (- 2 ^ 63 <= n < 2 ^ 64)%Z -> strlen mime <= 63 -> strlen conn <= 10 ->
  ok_header n conn mime = Some (render_message (ok_lines n (cstr mime) (cstr conn)) []).
Proof. intros Hn Hm Hc. pose proof (print_size_length n Hn). unfold ok_header, ok_lines. header_eq. Qed.

Lemma ok_header_eq n keep mime :
  (- 2 ^ 63 <= n < 2 ^ 64)%Z -> strlen mime <= 63 ->
  ok_header n (conn_word keep) mime = Some (render_message (ok_lines n (cstr mime) (conn_word keep)) []).
Proof.
  intros Hn Hm. destruct (conn_word_ok keep) as [Hc Hcl].
  rewrite ok_header_fits, (cstr_id (conn_word keep)) by (done || by rewrite strlen_id). done.
Qed.

(** The two conversions print the same digits. *)
Lemma disk_header_eq n keep mime : disk_header n (conn_word keep) mime = ok_header n (conn_word keep) mime.
Proof. unfold disk_header, ok_header, snprintf. by repeat format_step. Qed.

Lemma post_header_fits n conn :
  (- 2 ^ 63 <= n < 2 ^ 64)%Z -> strlen conn <= 10 ->
  post_header n conn = Some (render_message (ok_lines n (lit "application/json") (cstr conn)) []).
Proof. intros Hn Hc. pose proof (print_size_length n Hn). unfold post_header, ok_lines. header_eq. Qed.

Lemma post_header_eq n keep :
  (- 2 ^ 63 <= n < 2 ^ 64)%Z ->
  post_header n (conn_word keep) =
  Some (render_message (ok_lines n (lit "application/json") (conn_word keep)) []).
Proof.
  intros Hn. destruct (conn_word_ok keep) as [Hc Hcl].
  rewrite post_header_fits, (cstr_id (conn_word keep)) by (done || by rewrite strlen_id). done.
Qed.

Definition error_conn (status_code : Z) (keep : bool) : bytes :=
  if decide (status_code = 400)%Z then lit "close" else conn_word keep.

Lemma error_conn_ok status_code keep :
  no_nul (error_conn status_code keep) /\ length (error_conn status_code keep) <= 10.
Proof. unfold error_conn. case_decide; [by_compute | apply conn_word_ok]. Qed.

Lemma error_header_fits status_code status_text n conn :
  is_int status_code -> strlen status_text <= 100 -> (- 2 ^ 63 <= n < 2 ^ 64)%Z -> strlen conn <= 10 ->
  error_header status_code status_text n conn =
  Some (render_message (error_lines status_code (cstr status_text) n (cstr conn)) []).
Proof.
  intros Hs Ht Hn Hc. pose proof (print_size_length n Hn). pose proof (print_int_length _ Hs).
  unfold error_header, error_lines. header_eq.
Qed.

Lemma error_header_eq status_code status_text n keep :
  is_int status_code -> strlen status_text <= 100 -> (- 2 ^ 63 <= n < 2 ^ 64)%Z ->
  error_header status_code status_text n (error_conn status_code keep) =
  Some (render_message (error_lines status_code (cstr status_text) n (error_conn status_code keep)) []).
Proof.
  intros Hs Ht Hn. destruct (error_conn_ok status_code keep) as [Hc Hcl].
  rewrite error_header_fits, (cstr_id (error_conn _ _)) by (done || by rewrite strlen_id). done.
Qed.

Lemma error_lines_no_nul status_code text n keep :
  no_nul text -> Forall no_nul (error_lines status_code text n (error_conn status_code keep)).
Proof.
  intros Ht. destruct (error_conn_ok status_code keep) as [Hc _]. unfold error_lines.
  rewrite !Forall_cons_iff, !no_nul_app, !no_nul_cons.
  split_and!; try apply print_Z_no_nul; try assumption; by_compute.
Qed.

Lemma render_head_length ls : length (render_message ls []) = length (render_lines ls) + 2.
Proof. unfold render_message. by rewrite length_app. Qed.

Definition post_json (n : Z) : bytes :=
  lit "{\qstatus\q:\qsuccess\q,\qmessage\q:\qData received successfully secure by LITH\q,\qbytes_processed\q:"
  ++ print_Z n ++ lit "}".

Lemma post_body_eq n :
  (- 2 ^ 63 <= n < 2 ^ 64)%Z ->
  post_body n = Some (post_json n) /\ no_nul (post_json n) /\ length (post_json n) < 512.
Proof.
  intros Hn. pose proof (print_size_length n Hn) as Hp. unfold post_json. split_and!.
  - apply snprintf_fits; [format_step; f_equal; by lit_norm|].
    lit_norm. repeat (rewrite length_app; cbn [length]). lia.
  - rewrite !no_nul_app. split_and!; [by_compute | apply print_Z_no_nul | by_compute].
  - lit_norm. repeat (rewrite length_app; cbn [length]). lia.
Qed.

(** The responses of the three fixed error calls of the program. *)
Definition page_of (status_code : Z) (title message : bytes) : bytes :=
  default [] (get_error_html status_code title message).

(** * Contracts *)

(** A handler leaves everything as it was, but for what the session received,
    the error page buffer and the log of its critical sections. *)
Record frame (w w' : os) : Prop := {
  fr_lock : w_lock w' = w_lock w;
  fr_heap : w_heap w' = w_heap w;
  fr_files : w_files w' = w_files w;
  fr_ssl : w_ssl w' = w_ssl w;
  fr_in : w_in w' = w_in w;
  fr_reads : w_reads w' = w_reads w;
  fr_socks : w_socks w' = w_socks w;
  fr_sent : w_sent w' = w_sent w;
  fr_pool : w_pool w' = w_pool w;
  fr_pcrit : w_pcrit w' = w_pcrit w;
  fr_ctx : w_ctx w' = w_ctx w;
  fr_wakes : w_wakes w' = w_wakes w;
  fr_threads : w_threads w' = w_threads w;
  fr_proc : w_proc w' = w_proc w;
}.

#[export] Instance frame_preorder : PreOrder frame.
Proof.
  split; [by intros w; split|]. intros w1 w2 w3 [] []. split; by etransitivity.
Qed.

Section routing.
Context (E : env).

(** ** Error pages *)

(** An error response. The page is taken from the static buffer three times,
    for the length in the header, for the number of bytes to write, and for the
    bytes: they are the page's own unless another thread fills the buffer in
    between. *)
Definition error_reply (status_code : Z) (text page : bytes) (keep : bool) (resp : bytes) : Prop :=
  exists h1 h2 h3, err_page h1 /\ err_page h2 /\ err_page h3 /\
    (solo E = true -> h1 = page /\ h2 = page /\ h3 = page) /\
    resp = render_message (error_lines status_code text (Z.of_nat (length h1)) (error_conn status_code keep)) []
             ++ take (length h2) (error_buffer h3).

Lemma error_reply_solo status_code text page keep resp :
  solo E = true -> error_reply status_code text page keep resp ->
  resp = error_response status_code text page keep.
Proof.
  intros Hso (h1 & h2 & h3 & _ & _ & _ & Hp & ->). destruct (Hp Hso) as (-> & -> & ->).
  unfold error_buffer. rewrite take_app_exact. unfold error_response. by rewrite render_message_body.
Qed.

Definition error_sent (status_code : Z) (text desc : bytes) (keep : bool) (w w' : os) : Prop :=
  frame w w' /\ w_seen w' = w_seen w /\ w_crit w' = w_crit w /\
  (peer_ok E = true -> exists resp, w_out w' = w_out w ++ resp /\
    error_reply status_code (cstr text) (page_of status_code text desc) keep resp).

Lemma wp_send_http_error ssl status_code text desc keep (w : os) :
  ssl ∈ w_ssl w -> is_int status_code -> strlen text <= 100 ->
  2 * strlen text + strlen desc <= 900 ->
  wp (sys E) False (send_http_error ssl status_code text desc keep) w
    (fun _ w' => error_sent status_code text desc keep w w').
Proof.
  intros Hssl Hs Ht Hd. unfold send_http_error.
  destruct (error_page_complete status_code text desc Hs Hd) as (page & _ & Hpage & Hn & Hl).
  eapply wp_ensure; [done|]. apply wp_errstore; [by split|]. cbv zeta. fold (error_conn status_code keep).
  apply wp_errload; [by split|]. intros html Hh Hhl Hsolo1. os_simpl.
  rewrite (strlen_id html) by done.
  eapply wp_ensure; [apply error_header_eq; [done|done|lia]|].
  destruct (error_conn_ok status_code keep) as [Hc Hcl].
  assert (forall n, (0 <= n < 2048)%Z -> Z.of_nat (length (render_message
    (error_lines status_code (cstr text) n (error_conn status_code keep)) [])) <= INT_MAX)%Z as Hhd.
  { intros n Hn'. pose proof (error_header_eq status_code text n keep Hs Ht ltac:(lia)) as Hf.
    apply snprintf_length in Hf. unfold INT_MAX. lia. }
  apply wp_write_str; [done | apply render_head_no_nul, error_lines_no_nul, cstr_no_nul | apply Hhd; lia |].
  intros _ o Ho. os_simpl. apply wp_errload; [by split|]. intros html1 Hh1 Hhl1 Hsolo2.
  apply wp_errload; [by split|]. intros html2 Hh2 Hhl2 Hsolo3. os_simpl.
  rewrite (strlen_id html1) by done. rewrite to_int_id by lia.
  apply wp_write; [done | |].
  { unfold error_buffer. rewrite length_app, length_replicate. lia. }
  intros _ o2 Ho2. os_simpl. split_and!; [by split | done | done |].
  intros Hp. eexists. split.
  { rewrite (Ho2 Hp), (Ho Hp). os_simpl. by rewrite <- app_assoc. }
  exists html, html1, html2. split_and!; [done | done | done | |].
  - intros Hso. unfold page_of. rewrite Hpage. cbn [default from_option]. by rewrite Hsolo1, Hsolo2, Hsolo3.
  - unfold sends. by rewrite Nat2Z.id.
Qed.

(** ** POST *)

Definition post_response (n : Z) (keep : bool) : bytes :=
  ok_response (post_json n) (lit "application/json") keep.

Lemma wp_handle_post ssl req (w : os) :
  ssl ∈ w_ssl w -> (LONG_MIN <= content_length req <= LONG_MAX)%Z ->
  wp (sys E) False (handle_post ssl req) w (fun _ w' =>
    frame w w' /\ w_seen w' = w_seen w /\ w_crit w' = w_crit w /\
    (peer_ok E = true ->
      w_out w' = w_out w ++ post_response (content_length req) (keep_alive req))).
Proof.
  intros Hssl Hn. unfold handle_post. unfold LONG_MIN, LONG_MAX in Hn.
  eapply wp_log; [by format_step|].
  destruct (post_body_eq (content_length req)) as (Hb & Hbn & Hbl); [lia|].
  eapply wp_ensure; [done|]. rewrite (strlen_id (post_json _)) by done.
  eapply wp_ensure; [apply post_header_eq; lia|].
  pose proof (post_header_eq (Z.of_nat (length (post_json (content_length req)))) (keep_alive req)
    ltac:(lia)) as Hf. apply snprintf_length in Hf.
  apply wp_write_str; [done | apply render_head_no_nul, ok_lines_no_nul; by_compute | unfold INT_MAX; lia |].
  intros _ o Ho. apply wp_write_str; [done | done | unfold INT_MAX; lia |].
  intros _ o2 Ho2. os_simpl. split_and!; [by split | done | done |].
  intros Hp. rewrite (Ho2 Hp), (Ho Hp), <- app_assoc. unfold post_response, ok_response.
  by rewrite render_message_body.
Qed.

(** ** File names *)

(** The file a path stands for. *)
Definition target (path : bytes) : bytes :=
  if decide (cstr path = lit "/") then lit "/index.html" else cstr path.

Lemma build_file_path_spec pd path :
  strlen pd < 256 -> strlen path < 256 ->
  exists d, build_file_path pd path = Some d /\ length d = 512 /\ cstr d = cstr pd ++ target path.
Proof.
  intros Hpd Hp. unfold build_file_path, target.
  destruct (strncpy_term_spec (replicate 512 NUL) pd 511) as (d & -> & Hl & Hd);
    [by rewrite length_replicate|]. cbn [mbind option_bind]. unfold strlen in *.
  rewrite take_ge in Hd by lia.
  assert (forall s, length (cstr s) < 256 -> exists d', strcat d s = Some d' /\ length d' = 512 /\
    cstr d' = cstr pd ++ cstr s) as Hcat.
  { intros s Hs. destruct (strcat_spec d s) as (d' & ? & ? & Hd').
    - unfold strlen. rewrite Hd, Hl. lia.
    - exists d'. rewrite Hd' , Hd. by split_and!; [|lia|]. }
  rewrite (decide_ext _ _ _ _ (strcmp_eq path (lit "/"))).
  rewrite (cstr_id (lit "/")) by by_compute. case_decide.
  - apply (Hcat (lit "/index.html")). by_compute.
  - by apply Hcat.
Qed.

End routing.

Section serving.
Context (E : env) (HE : env_wf E).
Context (Hreg : regular E = true) (Hmax : (max_file E <= INT_MAX)%Z).

(** ** From disk *)

Definition not_found_page : bytes :=
  page_of 404 (lit "Not Found")
    (lit "The requested URL or resource could not be located on this server.").

(** The file, or that there is none: the latter also when there is no memory to
    read it. *)
Inductive disk_response (p : bytes) (keep : bool) : bytes -> Prop :=
| disk_file f : disk E p = Some f ->
    disk_response p keep (ok_response (contents f) (get_mime_type (Some p)) keep)
| disk_missing resp : (ample E = true -> disk E p = None) ->
    error_reply E 404 (lit "Not Found") not_found_page keep resp -> disk_response p keep resp.

Lemma log_fits fmt arg k :
  fmt_ok fmt [arg] k = true -> exists msg, format fmt [arg] = Some msg.
Proof. intros (s & ? & _)%format_spec. by exists s. Qed.

Lemma wp_serve_from_disk ssl req fp (w : os) :
  quiet E = true -> ssl ∈ w_ssl w ->
  wp (sys E) False (serve_from_disk ssl req fp) w (fun _ w' =>
    frame w w' /\ w_seen w' = w_seen w /\ w_crit w' = w_crit w /\
    (peer_ok E = true -> exists resp, w_out w' = w_out w ++ resp /\
      disk_response (cstr fp) (keep_alive req) resp)).
Proof.
  intros Hq Hssl. unfold serve_from_disk.
  eapply wp_call_spec; [apply wp_read_file; [done | unfold INT_MAX, LONG_MAX in *; lia]|].
  intros [[b|] z] w1; unfold read_file_post; cbn [fst snd].
  - intros (-> & Hfresh & Hz & _ & Hfile). destruct (Hfile Hq) as (f & Hf & Hd & ->).
    eapply wp_log; [by format_step|].
    destruct (get_mime_type_fits (Some fp)) as [Hm Hml].
    assert (strlen (get_mime_type (Some fp)) <= 63) as Hml' by (rewrite strlen_id by done; lia).
    assert (- 2 ^ 63 <= Z.of_nat (length (contents f)) < 2 ^ 64)%Z as Hlen
      by (unfold INT_MAX in *; lia).
    rewrite disk_header_eq. eapply wp_ensure; [by apply ok_header_eq|].
    pose proof (ok_header_eq _ (keep_alive req) _ Hlen Hml') as Hh. apply snprintf_length in Hh.
    apply wp_write_str; [done | apply render_head_no_nul, ok_lines_no_nul, cstr_no_nul
      | unfold INT_MAX; lia |].
    intros _ o Ho. os_simpl. rewrite to_int_id by (unfold INT_MAX in *; lia).
    apply wp_write; [done | rewrite Hd, length_app; lia |].
    intros _ o2 Ho2. os_simpl. apply (wp_bind_inv _ _ _ Ret), wp_free; [os_simpl; set_solver|].
    cbn [wp]. os_simpl. split_and!; [split; os_simpl; try done | done | done |].
    + set_solver.
    + intros Hp. eexists. split; [by rewrite (Ho2 Hp), (Ho Hp), <- app_assoc|].
      unfold sends. rewrite Hd, Nat2Z.id, take_app_exact, (cstr_id (get_mime_type _)), render_message_body by done.
      rewrite <- get_mime_type_cstr. by apply disk_file.
  - intros [-> Hno]. eapply wp_log; [by format_step|].
    eapply wp_mono; [apply wp_send_http_error; [done | by unfold is_int; lia | by_compute..]|].
    intros _ w' (Hfr & Hseen & Hcrit & Ho). split_and!; [done..|]. intros Hp.
    destruct (Ho Hp) as (resp & Hout & Hr). exists resp. split; [done|].
    apply disk_missing; [by apply Hno | by rewrite cstr_id in Hr by by_compute].
Qed.

(** ** From the cache *)

Lemma owned_content M c i e b :
  cache_inv M c -> entries c !! i = Some e -> content e = Some b -> addr b ∈ owned c.
Proof.
  intros Hinv He Hb. unfold owned. rewrite (list_to_set_perm_L _ _ (owned_blocks_lookup _ _ _ He)).
  unfold entry_blocks. rewrite Hb. simpl. set_solver.
Qed.

(** The reloaded entry is as new as its file, which is not empty. *)
Definition refreshed (i : nat) (c : LithCache) : Prop :=
  forall e f, entries c !! i = Some e -> disk E (cstr (filepath e)) = Some f -> contents f <> [] ->
    entry_fresh E e.

(** The critical section of a reload. *)
Lemma wp_reload_section {A} c i e (k : unit -> io A) (w : os) Q :
  w_lock w = Unlocked -> cache_visible E w c -> owned c ## w_heap w ->
  entries c !! i = Some e -> i < entry_count c ->
  (forall c1, cache_ok E c1 -> cache_follows E c c1 -> (quiet E = true -> ample E = true -> refreshed i c1) ->
     wp (sys E) False (k tt) (cache_section c c1 w) Q) ->
  wp (sys E) False
    (let! r := lith_cache_hot_reload e in
     sys_call (SRwUnlock (mkCache (<[i := r.2]> (entries c)) (entry_count c))) ;;; k tt)
    (locked c w) Q.
Proof.
  intros Hl Hv Hd He Hi Hk. pose proof (proj1 Hv) as Hinv.
  pose proof (ci_used _ _ Hinv _ _ He Hi) as Hwf. destruct (ewf_content _ _ Hwf) as (b & Hb & _).
  pose proof (owned_content _ _ _ _ _ Hinv He Hb) as Hown.
  eapply wp_call_spec.
  { apply (wp_lith_cache_hot_reload E) with (b := b);
      [done | unfold INT_MAX, LONG_MAX in *; lia | done | done |].
    unfold locked. os_simpl. set_solver. }
  intros [[|] e1] w1; unfold reload_post; cbn [fst snd].
  - intros (a & d & Ha & -> & Hc & Hwf1 & Hkey & Hq).
    set (c1 := mkCache (<[i := e1]> (entries c)) (entry_count c)).
    unfold locked in Ha. os_simpl. pose proof (proj1 Hkey) as Hfp. rewrite <- Hfp in Hq.
    assert (quiet E = true -> entry_fresh E e1) as Hfr.
    { intros Hqt f. rewrite (Hq Hqt). by intros [= <-]. }
    assert (owned c1 = {[a]} ∪ (owned c ∖ {[addr b]})) as Ho.
    { unfold c1. rewrite (owned_insert c i e) by (done || apply Hinv). unfold entry_blocks.
      rewrite Hc, Hb. simpl. clear. set_solver. }
    assert (cache_ok E c1) as Hinv1.
    { apply (cache_ok_replace E c i e e1 (mkBlock a d)); [done..|simpl; clear -Ha; set_solver|].
      intros Hqt. apply (entry_read E e1 a d); [done | by intros _; apply Hq]. }
    assert (cache_follows E c c1) as Hev by by eapply cache_follows_replace.
    eapply (wp_wrunlock E False c c1); unfold locked; os_simpl; [done|done|done| |].
    + rewrite Ho. clear. set_solver.
    + match goal with |- wp _ _ _ ?v _ => replace v with (cache_section c c1 w) end.
      * apply Hk; [done|done|]. intros Hqt Ham e2 f He2 _ _. cbn in He2.
        rewrite list_lookup_insert_eq in He2 by (by eapply lookup_lt_Some). simplify_eq. by apply Hfr.
      * os_eq; [done|]. rewrite Ho. clear -Hd Ha Hown.
        apply set_eq. intros x. specialize (Hd x). set_solver.
  - intros (-> & -> & Hq). rewrite list_insert_id by done.
    replace (mkCache (entries c) (entry_count c)) with c by by destruct c.
    apply wp_wrunlock_same; [done..|]. apply Hk; [done | reflexivity |].
    intros Hqt Ham e2 f He2 Hf Hne. exfalso. simplify_eq.
    destruct (Hq Hqt Ham) as [Hn|[mt Hn]]; simplify_eq/=.
Qed.

Definition hit_state (c : LithCache) (cr : list (bool * LithCache * LithCache)) (w : os) : os :=
  set_w_lock (ReadLocked c) (set_w_seen (Some c) (set_w_crit cr w)).

(** What is served for a file that is there: what it holds; but an empty file
    may find no memory, and a name cut off in the cache may mean another. *)
Definition current (p d : bytes) : Prop :=
  quiet E = true -> ample E = true -> forall f, disk E p = Some f -> contents f <> [] ->
  length p < 255 -> d = contents f.

Lemma fresh_current c i e :
  cache_ok E c -> entries c !! i = Some e -> i < entry_count c ->
  (quiet E = true -> ample E = true -> forall f, disk E (cstr (filepath e)) = Some f -> contents f <> [] ->
    entry_fresh E e) ->
  current (cstr (filepath e)) (r_data (entry_resource e)).
Proof.
  intros Hok He Hi Hfr Hq Ha f Hf Hne Hl. specialize (Hfr Hq Ha f Hf Hne f Hf).
  pose proof (co_true _ _ Hok Hq i e He Hi Hl f Hf Hfr) as Hd. unfold entry_resource. cbn [r_data].
  destruct (content e) as [b|]; [by injection Hd | done].
Qed.

(** After the reload step the thread holds the read lock again, on a cache
    that evolved from the one it knew; whatever others have done meanwhile, the
    entry holds what its file does. *)
Lemma wp_reload_if_stale fp c i e cr (w : os) :
  cache_ok E c -> entries c !! i = Some e -> i < entry_count c ->
  cstr (filepath e) = cstr fp ->
  wp (sys E) False (reload_if_stale fp c i) (hit_state c cr w) (fun c' w' =>
    (exists cr', w' = hit_state c' cr' w) /\ cache_ok E c' /\ cache_evolves c c' /\
    forall e', entries c' !! i = Some e' -> current (cstr fp) (r_data (entry_resource e'))).
Proof.
  intros Hok He Hi Hfp. unfold reload_if_stale.
  assert ((quiet E = true -> entry_fresh E e) ->
    forall e', entries c !! i = Some e' -> current (cstr fp) (r_data (entry_resource e'))) as Hsame.
  { intros Hfr e' He'. simplify_eq. rewrite <- Hfp. apply (fresh_current c i); auto. }
  apply wp_stat.
  { intros Hno. cbn [wp]. split_and!; [by exists cr | done | reflexivity |]. apply Hsame.
    intros Hq f. by rewrite Hfp, (Hno Hq). }
  intros st Hst Hstat. eapply wp_ensure; [done|]. case_decide as Hlt.
  2: { cbn [wp]. split_and!; [by exists cr | done | reflexivity |]. apply Hsame. intros Hq f.
       destruct (Hstat Hq) as (f' & Hf' & ->). rewrite Hfp, Hf'. intros [= <-]. simpl in Hlt. lia. }
  apply wp_rdunlock; [done|]. unfold hit_state. os_simpl. apply wp_wrlock; [done|].
  intros cw Hv Hd. destruct Hv as [Hinvw Hev]. os_simpl. destruct Hev as [Hev Hal].
  destruct (proj2 (proj1 Hev) i e Hi He) as (ew & Hew & Hkey).
  assert (i < entry_count cw) as Hiw by (destruct Hev as [[] _]; lia).
  eapply wp_ensure; [done|].
  match goal with |- wp _ _ _ ?v _ => set (w1 := v) end.
  match type of w1 with _ => match goal with w1 := set_w_lock _ (set_w_seen _ (gain_cache cw ?v)) |- _ =>
    change w1 with (locked cw v); set (w0 := v) end end. clear w1.
  apply (wp_reload_section cw i ew (fun _ => sys_call SRdlock) w0); [done | | done | done | done |].
  { split; [done|]. unfold w0. os_simpl. by split. }
  intros c1 Hok1 Hev1 Hfresh. apply wp_vis_last. intros c' Hv'. eexists. split; [by split|]. specialize (Hv' eq_refl).
  unfold cache_section, w0 in *. os_simpl. destruct Hv' as [Hok' Hev']. os_simpl.
  destruct Hev' as [Hev' _].
  destruct (proj2 (proj1 Hev1) i ew Hiw Hew) as (e1 & He1 & Hkey1).
  assert (i < entry_count c1) as Hi1 by (destruct Hev1 as [[] _]; lia).
  destruct (proj2 (proj1 Hev') i e1 Hi1 He1) as (e2 & He2 & Hkey2).
  destruct Hkey as (Hk & _ & _), Hkey1 as (Hk1 & _ & _), Hkey2 as (Hk2 & _ & _). split_and!.
  - eexists. unfold hit_state. by os_eq.
  - done.
  - etransitivity; [apply Hev|]. etransitivity; [apply Hev1 | apply Hev'].
  - intros e' He'. simplify_eq. rewrite <- Hfp, <- Hk, <- Hk1, <- Hk2.
    apply (fresh_current c' i); [done | done | destruct Hev' as [[] _]; lia |].
    intros Hq Ham f Hf Hne. rewrite Hk2 in Hf.
    apply (proj2 Hev' Hq i e1 e2 Hi1 He1 He2). by eapply (Hfresh Hq Ham).
Qed.

Lemma find_resource_Some c i p :
  find_resource (cache_resources c) p = Some i ->
  exists e, entries c !! i = Some e /\ i < entry_count c /\
    cache_resources c !! i = Some (entry_resource e) /\ cstr (filepath e) = p.
Proof.
  unfold find_resource. intros ([j r] & Hf & ->)%fmap_Some.
  apply list_find_Some in Hf as (Hl & Hp & _). pose proof Hl as Hl'.
  unfold cache_resources in Hl'. rewrite list_lookup_fmap in Hl'.
  apply fmap_Some in Hl' as (e & He & ->). apply lookup_take_Some in He as [He Hlt].
  by exists e.
Qed.

Lemma cache_resources_lookup c i e :
  entries c !! i = Some e -> i < entry_count c ->
  cache_resources c !! i = Some (entry_resource e).
Proof. intros He Hi. unfold cache_resources. by rewrite list_lookup_fmap, lookup_take_lt, He. Qed.

(** The last part of a hit: the entry is written out under the read lock. *)
Lemma wp_serve_entry ssl req c i e cr (w : os) :
  w_lock w = Unlocked -> ssl ∈ w_ssl w -> cache_ok E c ->
  entries c !! i = Some e -> i < entry_count c ->
  wp (sys E) False
    (lith_log LOG_INFO (lit "200 OK (RAM Cache hit) - Served: %s") [FStr (path req)] ;;;
     let! cached := ensure (entries c !! i) in
     let! header := ensure (ok_header (entry_size cached) (conn_word (keep_alive req)) (mime_type cached)) in
     ssl_write_str ssl header ;;;
     let! b := ensure (content cached) in
     sys_call (SSslWrite ssl (data b) (to_int (entry_size cached))) ;;;
     sys_call (SRwUnlock c))
    (hit_state c cr w)
    (fun _ w' => frame w w' /\ w_seen w' = Some c /\
      (peer_ok E = true ->
        w_out w' = w_out w ++ ok_response (r_data (entry_resource e)) (r_mime (entry_resource e))
                                (keep_alive req))).
Proof.
  intros Hl Hssl Hinv He Hi. unfold hit_state. eapply wp_log; [by format_step|].
  eapply wp_ensure; [done|]. pose proof (ci_used _ _ Hinv _ _ He Hi) as Hwf.
  destruct (ewf_content _ _ Hwf) as (b & Hb & Hsz). pose proof (ewf_size _ _ Hwf) as Hle.
  pose proof (ewf_mime_term _ _ Hwf) as Hmt. rewrite Hsz in *.
  assert (- 2 ^ 63 <= Z.of_nat (length (data b)) < 2 ^ 64)%Z as Hlen by (unfold INT_MAX in *; lia).
  assert (ok_header (Z.of_nat (length (data b))) (conn_word (keep_alive req)) (mime_type e) =
    Some (render_message (ok_lines (Z.of_nat (length (data b))) (cstr (mime_type e))
      (conn_word (keep_alive req))) [])) as Hh by (apply ok_header_eq; [done | lia]).
  eapply wp_ensure; [done|]. apply snprintf_length in Hh.
  apply wp_write_str; [done | apply render_head_no_nul, ok_lines_no_nul, cstr_no_nul
    | unfold INT_MAX; lia |].
  intros _ o Ho. eapply wp_ensure; [done|]. os_simpl. rewrite to_int_id by (unfold INT_MAX in *; lia).
  apply wp_write; [done | lia |]. intros _ o2 Ho2. os_simpl.
  apply (wp_bind_inv _ _ _ Ret), wp_rdunlock; [done|]. cbn [wp]. os_simpl.
  split_and!; [split; os_simpl; done | done |]. intros Hp.
  rewrite (Ho2 Hp), (Ho Hp), <- app_assoc. f_equal. unfold sends. rewrite Nat2Z.id, take_ge by lia.
  unfold ok_response, entry_resource. rewrite Hb. cbn [r_data r_mime]. by rewrite render_message_body.
Qed.

(** A hit sends what the cache holds under the same path and type when the
    response is written, which is what the file holds. *)
Lemma wp_serve_cached ssl req fp c i e (w : os) :
  w_lock w = Unlocked -> ssl ∈ w_ssl w -> cache_ok E c ->
  entries c !! i = Some e -> i < entry_count c -> cstr (filepath e) = cstr fp ->
  wp (sys E) False (serve_cached ssl req fp c i)
    (set_w_lock (ReadLocked c) (set_w_seen (Some c) w))
    (fun _ w' => frame w w' /\ exists c' e', w_seen w' = Some c' /\
      cache_ok E c' /\ entries c' !! i = Some e' /\ i < entry_count c' /\ same_key e e' /\
      (peer_ok E = true ->
        w_out w' = w_out w ++ ok_response (r_data (entry_resource e')) (cstr (mime_type e))
                                (keep_alive req)) /\
      current (cstr fp) (r_data (entry_resource e'))).
Proof.
  intros Hl Hssl Hinv He Hi Hfp. unfold serve_cached.
  replace (set_w_lock (ReadLocked c) (set_w_seen (Some c) w)) with (hit_state c (w_crit w) w)
    by by unfold hit_state; os_eq.
  eapply wp_call_spec; [by eapply wp_reload_if_stale|].
  intros c1 w1 ([cr ->] & Hinv1 & Hev & Hcur).
  destruct (proj2 Hev i e Hi He) as (e1 & He1 & Hkey).
  assert (i < entry_count c1) as Hi1 by (destruct Hev; lia).
  eapply wp_mono; [by eapply wp_serve_entry|]. intros _ w' (Hfr & Hseen & Hout).
  destruct Hkey as (Hkfp & Hkm & Hka).
  split; [done|]. exists c1, e1. split_and!; [done|done|done|done|by split_and!| |by apply Hcur].
  intros Hp. rewrite (Hout Hp). simpl. by rewrite Hkm.
Qed.

(** ** Requests *)

Definition forbidden_page : bytes :=
  page_of 403 (lit "Forbidden") (lit "Access to this resource is strictly prohibited.").

(** The response to a GET request for [path] when [pd] is served: refused,
    from the cache, or from the disk. *)
Inductive get_response (cfg : ServerConfig) (pd path : bytes) (keep : bool) (w w' : os) : bytes -> Prop :=
| get_refused resp :
    is_safe_path (Some path) = false -> w_seen w' = w_seen w ->
    error_reply E 403 (lit "Forbidden") forbidden_page keep resp ->
    get_response cfg pd path keep w w' resp
| get_cached c c' i r r' :
    is_safe_path (Some path) = true -> use_cache cfg = 1%Z ->
    cache_visible E w c -> w_seen w' = Some c' -> cache_ok E c' ->
    find_resource (cache_resources c) (cstr pd ++ target path) = Some i ->
    cache_resources c !! i = Some r -> cache_resources c' !! i = Some r' ->
    r_path r' = cstr pd ++ target path -> r_mime r' = r_mime r ->
    current (cstr pd ++ target path) (r_data r') ->
    get_response cfg pd path keep w w' (ok_response (r_data r') (r_mime r') keep)
| get_from_disk resp :
    is_safe_path (Some path) = true ->
    (use_cache cfg <> 1%Z /\ w_seen w' = w_seen w) \/
      (use_cache cfg = 1%Z /\ exists c, w_seen w' = Some c /\ cache_visible E w c /\
         find_resource (cache_resources c) (cstr pd ++ target path) = None) ->
    disk_response (cstr pd ++ target path) keep resp ->
    get_response cfg pd path keep w w' resp.

Context (Hq : quiet E = true).

Lemma wp_handle_get cfg ectx req (w : os) :
  w_lock w = Unlocked -> ssl_session ectx ∈ w_ssl w ->
  strlen (ctx_public_dir ectx) < 256 -> strlen (path req) < 256 ->
  wp (sys E) False (handle_get cfg ectx req) w (fun _ w' =>
    frame w w' /\
    (peer_ok E = true -> exists resp,
      w_out w' = w_out w ++ resp /\
      get_response cfg (ctx_public_dir ectx) (path req) (keep_alive req) w w' resp)).
Proof.
  intros Hl Hssl Hpd Hp. unfold handle_get. cbv zeta.
  destruct (is_safe_path (Some (path req))) eqn:Hsafe; cbn [negb].
  2: { eapply wp_log; [by format_step|].
       eapply wp_mono; [apply wp_send_http_error; [done | by unfold is_int; lia | by_compute..]|].
       intros _ w' (Hfr & Hseen & _ & Ho). split; [done|]. intros Hpe.
       destruct (Ho Hpe) as (resp & Hout & Hr). exists resp. split; [done|].
       apply get_refused; [done | done | by rewrite cstr_id in Hr by by_compute]. }
  destruct (build_file_path_spec (ctx_public_dir ectx) (path req) Hpd Hp) as (fp & Hfp & _ & Hs).
  eapply wp_ensure; [done|]. case_decide as Hc.
  2: { eapply wp_mono; [by apply wp_serve_from_disk|].
       intros _ w' (Hfr & Hseen & _ & Ho). split; [done|]. intros Hpe.
       destruct (Ho Hpe) as (resp & Hout & Hr). exists resp. split; [done|]. rewrite Hs in Hr.
       apply get_from_disk; auto. }
  eapply wp_call_spec; [by apply wp_lith_cache_lookup|].
  intros [[c' i]|] w1 (c & Hv & Hres).
  - destruct Hres as (-> & Hi & ->).
    destruct (find_resource_Some _ _ _ Hi) as (e & He & Hlt & Hr & Hkey).
    eapply wp_mono; [by eapply wp_serve_cached; [..|apply Hv|done|done|done]|].
    intros _ w' (Hfr & c1 & e1 & Hseen & Hinv1 & He1 & Hlt1 & (Hk & Hm & _) & Ho & Hnew).
    rewrite Hs in *.
    split; [done|]. intros Hpe. eexists. split; [by apply Ho|]. rewrite <- Hm.
    apply (get_cached _ _ _ _ _ _ c c1 i (entry_resource e) (entry_resource e1));
      [exact Hsafe | exact Hc | exact Hv | exact Hseen | exact Hinv1 | exact Hi | exact Hr | | | | exact Hnew].
    + by apply cache_resources_lookup.
    + simpl. congruence.
    + simpl. congruence.
  - destruct Hres as (Hno & ->).
    eapply wp_mono; [by apply wp_serve_from_disk|].
    intros _ w' (Hfr & Hseen & _ & Ho). split.
    + destruct Hfr. by split.
    + intros Hpe. destruct (Ho Hpe) as (resp & Hout & Hr). exists resp. split; [done|]. rewrite Hs in *.
      apply get_from_disk; [done | | done]. right. split; [done|]. exists c. split; [exact Hseen | by split].
Qed.
End serving.

Section route.
Context (E : env) `{HO : !Ordinary E}.

(** The response to a request. *)
Definition route_response (cfg : ServerConfig) (pd : bytes) (req : HttpRequest) (w w' : os)
    (resp : bytes) : Prop :=
  match method req with
  | METHOD_GET => get_response E cfg pd (path req) (keep_alive req) w w' resp
  | METHOD_POST => resp = post_response (content_length req) (keep_alive req)
  | METHOD_UNKNOWN => resp = []
  end.

Lemma wp_handle_http_route cfg ectx req buf n (w : os) :
  w_lock w = Unlocked -> ssl_session ectx ∈ w_ssl w ->
  strlen (ctx_public_dir ectx) < 256 -> strlen (path req) < 256 ->
  (LONG_MIN <= content_length req <= LONG_MAX)%Z ->
  wp (sys E) False (handle_http_route cfg ectx req buf n) w (fun _ w' =>
    frame w w' /\
    (peer_ok E = true -> exists resp,
      w_out w' = w_out w ++ resp /\ route_response cfg (ctx_public_dir ectx) req w w' resp)).
Proof.
  intros Hl Hssl Hpd Hp Hn. unfold handle_http_route, route_response. destruct HO.
  destruct (method req).
  - eapply wp_mono; [by apply wp_handle_get|]. intros _ w' [Hfr Ho]. by split.
  - eapply wp_mono; [by apply wp_handle_post|]. intros _ w' (Hfr & _ & _ & Ho). split; [done|].
    intros Hpe. eexists. split; [by apply Ho | done].
  - split; [done|]. intros _. exists []. by rewrite app_nil_r.
Qed.

(** ** Answers

    What a response is, whatever the state it was made in. *)

Inductive get_answer (cfg : ServerConfig) (root path : bytes) (keep : bool) : bytes -> Prop :=
| answer_refused resp :
    is_safe_path (Some path) = false -> error_reply E 403 (lit "Forbidden") forbidden_page keep resp ->
    get_answer cfg root path keep resp
| answer_cached c r :
    is_safe_path (Some path) = true -> use_cache cfg = 1%Z ->
    cache_ok E c -> r ∈ cache_resources c -> r_path r = root ++ target path ->
    current E (root ++ target path) (r_data r) ->
    get_answer cfg root path keep (ok_response (r_data r) (r_mime r) keep)
| answer_disk resp :
    is_safe_path (Some path) = true -> disk_response E (root ++ target path) keep resp ->
    get_answer cfg root path keep resp.

Definition answers (cfg : ServerConfig) (root : bytes) (req : HttpRequest) (resp : bytes) : Prop :=
  match method req with
  | METHOD_GET => get_answer cfg root (path req) (keep_alive req) resp
  | METHOD_POST => resp = post_response (content_length req) (keep_alive req)
  | METHOD_UNKNOWN => resp = []
  end.

Lemma route_answer cfg pd req w w' resp :
  route_response cfg pd req w w' resp -> answers cfg (cstr pd) req resp.
Proof.
  unfold route_response, answers. destruct (method req); [|done|done].
  destruct 1; [by apply answer_refused | | by apply answer_disk].
  eapply answer_cached; [done | done | done | by eapply list_elem_of_lookup_2 | done | done].
Qed.

(** A page that is there is answered with what the file holds, under the type
    of its name, from the cache as from the disk. *)
Lemma get_answer_page cfg root path keep resp f :
  ample E = true -> get_answer cfg root path keep resp ->
  is_safe_path (Some path) = true -> disk E (root ++ target path) = Some f -> contents f <> [] ->
  length (root ++ target path) < 255 ->
  resp = ok_response (contents f) (get_mime_type (Some (root ++ target path))) keep.
Proof.
  intros Ha Hr Hs Hf Hne Hl. pose proof or_quiet as Hq.
  destruct Hr as [resp Hs' _|c r _ _ Hok Hin Hp Hc|resp _ Hd]; [congruence | |].
  - destruct (cache_resources_inv _ _ _ Hok Hin) as [Hty _].
    by rewrite (Hc Hq Ha f Hf Hne Hl), (resource_typed_mime r), Hp by (done || by rewrite Hp).
  - destruct Hd as [f' Hf'|resp Hno _]; [|specialize (Hno Ha); congruence].
    by simplify_eq.
Qed.
(** ** The server without a cache

    What the request and the disk alone make of a response. *)

Definition plain_response (root : bytes) (req : HttpRequest) : bytes :=
  match method req with
  | METHOD_GET =>
      if is_safe_path (Some (path req)) then
        match disk E (root ++ target (path req)) with
        | Some f => ok_response (contents f) (get_mime_type (Some (root ++ target (path req)))) (keep_alive req)
        | None => error_response 404 (lit "Not Found") not_found_page (keep_alive req)
        end
      else error_response 403 (lit "Forbidden") forbidden_page (keep_alive req)
  | METHOD_POST => post_response (content_length req) (keep_alive req)
  | METHOD_UNKNOWN => []
  end.

(** The cache knows the first 255 characters of a name, keeps what it has of a
    file that is removed, and may find no memory for a file of 0 bytes. *)
Definition page_there (p : bytes) : Prop :=
  exists f, disk E p = Some f /\ contents f <> [] /\ length p < 255.

(** The program with its cache sends what it would send without one. *)
Lemma answers_plain cfg root req resp :
  ample E = true -> solo E = true ->
  (use_cache cfg = 1%Z -> method req = METHOD_GET -> is_safe_path (Some (path req)) = true ->
   page_there (root ++ target (path req))) ->
  answers cfg root req resp -> resp = plain_response root req.
Proof.
  intros Ha Hso Hpage. unfold answers, plain_response. destruct (method req); [|done|done].
  intros Hr. destruct (is_safe_path (Some (path req))) eqn:Hs.
  2: { destruct Hr as [resp _ Hr| |]; [by apply error_reply_solo in Hr | congruence..]. }
  destruct (decide (use_cache cfg = 1%Z)) as [Hu|Hu].
  { destruct (Hpage Hu eq_refl eq_refl) as (f & Hf & Hne & Hl). rewrite Hf. by eapply get_answer_page. }
  destruct Hr as [resp Hs' _|c r _ Hu' _ _ _ _|resp _ Hd]; [congruence | done|].
  destruct Hd as [f ->|resp Hno Hr]; [done|]. rewrite (Hno Ha). by apply error_reply_solo in Hr.
Qed.

Lemma wp_route_plain cfg ectx req buf n (w : os) :
  ample E = true -> solo E = true -> peer_ok E = true ->
  w_lock w = Unlocked -> ssl_session ectx ∈ w_ssl w ->
  strlen (ctx_public_dir ectx) < 256 -> strlen (path req) < 256 ->
  (LONG_MIN <= content_length req <= LONG_MAX)%Z ->
  (use_cache cfg = 1%Z -> method req = METHOD_GET -> is_safe_path (Some (path req)) = true ->
   page_there (cstr (ctx_public_dir ectx) ++ target (path req))) ->
  wp (sys E) False (handle_http_route cfg ectx req buf n) w (fun _ w' =>
    w_out w' = w_out w ++ plain_response (cstr (ctx_public_dir ectx)) req).
Proof.
  intros Ha Hso Hpe ????? Hpage. eapply wp_mono; [by apply wp_handle_http_route|].
  intros _ w' [_ Ho]. destruct (Ho Hpe) as (resp & -> & Hr%route_answer).
  by rewrite (answers_plain cfg _ _ _ Ha Hso Hpage Hr).
Qed.
End route.

(** * Framing of responses *)

(** The Content-Length header says [n], and [body] stands behind the blank
    line. *)
Definition announces (msg : bytes) (n : nat) (body : bytes) : Prop :=
  parse_content_length msg = Z.of_nat n /\
  exists k, parse_body_start msg = Some k /\ drop k msg = body.

(** A reader of the message that follows its Content-Length header finds
    exactly [body]. *)
Definition framed (msg body : bytes) : Prop := announces msg (length body) body.

Lemma announced_message l ls n body :
  Forall line_ok (l :: ls) -> free (lit "Content-Length:") l -> (Z.of_nat n <= LONG_MAX)%Z ->
  announces (render_message
    (l :: (lit "Content-Length:" ++ SP :: print_Z (Z.of_nat n)) :: ls) body) n body.
Proof.
  intros Hok Hf Hb. set (cl := _ ++ SP :: _).
  assert (Forall line_ok (l :: cl :: ls)) as Hok'.
  { inversion_clear Hok. constructor; [done|]. constructor; [|done]. apply number_line_ok. by_compute. }
  split.
  - pose proof (parse_content_length_value [l] (SP :: print_Z (Z.of_nat n)) ls body) as H.
    cbv zeta in H. fold cl in H. cbn [app] in H. rewrite H by (done || by constructor).
    rewrite strtol_space. apply strtol_print; [unfold LONG_MIN, LONG_MAX in *; lia | done].
  - exists (length (render_lines (l :: cl :: ls)) + 2).
    rewrite parse_body_start_render by done. split; [done|].
    unfold render_message. by rewrite <- drop_drop, drop_app_exact.
Qed.

Definition clean (s : bytes) : Prop := (CR ∉ s) /\ (LF ∉ s) /\ (NUL ∉ s).

#[export] Instance clean_dec s : Decision (clean s).
Proof. unfold clean. apply _. Defined.

Lemma line_ok_app h s : h <> [] -> clean h -> clean s -> line_ok (h ++ s).
Proof.
  intros Hh (? & ? & ?) (? & ? & ?). split_and!; [by destruct h|..]; by apply not_elem_of_app.
Qed.

Lemma conn_word_clean keep : clean (conn_word keep).
Proof. destruct keep; by_compute. Qed.

Lemma mime_type_clean p : clean (get_mime_type p).
Proof. unfold get_mime_type. repeat case_match; by_compute. Qed.

Lemma ok_response_framed body mime keep :
  clean mime -> (Z.of_nat (length body) <= LONG_MAX)%Z -> framed (ok_response body mime keep) body.
Proof.
  intros Hm Hb. unfold ok_response, ok_lines. apply announced_message; [|by_compute|done].
  rewrite !Forall_cons_iff, Forall_nil. split_and!; try by_compute; try done.
  - by apply line_ok_app; [by_compute..|].
  - apply line_ok_app; [by_compute..|]. apply conn_word_clean.
Qed.

Lemma error_message_announces status_code text n body keep :
  clean text -> ":"%char ∉ text -> (Z.of_nat n <= LONG_MAX)%Z ->
  announces (render_message (error_lines status_code text (Z.of_nat n) (error_conn status_code keep)) body) n body.
Proof.
  intros Ht Hc Hb. unfold error_lines.
  apply announced_message; [|apply (free_no_char ":"%char); [by_compute|]|done].
  - constructor.
    + apply line_ok_app; [by_compute..|]. destruct Ht as (? & ? & ?).
      split_and!; apply not_elem_of_app; (split; [by apply print_Z_not_elem|]);
        apply not_elem_of_cons; (split; [by_compute | done]).
    + rewrite !Forall_cons_iff, Forall_nil. split_and!; [by_compute | | done].
      apply line_ok_app; [by_compute..|].
      unfold error_conn. case_decide; [by_compute | apply conn_word_clean].
  - apply not_elem_of_app. split; [by_compute|]. apply not_elem_of_app.
    split; [by apply print_Z_not_elem|]. apply not_elem_of_cons. by split; [by_compute|].
Qed.

(** What the body of a response is to its Content-Length: its length; or, where
    other threads fill the buffer of the error pages meanwhile, an error page was
    sent, and three pages that stood in that buffer gave the length announced,
    the number of bytes sent, and these bytes. *)
Definition carries (E : env) (n : nat) (body : bytes) : Prop :=
  n = length body \/
  (solo E = false /\ exists h1 h2 h3, err_page h1 /\ err_page h2 /\ err_page h3 /\
    n = length h1 /\ body = take (length h2) (error_buffer h3)).

Lemma framed_carries E msg body : framed msg body -> exists n body, announces msg n body /\ carries E n body.
Proof. intros Hf. exists (length body), body. split; [done | by left]. Qed.

Lemma error_reply_carries E status_code text page keep resp :
  clean text -> (":"%char ∉ text) -> error_reply E status_code text page keep resp ->
  exists n body, announces resp n body /\ carries E n body.
Proof.
  intros Ht Hcol (h1 & h2 & h3 & Hh1 & Hh2 & Hh3 & Hp & ->).
  exists (length h1), (take (length h2) (error_buffer h3)). split.
  - rewrite render_message_body. destruct Hh1 as [_ Hl].
    apply error_message_announces; [done | done |]. unfold LONG_MAX. lia.
  - destruct (solo E) eqn:Hso; [|right; split; [done | by exists h1, h2, h3]].
    left. destruct (Hp eq_refl) as (-> & -> & ->). unfold error_buffer. by rewrite take_app_exact.
Qed.

(** The body a response to GET carries. *)
Lemma get_response_carries E cfg pd path keep w w' resp :
  env_wf E -> (max_file E <= INT_MAX)%Z ->
  get_response E cfg pd path keep w w' resp -> exists n body, announces resp n body /\ carries E n body.
Proof.
  intros HE Hmax. assert (INT_MAX <= LONG_MAX)%Z by by_compute.
  destruct 1 as [resp Hs _ Hr|c c' i r r' Hs Hu Hv Hseen Hok Hf Hr Hr' Hrp Hrm _|resp Hs _ Hr].
  - apply (error_reply_carries E 403 (lit "Forbidden") forbidden_page keep); [by_compute | by_compute | done].
  - destruct (cache_resources_inv _ _ r' Hok) as [(p & _ & Hm) Hl]; [by eapply list_elem_of_lookup_2|].
    apply (framed_carries E _ (r_data r')). rewrite Hm. apply ok_response_framed; [apply mime_type_clean | lia].
  - destruct Hr as [f Hd|resp _ Hr].
    + apply (framed_carries E _ (contents f)). apply ok_response_framed; [apply mime_type_clean|].
      pose proof (ew_sizes E HE _ _ Hd). lia.
    + apply (error_reply_carries E 404 (lit "Not Found") not_found_page keep); [by_compute | by_compute | done].
Qed.
