(* ===== verification/ThreadPool.v ===== *)
(** * The work queue (src/server_worker.c)

    [thread_pool_push], [thread_pool_pop] and [thread_pool_shutdown] on the
    linked list, and the first-in-first-out queue of sockets they implement:
    every critical section is one operation of that queue, so whatever the
    interleaving of the threads is, sockets leave in the order they came. *)

From S2P Require Import Prelude CString CFormat Types Effects Invariants System Logger SystemRules.
From S2P Require Import HttpParser HttpContent Utils Cache.

(** ** Code *)

(** A value of type [int], or undefined behaviour on overflow. *)
Definition int_ok (z : Z) : option Z :=
  if decide (- 2 ^ 31 <= z < 2 ^ 31)%Z then Some z else None.

(** Hanging the new node behind the tail, and [pool->size++]. *)
Definition link_node (pool : PoolQueue) (a : nat) (new_node : Node) : option PoolQueue :=
  linked ← match tail_ptr pool with
           | None => Some (Some a, <[a := new_node]> (nodes pool))
           | Some t =>
               nt ← nodes pool !! t;
               Some (head_ptr pool,
                     <[a := new_node]> (<[t := mkNode (socket nt) (Some a)]> (nodes pool)))
           end;
  size ← int_ok (pool_size pool + 1);
  Some (mkPoolQueue linked.1 (Some a) size (shutdown pool) linked.2).

Definition thread_pool_push (s : Z) : io unit :=
  let! new_node := sys_call (SMalloc 16) in
  match new_node with
  | None =>
      lith_log LOG_ERROR (lit "Critical allocation failure for pool node") [] ;;;
      lith_close_socket s
  | Some a =>
      let! pool := sys_call SPoolLock in
      if shutdown pool then
        sys_call (SPoolUnlock pool) ;;;
        sys_call (SFree a) ;;;
        lith_close_socket s
      else
        let! pool' := ensure (link_node pool a (mkNode s None)) in
        sys_call SCondSignal ;;;
        sys_call (SPoolUnlock pool')
  end.

(** Taking the head off; the node stays with the caller. *)
Definition unlink_head (pool : PoolQueue) : option (nat * Node * PoolQueue) :=
  a ← head_ptr pool;
  node ← nodes pool !! a;
  size ← int_ok (pool_size pool - 1);
  Some (a, node,
    mkPoolQueue (next node) (match next node with None => None | Some _ => tail_ptr pool end)
      size (shutdown pool) (delete a (nodes pool))).

(** One round of the waiting loop. *)
Definition pop_wait (pool : PoolQueue) : io (PoolQueue + PoolQueue) :=
  if bool_decide (head_ptr pool = None) && negb (shutdown pool) then
    let! pool' := sys_call (SCondWait pool) in
    Ret (inl pool')
  else Ret (inr pool).

Definition thread_pool_pop (fuel : nat) : io Z :=
  let! pool0 := sys_call SPoolLock in
  let! pool := loop fuel pop_wait pool0 in
  if shutdown pool then
    sys_call (SPoolUnlock pool) ;;;
    Ret (-1)%Z
  else
    let! (a, node, pool') := ensure (unlink_head pool) in
    sys_call (SPoolUnlock pool') ;;;
    let client_socket := socket node in
    sys_call (SFree a) ;;;
    Ret client_socket.

Definition raise_shutdown (pool : PoolQueue) : PoolQueue :=
  mkPoolQueue (head_ptr pool) (tail_ptr pool) (pool_size pool) true (nodes pool).

(** The critical section of the shutdown. *)
Definition announce_shutdown : io unit :=
  let! pool := sys_call SPoolLock in
  sys_call SCondBroadcast ;;;
  sys_call (SPoolUnlock (raise_shutdown pool)).

Definition thread_pool_shutdown : io unit :=
  announce_shutdown ;;;
  sys_call SMutexDestroy ;;;
  sys_call SCondDestroy ;;;
  lith_cache_destroy.

(** The [pthread_create] loop. *)
Fixpoint create_workers (n : nat) : io unit :=
  match n with
  | O => Ret tt
  | S n' =>
      let! ok := sys_call SThreadCreate in
      match ok with
      | true => sys_call SThreadDetach ;;; create_workers n'
      | false => create_workers n'
      end
  end.

(** The directory the pool stores is the result; the mutex and the condition
    variable are initialised with the empty queue. *)
Definition thread_pool_init (pool_dir : bytes) (ram_cache : LithCache) (num_threads : Z)
    (public_dir : bytes) : io bytes :=
  let queue := mkPoolQueue None None 0 false ∅ in
  let! dir := ensure (strncpy_term pool_dir public_dir 255) in
  sys_call (SPoolInit queue) ;;;
  lith_cache_init ram_cache ;;;
  let! path_buf := ensure (snprintf 512 (lit "%s/index.html") [FStr public_dir]) in
  lith_cache_add path_buf (lit "text/html") ;;;
  let! path_buf := ensure (snprintf 512 (lit "%s/style.css") [FStr public_dir]) in
  lith_cache_add path_buf (lit "text/css") ;;;
  create_workers (Z.to_nat num_threads) ;;;
  lith_log LOG_INFO (lit "Thread pool initialized successfully with %d active workers.")
    [FInt num_threads] ;;;
  Ret dir.

(** * The list operations *)

Section list_ops.
Implicit Types (l : list (nat * Z)) (ns : gmap nat Node).

Lemma chain_snoc ns p l t x a s :
  chain ns p (l ++ [(t, x)]) -> NoDup (l ++ [(t, x)]).*1 -> (a ∉ (l ++ [(t, x)]).*1) ->
  chain (<[a := mkNode s None]> (<[t := mkNode x (Some a)]> ns)) p ((l ++ [(t, x)]) ++ [(a, s)]).
Proof.
  revert p. induction l as [|[b y] l IH]; intros p.
  - simpl. intros (-> & n & Hn & <- & _) _ Ha.
    apply not_elem_of_cons in Ha as [Hat _]. split; [done|].
    exists (mkNode (socket n) (Some a)). rewrite lookup_insert_ne, lookup_insert_eq by done.
    split_and!; [done|done|done|]. exists (mkNode s None). by rewrite lookup_insert_eq.
  - cbn [app chain fmap list_fmap fst]. intros (-> & n & Hn & <- & Hc) Hnd Ha.
    apply NoDup_cons in Hnd as [Hb Hnd]. apply not_elem_of_cons in Ha as [Hab Ha].
    split; [done|]. exists n. split_and!; [|done|by apply IH].
    rewrite !lookup_insert_ne; [done| |done]. intros ->. apply Hb.
    rewrite fmap_app. apply elem_of_app. right. by left.
Qed.

(** The sizes stay in range: descriptors are distinct. *)
Lemma nodup_bounded (l : list nat) n : NoDup l -> Forall (fun x => x < n) l -> length l <= n.
Proof.
  intros Hnd Hl. rewrite <- (length_seq n 0). apply submseteq_length, NoDup_submseteq; [done|].
  intros x Hx. rewrite Forall_forall in Hl. apply elem_of_seq. specialize (Hl x Hx). lia.
Qed.

Lemma socks_bounded (l : list Z) :
  NoDup l -> Forall (fun s => (0 <= s < INT_MAX)%Z) l -> (Z.of_nat (length l) <= INT_MAX)%Z.
Proof.
  intros Hnd Hl. rewrite <- (Z2Nat.id INT_MAX) by (unfold INT_MAX; lia). apply inj_le.
  rewrite <- (length_fmap Z.to_nat). apply nodup_bounded.
  - rewrite Forall_forall in Hl. apply NoDup_fmap_2_strong; [|done].
    intros x y Hx Hy Hxy. apply Hl in Hx, Hy. lia.
  - apply Forall_fmap. eapply Forall_impl; [exact Hl|]. intros x Hx. simpl.
    apply Z2Nat.inj_lt; unfold INT_MAX in *; lia.
Qed.

Lemma chain_delete ns a n p l :
  chain ns p l -> (a ∉ l.*1) -> ns !! a = Some n -> chain (delete a ns) p l.
Proof.
  intros Hc Ha Hn. eapply chain_frame; [|done]. intros b Hb.
  rewrite lookup_delete_ne; [done|]. by intros ->.
Qed.

Lemma queue_rep_length q l : queue_rep q l -> NoDup l.*2 -> Forall (fun s => (0 <= s < INT_MAX)%Z) l.*2 ->
  (0 <= pool_size q <= INT_MAX)%Z.
Proof.
  intros Hrep Hnd Hs. rewrite (qr_size _ _ Hrep). pose proof (socks_bounded _ Hnd Hs) as Hb.
  rewrite length_fmap in Hb. lia.
Qed.

(** ** Linking *)

Lemma link_node_spec q l a s :
  queue_rep q l -> (a ∉ queue_blocks q) -> NoDup (l.*2 ++ [s]) ->
  Forall (fun s => (0 <= s < INT_MAX)%Z) (l.*2 ++ [s]) ->
  exists q', link_node q a (mkNode s None) = Some q' /\ queue_rep q' (l ++ [(a, s)]) /\
    shutdown q' = shutdown q.
Proof.
  intros Hrep Ha Hnd Hs. pose proof (socks_bounded _ Hnd Hs) as Hb.
  destruct Hrep as [Hc Ht Hsz Hn Hd]. unfold queue_blocks in Ha.
  rewrite Hd, elem_of_list_to_set in Ha. rewrite length_app, length_fmap in Hb. cbn [length] in Hb.
  assert (int_ok (pool_size q + 1) = Some (pool_size q + 1)%Z) as Hok.
  { unfold int_ok. rewrite decide_True; [done|]. unfold INT_MAX in Hb. lia. }
  unfold link_node. rewrite Ht.
  destruct l as [|[t x] l _] using rev_ind.
  - cbn [last fmap option_fmap option_map mbind option_bind]. rewrite Hok. eexists. split; [done|].
    split; [|done]. split; cbn [chain nodes head_ptr tail_ptr pool_size fst snd app].
    + split; [done|]. exists (mkNode s None). by rewrite lookup_insert_eq.
    + done.
    + rewrite Hsz. simpl. lia.
    + apply NoDup_singleton.
    + rewrite dom_insert_L, Hd. simpl. set_solver.
  - rewrite last_snoc. cbn [fmap option_fmap option_map mbind option_bind fst].
    assert (exists n, nodes q !! t = Some n /\ socket n = x) as (n & Hnt & <-).
    { eapply chain_lookup; [done|]. apply elem_of_app. right. by left. }
    rewrite Hnt. cbn [mbind option_bind]. rewrite Hok. eexists. split; [done|].
    split; [|done]. split; cbn [nodes head_ptr tail_ptr pool_size fst snd].
    + by apply chain_snoc.
    + by rewrite last_snoc.
    + rewrite Hsz, !length_app. simpl. lia.
    + rewrite fmap_app. apply NoDup_app. split_and!; [done| |apply NoDup_singleton].
      intros y Hy ->%list_elem_of_singleton. done.
    + rewrite !dom_insert_L, Hd, !fmap_app, !list_to_set_app_L. simpl. set_solver.
Qed.

(** Linking is an operation of the queue, and what is linked is owned. *)
Lemma link_node_push q a s :
  queue_inv q -> shutdown q = false -> (a ∉ queue_blocks q) -> (s ∉ queue_socks q) -> (0 <= s < INT_MAX)%Z ->
  exists q', link_node q a (mkNode s None) = Some q' /\ queue_inv q' /\ queue_step q (Push s) q' /\
    queue_blocks q' = queue_blocks q ∪ {[a]} /\ queue_socks q' = queue_socks q ∪ {[s]}.
Proof.
  intros (l & Hrep & Hnd & Hrange) Hsd Ha Hs Hr. pose proof (queue_rep_socks _ _ Hrep) as Hsk.
  assert (NoDup (l.*2 ++ [s])) as Hnd'.
  { apply NoDup_app. split_and!; [done| |apply NoDup_singleton].
    intros y Hy ->%list_elem_of_singleton. apply Hs. rewrite Hsk. by apply elem_of_list_to_set. }
  assert (Forall (fun s => (0 <= s < INT_MAX)%Z) (l.*2 ++ [s])) as Hrange'.
  { apply Forall_app. split; [done|]. by apply Forall_singleton. }
  destruct (link_node_spec q l a s Hrep) as (q' & Hlink & Hrep' & Hsd'); [done|done|done|].
  exists q'. split_and!; [done | | | |].
  - exists (l ++ [(a, s)]). rewrite fmap_app. by split_and!.
  - exists l.*2, (l.*2 ++ [s]). split_and!; [by exists l | | done | done | congruence].
    exists (l ++ [(a, s)]). by rewrite fmap_app.
  - unfold queue_blocks. rewrite (qr_dom _ _ Hrep), (qr_dom _ _ Hrep'), fmap_app, list_to_set_app_L.
    simpl. set_solver.
  - rewrite (queue_rep_socks _ _ Hrep'), Hsk, fmap_app, list_to_set_app_L. simpl. set_solver.
Qed.

(** ** Unlinking *)

Lemma unlink_head_spec q a s l :
  queue_rep q ((a, s) :: l) -> (0 <= pool_size q <= INT_MAX)%Z ->
  exists n q', unlink_head q = Some (a, n, q') /\ socket n = s /\ queue_rep q' l /\
    shutdown q' = shutdown q /\ queue_blocks q' = queue_blocks q ∖ {[a]}.
Proof.
  intros [Hc Ht Hsz Hn Hd] Hb. cbn [chain] in Hc. destruct Hc as (Hh & n & Hna & Hs & Hc).
  cbn [fmap list_fmap fst] in Hn, Hd. apply NoDup_cons in Hn as [Hal Hn].
  assert (int_ok (pool_size q - 1) = Some (pool_size q - 1)%Z) as Hok.
  { unfold int_ok. rewrite decide_True; [done|]. unfold INT_MAX in Hb. lia. }
  unfold unlink_head. rewrite Hh. cbn [mbind option_bind]. rewrite Hna. cbn [mbind option_bind].
  rewrite Hok. cbn [mbind option_bind]. eexists n, _. split; [done|]. split; [done|]. split; [|split; [done|]].
  - split; cbn [nodes head_ptr tail_ptr pool_size].
    + by eapply chain_delete.
    + destruct l as [|[b y] l]; cbn [chain] in Hc; [by rewrite Hc|].
      destruct Hc as [-> _]. by rewrite Ht.
    + rewrite Hsz. cbn [length]. lia.
    + done.
    + rewrite dom_delete_L, Hd. cbn [list_to_set]. set_solver.
  - unfold queue_blocks. cbn [nodes]. by rewrite dom_delete_L.
Qed.

Lemma queue_rep_nil q l : queue_rep q l -> head_ptr q = None -> l = [].
Proof. intros [Hc _ _ _ _] Hh. destruct l as [|[a s] l]; [done|]. cbn [chain] in Hc. by destruct Hc as [? _]; congruence. Qed.
End list_ops.

(** * Contracts *)

(** Nobody waits, and the pool is not shut down. *)
Definition empty_queue : PoolQueue := mkPoolQueue None None 0 false ∅.

Section contracts.
Context (E : env).

Lemma wp_poollock {A} D (k : PoolQueue -> io A) (w : os) Q :
  may_lock w ->
  (forall q, queue_visible w q -> wp (sys E) D (k q) (gain_queue q w) Q) ->
  wp (sys E) D (bind k (sys_call SPoolLock)) w Q.
Proof. intros Hl Hk. apply wp_vis. intros q Hq. eexists. split; [by split | by apply Hk, Hq, Hl]. Qed.

Lemma wp_poolunlock {A} D q0 q (k : unit -> io A) (w : os) Q :
  w_pool w = Some q0 -> queue_evolves q0 q -> queue_inv q ->
  queue_blocks q ⊆ w_heap w -> queue_socks q ⊆ w_socks w ->
  wp (sys E) D (k tt) (lose_queue q0 q w) Q ->
  wp (sys E) D (bind k (sys_call (SPoolUnlock q))) w Q.
Proof.
  intros Hl He Hi Hb Hs Hk. apply wp_vis. intros [] _. eexists. split; [|done].
  exists q0. by split.
Qed.

(** A critical section on the queue: the thread gives back what it took,
    having gained the blocks [hp] and sockets [sk] and lost [hm] and [sm]. *)
Definition queue_section (q0 q1 : PoolQueue) (w : os) : os :=
  set_w_pcrit (w_pcrit w ++ [(q0, q1)]) w.

Lemma lose_gain_same q0 q1 (w : os) :
  queue_visible w q0 -> w_pool w = None -> queue_blocks q1 = queue_blocks q0 ->
  queue_socks q1 = queue_socks q0 ->
  lose_queue q0 q1 (gain_queue q0 w) = queue_section q0 q1 w.
Proof.
  intros (_ & Hb & Hs) Hp Eb Es. unfold queue_section. os_eq; rewrite ?Eb, ?Es.
  - apply set_eq. intros x. specialize (Hb x). set_solver.
  - apply set_eq. intros x. specialize (Hs x). set_solver.
  - done.
Qed.

(** ** Push *)

(** The socket is queued or closed, never kept: [w_socks] loses it. *)
Definition push_post (s : Z) (w w' : os) : Prop :=
  (ample E = false /\ w' = set_w_socks (w_socks w ∖ {[s]}) w) \/
  exists q0 q1, queue_visible w q0 /\
    (if shutdown q0 then q1 = q0 else queue_step q0 (Push s) q1) /\
    w' = queue_section q0 q1 (set_w_socks (w_socks w ∖ {[s]}) w).

Lemma wp_thread_pool_push s (w : os) :
  may_lock w -> s ∈ w_socks w -> (0 <= s < INT_MAX)%Z ->
  wp (sys E) False (thread_pool_push s) w (fun _ w' => push_post s w w').
Proof.
  intros Hm Hs Hr. pose proof Hm as [Hp _]. unfold thread_pool_push. apply wp_malloc; [lia| |].
  { intros [Ha|Ha]; [|done]. eapply wp_log; [by format_step|].
    apply (wp_bind_inv _ _ _ Ret), wp_close; [done|]. by left. }
  intros a Ha. apply wp_poollock; [done|]. intros q (Hinv & Hb & Hk). os_simpl.
  assert (queue_visible w q) as Hv by (split_and!; [done | set_solver | done]).
  destruct (shutdown q) eqn:Hsd.
  - eapply wp_poolunlock; [done | by apply queue_evolves_refl | done | set_solver | set_solver |].
    apply wp_free; [os_simpl; set_solver|].
    apply (wp_bind_inv _ _ _ Ret), wp_close; [os_simpl; set_solver|].
    right. exists q, q. split_and!; [done | by rewrite Hsd |]. unfold queue_section. os_eq.
    + apply set_eq. intros x. specialize (Hb x). set_solver.
    + apply set_eq. intros x. specialize (Hk x). set_solver.
    + done.
  - destruct (link_node_push q a s Hinv Hsd) as (q' & Hlink & Hinv' & Hstep & Hb' & Hk');
      [set_solver | set_solver | done |].
    eapply wp_ensure; [done|]. apply wp_vis. intros [] _. exists (gain_queue q (set_w_heap ({[a]} ∪ w_heap w) w)).
    split; [done|]. apply (wp_bind_inv _ _ _ Ret).
    eapply wp_poolunlock; [done | by exists (Push s) | done | os_simpl; rewrite Hb'; set_solver
      | os_simpl; rewrite Hk'; set_solver |].
    right. exists q, q'. split_and!; [done | by rewrite Hsd |].
    unfold queue_section. os_eq; rewrite ?Hb', ?Hk'.
    + apply set_eq. intros x. specialize (Hb x). set_solver.
    + apply set_eq. intros x. specialize (Hk x). set_solver.
    + done.
Qed.

(** ** Pop *)

(** The queue while a thread waits: it lets the queue go and takes it back,
    unchanged by itself, at every wake-up. *)
Definition waited (idle : list (PoolQueue * PoolQueue)) (k : nat) (w : os) : os :=
  set_w_wakes k (set_w_pcrit (w_pcrit w ++ idle) w).

Definition wait_inv (w : os) (q : PoolQueue) (w1 : os) : Prop :=
  exists idle k, w1 = gain_queue q (waited idle k w) /\ k <= w_wakes w /\
    Forall (fun p => p.2 = p.1) idle /\ queue_visible w q.

Definition wait_measure (q : PoolQueue) (w : os) : nat :=
  w_wakes w + (if bool_decide (head_ptr q = None) && negb (shutdown q) then 1 else 0).

Lemma wp_pop_wait fuel q (w : os) :
  may_lock w -> queue_visible w q -> w_wakes w + 1 < fuel ->
  wp (sys E) False (loop fuel pop_wait q) (gain_queue q w) (fun q' w1 =>
    wait_inv w q' w1 /\ (head_ptr q' <> None \/ shutdown q' = true)).
Proof.
  intros [Hp Hfree] Hv Hf. apply (wp_loop (sys E) _ (wait_inv w) wait_measure).
  - exists [], (w_wakes w). split_and!; [|lia|done|done]. unfold waited. os_eq. by rewrite app_nil_r.
  - unfold wait_measure. os_simpl. destruct (_ && _); lia.
  - intros q1 w1 (idle & k & -> & Hk & Hidle & Hv1). unfold pop_wait.
    destruct (bool_decide _ && _) eqn:Hc.
    2: { cbn [wp]. split; [by exists idle, k|]. rewrite andb_false_iff in Hc.
         destruct Hc as [Hc|Hc]; [left; by apply bool_decide_eq_false in Hc | right].
         by destruct (shutdown q1). }
    apply wp_vis. intros q2 Hq2. destruct Hv1 as (Hinv1 & Hb1 & Hk1).
    assert (may_release q1 q1 (gain_queue q1 (waited idle k w))) as Hmay.
    { split; [done | by apply queue_evolves_refl | done | os_simpl; set_solver | os_simpl; set_solver]. }
    destruct Hq2 as [Hv2 Hw].
    { exists q1. exact Hmay. }
    assert (lose_queue q1 q1 (gain_queue q1 (waited idle k w)) =
      waited (idle ++ [(q1, q1)]) k w) as Hlose.
    { rewrite lose_gain_same by done. unfold queue_section, waited. os_eq. by rewrite app_assoc. }
    rewrite Hlose in Hv2. eexists. split.
    { exists q1. split; [done|]. split; [by split|]. by rewrite Hlose. }
    cbn [wp]. unfold wait_measure. os_simpl. rewrite Hc. split.
    + eexists (idle ++ [(q1, q1)]), _. split_and!; [unfold waited; os_eq; done | lia | | ].
      * apply Forall_app. split; [done|]. by apply Forall_singleton.
      * exact Hv2.
    + cbn [waited set_w_wakes gain_queue set_w_pool set_w_heap set_w_socks w_wakes] in Hw.
      destruct (head_ptr q2) as [h|]; [rewrite bool_decide_false by done | rewrite bool_decide_true by done];
        cbn [waited set_w_wakes w_wakes andb]; [lia|].
      destruct (shutdown q2); cbn [negb]; [lia|]. specialize (Hw eq_refl eq_refl). lia.
Qed.

(** The oldest socket is taken over, or the pool is shutting down. *)
Definition pop_post (w : os) (s : Z) (w' : os) : Prop :=
  exists idle k q0 q1, k <= w_wakes w /\ Forall (fun p => p.2 = p.1) idle /\
    queue_visible w q0 /\
    ((s = (-1)%Z /\ shutdown q0 = true /\ q1 = q0 /\
      w' = queue_section q0 q1 (waited idle k w)) \/
     (queue_step q0 (Pop s) q1 /\ (0 <= s < INT_MAX)%Z /\ (s ∉ w_socks w) /\
      w' = queue_section q0 q1 (waited idle k (set_w_socks ({[s]} ∪ w_socks w) w)))).

(** What a thread has taken after such a section. *)
Lemma taken_waited idle k q0 q1 w :
  Forall (fun p => p.2 = p.1) idle ->
  taken (queue_section q0 q1 (waited idle k w)) = taken w ++ option_list (section_pop (q0, q1)).
Proof.
  intros Hidle. unfold taken, queue_section, waited. cbn [set_w_pcrit set_w_wakes w_pcrit].
  rewrite !omap_app. assert (omap section_pop idle = []) as ->.
  { induction Hidle as [|[q q'] l Hq _ IH]; [done|]. cbn in Hq |- *. by rewrite Hq, section_pop_same. }
  rewrite app_nil_r. cbn. by destruct (section_pop _).
Qed.

Lemma wp_thread_pool_pop fuel (w : os) :
  may_lock w -> w_wakes w + 1 < fuel ->
  wp (sys E) False (thread_pool_pop fuel) w (pop_post w).
Proof.
  intros Hm Hf. pose proof Hm as [Hp _]. unfold thread_pool_pop. apply wp_poollock; [done|]. intros q Hv.
  eapply wp_call_spec; [by apply wp_pop_wait|].
  intros q0 w1 [(idle & k & -> & Hk & Hidle & Hv0) Hend].
  pose proof Hv0 as (Hinv & Hb & Hs). destruct (shutdown q0) eqn:Hsd.
  - eapply wp_poolunlock; [done | by apply queue_evolves_refl | done | os_simpl; set_solver
      | os_simpl; set_solver |].
    exists idle, k, q0, q0. split_and!; [done|done|done|]. left. split_and!; [done|done|done|].
    by rewrite lose_gain_same.
  - destruct Hend as [Hh|?]; [|done]. pose proof Hinv as (l & Hrep & Hnd & Hr).
    destruct l as [|[a s] l].
    { destruct Hrep as [Hc _ _ _ _]. done. }
    pose proof (queue_rep_length _ _ Hrep Hnd Hr) as Hsize.
    destruct (unlink_head_spec q0 a s l Hrep Hsize) as (n & q1 & Hu & Hns & Hrep1 & Hsd1 & Hb1).
    pose proof (queue_rep_socks _ _ Hrep) as Hsk0. pose proof (queue_rep_socks _ _ Hrep1) as Hsk1.
    cbn [fmap list_fmap snd] in Hnd, Hr, Hsk0. apply NoDup_cons in Hnd as [Hsl Hnd].
    apply Forall_cons_iff in Hr as [Hrs Hr]. cbn [list_to_set] in Hsk0. rewrite <- Hsk1 in Hsk0.
    assert (a ∈ queue_blocks q0) as Ha.
    { unfold queue_blocks. rewrite (qr_dom _ _ Hrep). simpl. set_solver. }
    assert (s ∉ queue_socks q1) as Hsq by (by rewrite Hsk1, elem_of_list_to_set).
    assert (s ∉ w_socks w) as Hsw by (specialize (Hs s); set_solver).
    eapply wp_ensure; [done|]. cbv zeta.
    assert (queue_step q0 (Pop s) q1) as Hstep.
    { exists (s :: l.*2), l.*2.
      split_and!; [by exists ((a, s) :: l) | by exists l | done | done | congruence]. }
    eapply wp_poolunlock; [done | by exists (Pop s) | by exists l | | |].
    { os_simpl. rewrite Hb1. set_solver. }
    { os_simpl. rewrite Hsk0. set_solver. }
    apply wp_free.
    { os_simpl. rewrite Hb1. set_solver. }
    exists idle, k, q0, q1. split_and!; [done|done|done|]. right. rewrite Hns. split_and!; [|lia|lia|done|].
    + done.
    + unfold queue_section, waited. os_eq.
      * rewrite Hb1. apply set_eq. intros x. specialize (Hb x).
        destruct (decide (x = a)) as [->|]; set_solver.
      * rewrite Hsk0. apply set_eq. intros x. specialize (Hs x). rewrite Hsk0 in Hs.
        destruct (decide (x = s)) as [->|]; set_solver.
      * done.
Qed.

(** ** Shutdown *)

Lemma raise_shutdown_inv q : queue_inv q -> queue_inv (raise_shutdown q).
Proof. intros (l & [] & Hnd & Hr). by exists l. Qed.

Lemma raise_shutdown_step q : queue_inv q -> queue_step q Stop (raise_shutdown q).
Proof.
  intros (l & [Hc Ht Hs Hn Hd] & _). exists l.*2, l.*2. split_and!; [..|done|done]; by exists l.
Qed.

(** The first part: the flag is raised, in one critical section. *)
Lemma wp_announce_shutdown {A} D (k : unit -> io A) (w : os) Q :
  may_lock w ->
  (forall q, queue_visible w q -> wp (sys E) D (k tt) (queue_section q (raise_shutdown q) w) Q) ->
  wp (sys E) D (bind k announce_shutdown) w Q.
Proof.
  intros Hm Hk. unfold announce_shutdown. pose proof Hm as [Hp _].
  apply wp_poollock; [done|]. intros q Hv. pose proof Hv as (Hinv & _ & _).
  apply wp_vis. intros [] _. eexists. split; [done|].
  eapply wp_poolunlock;
    [done | exists Stop; by apply raise_shutdown_step | by apply raise_shutdown_inv
    | apply union_subseteq_r | apply union_subseteq_r |].
  rewrite lose_gain_same; [by apply Hk | done..].
Qed.

Lemma wp_thread_pool_shutdown (w : os) :
  lenient E = true -> w_pool w = None -> w_lock w = Unlocked ->
  wp (sys E) False thread_pool_shutdown w (fun _ w' => exists q c,
    queue_visible w q /\ cache_visible E w c /\ queue_step q Stop (raise_shutdown q) /\
    w' = queue_section q (raise_shutdown q) (set_w_lock Destroyed (set_w_seen (Some c) w))).
Proof.
  intros Hlen Hp Hl. unfold thread_pool_shutdown.
  apply wp_announce_shutdown; [by apply may_lock_unlocked|].
  intros q Hv. apply wp_vis. intros [] _. eexists. split; [split_and!; [done | by right | done]|].
  apply wp_vis. intros [] _. eexists. split; [split; [by right | done]|].
  eapply wp_mono; [by apply wp_lith_cache_destroy|]. intros _ w' (c & Hc & ->).
  exists q, c. split_and!; [done|done| |by os_eq]. apply raise_shutdown_step, Hv.
Qed.

(** The mutex may not be destroyed while there are workers, that take it. *)
Lemma thread_pool_shutdown_strict (w : os) Q :
  lenient E = false -> w_pool w = None -> 0 < w_threads w -> ~ wp (sys E) False thread_pool_shutdown w Q.
Proof.
  intros Hlen Hp Ht Hwp. unfold thread_pool_shutdown, announce_shutdown in Hwp. cbn [bind sys_call call wp] in Hwp.
  destruct (Hwp empty_queue (fun _ => empty_queue_visible w _ (empty_queue_rep false))) as (w1 & [_ ->] & H1).
  destruct (H1 tt I) as (w2 & -> & H2). destruct (H2 tt I) as (w3 & (q0 & _ & ->) & H3).
  destruct (H3 tt I) as (w4 & (_ & [Hz|Hz] & _) & _); [|congruence]. os_simpl. lia.
Qed.

(** Called on a thread that holds the mutex, as a signal handler may be
    while the main thread is in [thread_pool_push], it takes it again. *)
Lemma thread_pool_shutdown_reentrant q (w : os) :
  w_pool w = Some q -> ~ wp (sys E) False thread_pool_shutdown w (fun _ _ => True).
Proof.
  intros Hp Hwp. unfold thread_pool_shutdown, announce_shutdown in Hwp. cbn [bind sys_call call wp] in Hwp.
  destruct (Hwp (mkPoolQueue None None 0 false ∅)) as (w1 & [[H _] _] & _); [|congruence].
  intros Hfree. congruence.
Qed.

(** ** Start *)

Definition create_post (n : nat) (w w' : os) : Prop :=
  exists k, k <= n /\ w' = set_w_threads (k + w_threads w) w.

Lemma wp_create_workers n (w : os) :
  wp (sys E) False (create_workers n) w (fun _ w' => create_post n w w').
Proof.
  revert w. induction n as [|n IH]; intros w; cbn [create_workers].
  - exists 0. split; [lia|]. by os_eq.
  - apply wp_vis. intros [] _.
    + eexists. split; [done|]. apply wp_vis. intros [] _. eexists. split; [done|].
      eapply wp_mono; [apply IH|]. intros _ w' (k & Hk & ->). exists (S k). split; [lia|].
      os_eq. lia.
    + eexists. split; [done|]. eapply wp_mono; [apply IH|].
      intros _ w' (k & Hk & ->). exists k. split; [lia | done].
Qed.
End contracts.

Section start.
Context (E : env) (HE : env_wf E) (Hmax : (max_file E < LONG_MAX)%Z).

(** What preloading the file [p] adds to the cache. *)
Definition preload (p mime : bytes) : list resource :=
  match disk E p with
  | Some f =>
      if decide (Z.of_nat (length (contents f)) <= MAX_CACHE_FILE_SIZE)%Z
      then [mkResource (take 255 p) (take 63 mime) (contents f) (mtime f)] else []
  | None => []
  end.

Lemma cache_resources_count M c : cache_inv M c -> length (cache_resources c) = entry_count c.
Proof.
  intros [Hl Hc _ _ _]. unfold cache_resources. rewrite length_fmap, length_take. lia.
Qed.

Lemma add_preload p mime c r c1 :
  ample E = true -> quiet E = true -> cache_ok E c ->
  (forall f, disk E (cstr p) = Some f -> contents f <> []) ->
  length (cache_resources c) < MAX_CACHE_ENTRIES -> add_result E p mime c r c1 ->
  cache_resources c1 = cache_resources c ++ preload (cstr p) (cstr mime).
Proof.
  intros Ha Hq Hinv Hne Hlt Hr. rewrite (cache_resources_count _ _ Hinv) in Hlt. unfold preload.
  destruct Hr as [d mt c1 _ Hres Hd Hdisk|Hfull|r _ Hno|Hbig|Hmem].
  - rewrite Hres, (Hdisk Hq). cbn [contents mtime]. by rewrite decide_True.
  - lia.
  - by rewrite (Hno Hq), app_nil_r.
  - destruct (Hbig Hq) as (f & -> & Hf). rewrite decide_False by lia. by rewrite app_nil_r.
  - destruct (Hmem Ha Hq) as [mt Hf]. by destruct (Hne _ Hf).
Qed.

(** Adding to a cache only this thread uses. *)
Lemma wp_add_next {A} p mime c (k : Z -> io A) (w : os) Q :
  w_lock w = Unlocked -> w_seen w = Some c -> cstr mime = get_mime_type (Some p) ->
  (forall r c1 cr, cache_ok E c1 ->
     (alone E = true -> ample E = true -> quiet E = true ->
      (forall f, disk E (cstr p) = Some f -> contents f <> []) ->
      length (cache_resources c) < MAX_CACHE_ENTRIES ->
      cache_resources c1 = cache_resources c ++ preload (cstr p) (cstr mime)) ->
     wp (sys E) False (k r) (set_w_seen (Some c1) (set_w_crit cr w)) Q) ->
  wp (sys E) False (bind k (lith_cache_add p mime)) w Q.
Proof.
  intros Hl Hs Hty Hk. eapply wp_call_spec; [by apply (wp_lith_cache_add E)|].
  intros r w1 (c0 & c1 & Hv & Hinv1 & -> & Hr). unfold cache_section. destruct Hv as [Hinv0 Hsee].
  rewrite Hs in Hsee. apply Hk; [done|].
  intros Hal Ha Hq Hne Hlt. rewrite (proj2 Hsee Hal) in *. by eapply add_preload.
Qed.

Definition index_file (pd : bytes) : bytes := cstr pd ++ lit "/index.html".
Definition style_file (pd : bytes) : bytes := cstr pd ++ lit "/style.css".

(** The two files are added under the types the table has for them. *)
Lemma index_file_type pd : cstr (lit "text/html") = get_mime_type (Some (index_file pd)).
Proof.
  rewrite (get_mime_type_by_ext _ (cstr pd ++ lit "/index") (lit "html")); [by_compute| |by_compute].
  unfold index_file. rewrite cstr_id; [by rewrite <- app_assoc|]. apply no_nul_app.
  split; [apply cstr_no_nul | by_compute].
Qed.

Lemma style_file_type pd : cstr (lit "text/css") = get_mime_type (Some (style_file pd)).
Proof.
  rewrite (get_mime_type_by_ext _ (cstr pd ++ lit "/style") (lit "css")); [by_compute| |by_compute].
  unfold style_file. rewrite cstr_id; [by rewrite <- app_assoc|]. apply no_nul_app.
  split; [apply cstr_no_nul | by_compute].
Qed.

Lemma wp_thread_pool_init dir0 c0 n pd (w : os) :
  length dir0 = 256 -> cache_storage c0 -> w_pool w = None -> strlen pd < 256 ->
  wp (sys E) False (thread_pool_init dir0 c0 n pd) w (fun dir w' =>
    length dir = 256 /\ cstr dir = cstr pd /\
    exists c k cr, k <= Z.to_nat n /\ cache_ok E c /\
      w' = set_w_threads (k + w_threads w)
             (set_w_lock Unlocked (set_w_seen (Some c) (set_w_crit cr (note [PoolMade empty_queue] w)))) /\
      (alone E = true -> ample E = true -> quiet E = true ->
       (forall p f, disk E p = Some f -> contents f <> []) ->
       cache_resources c =
         preload (index_file pd) (lit "text/html") ++ preload (style_file pd) (lit "text/css"))).
Proof.
  intros Hd Hc Hp Hpd. unfold thread_pool_init. cbv zeta.
  destruct (strncpy_term_spec dir0 pd 255 Hd) as (dir & Hdir & Hdl & Hds).
  eapply wp_ensure; [done|]. apply wp_vis. intros [] _. eexists. split.
  { split_and!; [done | | done | done]. exists [].
    split_and!; [|constructor..]. split; [done..|constructor|]. cbn [nodes]. by rewrite dom_empty_L. }
  eapply wp_call_spec; [by apply wp_lith_cache_init|]. intros c1 w1 (-> & Hinv1 & Hr1 & _).
  unfold strlen in Hpd.
  eapply (wp_ensure _ _ _ (index_file pd)).
  { apply snprintf_fits; [by format_step|]. unfold index_file. lit_norm. rewrite length_app. simpl. lia. }
  eapply (wp_add_next _ _ c1); [done|done|apply index_file_type|]. intros r1 c2 cr2 Hinv2 Hr2.
  eapply (wp_ensure _ _ _ (style_file pd)).
  { apply snprintf_fits; [by format_step|]. unfold style_file. lit_norm. rewrite length_app. simpl. lia. }
  eapply (wp_add_next _ _ c2); [done|done|apply style_file_type|]. intros r2 c3 cr3 Hinv3 Hr3.
  eapply wp_call_spec; [apply wp_create_workers|]. intros _ w4 (k & Hk & ->).
  eapply wp_log; [by format_step|]. split_and!; [done | |].
  - rewrite Hds. apply take_ge. lia.
  - exists c3, k, cr3. split_and!; [done|done| |].
    + by os_eq.
    + intros Hal Ham Hq Hne.
      assert (forall m, no_nul m -> no_nul (cstr pd ++ m)) as Hnn.
      { intros m Hm. apply no_nul_app. split; [apply cstr_no_nul | done]. }
      rewrite Hr1 in Hr2. cbn [app length] in Hr2.
      assert (length (cache_resources c2) < MAX_CACHE_ENTRIES) as Hlt2.
      { rewrite Hr2; [|done|done|done|by intros; eapply Hne|unfold MAX_CACHE_ENTRIES; lia].
        unfold preload. repeat case_match; unfold MAX_CACHE_ENTRIES; simpl; lia. }
      rewrite Hr3 by (done || by intros; eapply Hne).
      rewrite Hr2 by (done || (by intros; eapply Hne) || (unfold MAX_CACHE_ENTRIES; lia)).
      unfold index_file, style_file. rewrite !(cstr_id (cstr pd ++ _)) by (apply Hnn; by_compute).
      by rewrite !(cstr_id (lit _)) by by_compute.
Qed.
End start.
