(* ===== verification/Redirect.v ===== *)
(** * The redirect of clear-text clients (src/server_worker.c)

    The answer [lith_client_handler] gives to a client that does not speak TLS:
    how the path and the host are taken from the bytes peeked at, that nothing
    is written past the three buffers, that the response is never truncated,
    and that for a request with a Host header it names the same resource. *)

From S2P Require Import Prelude CString CFormat Types Effects Invariants System Logger SystemRules.
From S2P Require Import HttpParser HttpMessages HttpContent Utils Router.

(** ** Code *)

(** The initial values of the two arrays. *)
Definition default_target : bytes := lit "/" ++ replicate 255 NUL.
Definition default_host : bytes := lit "localhost:8090" ++ replicate 242 NUL.

(** [strncpy(dst, start, len); dst[len] = 0], when [len] is below the size of
    the array. *)
Definition copy_field (dst start : bytes) (len : nat) : option bytes :=
  if len <? 256 then strncpy_term dst start len else Some dst.

Definition target_path (peek_req : bytes) : option bytes :=
  match strchr peek_req SP with
  | None => Some default_target
  | Some i =>
      let path_start := drop (S i) peek_req in
      match strchr path_start SP with
      | Some len => copy_field default_target path_start len
      | None => Some default_target
      end
  end.

Definition host_header (peek_req : bytes) : option bytes :=
  match strstr peek_req (lit "Host: ") with
  | None => Some default_host
  | Some i =>
      let host_start := drop (i + 6) peek_req in
      match (match strchr host_start CR with
             | Some k => Some k
             | None => strchr host_start LF
             end) with
      | Some len => copy_field default_host host_start len
      | None => Some default_host
      end
  end.

(** [char peek_req[1024]] after [recv]. *)
Definition peek_buffer (d : bytes) : bytes := d ++ replicate (1024 - length d) NUL.

Definition redirect_response (d : bytes) : option bytes :=
  '(target, host) ← (match d with
                     | [] => Some (default_target, default_host)
                     | _ :: _ =>
                         t ← target_path (peek_buffer d);
                         h ← host_header (peek_buffer d);
                         Some (t, h)
                     end);
  snprintf 1024
    (lit "HTTP/1.1 301 Moved Permanently\r\nServer: LITH/%s\r\nLocation: https://%s%s\r\nContent-Length: 0\r\nConnection: close\r\n\r\n")
    [FStr LITH_VERSION; FStr host; FStr target].

(** One round of the loop that drains the socket. *)
Definition drain (s : Z) (_ : unit) : io (unit + unit) :=
  let! d := sys_call (SRecv s 256) in
  match d with
  | [] => Ret (inr tt)
  | _ :: _ => Ret (inl tt)
  end.

(** The clear-text branch. *)
Definition serve_clear (fuel : nat) (s : Z) : io unit :=
  lith_log LOG_INFO (lit "HTTP: Cleartext protocol signature found. Enforcing dynamic 301 redirect.") [] ;;;
  let! d := sys_call (SPeek s 1023) in
  let! response := ensure (redirect_response d) in
  sys_call (SSend s (cstr response)) ;;;
  sys_call (SShutdownWr s) ;;;
  loop fuel (drain s) tt ;;;
  lith_close_socket s.

(** * Fields *)

Lemma copy_field_spec dst start len :
  length dst = 256 ->
  exists f, copy_field dst start len = Some f /\ length f = 256 /\
    cstr f = if len <? 256 then take len (cstr start) else cstr dst.
Proof.
  intros Hd. unfold copy_field. destruct (Nat.ltb_spec len 256) as [Hl|Hl]; [|by exists dst].
  destruct (strncpy_term_lt dst start len) as (f & Hf & Hlf & Hs); [lia|].
  exists f. by rewrite Hlf.
Qed.

(** ** What is sent *)

(** The character string between the first two blanks. *)
Definition asked_target (s : bytes) : bytes :=
  default (lit "/") (
    i ← strchr s SP;
    len ← strchr (drop (S i) s) SP;
    if len <? 256 then Some (take len (drop (S i) s)) else None).

(** The value of the first Host header, up to the end of its line. *)
Definition asked_host (s : bytes) : bytes :=
  default (lit "localhost:8090") (
    i ← strstr s (lit "Host: ");
    len ← (match strchr (drop (i + 6) s) CR with
           | Some k => Some k
           | None => strchr (drop (i + 6) s) LF
           end);
    if len <? 256 then Some (take len (drop (i + 6) s)) else None).

Lemma find_char_le c s len : find_char c s = Some len -> len < length s.
Proof. intros (H & _)%find_char_Some. by apply lookup_lt_Some in H. Qed.

Lemma strchr_le s c len : strchr s c = Some len -> len < strlen s.
Proof. apply find_char_le. Qed.

(** A field copied is a prefix of the source string. *)
Lemma copy_field_taken dst s len c :
  length dst = 256 -> strchr s c = Some len ->
  exists f, copy_field dst s len = Some f /\ length f = 256 /\
    cstr f = if len <? 256 then take len s else cstr dst.
Proof.
  intros Hd Hl. destruct (copy_field_spec dst s len Hd) as (f & ? & ? & Hf).
  exists f. split_and!; [done|done|]. rewrite Hf. destruct (_ <? _); [|done].
  pose proof (strchr_le _ _ _ Hl) as Hle. unfold strlen in Hle.
  destruct (cstr_split s) as [Hs|[q Hs]]; [by rewrite <- Hs|].
  rewrite Hs at 2. by rewrite take_app_le by lia.
Qed.

Lemma default_target_ok : length default_target = 256 /\ cstr default_target = lit "/".
Proof. by_compute. Qed.

Lemma default_host_ok : length default_host = 256 /\ cstr default_host = lit "localhost:8090".
Proof. by_compute. Qed.

Lemma cstr_take_lt s c len : strchr s c = Some len -> cstr (take len s) = take len s.
Proof.
  intros Hl. pose proof (strchr_le _ _ _ Hl) as Hle. unfold strlen in Hle.
  destruct (cstr_split s) as [Hs|[q Hs]]; rewrite Hs; rewrite ?take_app_le by lia;
    apply cstr_id, no_nul_take, cstr_no_nul.
Qed.

Definition field_ok (f : bytes) : Prop := no_nul f /\ length f < 256.

#[export] Instance field_ok_dec f : Decision (field_ok f).
Proof. unfold field_ok. apply _. Defined.

(** What the two extractions leave in their arrays. *)
Lemma target_path_spec s :
  exists t, target_path s = Some t /\ cstr t = asked_target s /\ field_ok (asked_target s).
Proof.
  destruct default_target_ok as [Hdl Hd].
  assert (field_ok (lit "/")) as Hok by by_compute.
  unfold target_path, asked_target. destruct (strchr s SP) as [i|]; [|by exists default_target].
  cbn [mbind option_bind]. destruct (strchr (drop (S i) s) SP) as [len|] eqn:Hl;
    [|by exists default_target].
  destruct (copy_field_taken default_target _ _ _ Hdl Hl) as (t & Ht & _ & Hs).
  exists t. cbn [mbind option_bind]. rewrite Ht, Hs, Hd.
  destruct (Nat.ltb_spec len 256); cbn [default from_option id]; [|done]. split_and!; [done|done|].
  split; [rewrite <- (cstr_take_lt _ _ _ Hl); apply cstr_no_nul | rewrite length_take; lia].
Qed.

Lemma host_header_spec s :
  exists h, host_header s = Some h /\ cstr h = asked_host s /\ field_ok (asked_host s).
Proof.
  destruct default_host_ok as [Hdl Hd].
  assert (field_ok (lit "localhost:8090")) as Hok by by_compute.
  unfold host_header, asked_host. destruct (strstr s _) as [i|]; [|by exists default_host].
  cbn [mbind option_bind].
  destruct (match strchr (drop (i + 6) s) CR with Some k => Some k | None => strchr (drop (i + 6) s) LF end)
    as [len|] eqn:Hm; [|by exists default_host].
  assert (exists c, strchr (drop (i + 6) s) c = Some len) as [c Hl].
  { destruct (strchr (drop (i + 6) s) CR) as [k|] eqn:Hc; [exists CR; congruence | by exists LF]. }
  destruct (copy_field_taken default_host _ _ _ Hdl Hl) as (h & Hh & _ & Hs).
  exists h. cbn [mbind option_bind]. rewrite Hh, Hs, Hd.
  destruct (Nat.ltb_spec len 256); cbn [default from_option id]; [|done]. split_and!; [done|done|].
  split; [rewrite <- (cstr_take_lt _ _ _ Hl); apply cstr_no_nul | rewrite length_take; lia].
Qed.

(** The redirect to a resource. *)
Definition redirect_lines (host target : bytes) : list bytes :=
  [lit "HTTP/1.1 301 Moved Permanently"; lit "Server: LITH/1.0.9";
   lit "Location: https://" ++ host ++ target; lit "Content-Length: 0"; lit "Connection: close"].

Definition redirect_to (host target : bytes) : bytes := render_message (redirect_lines host target) [].

Definition asked (d : bytes) : bytes * bytes :=
  match d with
  | [] => (lit "localhost:8090", lit "/")
  | _ :: _ => (asked_host (peek_buffer d), asked_target (peek_buffer d))
  end.

(** The response, on any bytes peeked: complete, and terminated. *)
Lemma redirect_response_spec d :
  redirect_response d = Some (redirect_to (asked d).1 (asked d).2) /\
  no_nul (redirect_to (asked d).1 (asked d).2) /\
  length (redirect_to (asked d).1 (asked d).2) < 1024.
Proof.
  assert (field_ok (lit "localhost:8090") /\ field_ok (lit "/")) as [Hdh Hdt] by by_compute.
  assert (exists t h, (match d with
                 | [] => Some (default_target, default_host)
                 | _ :: _ => t ← target_path (peek_buffer d); h ← host_header (peek_buffer d); Some (t, h)
                 end) = Some (t, h) /\ cstr h = (asked d).1 /\ cstr t = (asked d).2 /\
    field_ok (asked d).1 /\ field_ok (asked d).2) as (t & h & Hth & Hh & Ht & [Hhn Hhl] & [Htn Htl]).
  { destruct d as [|c d].
    - exists default_target, default_host. split_and!; try done; apply default_host_ok || apply default_target_ok.
    - destruct (target_path_spec (peek_buffer (c :: d))) as (t & -> & ? & ?).
      destruct (host_header_spec (peek_buffer (c :: d))) as (h & -> & ? & ?). by exists t, h. }
  unfold redirect_response. rewrite Hth. cbn [mbind option_bind].
  assert (length (redirect_to (asked d).1 (asked d).2) < 1024) as Hlen.
  { unfold redirect_to, redirect_lines, render_message. cbn [render_lines]. lit_norm.
    repeat (rewrite length_app; cbn [length]). lia. }
  split_and!; [| |done].
  2: { apply render_head_no_nul. unfold redirect_lines.
       rewrite !Forall_cons_iff, !no_nul_app, Forall_nil. split_and!; first [assumption | exact I | by_compute]. }
  apply snprintf_fits; [|done]. format_step. rewrite Hh, Ht. apply (f_equal Some).
  unfold redirect_to, redirect_lines, render_message, LITH_VERSION. cbn [render_lines]. lit_norm.
  repeat (rewrite <- !app_assoc; cbn [app]). reflexivity.
Qed.

(** A client that names a resource is sent to that resource. *)
Lemma strchr_app s c a b : s = a ++ c :: b -> no_nul a -> c <> NUL -> (c ∉ a) -> strchr s c = Some (length a).
Proof.
  intros -> Ha Hc Hin. unfold strchr. rewrite cstr_app by done.
  unfold cstr. cbn [take_until]. rewrite (proj2 (is_nul_false c) Hc).
  by rewrite find_char_app.
Qed.

Section named.
Context (m : HttpMethod) (t h : bytes) (ls1 ls2 : list bytes) (body : bytes).
Context (Ht : Forall (fun x => ends_token x = false) t) (Htl : length t < 256).
Context (Htc : ":"%char ∉ t).
Context (Hh : clean h) (Hhl : length h < 256).
Context (Hok : Forall line_ok (ls1 ++ (lit "Host: " ++ h) :: ls2)).
Context (Hfree : Forall (free (lit "Host: ")) ls1).

Definition host_request : bytes :=
  render_message (request_line m t :: ls1 ++ (lit "Host: " ++ h) :: ls2) body.

Lemma target_no_nul : no_nul t.
Proof. apply (Forall_impl _ _ _ Ht). intros c [? _]%orb_false_elim. done. Qed.

Lemma asked_target_named k : asked_target (host_request ++ k) = t.
Proof.
  unfold asked_target, host_request. rewrite request_line_start.
  set (rest := render_message _ _).
  assert (no_nul (method_to_str m) /\ SP ∉ method_to_str m) as [Hmn Hms] by (destruct m; by_compute).
  assert (SP ∉ t) as Hts by (by apply target_chars).
  repeat (rewrite <- !app_assoc; cbn [app]).
  rewrite (strchr_app _ SP (method_to_str m) _ eq_refl) by done. cbn [mbind option_bind].
  rewrite drop_cons_app.
  rewrite (strchr_app _ SP t _ eq_refl) by (done || apply target_no_nul). cbn [mbind option_bind].
  rewrite take_app_exact. destruct (Nat.ltb_spec (length t) 256); [done | lia].
Qed.

Lemma asked_host_named k : asked_host (host_request ++ k) = h.
Proof.
  assert (Forall line_ok (request_line m t :: ls1 ++ (lit "Host: " ++ h) :: ls2)) as Hok'.
  { constructor; [by apply request_line_ok | done]. }
  unfold asked_host, host_request.
  assert (render_message (request_line m t :: ls1 ++ (lit "Host: " ++ h) :: ls2) body ++ k =
    render_message ((request_line m t :: ls1) ++ (lit "Host: " ++ h) :: ls2) (body ++ k)) as ->.
  { unfold render_message. by rewrite <- !app_assoc. }
  rewrite strstr_message; [|by_compute|done|].
  2: { constructor; [|done]. apply (free_no_char ":"%char); [by_compute|].
       apply request_line_not_elem; [done | destruct m; by_compute]. }
  cbn [mbind option_bind].
  assert (forall k, k + 6 = k + length (lit "Host: ")) as H6 by done. rewrite H6. clear H6.
  rewrite drop_header. destruct Hh as (Hcr & Hlf & Hnul).
  rewrite (strchr_app _ CR h _ eq_refl) by (done || by apply no_nul_not_elem). cbn [mbind option_bind].
  rewrite take_app_exact. destruct (Nat.ltb_spec (length h) 256); [done | lia].
Qed.

Lemma redirect_named :
  length host_request <= 1023 -> redirect_response host_request = Some (redirect_to h t).
Proof.
  intros Hl. destruct (redirect_response_spec host_request) as [-> _]. apply (f_equal Some).
  unfold asked. destruct host_request as [|c s] eqn:E.
  - exfalso. unfold host_request in E. rewrite request_line_start in E. by destruct m.
  - rewrite <- E. unfold peek_buffer. by rewrite asked_host_named, asked_target_named.
Qed.
End named.

(** * Contract *)

Section serve.
Context (E : env).

(** The reads of the draining: until one brings nothing. *)
Definition drained (ds : list bytes) : Prop :=
  exists pre, ds = pre ++ [[]] /\ Forall (fun d => d <> []) pre.

Lemma wp_drain fuel s (w : os) :
  s ∈ w_socks w -> w_reads w < fuel ->
  wp (sys E) False (loop fuel (drain s) tt) w (fun _ w' =>
    exists k ds, k <= w_reads w /\ drained ds /\ w' = set_w_in (w_in w ++ ds) (set_w_reads k w)).
Proof.
  intros Hs Hf. apply (wp_loop (sys E) _
    (fun _ w' => exists k pre, k <= w_reads w /\ Forall (fun d => d <> []) pre /\
       w' = set_w_in (w_in w ++ pre) (set_w_reads k w)) (fun _ w' => w_reads w')).
  - exists (w_reads w), []. split_and!; [lia | done |]. rewrite app_nil_r. by os_eq.
  - done.
  - intros st w1 (k & pre & Hk & Hpre & ->). unfold drain. apply wp_vis. intros d [Hd Hr]. eexists.
    split; [by split_and!|]. unfold after_read. destruct d as [|c d]; cbn [wp].
    + exists k, (pre ++ [[]]). os_simpl. rewrite <- app_assoc. split_and!; [done | by exists pre | by os_eq].
    + os_simpl. specialize (Hr ltac:(done)). split; [|lia].
      exists (k - 1), (pre ++ [c :: d]). rewrite <- app_assoc. split_and!; [lia | | by os_eq].
      apply Forall_app. split; [done|]. by repeat constructor.
Qed.

(** One redirect is sent, whatever the client wrote: the one the bytes [d] that
    were peeked at ask for, all of it while the client is there; and the socket
    is closed. *)
Definition redirected (s : Z) (w w' : os) : Prop :=
  exists d ds k n, length d <= 1023 /\ drained ds /\ k <= w_reads w /\
    (peer_ok E = true -> n = length (redirect_to (asked d).1 (asked d).2)) /\
    w' = set_w_in (w_in w ++ d :: ds) (set_w_reads k
           (set_w_sent (w_sent w ++ take n (redirect_to (asked d).1 (asked d).2))
           (set_w_socks (w_socks w ∖ {[s]}) w))).

Lemma wp_serve_clear fuel s (w : os) :
  s ∈ w_socks w -> w_reads w < fuel ->
  wp (sys E) False (serve_clear fuel s) w (fun _ w' => redirected s w w').
Proof.
  intros Hs Hf. unfold serve_clear. eapply wp_log; [by format_step|].
  apply wp_vis. intros d [Hd _]. eexists. split; [done|].
  destruct (redirect_response_spec d) as (Hr & Hn & Hl).
  eapply wp_ensure; [done|]. rewrite cstr_id by done.
  apply wp_vis. intros z [_ Hz]. eexists. split; [by split|].
  apply wp_vis. intros [] _. eexists. split; [by split|].
  eapply wp_call_spec; [by apply wp_drain|]. intros _ w' (k & ds & Hk & Hds & ->).
  apply (wp_bind_inv _ _ _ Ret), wp_close; [done|]. exists d, ds, k, (Z.to_nat z). os_simpl.
  split_and!; [lia | done | done | intros Hp; rewrite (Hz Hp); apply Nat2Z.id |]. os_eq. by rewrite <- app_assoc.
Qed.
End serve.

(** A request line may carry line breaks into the response: the blank that
    ends the path is only looked for, not the end of the line. *)
Example redirect_splits :
  redirect_response (lit "GET /\r\nSet-Cookie:x=1 HTTP/1.1\r\n\r\n") =
  Some (render_message
    [lit "HTTP/1.1 301 Moved Permanently"; lit "Server: LITH/1.0.9";
     lit "Location: https://localhost:8090/"; lit "Set-Cookie:x=1";
     lit "Content-Length: 0"; lit "Connection: close"] []).
Proof. vm_compute. reflexivity. Qed.
