(* ===== verification/Worker.v ===== *)
(** * Worker threads (src/server_worker.c)

    [lith_client_handler]: the loop over connections, the loop over the
    requests of a connection, and the loop that reads the rest of a POST body.
    Each connection is served completely: every request is answered in order,
    as the bytes read ask for, all three loops end, and the socket, the TLS
    session, the request block and the locks are given back. *)

From S2P Require Import Prelude CString CFormat Types Effects Invariants System Logger SystemRules.
From S2P Require Import HttpParser HttpMessages HttpContent Utils Cache Router ThreadPool Redirect.

(** ** Code *)

(** [SSL_read(ssl, buf + i, n); buf[i + n] = 0] *)
Definition write_at (buf : bytes) (i : nat) (d : bytes) : option bytes :=
  if decide (i + length d <= length buf) then Some (take i buf ++ d ++ drop (i + length d) buf)
  else None.

Definition receive (buf : bytes) (i : nat) (d : bytes) : option bytes :=
  buf' ← write_at buf i d;
  store buf' (i + length d) NUL.

(** One round of the loop that reads the rest of a body: the buffer, the bytes
    in it, the bytes of the body. *)
Definition recv_more (ssl : nat) (length : Z) (st : bytes * nat * Z)
    : io ((bytes * nat * Z) + (bytes * nat)) :=
  let '(buffer, received, body_received) := st in
  if bool_decide (body_received < length)%Z && (received <? BUFFER_SIZE - 1) then
    let! chunk := sys_call (SSslRead ssl (Z.of_nat (BUFFER_SIZE - 1 - received))) in
    match chunk with
    | [] => Ret (inr (buffer, received))
    | _ :: _ =>
        let! buffer' := ensure (receive buffer received chunk) in
        Ret (inl (buffer', received + List.length chunk, (body_received + Z.of_nat (List.length chunk))%Z))
    end
  else Ret (inr (buffer, received)).

Definition recv_body (fuel : nat) (ssl : nat) (req : HttpRequest) (buffer : bytes) (received : nat)
    : io (bytes * nat) :=
  match method req with
  | METHOD_POST =>
      if decide (0 < content_length req)%Z then
        let body_received :=
          match body_start req with
          | Some k => (Z.of_nat received - Z.of_nat k)%Z
          | None => 0%Z
          end in
        loop fuel (recv_more ssl (content_length req)) (buffer, received, body_received)
      else Ret (buffer, received)
  | _ => Ret (buffer, received)
  end.

(** One round of the request loop; [inr] ends it. *)
Definition session_round (fuel : nat) (cfg : ServerConfig) (ectx : ExpandedClientContext)
    (req : HttpRequest) : io (HttpRequest + unit) :=
  let ssl := ssl_session ectx in
  let buffer := replicate BUFFER_SIZE NUL in
  let! d := sys_call (SSslRead ssl (Z.of_nat (BUFFER_SIZE - 1))) in
  match d with
  | [] => Ret (inr tt)
  | _ :: _ =>
      let! buffer := ensure (receive buffer 0 d) in
      let! r := ensure (parse_http_request (Some buffer) (Some req)) in
      match r with
      | (0%Z, Some req) =>
          let! b := recv_body fuel ssl req buffer (List.length d) in
          handle_http_route cfg ectx req b.1 (Z.of_nat b.2) ;;;
          if keep_alive req then Ret (inl req) else Ret (inr tt)
      | _ =>
          send_http_error ssl 400 (lit "Bad Request") (lit "Malformed HTTP request protocol.") false ;;;
          Ret (inr tt)
      end
  end.

(** The TLS branch, once the handshake succeeded. [req0] is what the block
    allocated for the request holds. *)
Definition serve_session (fuel : nat) (cfg : ServerConfig) (pool_dir dir0 : bytes) (req0 : HttpRequest)
    (s : Z) (ssl : nat) : io unit :=
  let! dir := ensure (strncpy_term dir0 pool_dir 255) in
  let ectx := mkCtx s ssl dir in
  let! req := sys_call (SMalloc 288) in
  match req with
  | Some a =>
      loop fuel (session_round fuel cfg ectx) req0 ;;;
      sys_call (SFree a)
  | None => Ret tt
  end ;;;
  sys_call (SSslShutdown ssl) ;;;
  sys_call (SSslFree ssl) ;;;
  lith_close_socket s.

Definition serve_tls (fuel : nat) (cfg : ServerConfig) (pool_dir dir0 : bytes) (req0 : HttpRequest)
    (ssl_ctx : option nat) (s : Z) : io unit :=
  let! ssl := sys_call (SSslNew ssl_ctx) in
  match ssl with
  | None =>
      lith_log LOG_ERROR (lit "SSL: Failed to allocate space for client session storage.") [] ;;;
      lith_close_socket s
  | Some ssl =>
      sys_call (SSslSetFd ssl s) ;;;
      let! r := sys_call (SSslAccept ssl) in
      if decide (r <= 0)%Z then
        lith_log LOG_WARN (lit "SSL: Cryptographic handshake failed. Dropping insecure connection request.") [] ;;;
        sys_call (SSslFree ssl) ;;;
        lith_close_socket s
      else serve_session fuel cfg pool_dir dir0 req0 s ssl
  end.

(** The first byte of a TLS handshake record, [0x16]. *)
Definition TLS_HANDSHAKE : ascii := ascii_of_nat 22.

Definition serve_connection (fuel : nat) (cfg : ServerConfig) (pool_dir dir0 : bytes)
    (req0 : HttpRequest) (ssl_ctx : option nat) (s : Z) : io unit :=
  let! r := sys_call (SSetTimeout s 3000) in
  (if decide (r < 0)%Z then
     lith_log LOG_ERROR (lit "Failed to apply SO_RCVTIMEO context on client socket.") []
   else Ret tt) ;;;
  let! peek_buf := sys_call (SPeek s 1) in
  match peek_buf with
  | [] =>
      lith_log LOG_WARN (lit "Network: Empty or premature request dropped.") [] ;;;
      lith_close_socket s
  | c :: _ =>
      if decide (c = TLS_HANDSHAKE) then serve_tls fuel cfg pool_dir dir0 req0 ssl_ctx s
      else serve_clear fuel s
  end.

(** One round of the worker: [inr] leaves the loop. The flag is read without
    the mutex. *)
Definition worker_round (fuel : nat) (cfg : ServerConfig) (pool_dir dir0 : bytes)
    (req0 : HttpRequest) (ssl_ctx : option nat) (_ : unit) : io (unit + unit) :=
  let! client_socket := thread_pool_pop fuel in
  let! stop := sys_call SReadShutdown in
  if decide (stop = true \/ client_socket = (-1)%Z) then Ret (inr tt)
  else
    serve_connection fuel cfg pool_dir dir0 req0 ssl_ctx client_socket ;;;
    Ret (inl tt).

Definition lith_client_handler (rounds fuel : nat) (cfg : ServerConfig) (pool_dir dir0 : bytes)
    (req0 : HttpRequest) (ssl_ctx : option nat) : io unit :=
  loop rounds (worker_round fuel cfg pool_dir dir0 req0 ssl_ctx) tt.

(** * The receive buffer *)

(** [char buffer[BUFFER_SIZE]] after the first read. *)
Definition recv_buffer (d : bytes) : bytes := d ++ replicate (BUFFER_SIZE - length d) NUL.

Lemma receive_first d :
  length d < BUFFER_SIZE -> receive (replicate BUFFER_SIZE NUL) 0 d = Some (recv_buffer d).
Proof.
  intros Hl. unfold receive, write_at, recv_buffer. rewrite length_replicate, decide_True by lia.
  cbn [mbind option_bind]. rewrite take_0, drop_replicate. cbn [app]. rewrite Nat.add_0_l.
  unfold store. rewrite decide_True by (rewrite length_app, length_replicate; lia).
  apply (f_equal Some), list_insert_id. rewrite lookup_app_r, Nat.sub_diag by done.
  apply lookup_replicate. split; [done | lia].
Qed.

(** What arrives later goes behind what is there. *)
Lemma receive_next a d :
  length a + length d < BUFFER_SIZE -> receive (recv_buffer a) (length a) d = Some (recv_buffer (a ++ d)).
Proof.
  intros Hl. unfold receive, write_at, recv_buffer.
  assert (length (a ++ replicate (BUFFER_SIZE - length a) NUL) = BUFFER_SIZE) as ->
    by (rewrite length_app, length_replicate; lia).
  rewrite decide_True by lia. cbn [mbind option_bind].
  rewrite take_app_exact, drop_app_ge, drop_replicate by lia. rewrite length_app, <- app_assoc.
  replace (BUFFER_SIZE - length a - (length a + length d - length a))
    with (BUFFER_SIZE - (length a + length d)) by lia.
  unfold store. rewrite decide_True by (rewrite !length_app, length_replicate; lia).
  apply (f_equal Some), list_insert_id.
  rewrite lookup_app_r, lookup_app_r by lia. apply lookup_replicate. split; [done | lia].
Qed.

(** * Contracts *)

(** Everything but what the session read and wrote is as before. *)
Definition session_frame (w w' : os) : Prop :=
  exists k ds, k <= w_reads w /\ frame (set_w_in ds (set_w_reads k w)) w'.

Lemma session_frame_refl w : session_frame w w.
Proof. exists (w_reads w), (w_in w). split; [lia|]. by split. Qed.

Lemma session_frame_trans w1 w2 w3 :
  session_frame w1 w2 -> session_frame w2 w3 -> session_frame w1 w3.
Proof.
  intros (k & ds & Hk & []) (k' & ds' & Hk' & []). exists k', ds'. os_simpl. split; [lia|].
  split; os_simpl; congruence.
Qed.

#[export] Instance session_frame_preorder : PreOrder session_frame.
Proof. split; [exact session_frame_refl | exact session_frame_trans]. Qed.

(** ** Bodies *)

(** The reads of a body of which [left] bytes are still to come, into a buffer
    with [room] bytes left: until the body is there, the buffer is full, or a
    read brings nothing. *)
Fixpoint body_reads (left : Z) (room : nat) (ds : list bytes) : bool :=
  if bool_decide (0 < left)%Z && (0 <? room) then
    match ds with
    | [] => false
    | d :: ds' =>
        match d with
        | [] => bool_decide (ds' = [])
        | _ :: _ => (length d <=? room) && body_reads (left - Z.of_nat (length d)) (room - length d) ds'
        end
    end
  else bool_decide (ds = []).

(** The bytes of the body that came with the first read, of [n] bytes. *)
Definition body_part (req : HttpRequest) (n : nat) : Z :=
  match body_start req with Some k => (Z.of_nat n - Z.of_nat k)%Z | None => 0%Z end.

(** The reads that follow the first one of a request. *)
Definition rest_reads (req : HttpRequest) (n : nat) (ds : list bytes) : bool :=
  match method req with
  | METHOD_POST =>
      if decide (0 < content_length req)%Z
      then body_reads (content_length req - body_part req n) (BUFFER_SIZE - 1 - n) ds
      else bool_decide (ds = [])
  | _ => bool_decide (ds = [])
  end.

Section body.
Context (E : env).

(** Between two reads of a body of [z] bytes, [b0] of which came with the first
    read [d]: the pieces stand one behind the other, and what is still to be
    read completes them. *)
Definition body_state (d : bytes) (z b0 : Z) (w : os) (st : bytes * nat * Z) (w' : os) : Prop :=
  exists pre k, length (d ++ concat pre) < BUFFER_SIZE /\
    st = (recv_buffer (d ++ concat pre), length (d ++ concat pre), (b0 + Z.of_nat (length (concat pre)))%Z) /\
    (forall ds, body_reads (z - (b0 + Z.of_nat (length (concat pre))))
        (BUFFER_SIZE - 1 - length (d ++ concat pre)) ds = true ->
      body_reads (z - b0) (BUFFER_SIZE - 1 - length d) (pre ++ ds) = true) /\
    k <= w_reads w /\ w' = set_w_in (w_in w ++ pre) (set_w_reads k w).

Definition body_read (d : bytes) (done : list bytes -> bool) (w : os) (b : bytes * nat) (w' : os) : Prop :=
  exists ds k, done ds = true /\ length (d ++ concat ds) < BUFFER_SIZE /\
    b = (recv_buffer (d ++ concat ds), length (d ++ concat ds)) /\
    k <= w_reads w /\ w' = set_w_in (w_in w ++ ds) (set_w_reads k w).

Lemma wp_recv_more ssl d z b0 (w : os) st w1 :
  ssl ∈ w_ssl w -> body_state d z b0 w st w1 ->
  wp (sys E) False (recv_more ssl z st) w1 (fun x w2 =>
    match x with
    | inl st' => body_state d z b0 w st' w2 /\ w_reads w2 < w_reads w1
    | inr b => body_read d (body_reads (z - b0) (BUFFER_SIZE - 1 - length d)) w b w2
    end).
Proof.
  intros Hs (pre & k & Hl & -> & Hds & Hk & ->). unfold recv_more.
  assert (body_reads (z - (b0 + Z.of_nat (length (concat pre))))
      (BUFFER_SIZE - 1 - length (d ++ concat pre)) [] = true ->
    body_reads (z - b0) (BUFFER_SIZE - 1 - length d) pre = true) as Hend.
  { intros H. rewrite <- (app_nil_r pre). by apply Hds. }
  destruct (bool_decide (b0 + Z.of_nat (length (concat pre)) < z)%Z) eqn:Hz.
  2: { apply bool_decide_eq_false in Hz. exists pre, k. split_and!; try done. apply Hend. cbn [body_reads].
       by rewrite (bool_decide_eq_false_2 (0 < _)%Z) by lia. }
  apply bool_decide_eq_true in Hz. cbn [andb].
  destruct (Nat.ltb_spec (length (d ++ concat pre)) (BUFFER_SIZE - 1)) as [Hroom|Hroom].
  2: { exists pre, k. split_and!; try done. apply Hend. cbn [body_reads].
       rewrite (proj2 (Nat.ltb_ge 0 _)) by lia. by rewrite andb_false_r. }
  assert (bool_decide (0 < z - (b0 + Z.of_nat (length (concat pre))))%Z &&
    (0 <? BUFFER_SIZE - 1 - length (d ++ concat pre)) = true) as Hgo.
  { apply andb_true_iff. split; [apply bool_decide_eq_true; lia | apply Nat.ltb_lt; lia]. }
  apply wp_ssl_read; [done | lia | |].
  - cbn [wp]. exists (pre ++ [[]]), k. rewrite concat_app. cbn [concat app]. rewrite app_nil_r.
    split_and!; try done; [|os_eq; by rewrite <- app_assoc].
    apply Hds. cbn [body_reads]. by rewrite Hgo, bool_decide_eq_true_2.
  - intros p Hp Hpl Hr. destruct p as [|c p']; [done|]. set (p := c :: p') in *. os_simpl.
    eapply wp_ensure; [apply receive_next; lia|]. cbn [wp]. os_simpl. split; [|lia].
    assert (concat (pre ++ [p]) = concat pre ++ p) as Hc
      by (rewrite concat_app; cbn [concat]; by rewrite app_nil_r).
    exists (pre ++ [p]), (k - 1). rewrite Hc, app_assoc, !(length_app _ p).
    split_and!; [lia | | | lia | os_eq; by rewrite <- app_assoc].
    + rewrite Nat2Z.inj_add, Z.add_assoc. done.
    + intros ds Hd2. rewrite <- app_assoc. apply Hds. cbn [body_reads app]. rewrite Hgo.
      unfold p at 1. apply andb_true_iff. split; [apply Nat.leb_le; lia|]. rewrite <- Hd2. f_equal; lia.
Qed.

(** The body follows the first read [d] in the buffer, piece by piece. *)
Lemma wp_recv_body fuel ssl req d (w : os) :
  ssl ∈ w_ssl w -> length d < BUFFER_SIZE -> w_reads w < fuel ->
  wp (sys E) False (recv_body fuel ssl req (recv_buffer d) (length d)) w
    (body_read d (rest_reads req (length d)) w).
Proof.
  intros Hs Hn Hf. unfold recv_body, rest_reads.
  assert (w = set_w_in (w_in w ++ []) (set_w_reads (w_reads w) w)) as Hid by (rewrite app_nil_r; by os_eq).
  assert (body_read d (fun ds => bool_decide (ds = [])) w (recv_buffer d, length d) w) as Hnone.
  { exists [], (w_reads w). cbn [concat]. rewrite (app_nil_r d). by split_and!. }
  destruct (method req); [exact Hnone | | exact Hnone]. case_decide; [|exact Hnone].
  apply (wp_loop (sys E) _ (body_state d (content_length req) (body_part req (length d)) w)
    (fun _ w' => w_reads w')).
  - exists [], (w_reads w). cbn [concat length app]. rewrite (app_nil_r d), Z.add_0_r. by split_and!.
  - done.
  - intros st w1 Hst. eapply (wp_mono (sys E)); [by eapply wp_recv_more|]. by intros [|].
Qed.
End body.

Section session.
Context (E : env) `{HO : !Ordinary E}.

Definition bad_request_page : bytes :=
  page_of 400 (lit "Bad Request") (lit "Malformed HTTP request protocol.").

(** The response to a request, by what its first read [d] and the reads [ds] of
    its body brought; [keep] says whether the connection stays open. *)
Definition exchange (cfg : ServerConfig) (root : bytes) (keep : bool) (d : bytes) (ds : list bytes)
    (resp : bytes) : Prop :=
  d <> [] /\ length d < BUFFER_SIZE /\
  match parsed (recv_buffer d) with
  | (0%Z, req) => keep_alive req = keep /\ rest_reads req (length d) ds = true /\
      answers E cfg root req resp
  | _ => keep = false /\ ds = [] /\ error_reply E 400 (lit "Bad Request") bad_request_page false resp
  end.

Lemma parsed_fits buf :
  length (path (parsed buf).2) = MAX_PATH_SIZE /\ strlen (path (parsed buf).2) < 256 /\
  (LONG_MIN <= content_length (parsed buf).2 <= LONG_MAX)%Z.
Proof.
  unfold parsed. destruct (request_method buf) as [[m k]|]; cbn [snd path content_length].
  - pose proof (path_token_length (drop k buf)) as Hl. unfold MAX_PATH_SIZE in *. split_and!.
    + apply path_array_length. unfold MAX_PATH_SIZE. lia.
    + unfold strlen. by rewrite path_array_cstr by apply path_token_no_nul.
    + unfold parse_content_length. case_match; [apply strtol_range | unfold LONG_MIN; lia].
    + unfold parse_content_length. case_match; [apply strtol_range | unfold LONG_MAX; lia].
  - split_and!; [by_compute | by_compute | unfold LONG_MIN; lia | unfold LONG_MAX; lia].
Qed.

Lemma wp_session_round fuel cfg ectx req (w : os) :
  w_lock w = Unlocked -> ssl_session ectx ∈ w_ssl w -> strlen (ctx_public_dir ectx) < 256 ->
  length (path req) = MAX_PATH_SIZE -> w_reads w < fuel ->
  wp (sys E) False (session_round fuel cfg ectx req) w (fun x w' =>
    session_frame w w' /\
    ((exists u, x = inr u) /\ w_in w' = w_in w ++ [[]] /\ w_out w' = w_out w \/
     exists d ds, w_in w' = w_in w ++ d :: ds /\
       (if x is inl req' then length (path req') = MAX_PATH_SIZE /\ w_reads w' < w_reads w else True) /\
       (peer_ok E = true -> exists resp, w_out w' = w_out w ++ resp /\
          exchange cfg (cstr (ctx_public_dir ectx)) (if x is inl _ then true else false) d ds resp))).
Proof.
  intros Hl Hs Hpd Hp Hf. unfold session_round. cbv zeta.
  apply wp_ssl_read; [done | unfold BUFFER_SIZE; lia | |].
  { split; [by exists (w_reads w), (w_in w ++ [[]]); split; [lia | split]|]. left. split; [by eexists | done]. }
  intros d Hd Hdl Hr. assert (length d < BUFFER_SIZE) as Hdl' by (unfold BUFFER_SIZE in *; lia).
  destruct d as [|c d']; [done|]. set (d := c :: d') in *. clearbody d.
  eapply wp_ensure; [by apply receive_first|]. eapply wp_ensure; [by apply parse_http_request_eq|].
  destruct (parsed_fits (recv_buffer d)) as (Hp1 & Hp2 & Hp3).
  destruct (parsed (recv_buffer d)) as [code req'] eqn:Hpar. cbn [prod_map id snd] in *.
  assert (code = 0%Z \/ code = (-1)%Z) as [-> | ->].
  { revert Hpar. unfold parsed. destruct (request_method _) as [[? ?]|]; intros [= <- _]; auto. }
  - eapply wp_call_spec; [apply wp_recv_body; [done | done | os_simpl; lia]|].
    intros _ w1 (ds & k & Hrest & _ & -> & Hk & ->). os_simpl. cbn [fst snd].
    eapply wp_call_spec; [by apply wp_handle_http_route; os_simpl|].
    intros _ w2 [Hfr Ho]. os_simpl. pose proof (fr_in _ _ Hfr) as Ein. pose proof (fr_reads _ _ Hfr) as Er.
    os_simpl. rewrite <- app_assoc in Ein.
    assert (session_frame w w2) as Hfr2.
    { exists k, (w_in w ++ [d] ++ ds). split; [lia|]. etransitivity; [|exact Hfr]. split; os_simpl; try done.
      by rewrite app_assoc. }
    assert (peer_ok E = true -> exists resp, w_out w2 = w_out w ++ resp /\
      exchange cfg (cstr (ctx_public_dir ectx)) (keep_alive req') d ds resp) as Hex.
    { intros Hpe. destruct (Ho Hpe) as (resp & -> & Hresp). exists resp. split; [done|].
      unfold exchange. rewrite Hpar. split_and!; try done. by eapply route_answer. }
    destruct (keep_alive req'); cbn [wp]; (split; [done|right; exists d, ds; split; [done|]; split; [|done]]).
    + split; [done | lia].
    + done.
  - eapply wp_call_spec.
    { apply wp_send_http_error; [done | by unfold is_int; lia | by_compute..]. }
    intros _ w2 (Hfr & _ & _ & Ho). cbn [wp]. os_simpl. split.
    { exists (w_reads w - 1), (w_in w ++ [d]). split; [lia | done]. }
    right. exists d, []. split; [exact (fr_in _ _ Hfr)|]. split; [done|].
    intros Hpe. destruct (Ho Hpe) as (resp & Hout & Hresp). exists resp. split; [done|].
    unfold exchange. rewrite Hpar. rewrite cstr_id in Hresp by by_compute. by split_and!.
Qed.

(** A request that comes in one piece is read as it was meant. *)
Lemma parsed_received c : client_ok c -> parsed (recv_buffer (render_request c)) = (0%Z, meant c).
Proof.
  intros [Hm Ht Htl Htc Hh Hhf Hl]. unfold recv_buffer.
  set (c' := mkClient (cr_method c) (cr_target c) (cr_headers c) (cr_length c) (cr_close c)
    (cr_body c ++ replicate (BUFFER_SIZE - length (render_request c)) NUL)).
  replace (render_request c ++ _) with (render_request c').
  - exact (parsed_render c' (Build_client_ok c' Hm Ht Htl Htc Hh Hhf Hl)).
  - unfold render_request, render_message. cbn [cr_body c']. by rewrite <- !app_assoc.
Qed.

(** The request that the server takes the bytes of one read for. *)
Definition request_of (d : bytes) : HttpRequest := (parsed (recv_buffer d)).2.

Lemma request_of_render c : client_ok c -> request_of (render_request c) = meant c.
Proof. intros Hc. unfold request_of. by rewrite parsed_received. Qed.

(** A request, in one piece, for a page that is there. *)
Record asks_page (root d : bytes) : Prop := {
  ap_read : (parsed (recv_buffer d)).1 = 0%Z;
  ap_get : method (request_of d) = METHOD_GET;
  ap_safe : is_safe_path (Some (path (request_of d))) = true;
  ap_there : page_there E (root ++ target (path (request_of d)));
}.

(** The response to it without a cache. *)
Definition page_for (root d : bytes) : bytes := plain_response E root (request_of d).

Lemma exchange_page cfg root keep d ds resp :
  ample E = true -> asks_page root d -> exchange cfg root keep d ds resp ->
  ds = [] /\ keep_alive (request_of d) = keep /\ resp = page_for root d.
Proof.
  intros Ha [Hz Hm Hs (f & Hf & Hne & Hl)] (_ & _ & Hx). unfold page_for, plain_response, request_of in *.
  destruct (parsed (recv_buffer d)) as [code req]. cbn [fst snd] in *. subst code.
  destruct Hx as (Hk & Hds & Hr). unfold rest_reads, answers in *. rewrite Hm in *.
  apply bool_decide_eq_true in Hds. subst keep. split_and!; [done | done |]. rewrite Hs, Hf. by eapply get_answer_page.
Qed.

(** Such a request is longer than what is looked at of a connection first. *)
Lemma asks_page_long root d : asks_page root d -> 1 < length d.
Proof.
  intros [Hz _ _ _]. destruct (decide (1 < length d)) as [?|Hl]; [done|exfalso].
  assert (length (cstr (recv_buffer d)) <= 1) as Hc.
  { unfold recv_buffer, cstr. destruct d as [|x [|y d]]; [by_compute | | cbn in Hl; lia].
    cbn [app length take_until]. destruct (is_nul x); [cbn; lia|]. by destruct (BUFFER_SIZE - 1). }
  revert Hz. unfold parsed, request_method.
  destruct (starts_with (lit "GET ") _) eqn:H1; [|destruct (starts_with (lit "POST ") _) eqn:H2; [|done]];
    [apply starts_with_true in H1 as [k Hk] | apply starts_with_true in H2 as [k Hk]];
    rewrite Hk, length_app in Hc; vm_compute (length (lit _)) in Hc; lia.
Qed.

(** ** The request loop *)

(** The reads and the responses of a connection: it stays open after each
    exchange but the last, and ends as well when a read brings nothing. *)
Inductive session_log (cfg : ServerConfig) (root : bytes) : list bytes -> list bytes -> Prop :=
| log_end : session_log cfg root [[]] []
| log_close d ds resp :
    exchange cfg root false d ds resp -> session_log cfg root (d :: ds) [resp]
| log_keep d ds resp ins rest :
    exchange cfg root true d ds resp -> session_log cfg root ins rest ->
    session_log cfg root ((d :: ds) ++ ins) (resp :: rest).

(** A client whose requests [qs] are all of that kind, and who then goes, or
    asks for the end with the last one: each is answered, in order, and the
    server reads on as long as it is asked to. *)
Lemma session_log_pages cfg root qs bye log :
  ample E = true -> Forall (asks_page root) qs -> bye = [] \/ bye = [[]] ->
  session_log cfg root (qs ++ bye) log ->
  log = page_for root <$> qs /\
  keep_alive ∘ request_of <$> qs =
    match bye with [] => replicate (length qs - 1) true ++ [false] | _ => replicate (length qs) true end.
Proof.
  intros Ha Hqs Hbye. remember (qs ++ bye) as ins eqn:Hins. intros Hlog. revert qs Hqs Hins.
  induction Hlog as [|d ds resp Hx|d ds resp ins rest Hx _ IH]; intros qs Hqs Hins.
  - destruct Hqs as [|d qs Hd _]; [cbn in Hins; by subst bye|].
    injection Hins as <- _. by apply asks_page_long, Nat.nlt_0_r in Hd.
  - pose proof (proj1 Hx) as Hd. destruct Hqs as [|d' qs Hc Hqs]; [destruct Hbye; by simplify_eq/=|].
    injection Hins as <- ->. destruct (exchange_page _ _ _ _ _ _ Ha Hc Hx) as (Hds & Hk & ->).
    apply app_nil in Hds as [-> ->]. cbn. by rewrite Hk.
  - pose proof (proj1 Hx) as Hd. destruct Hqs as [|d' qs Hc Hqs]; [destruct Hbye; by simplify_eq/=|].
    injection Hins as <- Hins. destruct (exchange_page _ _ _ _ _ _ Ha Hc Hx) as (-> & Hk & ->).
    destruct (IH qs Hqs Hins) as [-> Hcl]. rewrite !fmap_cons, Hcl. cbn [compose]. rewrite Hk. split; [done|].
    destruct bye; [|done]. destruct qs; [done|]. cbn. by rewrite Nat.sub_0_r.
Qed.

Lemma wp_session fuel cfg ectx req (w : os) :
  w_lock w = Unlocked -> ssl_session ectx ∈ w_ssl w -> strlen (ctx_public_dir ectx) < 256 ->
  length (path req) = MAX_PATH_SIZE -> w_reads w < fuel ->
  wp (sys E) False (loop fuel (session_round fuel cfg ectx) req) w (fun _ w' =>
    session_frame w w' /\ exists ins, w_in w' = w_in w ++ ins /\
    (peer_ok E = true -> exists log, session_log cfg (cstr (ctx_public_dir ectx)) ins log /\
      w_out w' = w_out w ++ concat log)).
Proof.
  intros Hl Hs Hpd Hp Hf. set (logged := session_log cfg (cstr (ctx_public_dir ectx))).
  apply (wp_loop (sys E) _ (fun req' w' =>
    session_frame w w' /\ length (path req') = MAX_PATH_SIZE /\ exists ins, w_in w' = w_in w ++ ins /\
    (peer_ok E = true -> exists pre, w_out w' = w_out w ++ concat pre /\
      forall ins' log, logged ins' log -> logged (ins ++ ins') (pre ++ log)))
    (fun _ w' => w_reads w')).
  - split_and!; [reflexivity|done|]. exists []. rewrite app_nil_r. split; [done|].
    intros _. exists []. by rewrite app_nil_r.
  - done.
  - intros req1 w1 (Hfr & Hp1 & ins & Hin & Hpre). pose proof Hfr as (k & ds0 & Hk & Hfr').
    pose proof (fr_lock _ _ Hfr') as El. pose proof (fr_ssl _ _ Hfr') as Es.
    pose proof (fr_reads _ _ Hfr') as Er. os_simpl.
    eapply wp_mono; [apply wp_session_round; [congruence|by rewrite Es|done|done|lia]|].
    intros x w2 [Hfr2 Hx]. assert (session_frame w w2) as Hfr3 by by etransitivity.
    destruct Hx as [([u ->] & Hin2 & Hout2)|(d & ds & Hin2 & Hx & Hex)].
    { split; [done|]. exists (ins ++ [[]]). rewrite Hin2, Hin, <- app_assoc. split; [done|].
      intros Hpe. destruct (Hpre Hpe) as (pre & Ho & Hall). exists (pre ++ []).
      split; [apply Hall, log_end|]. by rewrite Hout2, Ho, app_nil_r. }
    rewrite Hin, <- app_assoc in Hin2.
    destruct x as [req2|[]]; cbn beta iota in *.
    + destruct Hx as [Hp2 Hlt]. split; [|done]. split_and!; [done|done|]. exists (ins ++ d :: ds).
      split; [done|]. intros Hpe. destruct (Hpre Hpe) as (pre & Ho & Hall).
      destruct (Hex Hpe) as (resp & Ho2 & Hxc). exists (pre ++ [resp]).
      rewrite Ho2, Ho, concat_app, <- app_assoc. cbn [concat]. rewrite app_nil_r. split; [done|].
      intros ins' log Hlog. rewrite <- !app_assoc. by apply Hall, log_keep.
    + split; [done|]. exists (ins ++ d :: ds). split; [done|]. intros Hpe.
      destruct (Hpre Hpe) as (pre & Ho & Hall). destruct (Hex Hpe) as (resp & Ho2 & Hxc).
      exists (pre ++ [resp]). split; [by apply Hall, log_close|].
      rewrite Ho2, Ho, concat_app, <- app_assoc. cbn [concat]. by rewrite app_nil_r.
Qed.

(** ** Connections *)

Context (cfg : ServerConfig) (pool_dir dir0 : bytes) (req0 : HttpRequest).
Context (Hdir : strlen pool_dir < 256) (Hdir0 : length dir0 = 256).
Context (Hreq0 : length (path req0) = MAX_PATH_SIZE).

(** What is read and written over a session: nothing, when there is no memory
    for the request, or its exchanges. *)
Definition session_part (w w' : os) : Prop :=
  (w_in w' = w_in w /\ w_out w' = w_out w) \/
  exists ins, w_in w' = w_in w ++ ins /\ (peer_ok E = true -> exists log,
    session_log cfg (cstr pool_dir) ins log /\ w_out w' = w_out w ++ concat log).

Lemma wp_serve_session fuel s ssl (w : os) :
  w_lock w = Unlocked -> ssl ∈ w_ssl w -> s ∈ w_socks w -> w_reads w < fuel ->
  wp (sys E) False (serve_session fuel cfg pool_dir dir0 req0 s ssl) w (fun _ w' =>
    session_frame (set_w_ssl (w_ssl w ∖ {[ssl]}) (set_w_socks (w_socks w ∖ {[s]}) w)) w' /\
    session_part w w').
Proof.
  intros Hl Hs Hk Hf. unfold serve_session.
  destruct (strncpy_term_spec dir0 pool_dir 255 Hdir0) as (dir & Hcp & _ & Hds).
  assert (cstr dir = cstr pool_dir) as Hds'.
  { rewrite Hds. apply take_ge. unfold strlen in Hdir. lia. }
  eapply wp_ensure; [done|]. cbv zeta.
  assert (forall w1, session_frame w w1 -> session_part w w1 ->
    wp (sys E) False (sys_call (SSslShutdown ssl) ;;; sys_call (SSslFree ssl) ;;; lith_close_socket s)
      w1 (fun _ w' =>
      session_frame (set_w_ssl (w_ssl w ∖ {[ssl]}) (set_w_socks (w_socks w ∖ {[s]}) w)) w' /\
      session_part w w')) as Hend.
  { intros w1 (k & ds & Hk1 & Hfr) Hlog.
    pose proof (fr_ssl _ _ Hfr) as Es. pose proof (fr_socks _ _ Hfr) as Ek. os_simpl.
    apply wp_vis. intros [] _. exists w1. split; [by rewrite <- Es in Hs|].
    apply wp_vis. intros [] _. eexists. split; [by rewrite <- Es in Hs|].
    apply (wp_bind_inv _ _ _ Ret), wp_close; [os_simpl; by rewrite Ek|]. cbn [wp].
    split; [|done]. exists k, ds. split; [done|]. destruct Hfr. split; os_simpl; congruence. }
  apply wp_malloc; [lia| |].
  { intros _. apply Hend; [reflexivity | by left]. }
  intros a Ha.
  apply (wp_call_spec (sys E) _ _ _ _ (fun _ w1 => session_frame w w1 /\ session_part w w1));
    [|intros _ w1 [? ?]; by apply Hend].
  assert (strlen (ctx_public_dir (mkCtx s ssl dir)) < 256) as Hdl
    by (unfold strlen in *; cbn [ctx_public_dir]; by rewrite Hds').
  eapply wp_call_spec; [by apply wp_session|].
  intros _ w1 [(k & ds & Hk1 & Hfr) (ins & Hin & Hlog)]. os_simpl.
  pose proof (fr_heap _ _ Hfr) as Eh. os_simpl.
  apply (wp_bind_inv _ _ _ Ret), wp_free; [rewrite Eh; set_solver|]. cbn [wp]. split.
  - exists k, ds. split; [done|]. destruct Hfr. split; os_simpl; try congruence. rewrite Eh. set_solver.
  - right. exists ins. split; [done|]. intros Hpe. destruct (Hlog Hpe) as (log & Hx & Ho).
    exists log. cbn [ctx_public_dir] in Hx. by rewrite Hds' in Hx.
Qed.

(** What is read from a connection, written to its TLS session and sent in
    clear: nothing is answered when nothing comes, when the handshake fails or
    memory runs out; a session is answered exchange by exchange, a clear-text
    client with the redirect its bytes ask for. *)
Inductive served : list bytes -> bytes -> bytes -> Prop :=
| served_nothing : served [[]] [] []
| served_refused : served [[TLS_HANDSHAKE]] [] []
| served_session ins log :
    session_log cfg (cstr pool_dir) ins log ->
    served ([TLS_HANDSHAKE] :: ins) (concat log) []
| served_redirect c d ds :
    c <> TLS_HANDSHAKE -> length d <= 1023 -> drained ds ->
    served ([c] :: d :: ds) [] (redirect_to (asked d).1 (asked d).2).

(** A socket is served by the end: it is closed, and everything else given
    back. *)
Definition connection_post (s : Z) (w w' : os) : Prop :=
  exists k ins sent, k <= w_reads w /\
    frame (set_w_in (w_in w ++ ins) (set_w_reads k (set_w_sent (w_sent w ++ sent)
      (set_w_socks (w_socks w ∖ {[s]}) w)))) w' /\
    (peer_ok E = true -> exists out, w_out w' = w_out w ++ out /\ served ins out sent).

(** The connection ends at once, after the reads [ins]. *)
Lemma connection_dropped s ins w :
  served ins [] [] -> connection_post s w (set_w_socks (w_socks w ∖ {[s]}) (set_w_in (w_in w ++ ins) w)).
Proof.
  intros Hs. exists (w_reads w), ins, []. split_and!; [lia | | by exists []; rewrite app_nil_r].
  split; os_simpl; try done. by rewrite app_nil_r.
Qed.

(** The TLS branch, after the byte that was peeked at. *)
Lemma wp_serve_tls fuel ctx s (w : os) :
  w_lock w = Unlocked -> s ∈ w_socks w -> w_reads w < fuel ->
  match ctx with Some c => c ∈ w_ctx w | None => True end ->
  wp (sys E) False (serve_tls fuel cfg pool_dir dir0 req0 ctx s)
    (set_w_in (w_in w ++ [[TLS_HANDSHAKE]]) w) (fun _ w' => connection_post s w w').
Proof.
  intros Hl Hs Hf Hctx. unfold serve_tls. apply wp_vis. intros [ssl|] Hssl.
  2: { eexists. split; [by split|]. eapply wp_log; [by format_step|].
       apply (wp_bind_inv _ _ _ Ret), wp_close; [done|]. exact (connection_dropped s _ w served_refused). }
  destruct Hssl as [_ Hfresh]. eexists. split; [by split|]. os_simpl.
  apply wp_vis. intros [] _. eexists. split; [by split_and!; os_simpl; set_solver|].
  apply wp_vis. intros r _. eexists. split; [split; os_simpl; [set_solver | done]|].
  assert (({[ssl]} ∪ w_ssl w) ∖ {[ssl]} = w_ssl w) as Hback by set_solver.
  case_decide.
  - eapply wp_log; [by format_step|]. apply wp_vis. intros [] _. eexists.
    split; [split; os_simpl; [set_solver | done]|].
    apply (wp_bind_inv _ _ _ Ret), wp_close; [done|]. cbn [wp]. os_simpl.
    exists (w_reads w), [[TLS_HANDSHAKE]], []. split_and!; [lia | |].
    + split; os_simpl; try done. by rewrite app_nil_r.
    + intros _. exists []. rewrite app_nil_r. split; [done | apply served_refused].
  - eapply wp_mono; [apply wp_serve_session; os_simpl; [done | set_solver | done | done]|].
    intros _ w' [(k & ds & Hk & Hfr) Hpart]. os_simpl. rewrite Hback in Hfr.
    pose proof (fr_in _ _ Hfr) as Ein. os_simpl. unfold session_part in Hpart. os_simpl.
    assert (forall ins, w_in w' = w_in w ++ ins ->
      frame (set_w_in (w_in w ++ ins) (set_w_reads k (set_w_sent (w_sent w ++ [])
        (set_w_socks (w_socks w ∖ {[s]}) w)))) w') as Hfr'.
    { intros ins Hin. destruct Hfr. split; os_simpl; try done. by rewrite app_nil_r. }
    destruct Hpart as [[Hin Hout]|(ins & Hin & Hlog)].
    + exists k, [[TLS_HANDSHAKE]], []. split_and!; [done | by apply Hfr' |]. intros _. exists [].
      rewrite app_nil_r. split; [done | apply served_refused].
    + rewrite <- app_assoc in Hin. exists k, ([TLS_HANDSHAKE] :: ins), []. split_and!; [done | by apply Hfr' |].
      intros Hpe. destruct (Hlog Hpe) as (log & Hx & Ho). exists (concat log).
      split; [done | by eapply served_session].
Qed.

Lemma wp_serve_connection fuel ctx s (w : os) :
  w_lock w = Unlocked -> s ∈ w_socks w -> w_reads w < fuel ->
  match ctx with Some c => c ∈ w_ctx w | None => True end ->
  wp (sys E) False (serve_connection fuel cfg pool_dir dir0 req0 ctx s) w
    (fun _ w' => connection_post s w w').
Proof.
  intros Hl Hs Hf Hctx. unfold serve_connection. apply wp_vis. intros r _. exists w. split; [done|].
  apply (wp_call_spec (sys E) _ _ _ _ (fun _ w1 => w1 = w)).
  { case_decide; [|done]. apply (wp_bind_inv _ _ _ Ret). by eapply wp_log; [format_step|]. }
  intros _ _ ->. apply wp_vis. intros d [Hd _]. exists (set_w_in (w_in w ++ [d]) w). split; [done|].
  destruct d as [|c d].
  - eapply wp_log; [by format_step|]. apply (wp_bind_inv _ _ _ Ret), wp_close; [done|].
    exact (connection_dropped s _ w served_nothing).
  - destruct d as [|c' d]; [|cbn [length] in Hd; lia].
    case_decide as Hc; [subst c; by apply wp_serve_tls|]. eapply wp_mono; [by apply wp_serve_clear|].
    intros _ w' (d & ds & k & n & Hdl & Hds & Hk & Hn & ->). os_simpl.
    exists k, ([c] :: d :: ds), (take n (redirect_to (asked d).1 (asked d).2)). split_and!; [done | |].
    + split; os_simpl; try done. by rewrite <- app_assoc.
    + intros Hp. exists []. rewrite app_nil_r. split; [done|]. rewrite (Hn Hp), take_ge by done.
      by apply served_redirect.
Qed.

(** ** Threads *)

(** What a worker needs to serve the next connection. *)
Definition worker_ready (fuel : nat) (ctx : option nat) (w : os) : Prop :=
  w_pool w = None /\ w_lock w = Unlocked /\ w_wakes w + 1 < fuel /\ w_reads w < fuel /\
  match ctx with Some c => c ∈ w_ctx w | None => True end.

(** What it owns, apart from sockets. *)
Definition same_resources (w w' : os) : Prop :=
  w_heap w' = w_heap w /\ w_files w' = w_files w /\ w_ssl w' = w_ssl w /\ w_ctx w' = w_ctx w.

Lemma same_resources_trans w1 w2 w3 :
  same_resources w1 w2 -> same_resources w2 w3 -> same_resources w1 w3.
Proof. unfold same_resources. intros (-> & -> & -> & ->). tauto. Qed.

(** The connections [ss] served one after the other: all that was read, all
    that was written to their sessions, all that was sent in clear. *)
Inductive all_served : list Z -> list bytes -> bytes -> bytes -> Prop :=
| served_none : all_served [] [] [] []
| served_next ss s ins out sent ins' out' sent' :
    all_served ss ins out sent -> served ins' out' sent' ->
    all_served (ss ++ [s]) (ins ++ ins') (out ++ out') (sent ++ sent').

Definition transcript (ss : list Z) (w : os) : Prop :=
  peer_ok E = true -> all_served ss (w_in w) (w_out w) (w_sent w).

(** A thread has answered the connections it has taken, each completely (as far
    as its peers stay connected). *)
Definition answered (w : os) : Prop := transcript (taken w) w.

Lemma transcript_connection s ss w w' :
  connection_post s w w' -> transcript ss w -> transcript (ss ++ [s]) w'.
Proof.
  intros (k & ins & sent & _ & Hfr & Hout) Ht Hpe. destruct (Hout Hpe) as (out & Ho & Hs).
  pose proof (fr_in _ _ Hfr) as Ei. pose proof (fr_sent _ _ Hfr) as Es. os_simpl.
  rewrite Ei, Es, Ho. apply served_next; [by apply Ht | done].
Qed.

(** At its end a worker may leave the socket it took last unserved and open. *)
Definition last_socket (w w' : os) : Prop :=
  (w_socks w' = w_socks w /\ (answered w -> answered w')) \/
  exists s ss, (s ∉ w_socks w) /\ w_socks w' = {[s]} ∪ w_socks w /\ taken w' = ss ++ [s] /\
    (answered w -> transcript ss w').

(** A round serves one connection completely, or ends the worker. *)
Definition round_post (fuel : nat) (ctx : option nat) (w : os) (x : unit + unit) (w' : os) : Prop :=
  same_resources w w' /\
  match x with
  | inl _ => worker_ready fuel ctx w' /\ w_socks w' = w_socks w /\
      (exists s, taken w' = taken w ++ [s]) /\ (answered w -> answered w')
  | inr _ => w_pool w' = None /\ w_lock w' = Unlocked /\ last_socket w w'
  end.

Lemma wp_worker_round fuel ctx (w : os) :
  worker_ready fuel ctx w ->
  wp (sys E) False (worker_round fuel cfg pool_dir dir0 req0 ctx tt) w (round_post fuel ctx w).
Proof.
  intros (Hp & Hl & Hw & Hr & Hctx). unfold worker_round.
  eapply wp_call_spec; [apply wp_thread_pool_pop; [by apply may_lock_unlocked | done]|].
  intros s w1 (idle & k & q0 & q1 & Hk & Hidle & _ & Hcase). apply wp_vis. intros stop _.
  exists w1. split; [done|]. destruct Hcase as [(-> & _ & -> & ->)|(Hpop & Hrange & Hs & ->)].
  - rewrite decide_True by auto. cbn [wp]. split; [done|]. split_and!; [done|done|]. left. split; [done|].
    unfold answered. rewrite taken_waited, section_pop_same by done. cbn [option_list]. by rewrite app_nil_r.
  - assert (taken (queue_section q0 q1 (waited idle k (set_w_socks ({[s]} ∪ w_socks w) w))) = taken w ++ [s])
      as Htk by by rewrite taken_waited, (section_pop_step _ _ _ Hpop).
    case_decide as Hstop; cbn [wp].
    { split; [done|]. split_and!; [done|done|]. right. exists s, (taken w). by split_and!. }
    eapply wp_call_spec; [apply wp_serve_connection; os_simpl; [done | set_solver | done | done]|].
    intros [] w2 Hpost. pose proof (transcript_connection _ (taken w) _ _ Hpost) as Htr.
    destruct Hpost as (k2 & ins & sent & Hk2 & Hfr & _).
    assert (taken w2 = taken w ++ [s]) as Htk2.
    { unfold taken at 1. rewrite (fr_pcrit _ _ Hfr). unfold taken in Htk at 1. os_simpl. by rewrite Htk. }
    assert (answered w -> answered w2) as Hans.
    { intros Ha. unfold answered. rewrite Htk2. by apply Htr. }
    clear Htk Htr. unfold queue_section, waited in *. destruct Hfr. cbn [wp]. os_simpl. split; [|split_and!].
    + split_and!; congruence.
    + unfold worker_ready. split_and!; try congruence; try lia.
      rewrite fr_ctx. done.
    + rewrite fr_socks. set_solver.
    + by exists s.
    + exact Hans.
Qed.

(** Any number of rounds: nothing is leaked but, at the shutdown, the last
    socket. *)
Lemma wp_lith_client_handler rounds fuel ctx (w : os) :
  worker_ready fuel ctx w ->
  wp (sys E) True (lith_client_handler rounds fuel cfg pool_dir dir0 req0 ctx) w (fun _ w' =>
    same_resources w w' /\ last_socket w w').
Proof.
  unfold lith_client_handler. revert w. induction rounds as [|n IH]; intros w Hready; [done|].
  cbn [loop]. eapply wp_call_spec; [apply (wp_weaken_diverge _ False); [done|]; by apply wp_worker_round|].
  intros [[]|[]] w1 [Hsame Hx].
  - destruct Hx as (Hready1 & Hs & _ & Ha). eapply wp_mono; [by apply IH|]. intros _ w2 [Hsame2 Hs2].
    split; [by eapply same_resources_trans|]. unfold last_socket in *. rewrite Hs in Hs2. naive_solver.
  - destruct Hx as (_ & _ & Hs). by split.
Qed.
End session.
