(* ===== verification/Config.v ===== *)
(** * The configuration file (src/server/config.c)

    [load_config]: how a line is split, trimmed and assigned, that the loop
    over the lines ends, that the three path arrays stay terminated, and the
    round trip with a rendered configuration. *)

From S2P Require Import Prelude CString CFormat Types Effects Invariants System Logger SystemRules.

(** ** Code *)

(** The two loops that cut blanks off the end of a string, in place; [n] is
    [key_len] or [val_len]. *)
Fixpoint trim_end (s : bytes) (n : nat) : option bytes :=
  match n with
  | O => Some s
  | S n' =>
      c ← s !! n';
      if isspace c then s' ← store s n' NUL; trim_end s' n' else Some s
  end.

(** The chain of comparisons on the key. *)
Definition assign (key value : bytes) (config : ServerConfig) : option ServerConfig :=
  let key_is k := bool_decide (strcmp key (lit k) = 0%Z) in
  if key_is "port" then Some (set_port (atoi value) config)
  else if key_is "public_dir" then
    d ← strncpy_term (public_dir config) value 255; Some (set_public_dir d config)
  else if key_is "use_cache" then Some (set_use_cache (atoi value) config)
  else if key_is "ssl_cert_path" || key_is "ssl_cert_file" then
    d ← strncpy_term (ssl_cert_path config) value 255; Some (set_ssl_cert_path d config)
  else if key_is "ssl_key_path" || key_is "ssl_key_file" then
    d ← strncpy_term (ssl_key_path config) value 255; Some (set_ssl_key_path d config)
  else Some config.

(** One line. The key ends where the delimiter was, so that trimming it does
    not touch the value behind. *)
Definition config_line (line : bytes) (config : ServerConfig) : option ServerConfig :=
  let c := deref line in
  if bool_decide (c = "#"%char) || bool_decide (c = LF) || bool_decide (c = CR) then Some config
  else
    match strchr line "="%char with
    | None => Some config
    | Some delimiter =>
        line ← store line delimiter NUL;
        let key := skip_while isspace line in
        let value := skip_while isspace (drop (S delimiter) line) in
        key ← trim_end key (strlen key);
        value ← trim_end value (strlen value);
        assign key value config
    end.

(** One round of the [fgets] loop; [fgets] terminates what it stores. *)
Definition config_round (file : nat) (config : ServerConfig) : io (ServerConfig + ServerConfig) :=
  let! line := sys_call (SFgets file 256) in
  match line with
  | None => Ret (inr config)
  | Some line =>
      let! config := ensure (config_line (line ++ [NUL]) config) in
      Ret (inl config)
  end.

(** The values used when there is no file. *)
Definition config_defaults (config : ServerConfig) : option ServerConfig :=
  d ← strncpy (public_dir config) (lit "public") 255;
  c ← strncpy (ssl_cert_path config) (lit "certs/server.crt") 255;
  k ← strncpy (ssl_key_path config) (lit "certs/server.key") 255;
  Some (mkConfig 8090 d 1 c k).

Definition load_config (fuel : nat) (filename : bytes) (config : ServerConfig) : io (Z * ServerConfig) :=
  let! file := sys_call (SFopen (cstr filename)) in
  match file with
  | None =>
      lith_log LOG_WARN (lit "Configuration file '%s' not found. Using internal defaults.")
        [FStr filename] ;;;
      let! config := ensure (config_defaults config) in
      Ret ((-1)%Z, config)
  | Some f =>
      let! config := loop fuel (config_round f) config in
      sys_call (SFclose f) ;;;
      lith_log LOG_INFO
        (lit "Configuration loaded successfully: Port=%d, Public Directory='%s', Cache=%s")
        [FInt (port config); FStr (public_dir config);
         FStr (if decide (use_cache config = 0)%Z then lit "DISABLED" else lit "ENABLED")] ;;;
      Ret (0%Z, config)
  end.

(** * Lines *)

(** Blanks cut off at both ends. *)
Definition rtrim (s : bytes) : bytes := reverse (skip_while isspace (reverse s)).
Definition trim (s : bytes) : bytes := rtrim (skip_while isspace s).

Lemma rtrim_snoc s c : rtrim (s ++ [c]) = if isspace c then rtrim s else s ++ [c].
Proof.
  unfold rtrim. rewrite reverse_app. cbn [reverse app]. simpl.
  destruct (isspace c); [done|]. by rewrite reverse_cons, reverse_involutive.
Qed.

Lemma isspace_nul c : isspace c = true -> is_nul c = false.
Proof. intros Hc. apply is_nul_false. by intros ->. Qed.

(** Trimming stays inside the string and leaves the array's size. *)
Lemma trim_end_spec a b :
  no_nul a ->
  exists s, trim_end (a ++ b) (length a) = Some s /\ length s = length (a ++ b) /\
    (deref b = NUL -> cstr s = rtrim a).
Proof.
  revert b. induction a as [|c a IH] using rev_ind; intros b Ha.
  - exists b. split_and!; [done|done|]. intros Hb. destruct b as [|x b]; [done|].
    cbn in Hb. subst. by rewrite cstr_nul.
  - apply no_nul_app in Ha as [Ha Hc]. rewrite length_app. cbn [length].
    rewrite Nat.add_1_r. cbn [trim_end]. rewrite <- app_assoc. cbn [app].
    rewrite lookup_app_r, Nat.sub_diag by done. cbn [mbind option_bind lookup list_lookup].
    rewrite rtrim_snoc. destruct (isspace c) eqn:Hs.
    + unfold store. rewrite decide_True by (rewrite length_app; simpl; lia). cbn [mbind option_bind].
      replace (<[length a := NUL]> (a ++ c :: b)) with (a ++ NUL :: b)
        by by rewrite insert_app_r_alt, Nat.sub_diag.
      destruct (IH (NUL :: b) Ha) as (s & -> & Hl & Hcs). exists s. split_and!; [done| |].
      * rewrite Hl, !length_app. simpl. done.
      * intros _. by apply Hcs.
    + eexists. split_and!; [done|done|]. intros Hb.
      replace (a ++ c :: b) with ((a ++ [c]) ++ b) by by rewrite <- app_assoc.
      rewrite cstr_app by (by apply no_nul_app). destruct b as [|x b]; [by rewrite app_nil_r|].
      cbn in Hb. subst. by rewrite cstr_nul, app_nil_r.
Qed.

Lemma skip_while_stop {A} (p : A -> bool) a x b :
  p x = false -> skip_while p (a ++ x :: b) = skip_while p a ++ x :: b.
Proof. intros Hx. induction a as [|y a IH]; simpl; [by rewrite Hx|]. by destruct (p y). Qed.

Lemma skip_while_no_nul p s : no_nul s -> no_nul (skip_while p s).
Proof.
  intros Hs. destruct (skip_while_suffix p s) as [k Hk]. rewrite Hk in Hs. by apply no_nul_app in Hs as [_ ?].
Qed.

(** Both trims of a string in its buffer. *)
Lemma trim_buffer a b :
  no_nul a ->
  exists s, trim_end (skip_while isspace (a ++ NUL :: b)) (strlen (skip_while isspace (a ++ NUL :: b))) = Some s /\
    cstr s = trim a.
Proof.
  intros Ha. rewrite skip_while_stop by done.
  assert (no_nul (skip_while isspace a)) as Hn by by apply skip_while_no_nul.
  unfold strlen. rewrite cstr_term by done.
  destruct (trim_end_spec (skip_while isspace a) (NUL :: b) Hn) as (s & Hs & _ & Hc).
  exists s. split; [done|]. by apply Hc.
Qed.

(** What a line says. *)
Definition key_value (s : bytes) : option (bytes * bytes) :=
  if bool_decide (deref s = "#"%char) || bool_decide (deref s = LF) || bool_decide (deref s = CR) then None
  else
    i ← find_char "="%char s;
    Some (trim (take i s), trim (drop (S i) s)).

Lemma strtol_cstr_prefix a b : no_nul a -> strtol (a ++ NUL :: b) = strtol a.
Proof.
  intros Ha. unfold strtol. rewrite skip_while_stop by done.
  assert (forall s z, no_nul s -> read_digits (s ++ NUL :: b) z = read_digits s z) as Hr.
  { intros s. induction s as [|c s IH]; intros z Hs; [done|]. cbn [app read_digits].
    apply no_nul_cons in Hs as [_ Hs]. destruct (isdigit c); [by apply IH | done]. }
  pose proof (skip_while_no_nul isspace a Ha) as Hs.
  destruct (skip_while isspace a) as [|c s]; [done|].
  apply no_nul_cons in Hs as [Hc Hs]. cbn [app deref head tail default from_option id].
  rewrite Hr by done. rewrite (app_comm_cons s (NUL :: b) c), Hr by by apply no_nul_cons. done.
Qed.

Lemma atoi_cstr s : atoi (cstr s) = atoi s.
Proof.
  unfold atoi. destruct (cstr_split s) as [Hs|[q Hs]]; [by rewrite <- Hs|].
  rewrite Hs at 2. by rewrite strtol_cstr_prefix by apply cstr_no_nul.
Qed.

Lemma strcmp_cstr a b : bool_decide (strcmp (cstr a) b = 0%Z) = bool_decide (strcmp a b = 0%Z).
Proof. apply bool_decide_ext. by rewrite !strcmp_eq, cstr_idemp. Qed.

Lemma strncpy_term_cstr d s n : strncpy_term d (cstr s) n = strncpy_term d s n.
Proof. unfold strncpy_term, strncpy. by rewrite cstr_idemp. Qed.

Lemma assign_cstr key value c : assign (cstr key) (cstr value) c = assign key value c.
Proof. unfold assign. by rewrite !strcmp_cstr, !strncpy_term_cstr, !atoi_cstr. Qed.

Lemma config_line_spec a q c :
  no_nul a ->
  config_line (a ++ NUL :: q) c =
  match key_value a with Some (key, value) => assign key value c | None => Some c end.
Proof.
  intros Ha. unfold config_line, key_value.
  assert (deref (a ++ NUL :: q) = deref a) as -> by by destruct a.
  destruct (_ || _); [done|]. unfold strchr. rewrite cstr_term by done.
  destruct (find_char "="%char a) as [i|] eqn:Hi; [|done]. cbn [mbind option_bind].
  apply find_char_Some in Hi as [Hi _]. pose proof (lookup_lt_Some _ _ _ Hi) as Hl.
  assert (no_nul (take i a)) as Hk by by apply no_nul_take.
  assert (no_nul (drop (S i) a)) as Hv by by apply no_nul_drop.
  unfold store. rewrite decide_True by (rewrite length_app; simpl; lia). cbn [mbind option_bind].
  rewrite insert_app_l by done. rewrite insert_take_drop by done. rewrite <- app_assoc. cbn [app].
  assert (drop (S i) (take i a ++ NUL :: drop (S i) a ++ NUL :: q) = drop (S i) a ++ NUL :: q) as ->.
  { assert (length (take i a) = i) as Ht by (rewrite length_take; lia).
    rewrite <- Ht at 1. by rewrite drop_cons_app. }
  destruct (trim_buffer (take i a) (drop (S i) a ++ NUL :: q) Hk) as (ks & -> & Eks). cbn [mbind option_bind].
  destruct (trim_buffer (drop (S i) a) q Hv) as (vs & -> & Evs). cbn [mbind option_bind].
  by rewrite <- Eks, <- Evs, assign_cstr.
Qed.

(** The line without what [fgets] may have read behind a NUL. *)
Lemma config_line_cstr s c :
  config_line (s ++ [NUL]) c =
  match key_value (cstr s) with Some (key, value) => assign key value c | None => Some c end.
Proof.
  destruct (cstr_split s) as [Hs|[q Hs]].
  - rewrite Hs at 1. apply config_line_spec, cstr_no_nul.
  - rewrite Hs at 1. rewrite <- app_assoc. cbn [app]. apply config_line_spec, cstr_no_nul.
Qed.

(** * Well-formedness *)

Lemma assign_wf key value c :
  config_wf c -> exists c', assign key value c = Some c' /\ config_wf c'.
Proof.
  intros [[Hp1 Hp2] [Hc1 Hc2] [Hk1 Hk2] Hport Huse].
  destruct (strncpy_term_spec _ value 255 Hp1) as (p & Ep & Hpl & Hps).
  destruct (strncpy_term_spec _ value 255 Hc1) as (ct & Ec & Hcl & Hcs).
  destruct (strncpy_term_spec _ value 255 Hk1) as (k & Ek & Hkl & Hks).
  unfold assign. rewrite Ep, Ec, Ek. cbn [mbind option_bind].
  assert (forall s : bytes, cstr s = take 255 (cstr value) -> strlen s < 256) as Hlen.
  { intros s Hs. unfold strlen. rewrite Hs, length_take. lia. }
  pose proof (Hlen _ Hps). pose proof (Hlen _ Hcs). pose proof (Hlen _ Hks).
  pose proof (atoi_range value).
  repeat case_match; eexists; (split; [done|]); split;
    cbn [port use_cache public_dir ssl_cert_path ssl_key_path set_port set_public_dir set_use_cache
         set_ssl_cert_path set_ssl_key_path]; done || by split.
Qed.

Lemma config_line_wf s c :
  config_wf c -> exists c', config_line (s ++ [NUL]) c = Some c' /\ config_wf c'.
Proof.
  intros Hc. rewrite config_line_cstr. destruct (key_value _) as [[k v]|]; [by apply assign_wf | by exists c].
Qed.

(** A short string is copied with its terminator. *)
Lemma strncpy_short dst s n :
  n <= length dst -> no_nul s -> length s < n ->
  exists d, strncpy dst s n = Some d /\ length d = length dst /\ cstr d = s.
Proof.
  intros Hn Hs Hl. unfold strncpy. rewrite decide_True by done. rewrite cstr_id by done.
  eexists. split; [done|]. split.
  - rewrite length_app, length_take, length_app, length_replicate, length_drop. lia.
  - rewrite take_app_ge by lia. destruct n as [|n]; [lia|].
    rewrite take_replicate. replace ((S n - length s) `min` S n) with (S (n - length s)) by lia.
    cbn [replicate]. rewrite <- app_assoc. by apply cstr_term.
Qed.

Lemma config_defaults_spec c0 :
  config_wf c0 ->
  exists c, config_defaults c0 = Some c /\ config_wf c /\
    port c = 8090%Z /\ use_cache c = 1%Z /\ cstr (public_dir c) = lit "public" /\
    cstr (ssl_cert_path c) = lit "certs/server.crt" /\ cstr (ssl_key_path c) = lit "certs/server.key".
Proof.
  intros [[Hd1 _] [Hc1 _] [Hk1 _] _ _].
  destruct (strncpy_short (public_dir c0) (lit "public") 255) as (d & Ed & Hdl & Hds); [lia|by_compute|by_compute|].
  destruct (strncpy_short (ssl_cert_path c0) (lit "certs/server.crt") 255) as (ct & Ec & Hcl & Hcs); [lia|by_compute|by_compute|].
  destruct (strncpy_short (ssl_key_path c0) (lit "certs/server.key") 255) as (k & Ek & Hkl & Hks); [lia|by_compute|by_compute|].
  unfold config_defaults. rewrite Ed, Ec, Ek. cbn [mbind option_bind]. eexists. split; [done|].
  split; [|by split_and!]. split; cbn [public_dir ssl_cert_path ssl_key_path port use_cache]; try lia; (split; [lia|]);
    unfold strlen; rewrite ?Hds, ?Hcs, ?Hks; by_compute.
Qed.

(** * Files *)

(** The lines [fgets(line, 256, file)] delivers. *)
Fixpoint text_lines_from (fuel : nat) (s : bytes) : list bytes :=
  match fuel with
  | O => []
  | S f =>
      match next_line 255 s with
      | [] => []
      | l => l :: text_lines_from f (drop (length l) s)
      end
  end.

Definition text_lines (s : bytes) : list bytes := text_lines_from (length s) s.

Definition read_line (c : ServerConfig) (l : bytes) : ServerConfig :=
  match key_value (cstr l) with
  | Some (key, value) => default c (assign key value c)
  | None => c
  end.

(** The configuration a text describes, from the values [c]. *)
Definition read_lines (c : ServerConfig) (ls : list bytes) : ServerConfig := foldl read_line c ls.

Definition read_text (c : ServerConfig) (s : bytes) : ServerConfig := read_lines c (text_lines s).

Lemma next_line_nil n s : next_line (S n) s = [] -> s = [].
Proof. destruct s as [|c s]; [done|]. cbn [next_line]. by case_decide. Qed.

Lemma text_lines_fuel f g s : length s <= f -> length s <= g -> text_lines_from f s = text_lines_from g s.
Proof.
  revert g s. induction f as [|f IH]; intros g s Hf Hg.
  - destruct s; [|simpl in Hf; lia]. by destruct g.
  - destruct g as [|g]; [destruct s; [done | simpl in Hg; lia]|]. cbn [text_lines_from].
    destruct (next_line_prefix 255 s) as [k Hk].
    destruct (next_line 255 s) as [|x l]; [done|]. f_equal. rewrite Hk in Hf, Hg |- *.
    rewrite length_app in Hf, Hg. cbn [length] in Hf, Hg. rewrite drop_app_exact. apply IH; lia.
Qed.

Lemma text_lines_step s :
  text_lines s = match next_line 255 s with [] => [] | l => l :: text_lines (drop (length l) s) end.
Proof.
  unfold text_lines at 1. destruct s as [|c s]; [done|]. cbn [length text_lines_from].
  destruct (next_line_prefix 255 (c :: s)) as [k Hk].
  destruct (next_line 255 (c :: s)) as [|x l]; [done|]. f_equal. apply text_lines_fuel; [|done].
  rewrite length_drop. simpl. lia.
Qed.

Lemma read_line_eq c l :
  config_wf c -> config_line (l ++ [NUL]) c = Some (read_line c l) /\ config_wf (read_line c l).
Proof.
  intros Hc. rewrite config_line_cstr. unfold read_line. destruct (key_value _) as [[k v]|]; [|done].
  by destruct (assign_wf k v c Hc) as (c' & -> & ?).
Qed.

Section load.
Context (E : env) (Hmax : (0 <= max_file E)%Z).

(** What [load_config] makes of the disk. *)
Definition loaded (fn : bytes) (c : ServerConfig) (r : Z * ServerConfig) : Prop :=
  match disk E (cstr fn) with
  | Some f => r = (0%Z, read_text c (contents f))
  | None => r.1 = (-1)%Z /\ config_defaults c = Some r.2
  end.

Lemma wp_config_loop fuel h p c (w : os) :
  h ∉ dom (w_files w) -> config_wf c -> Z.to_nat (max_file E) < fuel ->
  wp (sys E) False (loop fuel (config_round h) c) (set_w_files (<[h := (p, 0%Z)]> (w_files w)) w)
    (fun c' w' => config_wf c' /\ (exists o, w' = set_w_files (<[h := (p, o)]> (w_files w)) w) /\
      (quiet E = true -> c' = read_text c (remaining E p 0))).
Proof.
  intros Hh Hc Hf.
  apply (wp_loop (sys E) _ (fun c' w' => config_wf c' /\
    exists o, (0 <= o <= max_file E)%Z /\ w' = set_w_files (<[h := (p, o)]> (w_files w)) w /\
      (quiet E = true -> read_text c' (remaining E p o) = read_text c (remaining E p 0)))
    (fun _ w' => match w_files w' !! h with Some (_, o) => Z.to_nat (max_file E - o) | None => 0 end)).
  - split; [done|]. exists 0%Z. split_and!; [lia|lia|done|done].
  - os_simpl. rewrite lookup_insert_eq. lia.
  - intros c1 w1 (Hc1 & o & Ho & -> & Hq). unfold config_round. apply wp_vis. intros r [Hr Hrq].
    eexists. split; [exists p, o; split; [os_simpl; apply lookup_insert_eq | done]|].
    os_simpl. specialize (fun q => Hrq q p o (lookup_insert_eq _ _ _)).
    change (256 - 1) with 255 in *.
    destruct r as [l|].
    + destruct Hr as (Hl & Hl2 & Hl3). specialize (Hl3 p o (lookup_insert_eq _ _ _)).
      destruct (read_line_eq c1 l Hc1) as [El Hwf]. eapply wp_ensure; [done|]. cbn [wp].
      rewrite !insert_insert_eq. os_simpl. rewrite !lookup_insert_eq. cbn [default from_option id].
      split.
      * split; [done|]. exists (o + Z.of_nat (length l))%Z. split_and!; [lia|lia|done|].
        intros Hqt. rewrite <- (Hq Hqt). specialize (Hrq Hqt).
        unfold read_text. rewrite (text_lines_step (remaining E p o)).
        destruct (next_line 255 (remaining E p o)) as [|x l']; [done|]. injection Hrq as ->.
        unfold read_lines. cbn [foldl]. f_equal. f_equal. unfold remaining.
        destruct (disk E p); [|by rewrite drop_nil]. rewrite drop_drop. f_equal. lia.
      * assert (0 < length l) by (destruct l; [done | simpl; lia]). lia.
    + cbn [wp]. rewrite !insert_insert_eq. os_simpl. split_and!; [done | by eexists |].
      intros Hqt. rewrite <- (Hq Hqt). specialize (Hrq Hqt). unfold read_text.
      rewrite text_lines_step. by destruct (next_line 255 (remaining E p o)).
Qed.

Lemma wp_load_config fuel fn c (w : os) :
  config_wf c -> Z.to_nat (max_file E) < fuel ->
  wp (sys E) False (load_config fuel fn c) w (fun r w' =>
    w' = w /\ config_wf r.2 /\ (quiet E = true -> loaded fn c r)).
Proof.
  intros Hc Hf. unfold load_config. apply wp_fopen.
  - intros Hno. eapply wp_log; [by format_step|].
    destruct (config_defaults_spec c Hc) as (c' & Hc' & Hwf' & _).
    eapply wp_ensure; [done|]. cbn [wp fst snd]. split_and!; [done|done|].
    intros Hq. unfold loaded. by rewrite (Hno Hq).
  - intros h Hh Hdisk. eapply wp_call_spec; [by apply wp_config_loop|].
    intros c' w1 (Hwf & (o & ->) & Hq). apply wp_fclose; [os_simpl; apply elem_of_dom_insert|].
    eapply wp_log; [by format_step|]. cbn [wp fst snd]. split_and!; [|done|].
    + os_eq. rewrite insert_insert_eq || idtac. apply delete_insert_id. by apply not_elem_of_dom.
    + intros Hqt. unfold loaded. destruct (Hdisk Hqt) as [f Hf']. rewrite Hf', (Hq Hqt).
      unfold remaining. rewrite Hf'. by rewrite drop_0.
Qed.
End load.

(** * Round trip *)

(** A file as an administrator writes it. *)
Definition config_file (port : Z) (dir : bytes) (cache : Z) (cert key : bytes) : bytes :=
  concat ((fun kv : bytes * bytes => kv.1 ++ lit "=" ++ kv.2 ++ [LF]) <$>
    [(lit "port", print_Z port); (lit "public_dir", dir); (lit "use_cache", print_Z cache);
     (lit "ssl_cert_path", cert); (lit "ssl_key_path", key)]).

(** A value that survives: short, on one line, no blanks around it. *)
Definition value_ok (v : bytes) : Prop :=
  length v <= 200 /\ no_nul v /\ (LF ∉ v) /\ trim v = v.

#[export] Instance value_ok_dec v : Decision (value_ok v).
Proof. unfold value_ok. apply _. Defined.

Lemma next_line_app n a s :
  (LF ∉ a) -> length a < n -> next_line n (a ++ LF :: s) = a ++ [LF].
Proof.
  revert n. induction a as [|c a IH]; intros [|n] Ha Hn; cbn [length] in Hn; try lia.
  - done.
  - apply not_elem_of_cons in Ha as [Hc Ha]. cbn [app next_line]. rewrite decide_False by done.
    f_equal. apply IH; [done | lia].
Qed.

Lemma text_lines_cons a s :
  (LF ∉ a) -> length a < 255 -> text_lines (a ++ LF :: s) = (a ++ [LF]) :: text_lines s.
Proof.
  intros Ha Hl. rewrite text_lines_step, next_line_app by done.
  destruct (a ++ [LF]) as [|x l] eqn:E; [by destruct a|]. f_equal. rewrite <- E.
  replace (a ++ LF :: s) with ((a ++ [LF]) ++ s) by by rewrite <- app_assoc.
  by rewrite drop_app_exact.
Qed.

Lemma trim_newline v : trim v = v -> trim (v ++ [LF]) = v.
Proof.
  unfold trim. intros Hv. rewrite <- Hv at 2. destruct (skip_while isspace v) as [|c s] eqn:E.
  - assert (skip_while isspace (v ++ [LF]) = []) as ->; [|done].
    clear Hv. induction v as [|x v IH]; [done|]. simpl in *. destruct (isspace x); [by apply IH | done].
  - assert (skip_while isspace (v ++ [LF]) = (c :: s) ++ [LF]) as ->.
    { rewrite <- E. clear Hv. induction v as [|x v IH]; [done|]. simpl in *.
      destruct (isspace x); [by apply IH | done]. }
    by rewrite rtrim_snoc.
Qed.

(** A line assigns its value to its key. *)
Lemma read_line_setting c key v :
  value_ok v -> bool_decide (no_nul key /\ ("="%char ∉ key) /\ trim key = key /\
    ((bool_decide (deref key = "#"%char) || bool_decide (deref key = LF) || bool_decide (deref key = CR)) = false) /\
    key <> []) = true ->
  read_line c (key ++ lit "=" ++ v ++ [LF]) = default c (assign key v c).
Proof.
  intros (_ & Hvn & _ & Hvt) (Hn & Heq & Ht & Hd & Hnil)%bool_decide_eq_true.
  unfold read_line. rewrite cstr_id.
  2: { rewrite !no_nul_app. split_and!; [done | by_compute | done | by_compute]. }
  unfold key_value. assert (deref (key ++ lit "=" ++ v ++ [LF]) = deref key) as -> by by destruct key.
  rewrite Hd. change (lit "=") with ["="%char]. cbn [app].
  rewrite find_char_app by done. cbn [mbind option_bind].
  by rewrite take_app_exact, drop_cons_app, Ht, trim_newline.
Qed.

Lemma assign_port v c : assign (lit "port") v c = Some (set_port (atoi v) c).
Proof. done. Qed.

Lemma assign_public_dir v c : assign (lit "public_dir") v c =
  (d ← strncpy_term (public_dir c) v 255; Some (set_public_dir d c)).
Proof. done. Qed.

Lemma assign_use_cache v c : assign (lit "use_cache") v c = Some (set_use_cache (atoi v) c).
Proof. done. Qed.

Lemma assign_cert v c : assign (lit "ssl_cert_path") v c =
  (d ← strncpy_term (ssl_cert_path c) v 255; Some (set_ssl_cert_path d c)).
Proof. done. Qed.

Lemma assign_key v c : assign (lit "ssl_key_path") v c =
  (d ← strncpy_term (ssl_key_path c) v 255; Some (set_ssl_key_path d c)).
Proof. done. Qed.

Lemma value_array v : value_ok v -> take 255 (cstr v) = v.
Proof. intros (Hl & Hn & _). rewrite cstr_id by done. apply take_ge. lia. Qed.

Lemma print_Z_value z : (- 2 ^ 31 <= z < 2 ^ 31)%Z -> value_ok (print_Z z).
Proof.
  intros Hz. assert (length (print_Z z) <= 11) as Hl.
  { apply print_Z_length; [|lia].
    change (10 ^ Z.of_nat 10)%Z with 10000000000%Z. change (10 ^ Z.of_nat 11)%Z with 100000000000%Z. lia. }
  split_and!; [lia | apply print_Z_no_nul | by apply print_Z_not_elem |].
  assert (Forall (fun c => isspace c = false) (print_Z z)) as Hs.
  { apply (Forall_impl _ _ _ (print_Z_chars z)). intros c Hc. apply orb_true_iff in Hc as [Hc|Hc].
    - by destruct (digit_not_special c Hc).
    - apply bool_decide_eq_true in Hc as ->. done. }
  unfold trim, rtrim. rewrite (skip_while_none isspace (print_Z z)) by done.
  rewrite skip_while_none by by apply Forall_reverse. apply reverse_involutive.
Qed.

(** Reading the file back gives the values written, whatever was in the
    structure before. *)
Lemma config_round_trip p dir cache cert key c :
  (- 2 ^ 31 <= p < 2 ^ 31)%Z -> (- 2 ^ 31 <= cache < 2 ^ 31)%Z ->
  value_ok dir -> value_ok cert -> value_ok key -> config_wf c ->
  let c' := read_text c (config_file p dir cache cert key) in
  port c' = p /\ use_cache c' = cache /\ cstr (public_dir c') = dir /\
  cstr (ssl_cert_path c') = cert /\ cstr (ssl_key_path c') = key.
Proof.
  intros Hp Hc Hdir Hcert Hkey [[Hd1 _] [Hc1 _] [Hk1 _]]. cbv zeta.
  pose proof (print_Z_value p Hp) as Hpv. pose proof (print_Z_value cache Hc) as Hcv.
  assert (forall k v s, bool_decide (length k <= 20 /\ (LF ∉ k)) = true -> value_ok v ->
    text_lines ((k ++ lit "=" ++ v ++ [LF]) ++ s) = (k ++ lit "=" ++ v ++ [LF]) :: text_lines s) as Hline.
  { intros k v s [Hk Hkl]%bool_decide_eq_true (Hv & _ & Hvl & _).
    replace ((k ++ lit "=" ++ v ++ [LF]) ++ s) with ((k ++ lit "=" ++ v) ++ LF :: s)
      by by rewrite <- !app_assoc.
    rewrite text_lines_cons; [by rewrite <- !app_assoc| |].
    - rewrite !not_elem_of_app. split_and!; [done | by_compute | done].
    - rewrite !length_app. change (length (lit "=")) with 1. lia. }
  unfold read_text, config_file, fmap. cbn [list_fmap concat fst snd].
  rewrite !Hline by (done || by_compute). change (text_lines []) with (@nil bytes).
  destruct (strncpy_term_spec _ dir 255 Hd1) as (d & Ed & _ & Hds).
  destruct (strncpy_term_spec _ cert 255 Hc1) as (ct & Ect & _ & Hcs).
  destruct (strncpy_term_spec _ key 255 Hk1) as (k & Ek & _ & Hks).
  unfold read_lines. cbn [foldl]. rewrite !read_line_setting by (done || by_compute).
  rewrite (assign_port (print_Z p)). cbn [default from_option id].
  rewrite assign_public_dir. cbn [public_dir set_port]. rewrite Ed. cbn [mbind option_bind default from_option id].
  rewrite assign_use_cache. cbn [default from_option id].
  rewrite assign_cert. cbn [ssl_cert_path set_use_cache set_public_dir set_port]. rewrite Ect.
  cbn [mbind option_bind default from_option id].
  rewrite assign_key. cbn [ssl_key_path set_ssl_cert_path set_use_cache set_public_dir set_port]. rewrite Ek.
  cbn [mbind option_bind default from_option id].
  cbn [port use_cache public_dir ssl_cert_path ssl_key_path set_ssl_key_path set_ssl_cert_path
       set_use_cache set_public_dir set_port].
  rewrite Hds, Hcs, Hks. pose proof (atoi_print p [] Hp eq_refl) as Ep.
  pose proof (atoi_print cache [] Hc eq_refl) as Eca. rewrite app_nil_r in Ep, Eca.
  split_and!; [done | done | by apply value_array | by apply value_array | by apply value_array].
Qed.

(** A configuration that stands on the disk as such a file is the one
    [load_config] loads. *)
Definition configured_as (p : Z) (dir : bytes) (cache : Z) (cert key : bytes) (c : ServerConfig) : Prop :=
  port c = p /\ use_cache c = cache /\ cstr (public_dir c) = dir /\
  cstr (ssl_cert_path c) = cert /\ cstr (ssl_key_path c) = key.

Lemma wp_load_written E fuel fn f p dir cache cert key c (w : os) :
  (0 <= max_file E)%Z -> Z.to_nat (max_file E) < fuel -> quiet E = true -> config_wf c ->
  (- 2 ^ 31 <= p < 2 ^ 31)%Z -> (- 2 ^ 31 <= cache < 2 ^ 31)%Z ->
  value_ok dir -> value_ok cert -> value_ok key ->
  disk E (cstr fn) = Some f -> contents f = config_file p dir cache cert key ->
  wp (sys E) False (load_config fuel fn c) w (fun r w' =>
    w' = w /\ r.1 = 0%Z /\ configured_as p dir cache cert key r.2).
Proof.
  intros Hm Hf Hq Hc Hp Hca Hd Hce Hk Hfile Hcont.
  eapply (wp_mono (sys E)); [by apply wp_load_config|].
  intros r w' (-> & _ & Hl). specialize (Hl Hq). unfold loaded in Hl. rewrite Hfile, Hcont in Hl. subst r.
  split; [done|]. split; [done|]. by apply config_round_trip.
Qed.

(** The keys are lower-case: the sample of the manual sets nothing, and a
    file that is present replaces no default, so that the port stays 0. *)
Definition readme_config : bytes :=
  lit "PORT=8001\nPUBLIC_DIR=views\nUSE_CACHE=0\n".

Lemma readme_config_ignored c : read_text c readme_config = c.
Proof. reflexivity. Qed.
