(* ===== verification/Server.v ===== *)
(** * The listening socket and the TLS context (src/server.c,
    src/server/ssl_engine.c)

    [lith_init_server] and [lith_start_server] of the main thread, and the
    context of the TLS library: on every error path the socket is closed, and
    every connection accepted is handed to the queue. *)

From S2P Require Import Prelude CString CFormat Types Effects Invariants System Logger SystemRules.
From S2P Require Import Utils ThreadPool.

(** ** The TLS engine *)

(** [config->ssl_cert_path], or the default when it is empty. *)
Definition path_or (p : bytes) (default_path : bytes) : bytes :=
  if decide (0 < strlen p) then p else default_path.

(** The result code, and the value of [global_ssl_ctx]. *)
Definition lith_ssl_init (config : ServerConfig) : io (Z * option nat) :=
  sys_call SSslLibrary ;;;
  let! global_ssl_ctx := sys_call SCtxNew in
  match global_ssl_ctx with
  | None =>
      lith_log LOG_ERROR (lit "SSL: Failed to create global context framework") [] ;;;
      sys_call SErrPrint ;;;
      Ret ((-1)%Z, None)
  | Some ctx =>
      let cert_path := path_or (ssl_cert_path config) (lit "certs/server.crt") in
      let key_path := path_or (ssl_key_path config) (lit "certs/server.key") in
      let! r := sys_call (SCtxCertificate ctx (cstr cert_path)) in
      if decide (r <= 0)%Z then
        lith_log LOG_ERROR (lit "SSL: Failed to load cryptographic certificate target: '%s'")
          [FStr cert_path] ;;;
        sys_call SErrPrint ;;;
        Ret ((-1)%Z, Some ctx)
      else
      let! r := sys_call (SCtxPrivateKey ctx (cstr key_path)) in
      if decide (r <= 0)%Z then
        lith_log LOG_ERROR (lit "SSL: Failed to load cryptographic private key target: '%s'")
          [FStr key_path] ;;;
        sys_call SErrPrint ;;;
        Ret ((-1)%Z, Some ctx)
      else
      let! ok := sys_call (SCtxCheckKey ctx) in
      match ok with
      | false =>
          lith_log LOG_ERROR
            (lit "SSL: Structural validation failed. Private key mismatch with public certificate.") [] ;;;
          Ret ((-1)%Z, Some ctx)
      | true =>
          lith_log LOG_INFO (lit "SSL: Cryptographic engine initialized securely with modern TLS.") [] ;;;
          Ret (0%Z, Some ctx)
      end
  end.

Definition lith_ssl_get_context (global_ssl_ctx : option nat) : option nat := global_ssl_ctx.

Definition lith_ssl_cleanup (global_ssl_ctx : option nat) : io (option nat) :=
  let! ctx := match global_ssl_ctx with
              | Some c => sys_call (SCtxFree c) ;;; Ret None
              | None => Ret global_ssl_ctx
              end in
  sys_call SEvpCleanup ;;;
  Ret ctx.

(** ** The listening socket *)

(** [htons(config->port)]: the value is cut to 16 bits. *)
Definition to_port (p : Z) : Z := (p mod 2 ^ 16)%Z.

(** The descriptor or -1, and [global_ssl_ctx], which was [ctx0]. *)
Definition lith_init_server (config : ServerConfig) (ctx0 : option nat) : io (Z * option nat) :=
  let! server_fd := sys_call SSocket in
  if decide (server_fd = (-1)%Z) then
    lith_log LOG_ERROR (lit "Socket creation failed") [] ;;;
    Ret ((-1)%Z, ctx0)
  else
  let! r := sys_call (SReuseAddr server_fd) in
  (if decide (r < 0)%Z then lith_log LOG_WARN (lit "Failed to set SO_REUSEADDR") [] else Ret tt) ;;;
  let! r := sys_call (SBind server_fd (to_port (port config))) in
  if decide (r < 0)%Z then
    lith_log LOG_ERROR (lit "Bind failed on port %d. Port might already be in use.") [FInt (port config)] ;;;
    lith_close_socket server_fd ;;;
    Ret ((-1)%Z, ctx0)
  else
  let! r := sys_call (SListen server_fd BACKLOG) in
  if decide (r < 0)%Z then
    lith_log LOG_ERROR (lit "Listen failed") [] ;;;
    lith_close_socket server_fd ;;;
    Ret ((-1)%Z, ctx0)
  else
  let! s := lith_ssl_init config in
  if decide (s.1 < 0)%Z then
    lith_log LOG_ERROR (lit "Critical structural error: Cryptographic layer block failure") [] ;;;
    lith_close_socket server_fd ;;;
    Ret ((-1)%Z, s.2)
  else
  lith_log LOG_INFO (lit "LITH Secure HTTP Engine (%s) ready on port %d")
    [FStr LITH_VERSION; FInt (port config)] ;;;
  Ret (server_fd, s.2).

(** One round of the accept loop. *)
Definition accept_round (server_fd : Z) (_ : unit) : io (unit + unit) :=
  let! client_socket := sys_call (SAccept server_fd) in
  if decide (client_socket = (-1)%Z) then
    let! stop := sys_call SReadShutdown in
    match stop with
    | true => Ret (inr tt)
    | false => Ret (inl tt)
    end
  else
    thread_pool_push client_socket ;;;
    Ret (inl tt).

Definition lith_start_server (rounds : nat) (server_fd : Z) : io unit :=
  lith_log LOG_INFO
    (lit "LITH core engine event loop started. Waiting for safe incoming connections...") [] ;;;
  loop rounds (accept_round server_fd) tt.

(** * Contracts *)

Section contracts.
Context (E : env).

(** What makes a context ready: the certificate and the key of the
    configuration, or of the default paths, which fit each other. *)
Definition tls_setup (config : ServerConfig) (c : nat) : list setup :=
  [Certified c (cstr (path_or (ssl_cert_path config) (lit "certs/server.crt")));
   Keyed c (cstr (path_or (ssl_key_path config) (lit "certs/server.key")));
   KeyChecked c].

(** The result code tells whether there is a context that is ready; one is left
    behind on the error paths that follow its allocation. *)
Definition ssl_post (config : ServerConfig) (w : os) (r : Z * option nat) (w' : os) : Prop :=
  match r.2 with
  | Some c => (c ∉ w_ctx w) /\ exists l, l `prefix_of` tls_setup config c /\
      (r.1 = 0%Z <-> l = tls_setup config c) /\ w' = note l (set_w_ctx ({[c]} ∪ w_ctx w) w)
  | None => w' = w /\ r.1 = (-1)%Z
  end /\ (r.1 = 0%Z \/ r.1 = (-1)%Z) /\ (opens E = true -> r.1 = 0%Z).

Lemma wp_lith_ssl_init config (w : os) :
  wp (sys E) False (lith_ssl_init config) w (ssl_post config w).
Proof.
  unfold lith_ssl_init. apply wp_vis. intros [] _. exists w. split; [done|].
  apply wp_vis. intros [c|] Hc; (eexists; split; [done|]).
  2: { eapply wp_log; [by format_step|]. apply wp_vis. intros [] _. eexists. split; [done|].
       split; [done|]. split; [by right|]. cbn in Hc. congruence. }
  set (w1 := set_w_ctx ({[c]} ∪ w_ctx w) w).
  assert (forall n w', n < 3 -> opens E = false -> w' = note (take n (tls_setup config c)) w1 ->
    ssl_post config w ((-1)%Z, Some c) w') as Hfail.
  { intros n w' Hn Ho ->. split; [|split; [by right | congruence]]. split; [exact Hc|].
    exists (take n (tls_setup config c)). split_and!; [apply prefix_take | | done].
    split; [done|]. intros Hl%(f_equal length). rewrite length_take in Hl. cbn in Hl. lia. }
  assert (forall r : Z, (r <= 0)%Z -> (opens E = true -> (0 < r)%Z) -> opens E = false) as Hopen.
  { intros r Hr Ho. destruct (opens E); [specialize (Ho eq_refl); lia | done]. }
  cbv zeta. apply wp_vis. intros r1 Hr1. eexists. split; [split; [cbn; set_solver | done]|]. case_decide.
  { rewrite decide_False by lia. eapply wp_log; [by format_step|]. apply wp_vis. intros [] _. eexists.
    split; [done|]. apply (Hfail 0); [lia | by eapply Hopen | symmetry; apply note_nil]. }
  rewrite decide_True by lia.
  apply wp_vis. intros r2 Hr2. eexists. split; [split; [cbn; set_solver | done]|]. case_decide.
  { rewrite decide_False by lia. eapply wp_log; [by format_step|]. apply wp_vis. intros [] _. eexists.
    split; [done|]. apply (Hfail 1); [lia | by eapply Hopen | done]. }
  rewrite decide_True by lia. rewrite note_note.
  apply wp_vis. intros [] Hok; (eexists; split; [split; [cbn; set_solver | done]|]); (eapply wp_log; [by format_step|]).
  - rewrite note_note. split; [|split; [by left | done]]. split; [exact Hc|]. by exists (tls_setup config c).
  - apply (Hfail 2); [lia | | done]. cbn in Hok. destruct (opens E); [by specialize (Hok eq_refl) | done].
Qed.

Lemma wp_lith_ssl_cleanup ctx (w : os) :
  match ctx with Some c => c ∈ w_ctx w | None => True end ->
  wp (sys E) False (lith_ssl_cleanup ctx) w (fun r w' => r = None /\
    w' = match ctx with Some c => set_w_ctx (w_ctx w ∖ {[c]}) w | None => w end).
Proof.
  intros Hc. unfold lith_ssl_cleanup. destruct ctx as [c|]; apply wp_vis; intros [] _.
  - eexists. split; [done|]. apply wp_vis. intros [] _. eexists. by split.
  - by eexists.
Qed.

Lemma wp_lith_close_socket {A} s (k : unit -> io A) (w : os) Q :
  s ∈ w_socks w -> wp (sys E) False (k tt) (set_w_socks (w_socks w ∖ {[s]}) w) Q ->
  wp (sys E) False (bind k (lith_close_socket s)) w Q.
Proof. apply wp_close. Qed.

Lemma wp_socket {A} (k : Z -> io A) (w : os) D Q :
  (opens E = false -> wp (sys E) D (k (-1)%Z) w Q) ->
  (forall s, (0 <= s < INT_MAX)%Z -> (s ∉ w_socks w) ->
     wp (sys E) D (k s) (set_w_socks ({[s]} ∪ w_socks w) w) Q) ->
  wp (sys E) D (bind k (sys_call SSocket)) w Q.
Proof.
  intros HN HS. apply wp_vis. intros s Hs. eexists. split; [done|]. cbn in s.
  destruct Hs as [[-> Ho]|[Hr Hs]]; [rewrite decide_True by done; by apply HN|]. rewrite decide_False by lia. by apply HS.
Qed.

Lemma wp_accept {A} fd (k : Z -> io A) (w : os) D Q :
  fd ∈ w_socks w -> wp (sys E) D (k (-1)%Z) w Q ->
  (forall s, (0 <= s < INT_MAX)%Z -> (s ∉ w_socks w) ->
     wp (sys E) D (k s) (set_w_socks ({[s]} ∪ w_socks w) w) Q) ->
  wp (sys E) D (bind k (sys_call (SAccept fd))) w Q.
Proof.
  intros Hfd HN HS. apply wp_vis. intros s Hs. eexists. split; [by split|]. cbn in s.
  destruct Hs as [->|[Hr Hs]]; [by rewrite decide_True|]. rewrite decide_False by lia. by apply HS.
Qed.

(** The server is up: a new socket is bound to the port of the configuration and
    listens, and a new context is ready. *)
Definition server_up (config : ServerConfig) (w : os) (fd : Z) (c : nat) (w' : os) : Prop :=
  (0 <= fd < INT_MAX)%Z /\ (fd ∉ w_socks w) /\ (c ∉ w_ctx w) /\
  w' = note ([BoundTo fd (to_port (port config)); Listens fd] ++ tls_setup config c)
         (set_w_socks ({[fd]} ∪ w_socks w) (set_w_ctx ({[c]} ∪ w_ctx w) w)).

(** All that was made has been undone but, when it was made, the context. *)
Definition ctx_left (w w' : os) (ctx : option nat) : Prop :=
  exists l, w' = note l w \/ exists c, ctx = Some c /\ (c ∉ w_ctx w) /\ w' = note l (set_w_ctx ({[c]} ∪ w_ctx w) w).

(** A descriptor is returned exactly when the socket listens; on every error
    path it is closed. *)
Definition init_post (config : ServerConfig) (ctx0 : option nat) (w : os) (r : Z * option nat) (w' : os) : Prop :=
  if decide (r.1 = (-1)%Z)
  then opens E = false /\ ctx_left w w' r.2 /\ (r.2 = ctx0 \/ r.2 = None \/ exists c, r.2 = Some c /\ c ∈ w_ctx w')
  else exists c, r.2 = Some c /\ server_up config w r.1 c w'.

(** What a failed [lith_ssl_init] leaves. *)
Lemma ssl_failed config w code ctx w' :
  ssl_post config w (code, ctx) w' -> ctx_left w w' ctx /\ match ctx with Some c => c ∈ w_ctx w' | None => True end.
Proof.
  intros [Hctx _]. cbn [snd fst] in Hctx. destruct ctx as [c|].
  - destruct Hctx as (Hc & l & _ & _ & ->). split; [|cbn; set_solver]. exists l. right. by exists c.
  - destruct Hctx as [-> _]. split; [|done]. exists []. left. symmetry. apply note_nil.
Qed.

Lemma wp_lith_init_server config ctx0 (w : os) :
  wp (sys E) False (lith_init_server config ctx0) w (init_post config ctx0 w).
Proof.
  unfold lith_init_server. apply wp_socket.
  { intros Ho. rewrite decide_True by done. eapply wp_log; [by format_step|].
    split_and!; [done | | by left]. exists []. left. symmetry. apply note_nil. }
  intros fd Hr Hnew. rewrite decide_False by lia. set (w0 := set_w_socks ({[fd]} ∪ w_socks w) w).
  assert (forall w2 ctx, opens E = false -> w_socks w2 = {[fd]} ∪ w_socks w ->
    ctx_left w0 w2 ctx -> ctx = ctx0 \/ ctx = None \/ (exists c, ctx = Some c /\ c ∈ w_ctx w2) ->
    wp (sys E) False (lith_close_socket fd ;;; Ret ((-1)%Z, ctx)) w2 (init_post config ctx0 w)) as Hfail.
  { intros w2 ctx Ho Hs (l & Hl) Hctx. apply wp_lith_close_socket; [rewrite Hs; set_solver|].
    assert (w_socks w2 ∖ {[fd]} = w_socks w) as -> by (rewrite Hs; set_solver).
    split_and!; [done | | done]. exists l.
    destruct Hl as [->|(c & -> & Hc & ->)]; [left; by os_eq|]. right. exists c. split_and!; [done | done | by os_eq]. }
  assert (forall l, w_socks (note l w0) = {[fd]} ∪ w_socks w) as Hsk by done.
  assert (fd ∈ {[fd]} ∪ w_socks w) as Hin by set_solver.
  assert (forall r : Z, (r < 0)%Z -> (opens E = true -> (0 <= r)%Z) -> opens E = false) as Hopen.
  { intros r Hr0 Ho. destruct (opens E); [specialize (Ho eq_refl); lia | done]. }
  apply wp_vis. intros r1 _. eexists. split; [done|].
  apply (wp_call_spec (sys E) _ _ _ _ (fun _ w2 => w2 = w0)).
  { case_decide; [|done]. apply (wp_bind_inv _ _ _ Ret). by eapply wp_log; [format_step|]. }
  intros _ _ ->. apply wp_vis. intros r2 Hr2. eexists. split; [done|]. case_decide.
  { rewrite decide_False by lia. eapply wp_log; [by format_step|].
    apply Hfail; [by eapply Hopen | done | | by left]. exists []. left. symmetry. apply note_nil. }
  rewrite decide_True by lia. apply wp_vis. intros r3 Hr3. eexists. split; [done|]. case_decide.
  { rewrite decide_False by lia. eapply wp_log; [by format_step|].
    apply Hfail; [by eapply Hopen | done | | by left]. eexists. by left. }
  rewrite decide_True by lia. rewrite note_note.
  eapply wp_call_spec; [apply wp_lith_ssl_init|]. intros [code ctx] w3 Hssl. cbn [fst snd].
  pose proof Hssl as (Hctx & Hcode & Hop). cbn [fst snd] in *. case_decide as Hneg.
  - eapply wp_log; [by format_step|]. destruct (ssl_failed _ _ _ _ _ Hssl) as [(l & Hl) Hmem].
    apply Hfail.
    + destruct (opens E); [specialize (Hop eq_refl); lia | done].
    + by destruct Hl as [->|(c & _ & _ & ->)].
    + eexists. destruct Hl as [->|(c & -> & Hc & ->)]; rewrite ?note_note; [by left | right; exists c].
      split_and!; [done | done |]. by os_eq; rewrite <- app_assoc.
    + right. destruct ctx as [c|]; [right; by exists c | by left].
  - destruct ctx as [c|]; [|destruct Hctx as [_ ->]; lia]. destruct Hctx as (Hcn & l & _ & Hl & ->).
    eapply wp_log; [by format_step|]. cbn [wp]. unfold init_post. cbn [fst snd]. rewrite decide_False by lia.
    exists c. split; [done|]. rewrite (proj1 Hl) by lia.
    split_and!; [lia | lia | done | done |]. os_eq. by rewrite <- app_assoc.
Qed.

(** ** The accept loop *)

(** The thread is as before, apart from what it has passed on. *)
Definition accepting (w w' : os) : Prop :=
  exists pc, w' = set_w_pcrit pc w /\ taken w' = taken w.

Lemma accepting_refl w : accepting w w.
Proof. exists (w_pcrit w). split; [by os_eq | done]. Qed.

Lemma wp_accept_round fd (w : os) :
  may_lock w -> fd ∈ w_socks w ->
  wp (sys E) False (accept_round fd tt) w (fun _ w' => accepting w w').
Proof.
  intros Hp Hfd. unfold accept_round. apply wp_accept; [done| |].
  { rewrite decide_True by done. apply wp_vis. intros [] _; (eexists; split; [done|]); apply accepting_refl. }
  intros s Hr Hnew. rewrite decide_False by lia.
  assert (({[s]} ∪ w_socks w) ∖ {[s]} = w_socks w) as Hback by set_solver.
  eapply wp_call_spec; [apply wp_thread_pool_push; os_simpl; [done | set_solver | done]|].
  intros _ w' [[_ ->]|(q0 & q1 & _ & Hq & ->)]; cbn [wp]; os_simpl; rewrite Hback.
  - exists (w_pcrit w). split; [by os_eq | done].
  - eexists (w_pcrit w ++ [(q0, q1)]). unfold queue_section. split; [by os_eq|].
    unfold taken. os_simpl. rewrite omap_app. assert (section_pop (q0, q1) = None) as Hno.
    { destruct (shutdown q0); [subst q1; apply section_pop_same|].
      apply section_pop_step in Hq. by destruct (section_pop _). }
    cbn. by rewrite Hno, app_nil_r.
Qed.

Lemma accepting_trans w1 w2 w3 : accepting w1 w2 -> accepting w2 w3 -> accepting w1 w3.
Proof. intros (pc & -> & H1) (pc' & -> & H2). exists pc'. split; [by os_eq | congruence]. Qed.

(** However many rounds: no socket is kept or leaked, and the listening
    socket stays open. *)
Lemma wp_lith_start_server rounds fd (w : os) :
  may_lock w -> fd ∈ w_socks w ->
  wp (sys E) True (lith_start_server rounds fd) w (fun _ w' => accepting w w').
Proof.
  intros Hp Hfd. unfold lith_start_server. eapply wp_log; [by format_step|].
  revert w Hp Hfd. induction rounds as [|n IH]; intros w Hp Hfd; [done|]. cbn [loop].
  eapply wp_call_spec; [apply (wp_weaken_diverge _ False); [done | by apply wp_accept_round]|].
  intros [[]|[]] w1 Hacc; [|done]. pose proof Hacc as (pc & -> & _).
  eapply wp_mono; [by apply IH|]. intros ? w2 Hacc2. by eapply accepting_trans.
Qed.
End contracts.
