(* ===== verification/Serving.v ===== *)
(** * The server at work

    The program from the moment there are workers: the main thread opens the
    listening socket and goes on to its accept loop (main.c, server.c), any
    number of workers (server_worker.c), the announcement of the shutdown at
    any time or never, the cache and the queue between them, all steps in any
    order, for as long as it may be. *)

From S2P Require Import Prelude CString CFormat Types Effects Invariants System Interleaving Machine Progress Draining Schedule.
From S2P Require Import Logger SystemRules HttpParser Utils Cache Router ThreadPool Redirect Worker Server.

(** ** What the threads call

    None of the functions the threads run sets up a lock or takes one down. *)

Lemma worker_round_serves fuel cfg pd d0 req ctx u :
  only serving_call (worker_round fuel cfg pd d0 req ctx u).
Proof. only_tac. Qed.

Lemma accept_round_serves fd u : only serving_call (accept_round fd u).
Proof. only_tac. Qed.

Lemma lith_init_server_serves cfg ctx0 : only serving_call (lith_init_server cfg ctx0).
Proof. only_tac. Qed.

(** ** When the workers wait

    A worker asks for the queue's mutex and waits for a connection at the
    beginning of a round only. *)

Definition asks_for_work (e : syscall) : bool :=
  match e with SPoolLock | SCondWait _ => true | _ => false end.

Definition settled (e : syscall) : bool := negb (asks_for_work e).

Lemma worker_round_asks_first fuel cfg pd d0 req ctx u :
  until asks_for_work settled (worker_round fuel cfg pd d0 req ctx u).
Proof.
  unfold worker_round. apply until_bind; [|intros z; only_tac]. unfold thread_pool_pop.
  apply bind_until; [done|]. intros q0. apply bind_until; [only_tac|]. intros q. apply only_until. only_tac.
Qed.

(** ** What a round of a worker does to the queue *)

(** [thread_pool_pop] gives back no more than it has found, and returns -1 only
    when it has found the flag up. *)
Lemma thread_pool_pop_watched fuel :
  watched (fun held seen z => held = None /\ (z = (-1)%Z -> seen = true)) None false (thread_pool_pop fuel).
Proof.
  set (I := fun (held : option Z) (seen : bool) (pool : PoolQueue) =>
    queue_inv pool /\ held = Some (pool_size pool) /\ (shutdown pool = true -> seen = true)).
  unfold thread_pool_pop. intros q0 Hq0. cbn [bind].
  eapply (watched_bind _ I).
  { apply (watched_loop I).
    - intros h s pool Hp. unfold pop_wait. destruct (_ && _); [|exact Hp]. intros q Hq. split_and!; [done..|].
      intros ->. apply orb_true_r.
    - split_and!; [done | done | by intros ->]. }
  intros h s pool (Hinv & -> & Hsd). destruct (shutdown pool) eqn:Hdown.
  { split; [intros n [= <-]; lia|]. split; [done|]. intros _. by apply Hsd. }
  destruct Hinv as (l & Hrep & Hnd & Hr). destruct l as [|[a z] l].
  { assert (unlink_head pool = None) as ->; [|done]. unfold unlink_head. destruct Hrep as [Hc _ _ _ _]. cbn in Hc.
    by rewrite Hc. }
  destruct (unlink_head_spec pool a z l Hrep (queue_rep_length _ _ Hrep Hnd Hr)) as (n & q1 & -> & <- & Hrep1 & _).
  cbn [ensure bind defined]. split.
  - intros m [= <-]. rewrite (qr_size _ _ Hrep), (qr_size _ _ Hrep1). cbn. lia.
  - intros []. split; [done|]. cbn [fmap list_fmap snd] in Hr. apply Forall_cons_iff in Hr as [Hz _]. lia.
Qed.

Lemma serve_connection_calm fuel cfg pd d0 req ctx z :
  only calm (serve_connection fuel cfg pd d0 req ctx z).
Proof. only_tac. Qed.

(** A round that ends the worker has seen the flag up. *)
Lemma worker_round_watched fuel cfg pd d0 req ctx u :
  watched (fun _ seen x => match x with inl _ => True | inr _ => seen = true end) None false
    (worker_round fuel cfg pd d0 req ctx u).
Proof.
  unfold worker_round. eapply watched_bind; [apply thread_pool_pop_watched|].
  intros h s z [-> Hz] b. cbn [bind]. case_decide as Hstop.
  - destruct Hstop as [->|Hm]; cbn; [apply orb_true_r | by rewrite (Hz Hm)].
  - eapply (watched_bind _ (fun _ _ _ => True)); [|done].
    apply watched_calm; [apply serve_connection_calm | done].
Qed.

(** ** The threads *)

(** The main thread before and between two connections: it owns nothing but
    the listening socket, if that is open. *)
Record main_idle (listening : gset Z) (w : os) : Prop := {
  mi_lock : w_lock w = Unlocked;
  mi_pool : w_pool w = None;
  mi_heap : w_heap w = ∅;
  mi_socks : w_socks w = listening;
  mi_taken : taken w = [];
}.

(** A thread that shuts the pool down needs nothing for it. *)
Record stopper_idle (w : os) : Prop := {
  st_lock : w_lock w = Unlocked;
  st_pool : w_pool w = None;
  st_heap : w_heap w = ∅;
  st_socks : w_socks w = ∅;
  st_taken : taken w = [];
}.

(** A round that is to be repeated hands [v] to the next. *)
Definition again (v : Z) (x : unit + unit) : Z + unit :=
  match x with inl _ => inl v | inr u => inr u end.

Definition repeating (v : Z) (round : io (unit + unit)) : io (Z + unit) :=
  let! x := round in
  Ret (again v x).

Lemma wp_repeating E v round (w : os) Q :
  wp (sys E) False round w (fun x => Q (again v x)) -> wp (sys E) False (repeating v round) w Q.
Proof. intros Hr. unfold repeating. apply wp_bind. by eapply wp_mono. Qed.

Lemma repeating_serves v round : only serving_call round -> only serving_call (repeating v round).
Proof. intros Hr. by apply only_bind. Qed.

Section serving.
Context (E : env) (cfg : ServerConfig) (pool_dir dir0 : bytes) (req0 : HttpRequest).

(** The TLS context each worker has found when it started: [main] replaces the
    first one, [ctx0], by a second while the workers start. *)
Context (ctx : nat -> option nat).
Context (fuel : nat) (ctx0 : option nat).

(** Between two connections a worker owns nothing, and has answered all it has
    read. *)
Record worker_idle (i : nat) (w : os) : Prop := {
  wi_ready : worker_ready fuel (ctx i) w;
  wi_heap : w_heap w = ∅;
  wi_socks : w_socks w = ∅;
  wi_files : w_files w = ∅;
  wi_ssl : w_ssl w = ∅;
  wi_answered : answered E cfg pool_dir w;
}.

(** At its end too, but for the socket it may have taken when it saw the
    shutdown. *)
Record worker_done (w : os) : Prop := {
  wd_lock : w_lock w = Unlocked;
  wd_pool : w_pool w = None;
  wd_heap : w_heap w = ∅;
  wd_files : w_files w = ∅;
  wd_ssl : w_ssl w = ∅;
  wd_answered : (w_socks w = ∅ /\ answered E cfg pool_dir w) \/
    exists s ss, w_socks w = {[s]} /\ taken w = ss ++ [s] /\ transcript E cfg pool_dir ss w;
}.

(** Thread 0 is the main thread, its rounds hand the listening socket on;
    thread 1 shuts the pool down; the rounds of the others, the workers, count
    the connections they have taken. *)
Definition ready (i : nat) (v : Z) (w : os) : Prop :=
  match i with
  | O => main_idle {[v]} w
  | 1 => stopper_idle w
  | S (S j) => worker_idle j w /\ Z.of_nat (length (taken w)) = v
  end.

Definition promise (i : nat) (w : os) : Prop :=
  match i with
  | O => main_idle ∅ w \/ exists server_fd, main_idle {[server_fd]} w
  | 1 => stopper_idle w
  | _ => worker_done w
  end.

(** What the main thread does when the workers are there: it opens the
    listening socket, and [lith_start_server] begins with a message. When that
    fails it shuts the pool down and the process ends: of that the section that
    raises the flag, as below; the calls that follow it are outside of their
    contracts while a worker waits ([shutdown_in_use]). *)
Definition open_round : io (Z + unit) :=
  let! server := lith_init_server cfg ctx0 in
  if decide (server.1 < 0)%Z then
    lith_log LOG_ERROR (lit "Critical: Failed to initialize network socket layer") [] ;;;
    announce_shutdown ;;;
    Ret (inr tt)
  else
    lith_log LOG_INFO
      (lit "LITH core engine event loop started. Waiting for safe incoming connections...") [] ;;;
    Ret (inl server.1).

Definition acceptor_round (server_fd : Z) : io (Z + unit) := repeating server_fd (accept_round server_fd tt).

Definition acceptor (w : os) : thread := mkThread acceptor_round open_round w None.

Definition serving_round (i : nat) (v : Z) : io (Z + unit) :=
  repeating (v + 1) (worker_round fuel cfg pool_dir dir0 req0 (ctx i) tt).

Definition worker (i : nat) (w : os) : thread := mkThread (serving_round i) (serving_round i 0) w None.

(** The first section of [thread_pool_shutdown], on a thread of its own that
    takes its turn at any time, as a signal does; when no signal comes
    ([stops] is false) there is nothing for that thread to do. *)
Definition stop_round : io (Z + unit) := announce_shutdown ;;; Ret (inr tt).

Definition stopper (stops : bool) (w : os) : thread :=
  mkThread (fun _ => stop_round) (if stops then stop_round else Ret (inr tt)) w None.

(** Nobody holds a lock. *)
Definition serving (stops : bool) (aw sw : os) (ws : list os) (c : LithCache) (q : PoolQueue) : system :=
  mkSystem (acceptor aw :: stopper stops sw :: imap worker ws) c None ∅ q None [].

(** What the threads know of the cache at the start is not newer than it. *)
Definition knows (c : LithCache) (w : os) : Prop :=
  forall c0, w_seen w = Some c0 -> cache_follows E c0 c.

(** The queue is empty and its flag is down. *)
Record start_ok (aw sw : os) (ws : list os) (c : LithCache) (q : PoolQueue) : Prop := {
  so_main : main_idle ∅ aw /\ knows c aw /\ streams_ok E aw;
  so_stopper : stopper_idle sw /\ knows c sw /\ streams_ok E sw;
  so_workers : forall i w, ws !! i = Some w -> worker_idle i w /\ knows c w /\ taken w = [];
  so_cache : cache_ok E c;
  so_queue : queue_rep q [] /\ shutdown q = false;
}.

(** ** One round of each *)

Context `{!Ordinary E}.
Hypothesis Hdir : strlen pool_dir < 256.
Hypothesis Hdir0 : length dir0 = 256.
Hypothesis Hreq0 : length (path req0) = MAX_PATH_SIZE.

Lemma stop_round_serves : only serving_call stop_round.
Proof. only_tac. Qed.

Lemma open_round_serves : only serving_call open_round.
Proof. apply only_bind; [apply lith_init_server_serves|]. intros [fd x]. only_tac. Qed.

Lemma acceptor_round_serves fd : only serving_call (acceptor_round fd).
Proof. apply repeating_serves, accept_round_serves. Qed.

Lemma stopper_serves (stops : bool) : only serving_call (if stops then stop_round else Ret (inr tt)).
Proof. destruct stops; [apply stop_round_serves | done]. Qed.

Lemma serving_round_serves i v : only serving_call (serving_round i v).
Proof. apply repeating_serves, worker_round_serves. Qed.

Lemma serving_round_asks_first i v : until asks_for_work settled (serving_round i v).
Proof. apply until_bind; [apply worker_round_asks_first | done]. Qed.

Lemma serving_round_watched i v : watched (ends (v + 1)) None false (serving_round i v).
Proof.
  unfold serving_round, repeating. eapply watched_bind; [apply worker_round_watched|].
  by intros h s [[]|[]] Hx.
Qed.

Lemma init_idle w r w' :
  main_idle ∅ w -> init_post E cfg ctx0 w r w' ->
  main_idle (if decide (r.1 = (-1)%Z) then ∅ else {[r.1]}) w' /\ (r.1 = (-1)%Z \/ 0 <= r.1)%Z.
Proof.
  intros [Hl Hp Hh Hs Ht] Hr. unfold init_post in Hr.
  destruct (decide (r.1 = (-1)%Z)) as [Hm|Hm].
  - destruct Hr as (_ & (l & [->|(c & _ & _ & ->)]) & _); split; [by split | by left | by split | by left].
  - destruct Hr as (c & _ & Hr & _ & _ & ->). split; [|right; lia].
    split; cbn; [done | done | done | rewrite Hs; set_solver | done].
Qed.

Lemma announce_idle {A} D (k : unit -> io A) ss (w : os) Q :
  main_idle ss w -> (forall w', main_idle ss w' -> wp (sys E) D (k tt) w' Q) ->
  wp (sys E) D (bind k announce_shutdown) w Q.
Proof.
  intros [Hl Hp Hh Hs Ht] Hk. apply wp_announce_shutdown; [by apply may_lock_unlocked|].
  intros q _. apply Hk. split; try done. unfold taken, queue_section in *. cbn [set_w_pcrit w_pcrit].
  rewrite omap_app, Ht. cbn. unfold section_pop. cbn. by rewrite decide_False by lia.
Qed.

Lemma open_round_keeps w :
  main_idle ∅ w -> wp (sys E) False open_round w (round_end ready promise 0).
Proof.
  intros Hw. unfold open_round. eapply wp_call_spec; [apply wp_lith_init_server|].
  intros r w' [Hidle Hr]%init_idle; [|done]. case_decide as Hneg.
  - rewrite decide_True by lia. eapply wp_log; [by format_step|].
    eapply announce_idle; [done|]. intros w2 Hw2. by left.
  - rewrite decide_False by lia. eapply wp_log; [by format_step|]. exact Hidle.
Qed.

Lemma acceptor_round_keeps fd w :
  ready 0 fd w -> wp (sys E) False (acceptor_round fd) w (round_end ready promise 0).
Proof.
  intros [Hl Hp Hh Hs Ht]. apply wp_repeating.
  eapply (wp_mono (sys E)); [apply wp_accept_round; [by apply may_lock_unlocked | rewrite Hs; set_solver]|].
  intros x w' (pc & -> & Htk). assert (main_idle {[fd]} (set_w_pcrit pc w)) as Hidle by (split; by rewrite ?Htk).
  destruct x; [exact Hidle | right; by exists fd].
Qed.

Lemma stop_round_keeps v w :
  ready 1 v w -> wp (sys E) False stop_round w (round_end ready promise 1).
Proof.
  intros [Hl Hp Hh Hs Ht]. apply (announce_idle False _ ∅); [by split|]. intros w' []. by split.
Qed.

Lemma stopper_keeps (stops : bool) w :
  ready 1 0 w -> wp (sys E) False (if stops then stop_round else Ret (inr tt)) w (round_end ready promise 1).
Proof. destruct stops; [by apply (stop_round_keeps 0) | done]. Qed.

Lemma serving_round_keeps i v w :
  ready (S (S i)) v w -> wp (sys E) False (serving_round i v) w (round_end ready promise (S (S i))).
Proof.
  intros [[Hr Hh Hs Hf Hssl Ht] Hv]. apply wp_repeating. eapply (wp_mono (sys E)); [by apply wp_worker_round|].
  intros x w' ((Eh & Ef & El & Ec) & Hx). destruct x as [u|u]; cbn.
  - destruct Hx as (Hr' & Es & [s Htk] & Ha). split; [split; [done | congruence.. | by apply Ha]|].
    rewrite Htk, length_app. cbn. lia.
  - destruct Hx as (Hp & Hl & Es). split; try congruence. unfold last_socket in Es. rewrite Hs in Es.
    destruct Es as [[Es Ha] | (s & ss & _ & Es & Htk & Ha)]; [left; by auto | right].
    exists s, ss. split_and!; [set_solver | done | by apply Ha].
Qed.

Lemma ready_refill i v w k j :
  ready i v w -> k < fuel -> j + 1 < fuel -> ready i v (set_w_wakes j (set_w_reads k w)).
Proof.
  destruct i as [|[|i]]; cbn; intros [] Hk Hj; [by split | by split|].
  split; [|done]. destruct H as [(? & ? & _ & _ & ?) ? ? ? ? ?]. by split.
Qed.

Lemma ready_free i v w : ready i v w -> may_lock w.
Proof.
  destruct i as [|[|i]]; intros []; apply may_lock_unlocked; try done.
  - by destruct H as [(? & ? & _) _ _ _ _ _].
  - by destruct H as [(? & ? & _) _ _ _ _ _].
Qed.

Lemma promise_free i w : promise i w -> may_lock w.
Proof. destruct i as [|[|i]]; [intros [[]|[fd []]]|intros []..]; by apply may_lock_unlocked. Qed.

(** ** The system is well formed at the start *)

Lemma serving_threads stops aw sw ws c q i t :
  threads (serving stops aw sw ws c q) !! i = Some t ->
  (i = 0 /\ t = acceptor aw) \/ (i = 1 /\ t = stopper stops sw) \/
  exists j w, i = S (S j) /\ ws !! j = Some w /\ t = worker j w.
Proof.
  cbn [serving threads]. destruct i as [|[|j]]; [intros [= <-]; tauto | intros [= <-]; tauto|].
  intros Hj. change (imap worker ws !! j = Some t) in Hj.
  apply list_lookup_imap_Some in Hj as (w & Hj & ->). right. right. by exists j, w.
Qed.

Lemma start_thread stops aw sw ws c q i t :
  (forall v w, ready i v w -> wp (sys E) False (body t v) w (round_end ready promise i)) ->
  wp (sys E) False (code t) (local t) (round_end ready promise i) ->
  asleep t = None -> w_pool (local t) = None -> w_lock (local t) = Unlocked ->
  knows c (local t) -> thread_inv E ready promise (serving stops aw sw ws c q) i t.
Proof. intros Hb Hc Ha Hp Hl Hk. split; rewrite ?Ha, ?Hp, ?Hl; by try done; set_solver. Qed.

Lemma serving_inv stops aw sw ws c q :
  start_ok aw sw ws c q -> sys_inv E ready promise (serving stops aw sw ws c q).
Proof.
  intros [([Ml Mp Mh Ms Mt] & Hkm & _) ([Sl Sp Sh Ss St] & Hks & _) Hws Hc [Hq _]].
  split; [| | | | by left | done | by exists []; split_and!; [|constructor..] | split; [constructor | cbn; lia]].
  - intros i t [[-> ->]|[[-> ->]|(j & w & -> & Hj & ->)]]%serving_threads.
    + apply start_thread; [exact acceptor_round_keeps | by apply open_round_keeps | done..].
    + apply start_thread; [exact stop_round_keeps | by apply stopper_keeps | done..].
    + destruct (Hws j w Hj) as (Hi & Hk & Ht). pose proof (wi_ready _ _ Hi) as (Hp & Hl & _).
      apply start_thread; [exact (serving_round_keeps j) | | done..].
      apply (serving_round_keeps j 0). split; [done|]. cbn [local worker]. by rewrite Ht.
  - intros i [?|[?|?]]; [done | set_solver | done].
  - apply (apart_owner _ CacheOf). intros [i| |] Hp; [|done|exact (qr_dom _ _ Hq)].
    cbn [blocks_of]. destruct (threads _ !! i) as [t|] eqn:Hi; [|done]. cbn.
    apply serving_threads in Hi as [[-> ->]|[[-> ->]|(j & w & -> & Hj & ->)]]; [done | done|].
    apply (Hws j w Hj).
  - apply (apart_owner _ (ThreadOf 0)). intros [i| |] Hp; [|done|exact (queue_rep_socks _ _ Hq)].
    cbn [socks_of]. destruct (threads _ !! i) as [t|] eqn:Hi; [|done]. cbn.
    apply serving_threads in Hi as [[-> ->]|[[-> ->]|(j & w & -> & Hj & ->)]]; [done | done|].
    apply (Hws j w Hj).
Qed.

Lemma serving_runnable stops aw sw ws c q :
  start_ok aw sw ws c q -> all_runnable E (serving stops aw sw ws c q).
Proof.
  intros [(_ & _ & Hst) (_ & _ & Hss) Hws _ _] i t.
  intros [[-> ->]|[[-> ->]|(j & w & -> & Hj & ->)]]%serving_threads;
    split; cbn [local code body acceptor stopper worker];
    [done | apply open_round_serves | apply acceptor_round_serves
    | done | apply stopper_serves | intros _; apply stop_round_serves
    | | apply serving_round_serves | apply serving_round_serves].
  destruct (Hws j w Hj) as [[_ _ _ Hf _ _] _]. intros h p o. by rewrite Hf, lookup_empty.
Qed.

(** ** Whatever happens *)

(** What is true of the server at every moment, whatever has happened since
    the start: no thread does anything undefined or outside of a contract; no
    block, no socket has two owners; the queue has served first in, first out;
    what went out of it was taken by one thread each; between two connections a
    worker holds nothing and has answered, in order, each connection it has
    taken; a thread that has ended has kept its promise. *)
Record well_served (ops : list queue_op) (s : system) : Prop := {
  ws_safe : forall i, ~ goes_wrong E s i;
  ws_blocks : apart (blocks_of s);
  ws_socks : apart (socks_of s);
  ws_rw : writer s = None \/ readers s = ∅;
  ws_cache : cache_ok E (sh_cache s);
  ws_queue : exists l, queued (sh_queue s) l /\ pushed ops = popped ops ++ l;
  ws_taken : concat (took <$> threads s) ≡ₚ popped ops;
  ws_sections : forall s', moves E fuel s s' -> exists ops', section_of s s' ops';
  ws_idle : forall i t v, threads s !! i = Some t -> code t = Ret (inl v) -> ready i v (local t);
  ws_ended : forall i t, threads s !! i = Some t -> code t = Ret (inr tt) -> promise i (local t);
}.

(** Reachable from a start, with the operations on the queue since. *)
Definition at_work (ops : list queue_op) (s : system) : Prop :=
  exists stops aw sw ws c q, start_ok aw sw ws c q /\ history E fuel (serving stops aw sw ws c q) ops s.

#[local] Instance serving_crew : Crew fuel ready promise.
Proof. split; [exact ready_refill | exact ready_free | exact promise_free]. Qed.

Context `{!Shared E}.

Lemma at_work_inv ops s : at_work ops s -> sys_inv E ready promise s /\ all_runnable E s.
Proof.
  intros (stops & aw & sw & ws & c & q & Hok & Hst%history_moves). pose proof (serving_inv stops _ _ _ _ _ Hok) as Hinv.
  pose proof (serving_runnable stops _ _ _ _ _ Hok) as Hrun.
  split; [by apply (moves_sys_inv E ready promise fuel _ _ Hinv)
    | by apply (moves_runnable E fuel ready promise or_wf or_quiet _ _ Hinv)].
Qed.

(** Where a schedule leads from a start. *)
Lemma schedule_at_work stops aw sw ws c q us ops s :
  1 < fuel -> start_ok aw sw ws c q -> take_turns E fuel (serving stops aw sw ws c q) us = Some (ops, s) ->
  at_work ops s.
Proof.
  intros Hf Hok Ht. exists stops, aw, sw, ws, c, q. split; [done|].
  change ops with ([] ++ ops).
  apply (take_turns_history E fuel ready promise or_wf or_quiet _ _ (serving stops aw sw ws c q) us); try done.
  - by apply serving_inv.
  - by apply serving_runnable.
  - apply h_start.
Qed.

Lemma at_work_taken ops s : at_work ops s -> concat (took <$> threads s) ≡ₚ popped ops.
Proof.
  intros (stops & aw & sw & ws & c & q & Hok & Hh). pose proof (serving_inv stops _ _ _ _ _ Hok) as Hinv.
  rewrite (history_took E ready promise fuel _ _ _ Hinv Hh).
  destruct Hok as [([_ _ _ _ Ha] & _) ([_ _ _ _ Hs] & _) Hws _ _]. cbn [serving threads fmap list_fmap concat].
  rewrite !took_awake by done. cbn [local acceptor stopper]. rewrite Ha, Hs. cbn [app].
  assert (concat (took <$> imap worker ws) = []) as ->; [|done]. apply List.concat_nil_Forall, Forall_fmap, Forall_lookup.
  intros i t (w & Hw & ->)%list_lookup_imap_Some. cbn. rewrite took_awake by done.
  apply (Hws i w Hw).
Qed.

(** ** Workers that wait

    Whatever a worker has taken it has answered before it waits again. *)

Definition at_ease (t : thread) : Prop :=
  only settled (code t) \/ (until asks_for_work settled (code t) /\ answered E cfg pool_dir (local t)).

Definition all_at_ease (s : system) : Prop :=
  forall i t, threads s !! S (S i) = Some t -> (forall v, until asks_for_work settled (body t v)) /\ at_ease t.

Lemma answered_ext w w' :
  taken w' = taken w -> w_in w' = w_in w -> w_out w' = w_out w -> w_sent w' = w_sent w ->
  answered E cfg pool_dir w -> answered E cfg pool_dir w'.
Proof. unfold answered, transcript. by intros -> -> -> ->. Qed.

(** Asking for the mutex and waiting change nothing of what is answered. *)
Lemma ask_answered e w r w' :
  asks_for_work e = true -> sys_observe E e w r w' -> answered E cfg pool_dir w -> answered E cfg pool_dir w'.
Proof.
  destruct e; try done; intros _ Hw.
  - destruct Hw as [_ ->]. by apply answered_ext.
  - destruct Hw as (q0 & _ & [_ ->] & ->). apply answered_ext; try done. unfold taken.
    cbn [set_w_wakes gain_queue lose_queue set_w_pool set_w_heap set_w_socks set_w_pcrit w_pcrit].
    rewrite omap_app. cbn. by rewrite section_pop_same, app_nil_r.
Qed.

Lemma step_at_ease i s s' :
  sys_inv E ready promise s -> all_at_ease s -> step E fuel i s s' -> all_at_ease s'.
Proof.
  intros Hs Hall Hst. assert (forall t t', threads s !! i = Some t -> threads s' = <[i := t']> (threads s) ->
    body t' = body t -> (at_ease t -> 1 < i -> (forall v, until asks_for_work settled (body t v)) -> at_ease t') ->
    all_at_ease s') as Hkeep.
  { intros t t' Hi Hth Hb Ht j tj. rewrite Hth. intros [(Hij & -> & _)|[_ Hj]]%list_lookup_insert_Some; [|by apply Hall with j].
    rewrite Hij in Hi. destruct (Hall j t Hi) as [Hbo Hat]. rewrite Hb. split; [done|]. apply Ht; [done | lia | done]. }
  destruct Hst as [t e k r w' Hi Hc _ Hw | t q k q0 Hi Hc Ha Hm Hf | t v k j Hi Hc Hk Hj].
  - eapply (Hkeep t); [done | cbn [with_thread threads]; by rewrite threads_shared_after | done |].
    unfold at_ease. rewrite Hc. cbn [code local only until].
    intros [[_ Ho]|[Hu Han]] _ _; [by left|].
    destruct (asks_for_work e) eqn:He; [right | left; apply Hu]. split; [apply Hu|]. by eapply ask_answered.
  - eapply (Hkeep t); [done | done | done |]. by unfold at_ease.
  - eapply (Hkeep t); [done | done | done |]. intros _ Hi1 Hb. right. split; [apply Hb|]. cbn [local].
    pose proof (ti_wp _ _ _ _ _ _ (si_thread _ _ _ _ Hs i t Hi)) as Hwp. rewrite Hc in Hwp.
    destruct i as [|[|i]]; [lia | lia |]. cbn in Hwp. by eapply answered_ext, (wi_answered _ _ (proj1 Hwp)).
Qed.

Lemma at_work_at_ease ops s : at_work ops s -> all_at_ease s.
Proof.
  intros (stops & aw & sw & ws & c & q & Hok & Hst%history_moves). pose proof (serving_inv stops _ _ _ _ _ Hok) as Hinv.
  assert (all_at_ease (serving stops aw sw ws c q)) as Hall.
  { intros i t Hi. change (imap worker ws !! i = Some t) in Hi.
    apply list_lookup_imap_Some in Hi as (w & Hw & ->). destruct Hok as [_ _ Hws _ _].
    destruct (Hws i w Hw) as (Hi & _).
    split; [intros v; apply serving_round_asks_first|]. right. split; [apply serving_round_asks_first | apply Hi]. }
  clear Hok. revert Hst Hinv Hall. generalize (serving stops aw sw ws c q).
  clear stops aw sw ws c q.
  induction 1 as [|s1 s2 s3 [i Hi] _ IH]; intros Hinv Hall; [done|].
  apply IH; [by apply (step_sys_inv E ready promise fuel i s1) | by eapply step_at_ease].
Qed.

(** What a worker that does not serve has taken, it has answered; but for the
    socket it may have taken last, when it has seen the shutdown. *)
Definition all_answered (t : thread) : Prop :=
  transcript E cfg pool_dir (took t) (local t) \/
  (code t = Ret (inr tt) /\ exists s ss, took t = ss ++ [s] /\ transcript E cfg pool_dir ss (local t)).

Lemma at_work_answered ops s i t :
  at_work ops s -> threads s !! S (S i) = Some t -> (exists x, code t = Ret x) \/ is_Some (asleep t) ->
  all_answered t.
Proof.
  intros Hs Hi Ht. destruct (at_work_inv ops s Hs) as [Hinv _].
  pose proof (si_thread _ _ _ _ Hinv _ t Hi) as Hti. pose proof (ti_wp _ _ _ _ _ _ Hti) as Hwp.
  destruct Ht as [[x Hc]|[q Hq]].
  - assert (asleep t = None) as Ha by (eapply awake_call; [done | by rewrite Hc]).
    unfold all_answered. rewrite took_awake by done. rewrite Hc in Hwp. destruct x as [v|[]].
    + left. apply (wi_answered _ _ (proj1 Hwp)).
    + destruct (wd_answered _ Hwp) as [[_ Han]|(z & ss & _ & Htk & Han)]; [by left | right].
      split; [done|]. by exists z, ss.
  - left. destruct (ti_sleep _ _ _ _ _ _ Hti q Hq) as [Hn _]. destruct (code t) as [|e k| |] eqn:Hc; try done.
    cbn in Hn. injection Hn as ->. destruct (wait_contract _ _ _ s _ t q k Hinv Hi Hc) as [Hm _].
    destruct (at_work_at_ease ops s Hs i t Hi) as [_ [Hno|[_ Han]]]; [rewrite Hc in Hno; by destruct Hno|].
    unfold took, sections. rewrite Hq, (mr_held _ _ _ Hm), omap_app. cbn.
    by rewrite section_pop_same, app_nil_r.
Qed.

Lemma queued_inv q : queue_inv q -> exists l, queued q l.
Proof. intros (k & Hk & _). by exists k.*2, k. Qed.

Lemma at_work_fifo ops s l : at_work ops s -> queued (sh_queue s) l -> pushed ops = popped ops ++ l.
Proof.
  intros (stops & aw & sw & ws & c & q & Hok & Hrun%history_run) Hl. apply (queue_run_fifo _ _ _ [] _ Hrun); [|done].
  exists []. split; [apply Hok | done].
Qed.

Lemma at_work_well_served ops s : at_work ops s -> well_served ops s.
Proof.
  intros Hs. destruct (at_work_inv ops s Hs) as [Hinv _]. split; try apply Hinv.
  - intros i. by eapply sys_inv_safe.
  - destruct (queued_inv _ (si_queue _ _ _ _ Hinv)) as [l Hl].
    exists l. split; [done | by eapply at_work_fifo].
  - by apply at_work_taken.
  - intros s' [i Hi]. by eapply step_section.
  - intros i t v Hi Hc. pose proof (ti_wp _ _ _ _ _ _ (si_thread _ _ _ _ Hinv i t Hi)) as Hwp.
    by rewrite Hc in Hwp.
  - intros i t Hi Hc. by eapply sys_inv_ended.
Qed.

(** A queue without a first node is empty. *)
Lemma no_head_empty q l : queued q l -> head_ptr q = None -> l = [].
Proof. intros ([|[a x] k] & [Hc _ _ _ _] & <-) Hh; [done|]. cbn in Hc. destruct Hc as [Hc _]. congruence. Qed.

Lemma at_work_progress ops s i t :
  at_work ops s -> threads s !! i = Some t ->
  (exists x, code t = Ret x) \/ can_move E fuel s i \/ waits_for_work s t \/
  exists j, holds_lock s j /\ can_move E fuel s j.
Proof.
  intros Hs Hi. destruct (at_work_inv ops s Hs) as [Hinv Hrun].
  by apply (no_deadlock E fuel ready promise or_wf or_quiet).
Qed.

(** ** The work runs out *)

Lemma ready_count i v w : 2 <= i -> ready i v w -> (v <= Z.of_nat (length (taken w)))%Z.
Proof. destruct i as [|[|i]]; [lia | lia | intros _ [_ <-]; lia]. Qed.

Lemma serving_takers stops aw sw ws c q :
  start_ok aw sw ws c q -> takers (serving stops aw sw ws c q) (replicate (length ws) 1%Z).
Proof.
  intros Hok. unfold takers. change (drop 2 (threads _)) with (imap worker ws). apply Forall2_same_length_lookup_2.
  { by rewrite length_imap, length_replicate. }
  intros i t u (w & Hw & ->)%list_lookup_imap_Some [-> _]%lookup_replicate.
  destruct (so_workers _ _ _ _ _ Hok i w Hw) as ([(Hp & _) _ _ _ _ _] & _ & Ht).
  split; [|rewrite took_awake by done; cbn; rewrite Ht; done | apply serving_round_watched].
  exists false. split; [|done]. unfold held_of. cbn [local worker code]. rewrite Hp. apply (serving_round_watched i 0).
Qed.

Lemma at_work_takers ops s : at_work ops s -> exists us, takers s us.
Proof.
  intros (stops & aw & sw & ws & c & q & Hok & Hst%history_moves).
  eapply (moves_takers E fuel ready promise ready_count);
    [by apply (serving_inv stops) | by apply serving_takers | exact Hst].
Qed.

Lemma at_work_drains ops s : at_work ops s -> Acc (fun s2 s1 => drains E fuel s1 s2) s.
Proof.
  intros Hs. destruct (at_work_takers ops s Hs) as [us Hus].
  by apply (drains_acc E fuel ready promise ready_count s us); [apply (at_work_inv ops s Hs)|].
Qed.

(** The flag is up exactly when somebody has raised it. *)
Lemma queue_run_flag q ops q' : queue_run q ops q' -> shutdown q = false -> shutdown q' = true <-> Stop ∈ ops.
Proof.
  intros Hrun. induction Hrun as [q|q op q1 ops q2 Hop Hrun IH]; intros Hq.
  - rewrite Hq. split; [done | by intros ?%elem_of_nil].
  - destruct Hop as (l & l' & _ & _ & Hop). rewrite elem_of_cons.
    destruct op as [x|x| |]; destruct_and! Hop; try (rewrite IH by congruence; naive_solver).
    split; [by left|]. intros _. by apply (queue_run_stopped _ _ _ Hrun).
Qed.

Lemma at_work_flag ops s : at_work ops s -> shutdown (sh_queue s) = true <-> Stop ∈ ops.
Proof.
  intros (stops & aw & sw & ws & c & q & Hok & Hrun%history_run). eapply queue_run_flag; [exact Hrun | apply Hok].
Qed.

Lemma at_work_still ops s : at_work ops s -> nothing_left s = true -> forall s', ~ drains E fuel s s'.
Proof. intros Hs Hn s'. eapply (nothing_left_rest E fuel ready promise); [apply (at_work_inv ops s Hs) | done]. Qed.

(** When nothing goes on any more: without a shutdown every worker waits, and
    all that was put into the queue was taken out of it and answered; after a
    shutdown every worker has come to its end. *)
Lemma at_work_rest ops s i t :
  1 < fuel -> at_work ops s -> (forall s', ~ drains E fuel s s') -> threads s !! S (S i) = Some t ->
  (Stop ∉ ops -> waits_for_work s t /\ popped ops = pushed ops /\ transcript E cfg pool_dir (took t) (local t)) /\
  (Stop ∈ ops -> code t = Ret (inr tt) /\ all_answered t).
Proof.
  intros Hf Hs Hrest Hi. destruct (at_work_inv ops s Hs) as [Hinv Hrun].
  destruct (at_work_takers ops s Hs) as [us Hus]. rewrite <- (at_work_flag ops s Hs).
  destruct (takers_rest E fuel ready promise or_wf or_quiet Hf s us i t Hinv Hrun Hus Hrest Hi) as [Hw|[Hc Hup]].
  - pose proof Hw as (Ha & _ & Hh & Hd). rewrite Hd. split; [intros _|done].
    assert (all_answered t) as Han by (eapply at_work_answered; [done | done | by right]).
    split_and!; [done | |].
    + destruct (queued_inv _ (si_queue _ _ _ _ Hinv)) as [l Hl].
      rewrite (at_work_fifo _ _ _ Hs Hl), (no_head_empty _ _ Hl Hh). by rewrite app_nil_r.
    + destruct Han as [Han|[Hc _]]; [done|]. destruct Ha as [q Hq].
      destruct (ti_sleep _ _ _ _ _ _ (si_thread _ _ _ _ Hinv _ t Hi) q Hq) as [Hn _]. by rewrite Hc in Hn.
  - rewrite Hup. split; [done|]. intros _. split; [done|].
    eapply at_work_answered; [done | done | left; by eexists].
Qed.

(** ** A shutdown while there are workers

    The handler of a signal runs on a thread before that thread goes on. *)

Definition interrupted (i : nat) (t : thread) (handler : io unit) (s : system) : system :=
  with_thread i (mkThread (body t) (handler ;;; code t) (local t) (asleep t)) s.

(** Nobody but thread [i] moves, and a worker is still inside of
    [pthread_cond_wait], from which it comes back with the mutex. *)
Lemma shutdown_in_use ops s i t j tj :
  at_work ops s -> holder s = None ->
  threads s !! i = Some t -> asleep t = None -> may_lock (local t) ->
  threads s !! j = Some tj -> is_Some (asleep tj) ->
  exists s' t', rtc (step E fuel i) (interrupted i t thread_pool_shutdown s) s' /\
    threads s' !! i = Some t' /\
    code t' = bind (fun _ => code t) (sys_call SMutexDestroy ;;; sys_call SCondDestroy ;;; lith_cache_destroy) /\
    threads s' !! j = Some tj.
Proof.
  intros Hs Hh Hi Ha Hm Hj Hsl. destruct (at_work_inv ops s Hs) as [Hinv _].
  pose proof (si_queue _ _ _ _ Hinv) as Hq. assert (i <> j) as Hij by (intros ->; destruct Hsl; congruence).
  assert (i < length (threads s)) as Hlt by by eapply lookup_lt_Some.
  assert (forall e (s1 : system) t1, new_blocks e = (fun _ => ∅) -> new_socks e = (fun _ => ∅) ->
    forall r, permits E s1 t1 e r -> offers E s1 t1 e r) as Hoff.
  { intros e s1 t1 Hb Hk r Hp. split; [done|]. rewrite Hb, Hk. split; intros p; apply disjoint_empty_l. }
  eexists _, _. split.
  { eapply rtc_l; [|eapply rtc_l; [|eapply rtc_once]].
    - eapply (step_call _ _ _ _ _ SPoolLock _ (sh_queue s)); [by apply list_lookup_insert_eq | reflexivity
        | by apply Hoff | by split].
    - eapply (step_call _ _ _ _ _ SCondBroadcast _ tt); [apply list_lookup_insert_eq; cbn; by rewrite length_insert
        | reflexivity | by apply Hoff | reflexivity].
    - eapply (step_call _ _ _ _ _ (SPoolUnlock (raise_shutdown (sh_queue s))) _ tt);
        [apply list_lookup_insert_eq; cbn; by rewrite !length_insert | reflexivity | by apply Hoff |].
      eexists. split; [|reflexivity]. split; [done | exists Stop; by apply raise_shutdown_step
        | by apply raise_shutdown_inv | apply union_subseteq_r | apply union_subseteq_r]. }
  split_and!.
  - cbn. apply list_lookup_insert_eq. by rewrite !length_insert.
  - reflexivity.
  - cbn. by rewrite !list_lookup_insert_ne by done.
Qed.
End serving.
