(* ===== verification/Visits.v ===== *)
(** * Visitors

    What the clients of a connection get, told from their side: a visitor asks,
    over TLS, for one page after the other, or comes in clear text. What a
    thread reads over many connections, whoever they came from, tells what it
    has sent over them. *)

From S2P Require Import Prelude CString CFormat Types Effects Invariants System Interleaving Machine Progress.
From S2P Require Import Logger SystemRules HttpParser HttpMessages Utils Cache Router ThreadPool Redirect Worker Server.
From S2P Require Import Serving.

(** [Browse qs gone]: the requests [qs], each in one piece; then the visitor is
    gone, or has asked for the end with the last request. [Walk c d ds]: the
    first byte [c], the first kilobyte [d], and what is drained after it. *)
Inductive visit :=
  | Browse (qs : list bytes) (gone : bool)
  | Walk (c : ascii) (d : bytes) (ds : list bytes).

(** What the thread reads of it, call by call. *)
Definition visit_reads (v : visit) : list bytes :=
  match v with
  | Browse qs gone => [TLS_HANDSHAKE] :: qs ++ (if gone then [[]] else [])
  | Walk c d ds => [c] :: d :: ds
  end.

(** The end is asked for with the last request, unless the visitor goes. *)
Definition keeps (n : nat) (gone : bool) : list bool :=
  if gone then replicate n true else replicate (n - 1) true ++ [false].

Section visits.
Context (E : env) (root : bytes).

Definition visit_ok (v : visit) : Prop :=
  match v with
  | Browse qs gone => qs <> [] /\ Forall (asks_page E root) qs /\
      keep_alive ∘ request_of <$> qs = keeps (length qs) gone
  | Walk c d ds => c <> TLS_HANDSHAKE /\ drained ds
  end.

(** What it gets over TLS, and in clear text. *)
Definition visit_pages (v : visit) : bytes :=
  match v with
  | Browse qs _ => concat (page_for E root <$> qs)
  | Walk _ _ _ => []
  end.

Definition visit_redirect (v : visit) : bytes :=
  match v with
  | Browse _ _ => []
  | Walk _ d _ => redirect_to (asked d).1 (asked d).2
  end.

(** ** One connection *)

Lemma keeps_cons n gone b bs :
  b :: bs = keeps (S n) gone -> length bs = n ->
  (b = false /\ bs = [] /\ gone = false) \/ (b = true /\ bs = keeps n gone).
Proof.
  unfold keeps. destruct gone; cbn [replicate].
  - intros [= -> ->] _. by right.
  - destruct n as [|n]; cbn; [intros [= -> ->]; by left|]. rewrite Nat.sub_0_r. intros [= -> ->] _. by right.
Qed.

(** A session is over when its visitor says so, whatever comes after. *)
Lemma session_log_visit `{!Ordinary E} cfg qs (gone : bool) ins log r r' :
  ample E = true -> Forall (asks_page E root) qs -> keep_alive ∘ request_of <$> qs = keeps (length qs) gone ->
  session_log E cfg root ins log -> ins ++ r = qs ++ (if gone then [[]] else []) ++ r' ->
  ins = qs ++ (if gone then [[]] else []) /\ log = page_for E root <$> qs.
Proof.
  intros Ha Hqs Hcl Hlog. revert qs Hqs Hcl.
  induction Hlog as [|d ds resp Hx|d ds resp ins rest Hx _ IH]; intros qs Hqs Hcl Hins.
  - destruct Hqs as [|d qs Hd _]; [by destruct gone|].
    injection Hins as <- _. by apply asks_page_long, Nat.nlt_0_r in Hd.
  - pose proof (proj1 Hx) as Hd. destruct Hqs as [|d' qs Hc Hqs]; [destruct gone; by simplify_eq/=|].
    injection Hins as <- Hins. destruct (exchange_page E _ _ _ _ _ _ Ha Hc Hx) as (-> & Hk & ->).
    rewrite fmap_cons in Hcl. apply keeps_cons in Hcl; [|by rewrite length_fmap].
    destruct Hcl as [(_ & Hnil & ->)|[Hf _]]; [|cbn [compose] in Hf; congruence]. by apply fmap_nil_inv in Hnil as ->.
  - pose proof (proj1 Hx) as Hd. destruct Hqs as [|d' qs Hc Hqs]; [destruct gone; by simplify_eq/=|].
    injection Hins as <- Hins. destruct (exchange_page E _ _ _ _ _ _ Ha Hc Hx) as (-> & Hk & ->).
    rewrite fmap_cons in Hcl. apply keeps_cons in Hcl; [|by rewrite length_fmap].
    destruct Hcl as [[Hf _]|(_ & Hcl)]; [cbn [compose] in Hf; congruence|].
    destruct (IH qs Hqs Hcl Hins) as [-> ->]. done.
Qed.

Lemma drained_prefix ds ds' r r' : drained ds -> drained ds' -> ds ++ r = ds' ++ r' -> ds = ds'.
Proof.
  intros (pre & -> & Hp) (pre' & -> & Hp'). revert pre' Hp'.
  induction Hp as [|d pre Hd _ IH]; intros [|d' pre'] Hp' Heq; cbn in Heq.
  - done.
  - injection Heq as <- _. by inversion Hp'.
  - injection Heq as -> _. done.
  - injection Heq as -> Heq. inversion_clear Hp'. cbn. f_equal. by apply IH.
Qed.

Section served.
Context (cfg : ServerConfig) (pool_dir : bytes) (Hroot : root = cstr pool_dir).
Context `{!Ordinary E} (Hample : ample E = true).

(** Every connection begins with at most one byte that is looked at. *)
Lemma served_head ins out sent :
  served E cfg pool_dir ins out sent -> exists x rest, ins = x :: rest /\ length x <= 1.
Proof. destruct 1; eexists _, _; (split; [done | cbn; lia]). Qed.

(** The reads of a connection determine its visitor, and what it got; [r] is
    what is read from the connections that follow. *)
Lemma served_visit v ins out sent r r' :
  visit_ok v -> served E cfg pool_dir ins out sent ->
  (r = [] \/ exists x rest, r = x :: rest /\ length x <= 1) ->
  ins ++ r = visit_reads v ++ r' ->
  ins = visit_reads v /\ out = visit_pages v /\ sent = visit_redirect v.
Proof.
  intros Hv Hs Hr Heq. destruct v as [qs gone|c d ds]; cbn [visit_ok visit_reads visit_pages visit_redirect] in *.
  - destruct Hv as (Hne & Hqs & Hcl). destruct Hs as [|  |ins log Hlog|c d ds Hc _ _].
    + by injection Heq.
    + exfalso. destruct Hqs as [|q qs Hq _]; [done|]. injection Heq as Heq.
      apply asks_page_long in Hq. destruct Hr as [->|(x & rest & -> & Hx)]; [done|].
      injection Heq as -> _. lia.
    + cbn [app] in Heq. injection Heq as Heq. rewrite <- app_assoc in Heq.
      rewrite <- Hroot in Hlog. by destruct (session_log_visit cfg qs gone ins log r r' Hample Hqs Hcl Hlog Heq) as [-> ->].
    + by injection Heq as ->.
  - destruct Hv as [Hc Hds]. destruct Hs as [|  |ins log Hlog|c' d' ds' Hc' _ Hds'].
    + by injection Heq.
    + by injection Heq as <-.
    + by injection Heq as <-.
    + cbn [app] in Heq. injection Heq as -> -> Heq. by rewrite (drained_prefix _ _ _ _ Hds' Hds Heq).
Qed.

(** ** All connections of a thread *)

(** The connections one by one, the first one first. *)
Lemma all_served_list ss ins out sent :
  all_served E cfg pool_dir ss ins out sent -> exists l : list (list bytes * bytes * bytes),
    Forall (fun x => served E cfg pool_dir x.1.1 x.1.2 x.2) l /\ length l = length ss /\
    ins = concat ((fun x => x.1.1) <$> l) /\ out = concat ((fun x => x.1.2) <$> l) /\ sent = concat (snd <$> l).
Proof.
  induction 1 as [|ss s ins out sent ins' out' sent' _ (l & Hl & Hn & -> & -> & ->) Hs]; [by exists []|].
  exists (l ++ [(ins', out', sent')]). rewrite !fmap_app, !concat_app, !length_app, Hn. cbn. rewrite !app_nil_r.
  split_and!; [|done..]. apply Forall_app. by repeat constructor.
Qed.

Lemma all_served_visits vs ss ins out sent :
  all_served E cfg pool_dir ss ins out sent -> Forall visit_ok vs -> ins = concat (visit_reads <$> vs) ->
  length vs = length ss /\ out = concat (visit_pages <$> vs) /\ sent = concat (visit_redirect <$> vs).
Proof.
  intros (l & Hl & Hn & Hins & -> & ->)%all_served_list Hvs Hins'. rewrite Hins in Hins'. clear Hins. rewrite <- Hn.
  clear Hn ss ins. revert l Hl Hins'.
  induction Hvs as [|v vs Hv _ IH]; intros l Hl Hins.
  - destruct Hl as [|x l Hx _]; [done|]. apply served_head in Hx as (y & rest & Hy & _).
    rewrite fmap_cons in Hins. cbn [concat] in Hins. by rewrite Hy in Hins.
  - destruct Hl as [|x l Hx Hl]; [destruct v; done|]. rewrite !fmap_cons in *. cbn [concat length] in *.
    edestruct (served_visit v) as (Hxi & Hxo & Hxs); [exact Hv | exact Hx | | exact Hins |].
    { destruct Hl as [|y l (z & rest & Hz & Hlen)%served_head _]; [by left|]. right.
      rewrite fmap_cons. cbn [concat]. rewrite Hz. eexists _, _. split; [done | done]. }
    rewrite Hxi in Hins. apply app_inv_head in Hins. destruct (IH l Hl Hins) as (-> & Ho & Hse).
    rewrite Hxo, Hxs, Ho, Hse. done.
Qed.
End served.
End visits.

(** ** The server at work *)

Section work.
Context (E : env) (cfg : ServerConfig) (pool_dir dir0 : bytes) (req0 : HttpRequest) (ctx : nat -> option nat).
Context (fuel : nat) (ctx0 : option nat) `{!Ordinary E} `{!Shared E}.

(** What a worker that does not serve just now has sent, by what it has read:
    each visitor got its pages, or the redirect, in order; and every connection
    it has taken, but for the last one when it has seen the shutdown, was one
    of these visits. *)
Lemma at_work_visits ops s i t vs :
  strlen pool_dir < 256 -> length dir0 = 256 -> length (path req0) = MAX_PATH_SIZE ->
  ample E = true -> peer_ok E = true ->
  at_work E cfg pool_dir dir0 req0 ctx fuel ctx0 ops s -> threads s !! S (S i) = Some t ->
  (exists x, code t = Ret x) \/ is_Some (asleep t) ->
  Forall (visit_ok E (cstr pool_dir)) vs -> w_in (local t) = concat (visit_reads <$> vs) ->
  w_out (local t) = concat (visit_pages E (cstr pool_dir) <$> vs) /\
  w_sent (local t) = concat (visit_redirect <$> vs) /\
  (length (took t) = length vs \/ (code t = Ret (inr tt) /\ length (took t) = S (length vs))).
Proof.
  intros Hd Hd0 Hr0 Ha Hp Hw Hi Ht Hvs Hin.
  assert (all_answered E cfg pool_dir t) as Han.
  { apply (at_work_answered E cfg pool_dir dir0 req0 ctx fuel ctx0) with ops s i; done. }
  destruct Han as [Han|(Hc & z & ss & Htk & Han)]; specialize (Han Hp);
    destruct (all_served_visits E (cstr pool_dir) cfg pool_dir eq_refl Ha vs _ _ _ _ Han Hvs Hin) as (Hn & -> & ->).
  - split_and!; [done | done | by left].
  - split_and!; [done | done | right]. split; [done|]. rewrite Htk, length_app, Hn. cbn. lia.
Qed.
End work.
