(* ===== verification/Daemon.v ===== *)
(** * Daemon mode (src/daemon.c)

    [lith_daemonize]: the double fork, and the process it leaves: a session of
    its own, the root directory, and the standard descriptors on /dev/null and
    the log file. *)

From S2P Require Import Prelude CString CFormat Types Effects Invariants System Logger SystemRules.

(** ** Code *)

(** How a function ends that may call [exit]. *)
Inductive ended (A : Type) := Exited (code : Z) | Returned (a : A).
Arguments Exited {A} _.
Arguments Returned {A} _.

Definition STDIN_FILENO : Z := 0.
Definition STDOUT_FILENO : Z := 1.
Definition STDERR_FILENO : Z := 2.

Definition log_path (initial_cwd : bytes) : option bytes :=
  snprintf 512 (lit "%s/lith.log") [FStr initial_cwd].

(** The descriptors, once the process is in place. *)
Definition redirect_streams (log_path : bytes) : io Z :=
  sys_call (SCloseFd STDIN_FILENO) ;;;
  sys_call (SCloseFd STDOUT_FILENO) ;;;
  sys_call (SCloseFd STDERR_FILENO) ;;;
  let! dev_null := sys_call (SOpen (lit "/dev/null")) in
  if decide (dev_null < 0)%Z then Ret (-1)%Z
  else
  let! log_fd := sys_call (SOpen log_path) in
  let! log_fd := if decide (log_fd < 0)%Z then sys_call (SOpen (lit "/tmp/lith.log")) else Ret log_fd in
  (if decide (0 <= log_fd)%Z then
     sys_call (SDup2 log_fd STDOUT_FILENO) ;;;
     sys_call (SDup2 log_fd STDERR_FILENO)
   else Ret tt) ;;;
  lith_log LOG_INFO (lit "LITH Engine daemonized successfully. Operating silently in background.") [] ;;;
  Ret 0%Z.

Definition lith_daemonize (initial_cwd : bytes) : io (ended Z) :=
  let! pid := sys_call SFork in
  if decide (pid < 0)%Z then
    lith_log LOG_ERROR (lit "Daemonization CRITICAL: First fork failed") [] ;;;
    Ret (Returned (-1)%Z)
  else if decide (0 < pid)%Z then Ret (Exited 0)
  else
  let! sid := sys_call SSetsid in
  if decide (sid < 0)%Z then
    lith_log LOG_ERROR (lit "Daemonization CRITICAL: setsid failed to detach session") [] ;;;
    Ret (Returned (-1)%Z)
  else
  let! pid := sys_call SFork in
  if decide (pid < 0)%Z then
    lith_log LOG_ERROR (lit "Daemonization CRITICAL: Second fork failed") [] ;;;
    Ret (Returned (-1)%Z)
  else if decide (0 < pid)%Z then Ret (Exited 0)
  else
  sys_call (SUmask 0) ;;;
  let! path := ensure (log_path initial_cwd) in
  let! r := sys_call (SChdir (lit "/")) in
  if decide (r < 0)%Z then
    lith_log LOG_ERROR (lit "Daemonization CRITICAL: chdir to root partition failed") [] ;;;
    Ret (Returned (-1)%Z)
  else
  let! r := redirect_streams path in
  Ret (Returned r).

(** * Contracts *)

Definition log_name (cwd : bytes) : bytes := take 511 (cstr cwd ++ lit "/lith.log").

Lemma log_path_spec cwd : log_path cwd = Some (log_name cwd).
Proof. unfold log_path, snprintf. format_step. unfold log_name. by lit_norm. Qed.

Section contracts.
Context (E : env).

Lemma wp_open {A} D f (k : Z -> io A) (w : os) Q :
  wp (sys E) D (k (-1)%Z) w Q ->
  (forall r, (0 <= r)%Z -> p_fds (w_proc w) !! r = None ->
     (forall j, (0 <= j < r)%Z -> is_Some (p_fds (w_proc w) !! j)) ->
     wp (sys E) D (k r) (on_fds (insert r f) w) Q) ->
  wp (sys E) D (bind k (sys_call (SOpen f))) w Q.
Proof.
  intros HN HS. apply wp_vis. intros r Hr. eexists. split; [done|]. cbn in r.
  destruct Hr as [->|(Hr & Hn & Hlow)]; [by rewrite decide_False by lia|].
  rewrite decide_True by done. by apply HS.
Qed.

Lemma wp_closefd {A} D fd (k : unit -> io A) (w : os) Q :
  wp (sys E) D (k tt) (on_fds (delete fd) w) Q ->
  wp (sys E) D (bind k (sys_call (SCloseFd fd))) w Q.
Proof. intros Hk. apply wp_vis. intros [] _. by eexists. Qed.

Lemma wp_dup2 {A} D fd fd2 f (k : unit -> io A) (w : os) Q :
  p_fds (w_proc w) !! fd = Some f ->
  wp (sys E) D (k tt) (on_fds (insert fd2 f) w) Q ->
  wp (sys E) D (bind k (sys_call (SDup2 fd fd2))) w Q.
Proof. intros Hf Hk. apply wp_vis. intros [] _. eexists. split; [by exists f | done]. Qed.

Definition fds (w : os) : gmap Z bytes := p_fds (w_proc w).

Definition set_fds (m : gmap Z bytes) (w : os) : os := on_fds (fun _ => m) w.

Lemma on_fds_eq f w : on_fds f w = set_fds (f (fds w)) w.
Proof. done. Qed.

Lemma fds_set m w : fds (set_fds m w) = m.
Proof. done. Qed.

Lemma set_fds_twice m m' w : set_fds m (set_fds m' w) = set_fds m w.
Proof. done. Qed.

(** The open descriptors that are not standard streams. *)
Definition inherited (m : gmap Z bytes) : gmap Z bytes :=
  delete STDERR_FILENO (delete STDOUT_FILENO (delete STDIN_FILENO m)).

(** Standard input is /dev/null; both outputs are one log file, or closed
    when neither file can be opened. *)
Definition streams_post (log : bytes) (w : os) (r : Z) (w' : os) : Prop :=
  let base := inherited (fds w) in
  let m := <[STDIN_FILENO := lit "/dev/null"]> base in
  (r = (-1)%Z /\ w' = set_fds base w) \/
  (r = 0%Z /\
    (w' = set_fds m w \/
     exists f, (f = log \/ f = lit "/tmp/lith.log") /\
       w' = set_fds (<[STDERR_FILENO := f]> (<[STDOUT_FILENO := f]> m)) w)).

(** [open] returns the lowest descriptor that is closed. *)
Lemma wp_open_lowest {A} f d (k : Z -> io A) (w : os) Q :
  (0 <= d)%Z -> fds w !! d = None -> (forall j, (0 <= j < d)%Z -> is_Some (fds w !! j)) ->
  wp (sys E) False (k (-1)%Z) w Q -> wp (sys E) False (k d) (set_fds (<[d := f]> (fds w)) w) Q ->
  wp (sys E) False (bind k (sys_call (SOpen f))) w Q.
Proof.
  intros Hd Hn Hlow HN HS. apply wp_open; [done|]. intros r Hr Hnr Hlowr.
  assert (r = d) as ->; [|done]. destruct (Z.lt_trichotomy r d) as [Hlt|[?|Hgt]]; [|done|].
  - destruct (Hlow r) as [x Hx]; [lia|]. unfold fds in Hx. congruence.
  - destruct (Hlowr d) as [x Hx]; [lia|]. unfold fds in Hn. congruence.
Qed.

Lemma inherited_closed m :
  inherited m !! STDIN_FILENO = None /\ inherited m !! STDOUT_FILENO = None.
Proof.
  unfold inherited, STDIN_FILENO, STDOUT_FILENO, STDERR_FILENO. split.
  - rewrite !lookup_delete_ne by done. apply lookup_delete_eq.
  - rewrite lookup_delete_ne by done. apply lookup_delete_eq.
Qed.

(** Both outputs on the file of descriptor 1. *)
Lemma wp_dup_streams f m (w : os) :
  wp (sys E) False
    (sys_call (SDup2 STDOUT_FILENO STDOUT_FILENO) ;;; sys_call (SDup2 STDOUT_FILENO STDERR_FILENO))
    (set_fds (<[STDOUT_FILENO := f]> m) w)
    (fun _ w' => w' = set_fds (<[STDERR_FILENO := f]> (<[STDOUT_FILENO := f]> m)) w).
Proof.
  eapply wp_dup2; [apply lookup_insert_eq|]. rewrite on_fds_eq, set_fds_twice, fds_set, insert_insert_eq.
  apply (wp_bind_inv _ _ _ Ret). eapply wp_dup2; [apply lookup_insert_eq|].
  cbn [wp]. by rewrite on_fds_eq, set_fds_twice, fds_set.
Qed.

Lemma wp_redirect_streams log (w : os) :
  wp (sys E) False (redirect_streams log) w (streams_post log w).
Proof.
  unfold redirect_streams. do 3 (apply wp_closefd; rewrite on_fds_eq, ?set_fds_twice, ?fds_set).
  fold (inherited (fds w)). pose proof (inherited_closed (fds w)) as [H0 H1].
  apply (wp_open_lowest _ STDIN_FILENO); [done | done | unfold STDIN_FILENO; lia | rewrite decide_True by lia; by left |].
  rewrite decide_False by done. rewrite set_fds_twice, fds_set.
  assert (forall w1, w1 = set_fds (<[STDIN_FILENO := lit "/dev/null"]> (inherited (fds w))) w \/
      (exists f, (f = log \/ f = lit "/tmp/lith.log") /\ w1 = set_fds (<[STDERR_FILENO := f]>
        (<[STDOUT_FILENO := f]> (<[STDIN_FILENO := lit "/dev/null"]> (inherited (fds w))))) w) ->
    wp (sys E) False (lith_log LOG_INFO (lit "LITH Engine daemonized successfully. Operating silently in background.") [] ;;; Ret 0%Z)
      w1 (streams_post log w)) as Hend.
  { intros w1 Hw1. eapply wp_log; [by format_step|]. by right. }
  set (m := <[STDIN_FILENO := lit "/dev/null"]> (inherited (fds w))) in *.
  assert (forall j, (0 <= j < STDOUT_FILENO)%Z -> is_Some (fds (set_fds m w) !! j)) as Hlow.
  { intros j Hj. assert (j = STDIN_FILENO) as -> by (unfold STDIN_FILENO, STDOUT_FILENO in *; lia).
    rewrite fds_set. unfold m. rewrite lookup_insert_eq. by eexists. }
  assert (fds (set_fds m w) !! STDOUT_FILENO = None) as Hone.
  { rewrite fds_set. unfold m. by rewrite lookup_insert_ne. }
  apply (wp_open_lowest _ STDOUT_FILENO); [done | done | done | |].
  - rewrite decide_True by lia. apply (wp_open_lowest _ STDOUT_FILENO); [done | done | done | |].
    + rewrite decide_False by lia. apply Hend. by left.
    + rewrite set_fds_twice, fds_set. eapply wp_call_spec; [rewrite decide_True by done; apply wp_dup_streams|].
      intros _ w1 ->. apply Hend. right. eexists. split; [by right | done].
  - rewrite set_fds_twice, fds_set, decide_False by done.
    apply wp_bind, wp_ret. eapply wp_call_spec; [rewrite decide_True by done; apply wp_dup_streams|].
    intros _ w1 ->. apply Hend. right. eexists. split; [by left | done].
Qed.

(** Exiting with 0 is what the two parents do; a daemon that returns 0 has
    forked twice, leads its own session, masks nothing, works in the root
    directory and has its streams redirected. *)
Definition daemon_post (cwd : bytes) (w : os) (r : ended Z) (w' : os) : Prop :=
  exists p, w' = set_w_proc p w /\
  match r with
  | Exited code => code = 0%Z /\ p_forks p <= p_forks (w_proc w) + 2
  | Returned code =>
      code = (-1)%Z \/
      (code = 0%Z /\ p_forks p = p_forks (w_proc w) + 2 /\ p_session p = true /\
       p_umask p = Some 0%Z /\ p_cwd p = lit "/" /\
       let m := <[STDIN_FILENO := lit "/dev/null"]> (inherited (fds w)) in
       (p_fds p = m \/ exists f, (f = log_name cwd \/ f = lit "/tmp/lith.log") /\
          p_fds p = <[STDERR_FILENO := f]> (<[STDOUT_FILENO := f]> m)))
  end.

Lemma wp_fork {A} D (k : Z -> io A) (w : os) Q :
  (forall r, (r < 0)%Z -> wp (sys E) D (k r) w Q) ->
  (forall r, (0 <= r)%Z -> wp (sys E) D (k r)
     (on_proc (fun p => mkProcess (S (p_forks p)) (p_session p) (p_umask p) (p_cwd p) (p_fds p)) w) Q) ->
  wp (sys E) D (bind k (sys_call SFork)) w Q.
Proof.
  intros HN HS. apply wp_vis. intros r _. eexists. split; [done|]. cbn in r.
  destruct (decide (0 <= r)%Z); [by apply HS | apply HN; lia].
Qed.

Lemma wp_lith_daemonize cwd (w : os) :
  wp (sys E) False (lith_daemonize cwd) w (daemon_post cwd w).
Proof.
  assert (forall p msg, (exists s, format msg [] = Some s) ->
    wp (sys E) False (lith_log LOG_ERROR msg [] ;;; Ret (Returned (-1)%Z)) (set_w_proc p w) (daemon_post cwd w))
    as Hfail.
  { intros p msg [s Hs]. eapply wp_log; [done|]. exists p. by split; [|left]. }
  unfold lith_daemonize. apply wp_fork; intros pid Hpid.
  { rewrite decide_True by done. replace w with (set_w_proc (w_proc w) w) at 1 by by os_eq.
    apply Hfail. format_step. eauto. }
  rewrite decide_False by lia. case_decide.
  { eexists. split; [done|]. split; [done|]. cbn. lia. }
  apply wp_vis. intros sid _. eexists. split; [done|]. cbn in sid.
  destruct (decide (sid < 0)%Z).
  { rewrite (decide_False (P := (0 <= sid)%Z)) by lia. apply Hfail. format_step. eauto. }
  rewrite (decide_True (P := (0 <= sid)%Z)) by lia. apply wp_fork; intros pid2 Hpid2.
  { rewrite decide_True by done. apply Hfail. format_step. eauto. }
  rewrite decide_False by lia. case_decide.
  { eexists. split; [done|]. split; [done|]. cbn. lia. }
  apply wp_vis. intros [] _. eexists. split; [done|]. eapply wp_ensure; [apply log_path_spec|].
  apply wp_vis. intros r _. eexists. split; [done|]. cbn in r. destruct (decide (r < 0)%Z).
  { rewrite (decide_False (P := (0 <= r)%Z)) by lia. apply Hfail. format_step. eauto. }
  rewrite (decide_True (P := (0 <= r)%Z)) by lia.
  eapply wp_call_spec; [apply wp_redirect_streams|]. intros code w' Hs. unfold streams_post in Hs. cbv zeta in Hs.
  destruct Hs as [(-> & ->)|(-> & Hm)]; cbn [wp].
  - eexists. split; [done|]. by left.
  - destruct Hm as [->|(f & Hf & ->)]; (eexists; split; [done|]; right; split_and!; try done); [cbn; lia | by left | cbn; lia |].
    right. by exists f.
Qed.
End contracts.
