(* ===== verification/Main.v ===== *)
(** * The program (src/main.c)

    [main] puts the components together: the command line, the configuration,
    the daemon, the TLS context, the pool and its eight workers, the listening
    socket; and [handle_sigint] takes them down. *)

From S2P Require Import Prelude CString CFormat Types Effects Invariants System Logger SystemRules.
From S2P Require Import Utils Cache ThreadPool Config Server Daemon.

(** ** Code *)

Definition SIGINT : Z := 2.
Definition SIGTERM : Z := 15.

(** [printf] of a text without conversions. *)
Definition puts (s : bytes) : io unit := sys_call (SPrint s).

(** [global_server_fd] and [global_ssl_ctx] as the handler finds them. *)
Definition handle_sigint (global_server_fd : Z) (global_ssl_ctx : option nat) : io (ended Z) :=
  puts (lit "\n") ;;;
  lith_log LOG_INFO (lit "Initiating LITH orderly shutdown sequence...") [] ;;;
  (if decide (global_server_fd = (-1)%Z) then Ret tt else lith_close_socket global_server_fd) ;;;
  thread_pool_shutdown ;;;
  lith_ssl_cleanup global_ssl_ctx ;;;
  lith_log LOG_INFO (lit "LITH server engine stopped successfully. Goodbye.") [] ;;;
  Ret (Exited 0).

Definition print_version (fmt : bytes) : io unit :=
  let! s := ensure (format fmt [FStr LITH_VERSION]) in
  puts s.

Definition display_usage : io unit :=
  puts (lit "======================================================================\n") ;;;
  print_version (lit " LITH CLI - Minimalist High-Performance HTTP Engine v%s\n") ;;;
  puts (lit "======================================================================\n") ;;;
  puts (lit "Usage: lith [command] [options]\n\n") ;;;
  puts (lit "Commands:\n") ;;;
  puts (lit "  start               Explicitly launch the HTTP server engine\n\n") ;;;
  puts (lit "Options:\n") ;;;
  puts (lit "  -d, --daemon        Run the server in the background (Linux only)\n") ;;;
  puts (lit "  -v, --version       Print current stable release version\n") ;;;
  puts (lit "  -h, --help          Display available flags and routing commands\n\n") ;;;
  puts (lit "Examples:\n") ;;;
  puts (lit "  lith start 8080       Launch in foreground on port 8080\n") ;;;
  puts (lit "  lith start 8080 -d    Launch as a background daemon process\n") ;;;
  puts (lit "----------------------------------------------------------------------\n").

Definition arg_is (arg : bytes) (s : bytes) : bool := bool_decide (strcmp arg s = 0%Z).

(** One round of the loop over [argv[2 ..]]: [port_override] and
    [use_daemon]. *)
Definition parse_arg (st : Z * bool) (arg : bytes) : Z * bool :=
  if arg_is arg (lit "--daemon") || arg_is arg (lit "-d") then (st.1, true)
  else
    let val := atoi arg in
    if decide (0 < val)%Z then (val, st.2) else st.

Definition parse_args (args : list bytes) : Z * bool := foldl parse_arg (0%Z, false) args.

(** A relative directory is made absolute before the daemon changes
    directory. *)
Definition absolute_dir (cwd : bytes) (config : ServerConfig) : option ServerConfig :=
  if decide (deref (public_dir config) = "/"%char) then Some config
  else
    abs ← snprintf 512 (lit "%s/%s") [FStr cwd; FStr (public_dir config)];
    d ← strncpy_term (public_dir config) abs 255;
    Some (set_public_dir d config).

(** The daemon step: [inl] is the code [main] ends with. *)
Definition enter_daemon (cwd : bytes) (config : ServerConfig) : io (ended Z + ServerConfig) :=
  let! config := ensure (absolute_dir cwd config) in
  lith_log LOG_INFO (lit "Detaching session. LITH is shifting control to background daemon...") [] ;;;
  let! r := lith_daemonize cwd in
  match r with
  | Exited code => Ret (inl (Exited code))
  | Returned r =>
      if decide (r < 0)%Z then
        lith_log LOG_ERROR (lit "Critical: Daemonization execution routine failed") [] ;;;
        Ret (inl (Returned 1%Z))
      else Ret (inr config)
  end.

(** [global_pool] in static storage. *)
Definition dir_zero : bytes := replicate 256 NUL.
Definition cache_zero : LithCache :=
  mkCache (replicate MAX_CACHE_ENTRIES
    (mkEntry (replicate 256 NUL) None 0 (replicate 64 NUL) 0 false)) 0.

(** Up to the banner: the code [main] ends with, or [global_config]. *)
Definition configure (fuel : nat) (args : list bytes) : io (ended Z + ServerConfig) :=
  let! cwd := sys_call (SGetcwd 512) in
  match cwd with
  | None =>
      lith_log LOG_ERROR (lit "Failed to get current working directory") [] ;;;
      Ret (inl (Returned 1%Z))
  | Some cwd =>
      let! loaded := load_config fuel (lit "lith.conf") config_zero in
      let (port_override, use_daemon) := parse_args args in
      let! config :=
        if decide (0 < port_override)%Z then
          lith_log LOG_INFO (lit "CLI Argument detected: Overriding port to %d") [FInt port_override] ;;;
          Ret (set_port port_override loaded.2)
        else Ret loaded.2 in
      if use_daemon then enter_daemon cwd config else Ret (inr config)
  end.

(** From the banner to the workers: the code [main] ends with, or
    [global_pool.public_dir] and [global_ssl_ctx]. *)
Definition bring_up (global_config : ServerConfig) : io (ended Z + bytes * option nat) :=
  puts (lit "----------------------------------------\n") ;;;
  print_version (lit "   LITH : Light HTTP Server v%s\n") ;;;
  puts (lit "   Status: Initializing Architecture...\n") ;;;
  puts (lit "----------------------------------------\n") ;;;
  let! ssl := lith_ssl_init global_config in
  if decide (ssl.1 < 0)%Z then
    lith_log LOG_ERROR (lit "Critical: Failed to bootstrap OpenSSL context engine. Aborting launch.") [] ;;;
    Ret (inl (Returned 1%Z))
  else
    let! dir := thread_pool_init dir_zero cache_zero 8 (public_dir global_config) in
    Ret (inr (dir, ssl.2)).

(** The listening socket: the code [main] ends with, or [server_fd]. *)
Definition open_server (global_config : ServerConfig) (global_ssl_ctx : option nat) : io (ended Z + Z) :=
  let! server := lith_init_server global_config global_ssl_ctx in
  if decide (server.1 < 0)%Z then
    lith_log LOG_ERROR (lit "Critical: Failed to initialize network socket layer") [] ;;;
    thread_pool_shutdown ;;;
    lith_ssl_cleanup server.2 ;;;
    Ret (inl (Returned 1%Z))
  else Ret (inr server.1).

(** All that comes before there are workers. *)
Definition start_up (fuel : nat) (args : list bytes) :
    io (ended Z + ServerConfig * (bytes * option nat)) :=
  let! entered := configure fuel args in
  match entered with
  | inl code => Ret (inl code)
  | inr config =>
      let! up := bring_up config in
      match up with
      | inl code => Ret (inl code)
      | inr pool => Ret (inr (config, pool))
      end
  end.

Definition start (rounds fuel : nat) (args : list bytes) : io (ended Z) :=
  let! up := start_up fuel args in
  match up with
  | inl code => Ret code
  | inr (config, (_, ctx)) =>
      let! server := open_server config ctx in
      match server with
      | inl code => Ret code
      | inr server_fd =>
          lith_start_server rounds server_fd ;;;
          Ret (Returned 0%Z)
      end
  end.

(** [rounds] bounds the accept loop, [fuel] the lines of the configuration
    file. *)
Definition main (rounds fuel : nat) (argv : list bytes) : io (ended Z) :=
  sys_call (SSignal SIGINT) ;;;
  sys_call (SSignal SIGTERM) ;;;
  match argv with
  | _ :: command :: args =>
      if arg_is command (lit "-v") || arg_is command (lit "--version") then
        print_version (lit "LITH Engine Version: %s\n") ;;;
        Ret (Returned 0%Z)
      else if arg_is command (lit "-h") || arg_is command (lit "--help") then
        display_usage ;;;
        Ret (Returned 0%Z)
      else if arg_is command (lit "start") then start rounds fuel args
      else
        let! msg := ensure (format (lit "Error: Unknown command or option '%s'.\n\n") [FStr command]) in
        sys_call (SPrintErr msg) ;;;
        display_usage ;;;
        Ret (Returned 1%Z)
  | _ => display_usage ;;; Ret (Returned 0%Z)
  end.

(** * The command line *)

Definition is_flag (arg : bytes) : bool := arg_is arg (lit "--daemon") || arg_is arg (lit "-d").

(** The arguments that are ports. *)
Definition port_args (args : list bytes) : list Z :=
  filter (fun p => (0 < p)%Z) (atoi <$> filter (fun a => is_flag a = false) args).

(** The last port wins, wherever the flags are. *)
Lemma parse_args_spec args :
  parse_args args = (default 0%Z (last (port_args args)), existsb is_flag args).
Proof.
  unfold parse_args. assert (forall st, foldl parse_arg st args =
    (default st.1 (last (port_args args)), st.2 || existsb is_flag args)) as H; [|apply H].
  induction args as [|a args IH]; intros [p d]; cbn [foldl fst snd existsb].
  - by rewrite orb_false_r.
  - rewrite IH. unfold parse_arg, port_args. fold (is_flag a).
    destruct (is_flag a) eqn:Hf; cbn [fst snd orb].
    + rewrite filter_cons_False by congruence. by rewrite orb_true_r.
    + rewrite filter_cons_True by done. rewrite fmap_cons, filter_cons. case_decide; cbn [fst snd]; [|done].
      f_equal. rewrite last_cons. fold (port_args args). by destruct (last (port_args args)).
Qed.

Lemma parse_args_port args : (- 2 ^ 31 <= (parse_args args).1 < 2 ^ 31)%Z.
Proof.
  unfold parse_args. assert (forall st : Z * bool, (- 2 ^ 31 <= st.1 < 2 ^ 31)%Z ->
    (- 2 ^ 31 <= (foldl parse_arg st args).1 < 2 ^ 31)%Z) as H; [|by apply H].
  induction args as [|a args IH]; intros st Hst; cbn [foldl]; [done|]. apply IH.
  pose proof (atoi_range a). unfold parse_arg. cbv zeta. by repeat case_match.
Qed.

(** * The configuration *)

Lemma config_zero_wf : config_wf config_zero.
Proof. split; by_compute. Qed.

Lemma absolute_dir_spec cwd c :
  config_wf c ->
  exists c', absolute_dir cwd c = Some c' /\ config_wf c' /\
    ssl_cert_path c' = ssl_cert_path c /\ ssl_key_path c' = ssl_key_path c /\
    cstr (public_dir c') = if decide (deref (public_dir c) = "/"%char) then cstr (public_dir c)
                           else take 255 (cstr cwd ++ lit "/" ++ cstr (public_dir c)).
Proof.
  intros Hc. unfold absolute_dir. case_decide; [by exists c|]. unfold snprintf. format_step.
  cbn [mbind option_bind]. destruct Hc as [[Hd1 Hd2] ? ? ? ?].
  match goal with |- context [strncpy_term _ ?s 255] => set (abs := s) end.
  destruct (strncpy_term_spec _ abs 255 Hd1) as (d & Hd & Hdl & Hds).
  rewrite Hd. cbn [mbind option_bind]. eexists. split; [done|]. cbn [public_dir set_public_dir].
  split; [|split; [done|split; [done|]]].
  - split; cbn [public_dir ssl_cert_path ssl_key_path port use_cache set_public_dir]; [|done..].
    split; [done|]. unfold strlen. rewrite Hds, length_take. lia.
  - rewrite Hds. unfold abs. rewrite cstr_id.
    + rewrite app_nil_r, take_take. lit_norm. reflexivity.
    + apply no_nul_take. rewrite app_nil_r, !no_nul_app.
      split_and!; [apply cstr_no_nul | by_compute | apply cstr_no_nul].
Qed.

(** * Contracts *)

Section contracts.
Context (E : env) (HE : env_wf E) (Hmax : (max_file E < LONG_MAX)%Z).

Lemma wp_puts {A} D s (k : unit -> io A) (w : os) Q :
  wp (sys E) D (k tt) w Q -> wp (sys E) D (bind k (puts s)) w Q.
Proof. intros Hk. apply wp_vis. intros [] _. by exists w. Qed.

Lemma wp_print_version {A} D fmt (k : unit -> io A) (w : os) Q :
  is_Some (format fmt [FStr LITH_VERSION]) ->
  wp (sys E) D (k tt) w Q -> wp (sys E) D (bind k (print_version fmt)) w Q.
Proof.
  intros [s Hs] Hk. unfold print_version. apply wp_bind. eapply wp_ensure; [done|].
  apply (wp_bind_inv _ _ _ Ret). by apply wp_puts.
Qed.

Lemma wp_display_usage {A} D (k : unit -> io A) (w : os) Q :
  wp (sys E) D (k tt) w Q -> wp (sys E) D (bind k display_usage) w Q.
Proof.
  intros Hk. apply wp_bind. unfold display_usage. apply wp_puts, wp_print_version; [by_compute|].
  repeat apply wp_puts. exact Hk.
Qed.

(** ** Shutdown *)

(** The handler, when it interrupts code that holds no lock: everything is
    given back. *)
Lemma wp_handle_sigint fd ctx (w : os) :
  lenient E = true -> w_pool w = None -> w_lock w = Unlocked -> fd = (-1)%Z \/ fd ∈ w_socks w ->
  match ctx with Some c => c ∈ w_ctx w | None => True end ->
  wp (sys E) False (handle_sigint fd ctx) w (fun r w' => r = Exited 0 /\
    w_heap w' = w_heap w /\ w_lock w' = Destroyed /\
    w_socks w' = (if decide (fd = (-1)%Z) then w_socks w else w_socks w ∖ {[fd]}) /\
    w_ctx w' = match ctx with Some c => w_ctx w ∖ {[c]} | None => w_ctx w end).
Proof.
  intros Hlen Hp Hl Hfd Hctx. unfold handle_sigint. apply wp_puts. eapply wp_log; [by format_step|].
  apply (wp_call_spec (sys E) _ _ _ _ (fun _ w1 => w1 =
    set_w_socks (if decide (fd = (-1)%Z) then w_socks w else w_socks w ∖ {[fd]}) w)).
  { case_decide; [cbn [wp]; by os_eq|]. destruct Hfd as [?|Hfd]; [done|].
    apply (wp_bind_inv _ _ _ Ret). by apply wp_lith_close_socket. }
  intros _ w1 ->. eapply wp_call_spec; [by apply wp_thread_pool_shutdown|].
  intros _ w2 (q & c & _ & _ & _ & ->). unfold queue_section.
  eapply wp_call_spec; [by apply wp_lith_ssl_cleanup|]. intros r w3 (_ & ->).
  eapply wp_log; [by format_step|]. cbn [wp]. by destruct ctx.
Qed.

(** Where the locks of the pool may not be destroyed while there are workers,
    the handler leaves the contract. *)
Lemma handle_sigint_strict fd ctx (w : os) Q :
  lenient E = false -> w_pool w = None -> 0 < w_threads w ->
  ~ wp (sys E) False (handle_sigint fd ctx) w Q.
Proof.
  intros Hlen Hp Ht Hwp. unfold handle_sigint in Hwp. apply wp_bind_inv in Hwp.
  destruct (Hwp tt I) as (? & -> & H1). apply wp_bind_inv in H1.
  eapply wp_lith_log_inv in H1; [|by format_step]. apply wp_bind_inv in H1.
  assert (exists w1, w_pool w1 = None /\ 0 < w_threads w1 /\ exists Q', wp (sys E) False thread_pool_shutdown w1 Q')
    as (w1 & Hp1 & Ht1 & Q' & H2).
  { case_decide; cbn [wp] in H1.
    - exists w. split_and!; [done | done|]. eexists. by apply wp_bind_inv in H1.
    - destruct (H1 tt I) as (w1 & [_ ->] & H2). exists (set_w_socks (w_socks w ∖ {[fd]}) w). split; [exact Hp|]. split; [exact Ht|].
      eexists. apply wp_bind_inv in H2. exact H2. }
  by apply (thread_pool_shutdown_strict E w1 Q') in H2.
Qed.

(** ** Launch *)

(** With 0, the accept loop has ended: the socket was bound to the port of the
    configuration and listened, the queue was made, and two TLS contexts were
    made ready. With 1, an error has been undone, but for contexts. *)
Definition launched (w : os) (r : ended Z) (w' : os) : Prop :=
  w_heap w' = w_heap w /\ w_files w' = w_files w /\
  ((r = Returned 1%Z /\ w_socks w' = w_socks w) \/
   (r = Returned 0%Z /\
    exists config fd c1 c2, (fd ∉ w_socks w) /\ w_socks w' = {[fd]} ∪ w_socks w /\
      (c1 ∉ w_ctx w) /\ (c2 ∉ {[c1]} ∪ w_ctx w) /\ w_ctx w' = {[c2]} ∪ ({[c1]} ∪ w_ctx w) /\
      w_setup w' = w_setup w ++ (tls_setup config c1 ++ [PoolMade empty_queue]) ++
        [BoundTo fd (to_port (port config)); Listens fd] ++ tls_setup config c2)).

(** What is up when the workers start: a TLS context that is ready, the queue,
    empty and with its flag down, a cache, at most eight workers. Or nothing
    has happened but that a TLS context, if one was made, is left. *)
Definition brought_up (config : ServerConfig) (w : os) (r : ended Z + bytes * option nat) (w' : os) : Prop :=
  match r with
  | inl code => code = Returned 1%Z /\ exists ctx, ctx_left w w' ctx
  | inr (dir, ctx) =>
      length dir = 256 /\ cstr dir = cstr (public_dir config) /\
      exists c k cr c1, k <= 8 /\ cache_ok E c /\ ctx = Some c1 /\ (c1 ∉ w_ctx w) /\
        w' = set_w_ctx ({[c1]} ∪ w_ctx w)
               (set_w_threads (k + w_threads w)
                 (set_w_lock Unlocked (set_w_seen (Some c) (set_w_crit cr
                   (note (tls_setup config c1 ++ [PoolMade empty_queue]) w)))))
  end.

Lemma wp_bring_up config (w : os) :
  config_wf config -> w_pool w = None ->
  wp (sys E) False (bring_up config) w (brought_up config w).
Proof.
  intros [[Hd1 Hd2] _ _ _ _] Hp. unfold bring_up. apply wp_puts, wp_print_version; [by_compute|].
  do 2 apply wp_puts.
  eapply wp_call_spec; [apply wp_lith_ssl_init|].
  intros [code ctx] w1 Hssl. pose proof Hssl as (Hctx & Hcode & _). cbn [fst snd] in *.
  case_decide as Hneg.
  { eapply wp_log; [by format_step|]. split; [done|]. exists ctx. by eapply ssl_failed. }
  destruct ctx as [c1|]; [|destruct Hctx as [_ ->]; lia]. destruct Hctx as (Hc1 & l & _ & Hl & ->).
  rewrite (proj1 Hl) by lia. clear Hssl Hl l.
  eapply wp_call_spec.
  { apply (wp_thread_pool_init E HE Hmax); [by_compute | split; by_compute | done | done]. }
  intros dir w2 (Hdl & Hdir & c & k & cr & Hk & Hc & -> & _).
  cbn [wp]. os_simpl. split_and!; [done | done |]. exists c, k, cr, c1. split_and!; [done..|].
  os_eq. by rewrite <- app_assoc.
Qed.

(** The socket listens, and there is a second TLS context, since
    [lith_init_server] makes another one; or nothing is left but contexts. *)
Definition opened (config : ServerConfig) (w : os) (r : ended Z + Z) (w' : os) : Prop :=
  match r with
  | inl code => code = Returned 1%Z /\
      w_heap w' = w_heap w /\ w_files w' = w_files w /\ w_socks w' = w_socks w
  | inr fd => exists c2, server_up config w fd c2 w'
  end.

Lemma wp_shutdown_failed config ctx (w0 w : os) :
  lenient E = true -> w_pool w = None -> w_lock w = Unlocked ->
  match ctx with Some c => c ∈ w_ctx w | None => True end ->
  w_heap w = w_heap w0 -> w_files w = w_files w0 -> w_socks w = w_socks w0 ->
  wp (sys E) False (thread_pool_shutdown ;;; lith_ssl_cleanup ctx ;;; Ret (inl (Returned 1%Z))) w (opened config w0).
Proof.
  intros Hlen Hp Hl Hctx Hh Hf Hs. eapply wp_call_spec; [by apply wp_thread_pool_shutdown|].
  intros _ w2 (q & c & _ & _ & _ & ->). unfold queue_section.
  eapply wp_call_spec; [by apply wp_lith_ssl_cleanup|]. intros r w3 (_ & ->).
  cbn [wp]. unfold opened. destruct ctx; os_simpl; by split_and!.
Qed.

(** When the server cannot be opened, locks are destroyed while they are in
    use: either the library allows that, or nothing fails. *)
Context (Hopen : lenient E = true \/ opens E = true).

Lemma wp_open_server config c1 (w : os) :
  w_pool w = None -> w_lock w = Unlocked -> c1 ∈ w_ctx w ->
  wp (sys E) False (open_server config (Some c1)) w (opened config w).
Proof.
  intros Hp Hl Hc1. unfold open_server. eapply wp_call_spec; [apply wp_lith_init_server|].
  intros [fd ctx2] w3 Hr. unfold init_post in Hr. cbn [fst snd] in *.
  destruct (decide (fd = (-1)%Z)) as [->|Hfd].
  - destruct Hr as (Hno & (l & Hw) & Hctx). assert (lenient E = true) as Hlen by (destruct Hopen; congruence).
    rewrite decide_True by lia. eapply wp_log; [by format_step|].
    assert (c1 ∈ w_ctx w3) as Hc3 by (destruct Hw as [->|(c & _ & _ & ->)]; cbn; set_solver).
    apply wp_shutdown_failed; try done; try (by destruct Hw as [->|(c & _ & _ & ->)]).
    by destruct Hctx as [->|[->|(c & -> & Hc)]].
  - destruct Hr as (c2 & -> & Hup). pose proof Hup as (Hr & _). rewrite decide_False by lia. by exists c2.
Qed.

(** ** The command *)

Definition start_post (w : os) (r : ended Z) (w' : os) : Prop :=
  exists p, launched (set_w_proc p w) r w' \/
    (w' = set_w_proc p w /\ (r = Exited 0 \/ r = Returned 1%Z)).

Lemma wp_enter_daemon cwd c (w : os) :
  config_wf c ->
  wp (sys E) False (enter_daemon cwd c) w (fun r w' =>
    exists p, w' = set_w_proc p w /\
    match r with
    | inl code => code = Exited 0 \/ code = Returned 1%Z
    | inr c' => config_wf c' /\ p_session p = true /\ p_cwd p = lit "/" /\
        ssl_cert_path c' = ssl_cert_path c /\ ssl_key_path c' = ssl_key_path c /\
        cstr (public_dir c') = if decide (deref (public_dir c) = "/"%char) then cstr (public_dir c)
                               else take 255 (cstr cwd ++ lit "/" ++ cstr (public_dir c))
    end).
Proof.
  intros Hc. unfold enter_daemon. destruct (absolute_dir_spec cwd c Hc) as (c' & Hc' & Hwf & Hcert & Hkey & Hdir).
  eapply wp_ensure; [done|]. eapply wp_log; [by format_step|].
  eapply wp_call_spec; [apply wp_lith_daemonize|]. intros [code|code] w' (p & -> & Hr).
  - destruct Hr as [-> _]. exists p. split; [done|]. by left.
  - destruct Hr as [->|(-> & _ & Hs & _ & Hcwd & _)].
    + rewrite decide_True by lia. eapply wp_log; [by format_step|]. exists p. split; [done|]. by right.
    + rewrite decide_False by lia. exists p. by split_and!.
Qed.

(** *** What the paths of the configuration name *)

Definition absolute (p : bytes) : Prop := deref p = "/"%char.

#[export] Instance absolute_dec p : Decision (absolute p).
Proof. unfold absolute. apply _. Defined.

(** The file a path names for a process in the directory [cwd]. *)
Definition full_path (cwd p : bytes) : bytes :=
  if decide (absolute p) then cstr p else cstr cwd ++ lit "/" ++ cstr p.

(** The same string has the same first character. *)
Lemma deref_cstr p : deref (cstr p) = deref p.
Proof.
  destruct p as [|c p]; [done|]. unfold cstr, is_nul. cbn [take_until].
  destruct (bool_decide (c = NUL)) eqn:Hc; [|done]. by apply bool_decide_eq_true in Hc as ->.
Qed.

Lemma absolute_cstr p : absolute (cstr p) <-> absolute p.
Proof. unfold absolute. by rewrite deref_cstr. Qed.

Lemma full_path_absolute cwd p : absolute p -> full_path cwd p = cstr p.
Proof. intros. unfold full_path. by rewrite decide_True. Qed.

Lemma full_path_relative cwd p : ~ absolute p -> full_path cwd p = cstr cwd ++ lit "/" ++ cstr p.
Proof. intros. unfold full_path. by rewrite decide_False. Qed.

(** A daemon serves the directory it was told to, wherever it was started;
    certificate and key are looked for below the root directory. *)
Definition daemon_paths (cwd : bytes) (c c' : ServerConfig) (w' : os) : Prop :=
  let here := p_cwd (w_proc w') in
  (length (full_path cwd (public_dir c)) < 256 ->
    full_path here (public_dir c') = full_path cwd (public_dir c)) /\
  (~ absolute (ssl_cert_path c) ->
    full_path here (ssl_cert_path c') = lit "//" ++ cstr (ssl_cert_path c)) /\
  (~ absolute (ssl_key_path c) ->
    full_path here (ssl_key_path c') = lit "//" ++ cstr (ssl_key_path c)).

Lemma wp_enter_daemon_paths cwd c (w : os) :
  config_wf c -> absolute cwd ->
  wp (sys E) False (enter_daemon cwd c) w (fun r w' =>
    match r with inl _ => True | inr c' => daemon_paths cwd c c' w' end).
Proof.
  intros Hc Hcwd. eapply wp_mono; [by apply wp_enter_daemon|].
  intros [code|c'] w' (p & -> & Hr); [done|]. destruct Hr as (_ & _ & Hroot & Hcert & Hkey & Hdir).
  unfold daemon_paths. cbn [w_proc set_w_proc]. rewrite Hroot, Hcert, Hkey.
  split_and!; [|intros Hrel; by rewrite full_path_relative..].
  intros Hfit. destruct (decide (absolute (public_dir c))) as [Habs|Hrel].
  - rewrite decide_True in Hdir by done. rewrite !full_path_absolute; [done | done|].
    by rewrite <- absolute_cstr, Hdir, absolute_cstr.
  - rewrite decide_False in Hdir by done. rewrite (full_path_relative cwd) in * by done.
    rewrite take_ge in Hdir by lia. rewrite full_path_absolute; [done|].
    rewrite <- absolute_cstr, Hdir. rewrite <- absolute_cstr in Hcwd. by destruct (cstr cwd).
Qed.

(** Whatever file and arguments there are, the configuration is well formed
    when it is used, and only attributes of the process have changed. *)
Definition configured (w : os) (r : ended Z + ServerConfig) (w' : os) : Prop :=
  exists p, w' = set_w_proc p w /\
  match r with
  | inl code => code = Exited 0 \/ code = Returned 1%Z
  | inr c => config_wf c
  end.

Lemma wp_configure fuel args (w : os) :
  (0 <= max_file E)%Z -> Z.to_nat (max_file E) < fuel ->
  wp (sys E) False (configure fuel args) w (configured w).
Proof.
  intros Hm Hf. unfold configure. apply wp_vis. intros [cwd|] _; (eexists; split; [done|]).
  2: { eapply wp_log; [by format_step|]. exists (w_proc w). split; [by os_eq | by right]. }
  eapply wp_call_spec; [apply (wp_load_config E Hm); [apply config_zero_wf | done]|].
  intros [code c] w1 (-> & Hc & _). cbn [snd] in Hc.
  pose proof (parse_args_port args) as Hpo. destruct (parse_args args) as [po ud]. cbn [fst snd] in *.
  apply (wp_call_spec (sys E) _ _ _ _ (fun c1 w1 => w1 = w /\ config_wf c1)).
  { case_decide; [|done]. eapply wp_log; [by format_step|]. split; [done|]. destruct Hc; by split. }
  intros c1 _ [-> Hc1]. destruct ud; [|exists (w_proc w); split; [by os_eq | done]].
  eapply wp_mono; [by apply wp_enter_daemon|]. intros [r|c2] w1 (p & -> & Hr); exists p; [done|].
  split; [done | apply Hr].
Qed.

(** What the start command has done when the workers start. *)
Definition started (w : os) (r : ended Z + ServerConfig * (bytes * option nat)) (w' : os) : Prop :=
  exists p,
  match r with
  | inl code => (w' = set_w_proc p w /\ code = Exited 0) \/
      (code = Returned 1%Z /\ exists ctx, ctx_left (set_w_proc p w) w' ctx)
  | inr (config, pool) => config_wf config /\ brought_up config (set_w_proc p w) (inr pool) w'
  end.

Lemma wp_start_up fuel args (w : os) :
  w_pool w = None -> (0 <= max_file E)%Z -> Z.to_nat (max_file E) < fuel ->
  wp (sys E) False (start_up fuel args) w (started w).
Proof.
  intros Hp Hm Hf. unfold start_up. eapply wp_call_spec; [by apply wp_configure|].
  intros [code|config] w1 (p & -> & Hr).
  { exists p. destruct Hr as [->| ->]; [by left | right]. split; [done|]. exists None, []. left. by os_eq; rewrite app_nil_r. }
  eapply wp_call_spec; [by apply wp_bring_up|]. intros [code|[dir ctx]] w2 Hup; exists p; [by right|].
  by split.
Qed.

Lemma wp_start rounds fuel args (w : os) :
  w_pool w = None -> (0 <= max_file E)%Z -> Z.to_nat (max_file E) < fuel ->
  wp (sys E) True (start rounds fuel args) w (start_post w).
Proof.
  intros Hp Hm Hf. unfold start.
  eapply wp_call_spec; [apply (wp_weaken_diverge _ False); [done | by apply wp_start_up]|].
  intros [code|[config [dir ctx]]] w1 (p & Hup).
  - destruct Hup as [[-> ->]|(-> & ctx & l & Hl)].
    + exists p. right. split; [done | by left].
    + exists p. left. by destruct Hl as [->|(c & _ & _ & ->)]; split_and!; [done | done | left | done | done | left].
  - destruct Hup as (_ & _ & _ & c & k & cr & c1 & _ & _ & -> & H1 & ->).
    eapply wp_call_spec.
    { apply (wp_weaken_diverge _ False); [done|]. apply wp_open_server; os_simpl; [done.. | set_solver]. }
    intros [code|fd] w2 Hop.
    + destruct Hop as (-> & Hh & Hf' & Hs). os_simpl. exists p. left. split_and!; [done | done | by left].
    + destruct Hop as (c2 & _ & Hfd & H2 & ->). os_simpl.
      eapply wp_call_spec; [apply wp_lith_start_server; os_simpl; [by split | set_solver]|].
      intros _ w5 (pc & -> & _). exists p. left. unfold launched. os_simpl. split_and!; [done|done|].
      right. split; [done|]. exists config, fd, c1, c2. split_and!; try done. cbn. by rewrite <- !app_assoc.
Qed.

(** ** The program *)

Definition main_post (argv : list bytes) (w : os) (r : ended Z) (w' : os) : Prop :=
  match argv with
  | _ :: command :: _ =>
      if arg_is command (lit "start") then start_post w r w'
      else w' = w /\ r = Returned (if arg_is command (lit "-v") || arg_is command (lit "--version") ||
                                     arg_is command (lit "-h") || arg_is command (lit "--help")
                                  then 0%Z else 1%Z)
  | _ => w' = w /\ r = Returned 0%Z
  end.

Lemma arg_is_lit a s t : arg_is a (lit s) = true -> lit s <> lit t -> no_nul (lit s) -> no_nul (lit t) ->
  arg_is a (lit t) = false.
Proof.
  intros Ha Hne Hs Ht. apply bool_decide_eq_false. apply bool_decide_eq_true in Ha.
  rewrite strcmp_eq in *. rewrite (cstr_id (lit s)) in Ha by done. rewrite (cstr_id (lit t)) by done. congruence.
Qed.

Lemma wp_main rounds fuel argv (w : os) :
  w_pool w = None -> (0 <= max_file E)%Z -> Z.to_nat (max_file E) < fuel ->
  wp (sys E) True (main rounds fuel argv) w (main_post argv w).
Proof.
  intros Hp Hm Hf. unfold main, main_post. apply wp_vis. intros [] _. exists w. split; [done|].
  apply wp_vis. intros [] _. exists w. split; [done|].
  destruct argv as [|prog [|command args]]; [by apply wp_display_usage..|].
  destruct (arg_is command (lit "start")) eqn:Hs.
  - rewrite !(arg_is_lit command "start" _ Hs) by by_compute. cbn [orb]. by apply wp_start.
  - destruct (arg_is command (lit "-v") || arg_is command (lit "--version")) eqn:Hv; cbn [orb].
    { by apply wp_print_version; [by_compute|]. }
    destruct (arg_is command (lit "-h") || arg_is command (lit "--help")) eqn:Hh; cbn [orb].
    { by apply wp_display_usage. }
    eapply wp_ensure; [by format_step|]. apply wp_vis. intros [] _. exists w. split; [done|].
    by apply wp_display_usage.
Qed.
End contracts.
