(* ===== verification/Startup.v ===== *)
(** * From the command to the service

    What the start command of [main] (src/main.c) sets up is what the serving
    phase starts from: the main thread's state when it has created the workers
    and is about to open the listening socket, the states the workers begin
    with, the cache it has filled and the queue it has made are a start of
    [Serving.v]. *)

From S2P Require Import Prelude CString CFormat Types Effects Invariants System Interleaving Machine Progress.
From S2P Require Import Logger SystemRules HttpParser Utils Cache Router ThreadPool Redirect Worker Config Server.
From S2P Require Import Serving Daemon Main.

(** A process that has just been started owns nothing. *)
Record newborn (w : os) : Prop := {
  nb_pool : w_pool w = None;
  nb_heap : w_heap w = ∅;
  nb_files : w_files w = ∅;
  nb_socks : w_socks w = ∅;
  nb_sections : w_pcrit w = [];
  nb_threads : w_threads w = 0;
  nb_setup : w_setup w = [];
}.

(** The state a thread begins with: nothing of its own, the TLS context that
    it finds beside those of its creator, the cache as its creator left it,
    peers that have [reads] pieces of data for it and [wakes] idle wake-ups of
    the queue to come. *)
Definition spawn (creator : os) (ctx : option nat) (reads wakes : nat) : os :=
  mkOs Unlocked (w_seen creator) [] ∅ ∅ (w_err creator) (option_to_set ctx ∪ w_ctx creator) ∅ [] [] reads
    ∅ [] None [] wakes 0 (w_proc creator) [].

Definition spawned (creator : os) (ctx : nat -> option nat) (ps : list (nat * nat)) : list os :=
  imap (fun i p => spawn creator (ctx i) p.1 p.2) ps.

Section startup.
Context (E : env) `{!Ordinary E}.

(** The state in which the workers are there, with any contexts in their
    hands, is a start of the service, with the queue as [thread_pool_init] has
    made it. *)
Lemma brought_up_start config w dir ctx0 w' bound ps ctx :
  newborn w -> brought_up E config w (inr (dir, ctx0)) w' ->
  Forall (fun p => p.1 < bound /\ p.2 + 1 < bound) ps ->
  exists c c1 q, ctx0 = Some c1 /\ w_seen w' = Some c /\ w_setup w' = tls_setup config c1 ++ [PoolMade q] /\
    forall cfg, start_ok E cfg dir ctx bound w' (spawn w' None 0 0) (spawned w' ctx ps) c q.
Proof.
  intros [Hp Hh Hf Hs Hc _ Hn] (_ & _ & c & k & cr & c1 & _ & Hok & -> & _ & Hw') Hps.
  assert (w_seen w' = Some c) as Hseen by by subst w'.
  exists c, c1, empty_queue. split; [done|]. split; [done|].
  split; [subst w'; cbn; by rewrite Hn|]. intros cfg.
  assert (forall x r j, knows E c (spawn w' x r j)) as Hknow.
  { intros x r j c0. cbn [spawn w_seen]. rewrite Hseen. by intros [= <-]. }
  assert (taken w' = []) as Ht by (subst w'; unfold taken; os_simpl; by rewrite Hc).
  split; [| | |done|split; [apply empty_queue_rep | done]].
  - split_and!; [by subst w'; split | intros c0; rewrite Hseen; by intros [= <-] |].
    subst w'. intros h p o. os_simpl. by rewrite Hf, lookup_empty.
  - split_and!; [by split | apply Hknow | intros h p o; cbn; by rewrite lookup_empty].
  - intros i wi. unfold spawned. intros ([r j] & Hi & ->)%list_lookup_imap_Some.
    rewrite Forall_lookup in Hps. destruct (Hps i _ Hi) as [Hr Hj]. cbn [fst snd] in *.
    split_and!; [|apply Hknow | done]. split; [|done..|].
    + split_and!; [done | done | done | done |]. cbn [spawn w_ctx].
      destruct (ctx i) as [x|]; [|done]. apply elem_of_union_l. cbn. by apply elem_of_singleton.
    + intros _. apply served_none.
Qed.

(** What the start command leads to: the process has become the parent of the
    daemon and ends; or it fails, and nothing is left but, if [lith_ssl_init]
    failed after making it, a TLS context; or the TLS context is ready, the
    workers are there, and whatever happens from then on, in whatever order,
    whichever TLS contexts they find, whether a shutdown comes or not, the
    server is at work as [Serving.v] describes it, on the queue that was made and
    for the directory that was configured. *)
Definition serves (w : os) (r : ended Z + ServerConfig * (bytes * option nat)) (w' : os) : Prop :=
  match r with
  | inl code => exists p, (code = Exited 0 /\ w' = set_w_proc p w) \/
      (code = Returned 1%Z /\ exists c, ctx_left (set_w_proc p w) w' c)
  | inr (config, (dir, ctx0)) =>
      config_wf config /\ cstr dir = cstr (public_dir config) /\ w_threads w' <= 8 /\
      exists c c1 q, ctx0 = Some c1 /\ w_seen w' = Some c /\ w_setup w' = tls_setup config c1 ++ [PoolMade q] /\
      forall stops dir0 req0 ctx bound ps ops s,
        length dir0 = 256 -> length (path req0) = MAX_PATH_SIZE ->
        length ps = w_threads w' -> Forall (fun p => p.1 < bound /\ p.2 + 1 < bound) ps ->
        history E bound
          (serving config dir dir0 req0 ctx bound ctx0 stops w' (spawn w' None 0 0) (spawned w' ctx ps) c q) ops s ->
        at_work E config dir dir0 req0 ctx bound ctx0 ops s /\ well_served E config dir ctx bound ops s
  end.

Lemma started_serves w r w' :
  Shared E -> newborn w -> started E w r w' -> serves w r w'.
Proof.
  intros HS Hw [p Hr]. destruct r as [code|[config [dir ctx0]]].
  - exists p. destruct Hr as [[-> ->]|(-> & Hl)]; [by left | by right].
  - destruct Hr as [Hwf Hup]. pose proof Hup as (Hl & Hd & c0 & k & cr & c2 & Hk & _ & _ & _ & Hw').
    assert (newborn (set_w_proc p w)) as Hw1 by by destruct Hw; split.
    destruct (brought_up_start config (set_w_proc p w) dir ctx0 w' 2 [] (fun _ => None) Hw1 Hup (Forall_nil_2 _))
      as (c & c1 & q & Hctx & Hseen & Hset & _).
    split_and!; [done | done | |].
    { subst w'. os_simpl. rewrite (nb_threads _ Hw). lia. }
    exists c, c1, q. do 3 (split; [done|]). intros stops dir0 req0 ctx bound ps ops s Hd0 Hr0 _ Hps Hrun.
    destruct (brought_up_start config _ dir ctx0 w' bound ps ctx Hw1 Hup Hps)
      as (c' & c1' & q' & _ & Hseen' & Hset' & Hok).
    assert (c' = c) as -> by congruence.
    assert (q' = q) as -> by (rewrite Hset in Hset'; by injection Hset').
    assert (at_work E config dir dir0 req0 ctx bound ctx0 ops s) as Hat
      by (eexists stops, _, _, _, c, q; split; [apply Hok | done]).
    split; [done|]. apply (at_work_well_served E config dir dir0 req0 ctx bound ctx0); try done.
    unfold strlen. rewrite Hd. apply Hwf.
Qed.

Lemma wp_start_serves fuel args (w : os) :
  Shared E -> (0 <= max_file E)%Z -> Z.to_nat (max_file E) < fuel ->
  newborn w -> wp (sys E) False (start_up fuel args) w (serves w).
Proof.
  intros HS H0 Hf Hw. eapply (wp_mono (sys E)); [|intros r w'; by apply started_serves].
  apply wp_start_up; try done; [apply or_wf | | apply Hw].
  pose proof or_max. unfold INT_MAX, LONG_MAX in *. lia.
Qed.
End startup.
