(* ===== verification/Runs.v ===== *)
(** * The program, run

    A small system with one page and a configuration file on its disk, and the
    program evaluated on it, call by call, on the machine of [Machine.v]; then
    many threads of it under schedules, as in [Schedule.v]. *)

From S2P Require Import Prelude CString CFormat Types Effects Invariants System Machine Logger SystemRules.
From S2P Require Import HttpParser HttpMessages HttpContent Utils Cache Router ThreadPool Redirect.
From S2P Require Import Worker Config Server Daemon Main Interleaving Progress Draining Schedule Serving Visits Startup.

(** ** The system *)

Definition demo_file : file := mkFile (lit "<h1>LITH</h1>") 5.

Definition demo_disk (p : bytes) : option file :=
  if decide (p = lit "public/index.html") then Some demo_file
  else if decide (p = lit "lith.conf") then Some (mkFile (lit "port=8001\npublic_dir=public\n") 1)
  else None.

Definition demo_env : env :=
  mkEnv demo_disk true true true true true true true false 2000000.

Definition demo_process : process := mkProcess 0 false None (lit "/srv") ∅.

Definition demo_os : os :=
  mkOs Unlocked None [] ∅ ∅ [] {[9]} {[4]} [] [] 2 {[7%Z]} [] None [] 0 0 demo_process [].

Definition demo_config : ServerConfig :=
  mkConfig 8090 (lit "public" ++ replicate 250 NUL) 1 (replicate 256 NUL) (replicate 256 NUL).

Definition demo_request : HttpRequest :=
  mkRequest METHOD_GET (path_array (lit "/")) 0 None true.

Definition demo_context : ExpandedClientContext :=
  mkCtx 7 4 (lit "public" ++ replicate 250 NUL).

Definition demo_entry : CacheEntry :=
  mkEntry (lit "public/index.html" ++ replicate 239 NUL) (Some (mkBlock 30 (lit "old"))) 3
    (lit "text/html" ++ replicate 55 NUL) 2 true.

(** A cache with that entry. *)
Definition demo_cache : LithCache := mkCache (<[0 := demo_entry]> (entries cache_zero)) 1.

Lemma demo_env_wf : env_wf demo_env.
Proof.
  split; [|by_compute]. intros p f. cbn [disk demo_env max_file]. unfold demo_disk.
  repeat case_decide; intros [= <-]; by_compute.
Qed.

#[export] Instance demo_ordinary : Ordinary demo_env.
Proof. split; [exact demo_env_wf | by_compute..]. Qed.

Lemma demo_cache_ok E :
  disk E = demo_disk -> max_file E = 2000000%Z -> cache_ok E demo_cache.
Proof.
  intros Hd Hm. split.
  2: { intros _ i e He Hi. cbn in Hi. assert (i = 0) as -> by lia. cbn in He. injection He as <-.
       intros _ f. rewrite Hd.
       assert (demo_disk (cstr (filepath demo_entry)) = Some demo_file) as -> by by_compute.
       intros [= <-]. cbn. lia. }
  rewrite Hm. split; [by_compute | by_compute | | | by_compute].
  - intros i e He Hi. cbn in Hi. assert (i = 0) as -> by lia. cbn in He. injection He as <-.
    split; [by_compute.. | | by exists (mkBlock 30 (lit "old")) | by_compute | by_compute].
    exists (lit "public/index.html"). by_compute.
  - intros i e He Hi. cbn [entries demo_cache entry_count] in *.
    rewrite list_lookup_insert_ne in He by lia. unfold cache_zero in He. cbn [entries] in He.
    apply lookup_replicate in He as [-> _]. split; by_compute.
Qed.

Definition no_queue : PoolQueue := mkPoolQueue None None 0 false ∅.

(** One thread of the program on that system, with what its peer sends. *)
Definition demo_machine (input : list bytes) : machine :=
  mkMachine demo_os demo_cache no_queue input 0.

Lemma demo_machine_ok input : machine_ok demo_env (demo_machine input) (m_os (demo_machine input)).
Proof.
  split; [done | by apply demo_cache_ok | | | done | done | | |].
  - exists []. split_and!; [split; [done..|constructor|] | constructor..]. cbn. by rewrite dom_empty_L.
  - intros _. by_compute.
  - intros _. split; by_compute.
  - intros _ _. by_compute.
  - done.
Qed.

(** ** Runs *)

Definition run_on {A} (p : io A) (input : list bytes) : outcome A * machine :=
  run (machine_step demo_env) p (demo_machine input).

(** A session of two requests: the first finds an old page in the cache and
    gets the new one, the second asks for a file that is not there and for the
    end of the connection. *)
Definition two_requests : list bytes :=
  [lit "GET / HTTP/1.1\r\n\r\n"; lit "GET /nothere HTTP/1.1\r\nConnection: close\r\n\r\n"].

Example session_run_output :
  let r := run_on (loop 3 (session_round 3 demo_config demo_context) demo_request) two_requests in
  r.1 = Done tt /\
  w_out (m_os r.2) =
    ok_response (lit "<h1>LITH</h1>") (lit "text/html") true ++
    error_response 404 (lit "Not Found")
      (page_of 404 (lit "Not Found")
         (lit "The requested URL or resource could not be located on this server.")) false.
Proof. vm_compute. by split. Qed.

(** A body that comes in pieces. *)
Example post_run_output :
  let r := run_on (session_round 3 demo_config demo_context demo_request)
    [lit "POST /f HTTP/1.1\r\nContent-Length: 6\r\n\r\nabc"; lit "def"] in
  match r.1 with Done (inl req) => content_length req | _ => 0%Z end = 6%Z /\
  w_out (m_os r.2) = post_response 6 true /\ w_reads (m_os r.2) = 0.
Proof. vm_compute. by split. Qed.

(** A request that comes in two records is taken for two requests: the first
    is answered by its path alone, the second refused. *)
Example split_request_output :
  let r := run_on (loop 3 (session_round 3 demo_config demo_context) demo_request)
    [lit "GET / HT"; lit "TP/1.1\r\n\r\n"] in
  r.1 = Done tt /\
  w_out (m_os r.2) = ok_response (lit "<h1>LITH</h1>") (lit "text/html") true ++
    error_response 400 (lit "Bad Request") bad_request_page false.
Proof. vm_compute. by split. Qed.

(** A clear-text client. *)
Example redirect_run_output :
  let r := run_on (serve_connection 3 demo_config (lit "public") dir_zero demo_request (Some 9) 7)
    [lit "GET /a HTTP/1.1\r\nHost: lith.example\r\n\r\n"] in
  r.1 = Done tt /\ w_socks (m_os r.2) = ∅ /\
  w_sent (m_os r.2) = redirect_to (lit "lith.example") (lit "/a").
Proof. vm_compute. by split. Qed.

(** A path that leaves the served directory. *)
Example traversal_run_output :
  let r := run_on (session_round 3 demo_config demo_context demo_request)
    [lit "GET /../lith.conf HTTP/1.1\r\n\r\n"] in
  w_out (m_os r.2) = error_response 403 (lit "Forbidden")
    (page_of 403 (lit "Forbidden") (lit "Access to this resource is strictly prohibited.")) true.
Proof. by vm_compute. Qed.

(** A socket goes through the queue. *)
Example queue_run_output :
  let r := run_on (thread_pool_push 7 ;;; thread_pool_pop 2) [] in
  r.1 = Done 7%Z /\ w_socks (m_os r.2) = {[7%Z]} /\ w_heap (m_os r.2) = ∅ /\
  head_ptr (m_queue r.2) = None.
Proof. vm_compute. by split. Qed.

(** The configuration file of the disk. *)
Example config_run_output :
  let r := run_on (load_config 100 (lit "lith.conf") config_zero) [] in
  match r.1 with
  | Done (code, c) => code = 0%Z /\ port c = 8001%Z /\ cstr (public_dir c) = lit "public"
  | _ => False
  end.
Proof. vm_compute. by split. Qed.

(** [lith start 8080]: eight workers, one page in the cache, a listening
    socket and two TLS contexts; the accept loop goes on. *)
Example start_run_output :
  let r := run_on (main 3 100 [lit "lith"; lit "start"; lit "8080"]) [] in
  r.1 = OutOfFuel /\ w_threads (m_os r.2) = 8 /\ size (w_ctx (m_os r.2)) = 3 /\
  size (w_socks (m_os r.2)) = 2 /\ entry_count (m_cache r.2) = 1.
Proof. vm_compute. by split. Qed.

(** ** Several threads *)

(** The same disk, with nothing promised about other threads. *)
Definition demo_shared : env :=
  mkEnv demo_disk true true true false false true true false 2000000.

Lemma demo_shared_wf : env_wf demo_shared.
Proof. destruct demo_env_wf. by split. Qed.

#[export] Instance demo_shared_ordinary : Ordinary demo_shared.
Proof. split; [exact demo_shared_wf | by_compute..]. Qed.

#[export] Instance demo_shared_shared : Shared demo_shared.
Proof. by split. Qed.

Definition demo_main_os : os := set_w_ssl ∅ (set_w_socks ∅ demo_os).
Definition demo_worker_os : os := set_w_ssl ∅ (set_w_socks ∅ (set_w_ctx {[9; 10]} demo_os)).

(** The first worker has found another TLS context than the second. *)
Definition demo_contexts (i : nat) : option nat := Some (9 + i).

(** The main thread, the thread that will shut the pool down, or never, two
    workers. *)
Definition demo_serving (stops : bool) : system :=
  serving demo_config (lit "public") dir_zero demo_request demo_contexts 3 (Some 9)
    stops demo_main_os demo_worker_os [demo_worker_os; demo_worker_os] demo_cache no_queue.

Lemma demo_start_ok :
  start_ok demo_shared demo_config (lit "public") demo_contexts 3 demo_main_os demo_worker_os [demo_worker_os; demo_worker_os] demo_cache no_queue.
Proof.
  assert (forall i, i < 2 -> worker_idle demo_shared demo_config (lit "public") demo_contexts 3 i demo_worker_os /\
    knows demo_shared demo_cache demo_worker_os /\ taken demo_worker_os = []) as Hw.
  { intros i Hi. split; [|by split]. split; try done; [|intros _; apply served_none].
    unfold worker_ready. split_and!; try done; [by_compute..|]. destruct i as [|[|i]]; [by_compute..|lia]. }
  split; [| | | by apply demo_cache_ok | split; [apply empty_queue_rep | done]].
  - split_and!; [by split | done | done].
  - split_and!; [by split | done | done].
  - intros [|[|i]] w; [intros [= <-]; apply Hw; lia..|done].
Qed.

(** Where a schedule leads. *)
Definition demo_run (stops : bool) (us : list turn) : option (list queue_op * system) :=
  take_turns demo_shared 3 (demo_serving stops) us.

Definition demo_after (stops : bool) (us : list turn) : system :=
  default (demo_serving stops) (snd <$> demo_run stops us).

Lemma demo_at_work stops us ops :
  fst <$> demo_run stops us = Some ops ->
  at_work demo_shared demo_config (lit "public") dir_zero demo_request demo_contexts 3 (Some 9) ops
    (demo_after stops us).
Proof.
  intros Ht. unfold demo_after. destruct (demo_run stops us) as [[ops' s]|] eqn:Hrun; [|done].
  injection Ht as ->. cbn [fmap option_fmap option_map snd default].
  apply (schedule_at_work demo_shared demo_config (lit "public") dir_zero demo_request demo_contexts 3 (Some 9))
    with stops demo_main_os demo_worker_os [demo_worker_os; demo_worker_os] demo_cache no_queue us;
    [by_compute | by_compute | by_compute | apply _ | lia | exact demo_start_ok | exact Hrun].
Qed.

(** The first worker waits; the server socket is opened; two clients come; the first is redirected, the
    second gets its page, the two workers in turn. *)
Definition turns (i : nat) (d : bytes) (n : nat) : list turn := replicate n (mkTurn i d true).

Fixpoint in_turn (us vs : list turn) : list turn :=
  match us, vs with
  | u :: us', v :: vs' => u :: v :: in_turn us' vs'
  | [], vs => vs
  | us, [] => us
  end.

Definition clear_hello : bytes := lit "GET /a HTTP/1.1\r\nHost: lith.example\r\n\r\n".
Definition tls_hello : bytes := [ascii_of_nat 22].
Definition get_index : bytes := lit "GET /index.html HTTP/1.1\r\n\r\n".
Definition get_page : bytes := lit "GET / HTTP/1.1\r\nConnection: close\r\n\r\n".

(** What it takes for a request to ask for the page of that disk. *)
Lemma page_asked E q :
  disk E = demo_disk -> (parsed (recv_buffer q)).1 = 0%Z -> method (request_of q) = METHOD_GET ->
  is_safe_path (Some (path (request_of q))) = true -> target (path (request_of q)) = lit "/index.html" ->
  asks_page E (lit "public") q.
Proof.
  intros Hd Hz Hm Hs Ht. split; [done..|]. rewrite Ht. exists demo_file. rewrite Hd.
  split; [by_compute | split; [by_compute | vm_compute; lia]].
Qed.

Definition two_clients : list turn :=
  turns 2 [] 2 ++ turns 0 [] 33 ++ turns 2 clear_hello 2 ++
  in_turn (turns 2 clear_hello 15) (turns 3 tls_hello 6 ++ turns 3 get_page 32).

Definition two_clients_ops : list queue_op := [Idle; Push 6%Z; Push 9%Z; Pop 6%Z; Pop 9%Z].

Example two_clients_run_ops : fst <$> demo_run true two_clients = Some two_clients_ops.
Proof. by vm_compute. Qed.

(** Everybody has come to the end of the round, with everything given back. *)
Example two_clients_run_output :
  (fun t => (match code t with Ret (inl _) => true | _ => false end, w_sent (local t), w_out (local t),
     elements (w_socks (local t)))) <$> delete 1 (threads (demo_after true two_clients)) =
  [(true, [], [], [3%Z]);
   (true, redirect_to (lit "lith.example") (lit "/a"), [], []);
   (true, [], ok_response (lit "<h1>LITH</h1>") (lit "text/html") false, [])].
Proof. by vm_compute. Qed.

(** Each connection was taken by one worker. *)
Example two_clients_taken : took <$> threads (demo_after true two_clients) = [[]; []; [6%Z]; [9%Z]].
Proof. by vm_compute. Qed.

(** When no signal comes, both workers wait again, and nothing goes on until
    another client comes. *)
Definition two_clients_and_wait : list turn := two_clients ++ turns 2 [] 5 ++ turns 3 [] 5.

Definition two_clients_and_wait_ops : list queue_op := two_clients_ops ++ [Idle; Idle; Idle; Idle].

Example wait_run_ops : fst <$> demo_run false two_clients_and_wait = Some two_clients_and_wait_ops.
Proof. by vm_compute. Qed.

Example wait_run_still : nothing_left (demo_after false two_clients_and_wait) = true.
Proof. by vm_compute. Qed.

(** Then the first worker waits again, the pool is shut down, and everybody
    comes to an end. *)
Definition two_clients_and_stop : list turn :=
  two_clients ++ turns 2 [] 3 ++ turns 1 [] 3 ++ turns 2 [] 3 ++ turns 3 [] 4 ++ replicate 3 (mkTurn 0 [] false).

Definition two_clients_and_stop_ops : list queue_op := two_clients_ops ++ [Idle; Stop; Idle; Idle].

Example stop_run_ops : fst <$> demo_run true two_clients_and_stop = Some two_clients_and_stop_ops.
Proof. by vm_compute. Qed.

Example stop_run_output :
  (fun t => (match code t with Ret (inr _) => true | _ => false end, elements (w_socks (local t)))) <$>
    threads (demo_after true two_clients_and_stop) =
  [(true, [3%Z]); (true, []); (true, []); (true, [])].
Proof. by vm_compute. Qed.

(** *** From the command line on

    [lith start 8080] on that disk, then the main thread with the eight workers
    it has created, and the same two clients; the file that configures it leaves
    the cache off. *)
Definition newborn_os : os := mkOs Unlocked None [] ∅ ∅ [] ∅ ∅ [] [] 0 ∅ [] None [] 0 0 demo_process [].

Lemma newborn_demo : newborn newborn_os.
Proof. by split. Qed.

Definition demo_start : outcome (ended Z + ServerConfig * (bytes * option nat)) * machine :=
  run (machine_step demo_shared) (start_up 100 [lit "8080"]) (mkMachine newborn_os cache_zero no_queue [] 0).

Definition server_of (r : outcome (ended Z + ServerConfig * (bytes * option nat)) * machine) : option system :=
  match r.1 with
  | Done (inr (cfg, (dir, ctx0))) =>
      let w := m_os r.2 in
      let ctx := fun _ : nat => ctx0 in
      Some (serving cfg dir dir_zero demo_request ctx 3 ctx0
              true w (spawn w None 0 0) (spawned w ctx (replicate (w_threads w) (2, 0))) (m_cache r.2) (m_queue r.2))
  | _ => None
  end.

Definition whole_run : option (list queue_op * system) :=
  s ← server_of demo_start;
  take_turns demo_shared 3 s
    (turns 2 [] 2 ++ turns 0 [] 33 ++ turns 2 clear_hello 17 ++ turns 3 tls_hello 6 ++ turns 3 get_page 24).

Example whole_run_output :
  (fun r => (r.1, length (threads r.2),
     (fun t => (w_sent (local t), w_out (local t), elements (w_socks (local t)))) <$> take 4 (threads r.2))) <$>
    whole_run =
  Some ([Idle; Push 6%Z; Push 9%Z; Pop 6%Z; Pop 9%Z], 10,
    [([], [], [3%Z]); ([], [], []); (redirect_to (lit "lith.example") (lit "/a"), [], []);
     ([], ok_response (lit "<h1>LITH</h1>") (lit "text/html") false, [])]).
Proof. by vm_compute. Qed.

(** ** All runs *)

Section runs.
Context (E : env) `{!Ordinary E} (Hopens : opens E = false).

(** A connection, whatever the client sends: it is served and closed. *)
Lemma connection_run fuel cfg pool_dir dir0 req0 ctx s m :
  strlen pool_dir < 256 ->
  length dir0 = 256 -> length (path req0) = MAX_PATH_SIZE ->
  machine_ok E m (m_os m) -> w_lock (m_os m) = Unlocked -> s ∈ w_socks (m_os m) ->
  w_reads (m_os m) < fuel -> match ctx with Some c => c ∈ w_ctx (m_os m) | None => True end ->
  exists m', run (machine_step E) (serve_connection fuel cfg pool_dir dir0 req0 ctx s) m = (Done tt, m') /\
    connection_post E cfg pool_dir s (m_os m) (m_os m').
Proof.
  intros Hd Hd0 Hr0 Hok Hl Hs Hf Hctx.
  edestruct (machine_run E (serve_connection fuel cfg pool_dir dir0 req0 ctx s) m) as ([] & m' & Hrun & Hpost & _);
    [exact or_wf | done | done | by apply wp_serve_connection|].
  by exists m'.
Qed.
End runs.
