(* ===== verification/Properties.v ===== *)
(** * The properties of the program

    One theorem per property, in the order of importance, with an instance of
    each that has hypotheses, on the system of [Runs.v]; then further results
    on single functions. *)

From S2P Require Import Prelude CString CFormat Types Effects Invariants System Logger SystemRules.
From S2P Require Import HttpParser HttpMessages HttpContent Utils Cache Router ThreadPool Redirect.
From S2P Require Import Worker Config Server Daemon Main Interleaving Machine Progress Draining Schedule Serving Visits Startup Runs.

(** ** Serving *)

(** C1: the request loop of a TLS connection ends, whatever the client sends;
    the bytes written are one response for each request read, in order, the one
    the bytes read ask for; the connection is kept open after a response
    exactly when the request says so; and the thread owns afterwards what it
    owned before. *)
Theorem request_loop_serves E fuel cfg ectx req (w : os) :
  Ordinary E ->
  w_lock w = Unlocked -> ssl_session ectx ∈ w_ssl w -> strlen (ctx_public_dir ectx) < 256 ->
  length (path req) = MAX_PATH_SIZE -> w_reads w < fuel ->
  wp (sys E) False (loop fuel (session_round fuel cfg ectx) req) w (fun _ w' =>
    session_frame w w' /\ exists ins, w_in w' = w_in w ++ ins /\
    (peer_ok E = true -> exists log, session_log E cfg (cstr (ctx_public_dir ectx)) ins log /\
      w_out w' = w_out w ++ concat log)).
Proof. intros. by apply wp_session. Qed.

Lemma request_loop_serves_witness :
  w_reads demo_os < 3 /\
  wp (sys demo_env) False (loop 3 (session_round 3 demo_config demo_context) demo_request) demo_os
    (fun _ w' => session_frame demo_os w' /\ exists ins, w_in w' = w_in demo_os ++ ins /\
      (peer_ok demo_env = true -> exists log,
        session_log demo_env demo_config (cstr (ctx_public_dir demo_context)) ins log /\
        w_out w' = w_out demo_os ++ concat log)).
Proof.
  split; [vm_compute; lia|].
  apply (request_loop_serves demo_env 3 demo_config demo_context demo_request demo_os);
    [exact demo_ordinary | by_compute | by_compute | by_compute
    | by_compute | vm_compute; lia].
Defined.

(** ** The server as a whole *)

(** C2: the main thread, which opens the listening socket and goes on to its
    accept loop, any number of workers, and the announcement of the shutdown at
    any time or never, side by side, in any order of their steps, over one cache and one
    queue, from the moment the workers are there: no thread does anything
    undefined or outside of the contract of a call, nothing has two owners, the
    cache stays well formed and true to the disk, connections are taken first
    in, first out, each by one thread, and between two connections a worker
    owns nothing and has answered each connection it has taken. *)
Theorem serving_safe E cfg pool_dir dir0 req0 ctx fuel ctx0 ops s :
  Ordinary E -> Shared E ->
  strlen pool_dir < 256 -> length dir0 = 256 -> length (path req0) = MAX_PATH_SIZE ->
  at_work E cfg pool_dir dir0 req0 ctx fuel ctx0 ops s -> well_served E cfg pool_dir ctx fuel ops s.
Proof. intros. by apply (at_work_well_served E cfg pool_dir dir0 req0 ctx fuel ctx0). Qed.

Lemma serving_safe_witness :
  two_clients_and_stop_ops = [Idle; Push 6%Z; Push 9%Z; Pop 6%Z; Pop 9%Z; Idle; Stop; Idle; Idle] /\
  well_served demo_shared demo_config (lit "public") demo_contexts 3 two_clients_and_stop_ops (demo_after true two_clients_and_stop).
Proof.
  split; [reflexivity|].
  apply (serving_safe demo_shared demo_config (lit "public") dir_zero demo_request demo_contexts 3 (Some 9)
    two_clients_and_stop_ops (demo_after true two_clients_and_stop));
    [exact demo_shared_ordinary | exact demo_shared_shared | by_compute | by_compute | by_compute
    | exact (demo_at_work _ _ _ stop_run_ops)].
Defined.


(** The second worker asks for the mutex while the first has it. *)
Definition demo_waiting : thread :=
  worker demo_config (lit "public") dir_zero demo_request demo_contexts 3 1 demo_worker_os.




(** C5: a worker that has ended its round, or waits for work, has sent to each
    of its visitors, in order, the pages that were asked for over TLS, each with
    what its file holds, and to those that came in clear text the redirect; and
    each connection it has taken, but for the last one when it has seen the
    shutdown, was one of these visits. *)
Theorem visitors_answered E cfg pool_dir dir0 req0 ctx fuel ctx0 ops s i t vs :
  Ordinary E -> Shared E -> ample E = true -> peer_ok E = true ->
  strlen pool_dir < 256 -> length dir0 = 256 -> length (path req0) = MAX_PATH_SIZE ->
  at_work E cfg pool_dir dir0 req0 ctx fuel ctx0 ops s -> threads s !! S (S i) = Some t ->
  (exists x, code t = Ret x) \/ is_Some (asleep t) ->
  Forall (visit_ok E (cstr pool_dir)) vs -> w_in (local t) = concat (visit_reads <$> vs) ->
  w_out (local t) = concat (visit_pages E (cstr pool_dir) <$> vs) /\
  w_sent (local t) = concat (visit_redirect <$> vs) /\
  (length (took t) = length vs \/ (code t = Ret (inr tt) /\ length (took t) = S (length vs))).
Proof. intros. by apply (at_work_visits E cfg pool_dir dir0 req0 ctx fuel ctx0) with ops s i. Qed.

(** The second worker of the demonstration has served one visitor. *)
Definition demo_visited : thread := default demo_waiting (threads (demo_after true two_clients) !! 3).

Lemma demo_visited_there : threads (demo_after true two_clients) !! 3 = Some demo_visited.
Proof.
  unfold demo_visited. assert (is_Some (threads (demo_after true two_clients) !! 3)) as [t ->]; [|done].
  apply lookup_lt_is_Some_2. assert (length (threads (demo_after true two_clients)) = 4) as -> by by vm_compute. lia.
Qed.

Lemma visitors_answered_witness :
  w_in (local demo_visited) = concat (visit_reads <$> [Browse [get_page] false]) /\
  w_out (local demo_visited) = concat (visit_pages demo_shared (lit "public") <$> [Browse [get_page] false]) /\
  w_sent (local demo_visited) = concat (visit_redirect <$> [Browse [get_page] false]) /\
  (length (took demo_visited) = 1 \/ (code demo_visited = Ret (inr tt) /\ length (took demo_visited) = 2)).
Proof.
  assert (w_in (local demo_visited) = concat (visit_reads <$> [Browse [get_page] false])) as Hin by by vm_compute.
  split; [exact Hin|].
  apply (visitors_answered demo_shared demo_config (lit "public") dir_zero demo_request demo_contexts 3 (Some 9)
    two_clients_ops (demo_after true two_clients) 1 demo_visited [Browse [get_page] false]);
    [exact demo_shared_ordinary | exact demo_shared_shared | by_compute | by_compute | by_compute | by_compute
    | by_compute | exact (demo_at_work _ _ _ two_clients_run_ops) | exact demo_visited_there | left | | exact Hin].
  - exists (inl 1%Z). by vm_compute.
  - constructor; [|constructor]. split; [done|]. split; [|by_compute].
    constructor; [|constructor]. apply page_asked; by_compute.
Defined.

(** C6: what the start command sets up is what the properties above start
    from. Whatever the arguments and the configuration file are, it comes to an
    end. Either the process ends: as the parent of the daemon, or with an error,
    and then nothing has changed but attributes of the process and, when
    [lith_ssl_init] has failed after it made a context, that context. Or the
    certificate and the key of the configuration are in the TLS context, the
    queue was made, and the workers are there; from then on, whatever they and
    the main thread do, in whatever order, whether a shutdown comes or not,
    whichever TLS contexts they find, the server is at work on that queue and
    serves well, for the directory that was configured. *)
Theorem start_serves E fuel args (w : os) :
  Ordinary E -> Shared E -> (0 <= max_file E)%Z -> Z.to_nat (max_file E) < fuel ->
  newborn w ->
  wp (sys E) False (start_up fuel args) w (serves E w).
Proof. intros. by apply wp_start_serves. Qed.

Lemma start_serves_witness :
  newborn newborn_os /\
  wp (sys demo_shared) False (start_up (S (Z.to_nat (max_file demo_shared))) [lit "8080"]) newborn_os
    (serves demo_shared newborn_os).
Proof.
  split; [exact newborn_demo|].
  apply (start_serves demo_shared (S (Z.to_nat (max_file demo_shared))) [lit "8080"] newborn_os);
    [exact demo_shared_ordinary | exact demo_shared_shared | by_compute | apply Nat.lt_succ_diag_r
    | exact newborn_demo].
Defined.

(** ** Responses *)

(** C7: a routed request gets the response its method and path ask for: a
    refusal, the cached resource, brought up to date, the file, a 404 page, or
    the POST receipt; no lock, block, stream or session is kept. *)
Theorem route_serves E cfg ectx req buf n (w : os) :
  Ordinary E ->
  w_lock w = Unlocked -> ssl_session ectx ∈ w_ssl w ->
  strlen (ctx_public_dir ectx) < 256 -> strlen (path req) < 256 ->
  (LONG_MIN <= content_length req <= LONG_MAX)%Z ->
  wp (sys E) False (handle_http_route cfg ectx req buf n) w (fun _ w' =>
    frame w w' /\
    (peer_ok E = true -> exists resp, w_out w' = w_out w ++ resp /\
      route_response E cfg (ctx_public_dir ectx) req w w' resp)).
Proof. intros. by apply wp_handle_http_route. Qed.

Lemma route_serves_witness :
  w_lock demo_os = Unlocked /\
  wp (sys demo_env) False (handle_http_route demo_config demo_context demo_request [] 0) demo_os
    (fun _ w' => frame demo_os w' /\
      (peer_ok demo_env = true -> exists resp, w_out w' = w_out demo_os ++ resp /\
        route_response demo_env demo_config (ctx_public_dir demo_context) demo_request demo_os w' resp)).
Proof.
  split; [reflexivity|].
  apply (route_serves demo_env demo_config demo_context demo_request [] 0 demo_os);
    [exact demo_ordinary | by_compute | by_compute | by_compute
    | by_compute | vm_compute; split; discriminate].
Defined.



(** C9: a cache hit sends the resource as the cache holds it when the response
    is written, under the type it was added with; its data is what the file
    holds, whatever other threads do to the cache between the two locks, when
    the disk is quiet, memory does not run out, the file is not empty, and its
    name is shorter than 255 characters. *)
Theorem hit_is_fresh E ssl req fp c i e (w : os) :
  env_wf E -> regular E = true -> (max_file E <= INT_MAX)%Z ->
  w_lock w = Unlocked -> ssl ∈ w_ssl w -> cache_ok E c ->
  entries c !! i = Some e -> i < entry_count c -> cstr (filepath e) = cstr fp ->
  wp (sys E) False (serve_cached ssl req fp c i)
    (set_w_lock (ReadLocked c) (set_w_seen (Some c) w))
    (fun _ w' => frame w w' /\ exists c' e', w_seen w' = Some c' /\
      cache_ok E c' /\ entries c' !! i = Some e' /\ i < entry_count c' /\ same_key e e' /\
      (peer_ok E = true ->
        w_out w' = w_out w ++ ok_response (r_data (entry_resource e')) (cstr (mime_type e))
                                (keep_alive req)) /\
      current E (cstr fp) (r_data (entry_resource e'))).
Proof. intros. by eapply wp_serve_cached. Qed.

Lemma hit_is_fresh_witness :
  entries demo_cache !! 0 = Some demo_entry /\
  wp (sys demo_env) False (serve_cached 4 demo_request (lit "public/index.html") demo_cache 0)
    (set_w_lock (ReadLocked demo_cache) (set_w_seen (Some demo_cache) demo_os))
    (fun _ w' => frame demo_os w' /\ exists c' e', w_seen w' = Some c' /\
      cache_ok demo_env c' /\ entries c' !! 0 = Some e' /\ 0 < entry_count c' /\
      same_key demo_entry e' /\
      (peer_ok demo_env = true ->
        w_out w' = w_out demo_os ++ ok_response (r_data (entry_resource e')) (cstr (mime_type demo_entry)) true) /\
      current demo_env (cstr (lit "public/index.html")) (r_data (entry_resource e'))).
Proof.
  split; [reflexivity|].
  apply (hit_is_fresh demo_env 4 demo_request (lit "public/index.html") demo_cache 0 demo_entry demo_os);
    [exact demo_env_wf | by_compute | by_compute | by_compute | by_compute | by apply demo_cache_ok
    | reflexivity | vm_compute; lia | by_compute].
Defined.

(** C10: a client whose requests, each in one piece, are for pages that are
    there gets, request by request and in order, what the files hold, under the
    types that go with their names, cache or not, whatever other threads do to
    the cache; the server reads on after every request but one that asks for
    the end. The files are not empty, and their names not so long that the cache
    would cut them off. *)
Theorem pages_answered E fuel cfg ectx req (w : os) :
  Ordinary E -> ample E = true -> peer_ok E = true ->
  w_lock w = Unlocked -> ssl_session ectx ∈ w_ssl w -> strlen (ctx_public_dir ectx) < 256 ->
  length (path req) = MAX_PATH_SIZE -> w_reads w < fuel ->
  wp (sys E) False (loop fuel (session_round fuel cfg ectx) req) w (fun _ w' =>
    forall qs bye, Forall (asks_page E (cstr (ctx_public_dir ectx))) qs -> bye = [] \/ bye = [[]] ->
    w_in w' = w_in w ++ qs ++ bye ->
    w_out w' = w_out w ++ concat (page_for E (cstr (ctx_public_dir ectx)) <$> qs) /\
    keep_alive ∘ request_of <$> qs = match bye with [] => replicate (length qs - 1) true ++ [false]
                                                  | _ => replicate (length qs) true end).
Proof.
  intros HO Ha Hpe Hl Hs Hd Hp Hf. eapply (wp_mono (sys E)); [by apply wp_session|].
  intros u w' (_ & ins & Hin & Hlog) qs bye Hqs Hbye Hin'. rewrite Hin in Hin'.
  apply app_inv_head in Hin' as ->. destruct (Hlog Hpe) as (log & Hlg & ->).
  destruct (session_log_pages _ _ _ _ _ _ Ha Hqs Hbye Hlg) as [-> Hcl]. by split.
Qed.

Lemma pages_answered_witness :
  Forall (asks_page demo_env (lit "public")) [get_index; get_page] /\
  wp (sys demo_env) False (loop 3 (session_round 3 demo_config demo_context) demo_request) demo_os (fun _ w' =>
    forall qs bye, Forall (asks_page demo_env (cstr (ctx_public_dir demo_context))) qs -> bye = [] \/ bye = [[]] ->
    w_in w' = w_in demo_os ++ qs ++ bye ->
    w_out w' = w_out demo_os ++ concat (page_for demo_env (cstr (ctx_public_dir demo_context)) <$> qs) /\
    keep_alive ∘ request_of <$> qs = match bye with [] => replicate (length qs - 1) true ++ [false]
                                                  | _ => replicate (length qs) true end).
Proof.
  split; [repeat constructor; apply page_asked; by_compute|].
  apply (pages_answered demo_env 3 demo_config demo_context demo_request demo_os);
    [exact demo_ordinary | by_compute | by_compute | by_compute | by_compute | by_compute | by_compute
    | vm_compute; lia].
Defined.

(** C11: the cache changes nothing but the speed: whatever the cache holds and
    whatever other threads do to it, the response is the one that request and
    disk alone determine, under these conditions: memory does not run out, the
    client stays connected, no other thread makes an error page at the same time;
    and when the cache is on and the request is for a file, the file is there, is
    not empty, and its name is shorter than 255 characters. (A file that is gone
    is still served from the cache.) *)
Theorem route_as_uncached E cfg ectx req buf n (w : os) :
  Ordinary E -> ample E = true -> solo E = true -> peer_ok E = true ->
  w_lock w = Unlocked -> ssl_session ectx ∈ w_ssl w ->
  strlen (ctx_public_dir ectx) < 256 -> strlen (path req) < 256 ->
  (LONG_MIN <= content_length req <= LONG_MAX)%Z ->
  (use_cache cfg = 1%Z -> method req = METHOD_GET -> is_safe_path (Some (path req)) = true ->
   page_there E (cstr (ctx_public_dir ectx) ++ target (path req))) ->
  wp (sys E) False (handle_http_route cfg ectx req buf n) w (fun _ w' =>
    w_out w' = w_out w ++ plain_response E (cstr (ctx_public_dir ectx)) req).
Proof. intros. by apply wp_route_plain. Qed.

Lemma route_as_uncached_witness :
  (use_cache demo_config = 1%Z /\ page_there demo_env (lit "public/index.html")) /\
  wp (sys demo_env) False (handle_http_route demo_config demo_context demo_request [] 0) demo_os (fun _ w' =>
    w_out w' = w_out demo_os ++ plain_response demo_env (cstr (ctx_public_dir demo_context)) demo_request).
Proof.
  assert (page_there demo_env (lit "public/index.html")) as Hp
    by (exists demo_file; split; [by_compute | split; [by_compute | vm_compute; lia]]).
  split; [split; [reflexivity | exact Hp]|].
  apply (route_as_uncached demo_env demo_config demo_context demo_request [] 0 demo_os);
    [exact demo_ordinary | by_compute | by_compute | by_compute | by_compute | by_compute | by_compute | by_compute
    | vm_compute; split; discriminate | intros _ _ _; exact Hp].
Defined.

(** ** Requests *)

(** C12: on any buffer the parser returns, writes inside of its path array
    only, and leaves a request that depends on the buffer alone, not on the
    request parsed before into the same structure. *)
Theorem parser_total buf r :
  length (path r) = MAX_PATH_SIZE ->
  parse_http_request (Some buf) (Some r) = Some (prod_map id Some (parsed buf)) /\
  length (path (parsed buf).2) = MAX_PATH_SIZE /\ strlen (path (parsed buf).2) < MAX_PATH_SIZE /\
  (LONG_MIN <= content_length (parsed buf).2 <= LONG_MAX)%Z.
Proof. intros Hr. split; [by apply parse_http_request_eq | apply parsed_fits]. Qed.

Lemma parser_total_witness :
  length (path demo_request) = MAX_PATH_SIZE /\
  parse_http_request (Some (lit "GET /a HTTP/1.1\r\n\r\n")) (Some demo_request) =
    Some (prod_map id Some (parsed (lit "GET /a HTTP/1.1\r\n\r\n"))).
Proof.
  split; [by_compute|]. apply (parser_total (lit "GET /a HTTP/1.1\r\n\r\n") demo_request). by_compute.
Defined.

(** C13: a request that a client renders is read back: method, path, length,
    connection, and the place where the body starts. *)
Theorem request_round_trip c r :
  client_ok c -> length (path r) = MAX_PATH_SIZE ->
  parse_http_request (Some (render_request c)) (Some r) = Some (0%Z, Some (meant c)).
Proof. intros Hc Hr. rewrite parse_http_request_eq by done. by rewrite parsed_render. Qed.

Definition demo_client : client_request :=
  mkClient METHOD_POST (lit "/form") [lit "Host: lith.example"] 12 true (lit "name=content").

Lemma request_round_trip_witness :
  client_ok demo_client /\
  parse_http_request (Some (render_request demo_client)) (Some demo_request) = Some (0%Z, Some (meant demo_client)).
Proof.
  assert (client_ok demo_client) as Hc by (split; by_compute || (vm_compute; split; discriminate)).
  split; [exact Hc|]. apply (request_round_trip demo_client demo_request Hc). by_compute.
Defined.

(** C14: the type of a file is looked up by its last extension, in the table
    of types; a file without extension, or with another one, is a byte stream. *)
Theorem mime_type_by_extension p :
  (forall base e, cstr p = base ++ "."%char :: e -> ("."%char ∉ e) ->
     get_mime_type (Some p) = mime_of_ext ("."%char :: e)) /\
  (("."%char ∉ cstr p) -> get_mime_type (Some p) = octet_stream) /\
  no_nul (get_mime_type (Some p)) /\ length (get_mime_type (Some p)) <= 24.
Proof.
  split_and!; [intros; by eapply get_mime_type_by_ext | apply get_mime_type_no_ext |..];
    apply get_mime_type_fits.
Qed.

Lemma mime_type_by_extension_witness :
  get_mime_type (Some (lit "public/index.html")) = lit "text/html".
Proof.
  destruct (mime_type_by_extension (lit "public/index.html")) as [H _].
  rewrite (H (lit "public/index") (lit "html") eq_refl) by by_compute. by_compute.
Defined.

(** C15: an error page is complete: whatever the [int] code is, when twice the
    length of the title and the length of the message are at most 900 together,
    the page fits the static buffer, terminator included. *)
Theorem error_page_fits status_code title message :
  is_int status_code -> 2 * strlen title + strlen message <= 900 ->
  exists page, error_page status_code title message = Some page /\
    get_error_html status_code title message = Some page /\ no_nul page /\ length page < 2048.
Proof. apply error_page_complete. Qed.

Lemma error_page_fits_witness :
  is_int 404 /\ exists page, error_page 404 (lit "Not Found") (lit "No such file.") = Some page /\
    get_error_html 404 (lit "Not Found") (lit "No such file.") = Some page /\ no_nul page /\ length page < 2048.
Proof.
  split; [vm_compute; split; [discriminate | reflexivity]|].
  apply (error_page_fits 404 (lit "Not Found") (lit "No such file."));
    [vm_compute; split; [discriminate | reflexivity] | vm_compute; lia].
Defined.

(** ** The cache *)

(** C16: adding a file under the type of its name keeps the cache well formed, appends one resource with
    the file's content or reports why not, and gives back the lock, the stream
    and, on every error path, the block. *)
Theorem cache_add_contract E fp mime (w : os) :
  env_wf E -> (max_file E < LONG_MAX)%Z -> w_lock w = Unlocked -> cstr mime = get_mime_type (Some fp) ->
  wp (sys E) False (lith_cache_add fp mime) w (add_post E fp mime w).
Proof. intros. by apply wp_lith_cache_add. Qed.

Lemma cache_add_contract_witness :
  w_lock demo_os = Unlocked /\
  wp (sys demo_env) False (lith_cache_add (lit "public/index.html") (lit "text/html")) demo_os
    (add_post demo_env (lit "public/index.html") (lit "text/html") demo_os).
Proof.
  split; [reflexivity|].
  apply (cache_add_contract demo_env (lit "public/index.html") (lit "text/html") demo_os);
    [exact demo_env_wf | by_compute | reflexivity | by_compute].
Defined.

(** C17: a lookup finds the first resource with that path and keeps the read
    lock on the cache it found it in, or gives the lock back. *)
Theorem cache_lookup_contract E fp (w : os) :
  w_lock w = Unlocked -> wp (sys E) False (lith_cache_lookup fp) w (lookup_post E fp w).
Proof. apply wp_lith_cache_lookup. Qed.

Lemma cache_lookup_contract_witness :
  w_lock demo_os = Unlocked /\
  wp (sys demo_env) False (lith_cache_lookup (lit "public/index.html")) demo_os
    (lookup_post demo_env (lit "public/index.html") demo_os).
Proof. split; [reflexivity|]. apply (cache_lookup_contract demo_env _ demo_os). reflexivity. Defined.

(** C18: a reload replaces the content of an entry by the file's, frees the
    old block and owns the new one; when it fails the entry is as before. *)
Theorem cache_reload_contract E e b (w : os) :
  env_wf E -> (max_file E < LONG_MAX)%Z ->
  entry_wf (max_file E) e -> content e = Some b -> addr b ∈ w_heap w ->
  wp (sys E) False (lith_cache_hot_reload e) w (reload_post E e b w).
Proof. intros. by apply wp_lith_cache_hot_reload. Qed.

Lemma cache_reload_contract_witness :
  content demo_entry = Some (mkBlock 30 (lit "old")) /\
  wp (sys demo_env) False (lith_cache_hot_reload demo_entry) (set_w_heap {[30]} demo_os)
    (reload_post demo_env demo_entry (mkBlock 30 (lit "old")) (set_w_heap {[30]} demo_os)).
Proof.
  split; [reflexivity|].
  apply (cache_reload_contract demo_env demo_entry (mkBlock 30 (lit "old")));
    [exact demo_env_wf | by_compute | | reflexivity | by_compute].
  apply (ci_used _ _ (demo_cache_ok demo_env eq_refl eq_refl) 0); [reflexivity | vm_compute; lia].
Defined.

(** C19: POSIX leaves the destruction undefined: the write lock that was taken
    to free the blocks is still held when the lock is destroyed. *)
Theorem cache_destroy_undefined E c (w : os) :
  w_lock w = Unlocked -> cache_visible E w c -> owned c ## w_heap w -> lenient E = false ->
  ~ wp (sys E) False lith_cache_destroy w (fun _ _ => True).
Proof. intros. by eapply lith_cache_destroy_held. Qed.

Definition strict_env : env :=
  mkEnv demo_disk true true true true true true false true 2000000.

Lemma cache_destroy_undefined_witness :
  lenient strict_env = false /\
  ~ wp (sys strict_env) False lith_cache_destroy demo_os (fun _ _ => True).
Proof.
  split; [reflexivity|]. apply (cache_destroy_undefined strict_env demo_cache demo_os).
  - reflexivity.
  - split; [by apply demo_cache_ok | exact I].
  - by_compute.
  - reflexivity.
Defined.

(** ** The work queue *)

Definition queue_of_none : PoolQueue := mkPoolQueue None None 0 false ∅.

(** C20: a push links the socket behind the others in one critical section, or
    closes it; whichever it is, the caller no longer owns it, and nothing is
    leaked or overflows. *)
Theorem push_contract E s (w : os) :
  may_lock w -> s ∈ w_socks w -> (0 <= s < INT_MAX)%Z ->
  wp (sys E) False (thread_pool_push s) w (fun _ w' => push_post E s w w').
Proof. apply wp_thread_pool_push. Qed.

Lemma push_contract_witness :
  w_pool demo_os = None /\
  wp (sys demo_env) False (thread_pool_push 7) demo_os (fun _ w' => push_post demo_env 7 demo_os w').
Proof.
  split; [reflexivity|]. apply (push_contract demo_env 7 demo_os);
    [by split | by_compute | vm_compute; split; [discriminate | reflexivity]].
Defined.

(** C21: a pop returns as soon as the queue holds a socket or is shut down: it
    takes the oldest socket over, in one critical section, and frees its node;
    on shutdown it takes nothing. *)
Theorem pop_contract E fuel (w : os) :
  may_lock w -> w_wakes w + 1 < fuel ->
  wp (sys E) False (thread_pool_pop fuel) w (pop_post w).
Proof. apply wp_thread_pool_pop. Qed.

Lemma pop_contract_witness :
  w_wakes demo_os + 1 < 2 /\ wp (sys demo_env) False (thread_pool_pop 2) demo_os (pop_post demo_os).
Proof. split; [vm_compute; lia|]. apply (pop_contract demo_env 2 demo_os); [by split | vm_compute; lia]. Defined.

(** C22: the pool starts with an empty queue whose flag is down, a well-formed
    cache, and at most as many workers as asked for. When no other thread writes
    to the cache, memory does not run out, nobody else writes to the disk, and no
    file is empty, the cache holds index.html and style.css of the directory,
    those of them that are there and are not larger than MAX_CACHE_FILE_SIZE. *)
Theorem pool_start_contract E dir0 c0 n pd (w : os) :
  env_wf E -> (max_file E < LONG_MAX)%Z ->
  length dir0 = 256 -> cache_storage c0 -> w_pool w = None -> strlen pd < 256 ->
  wp (sys E) False (thread_pool_init dir0 c0 n pd) w (fun dir w' =>
    length dir = 256 /\ cstr dir = cstr pd /\
    exists c k cr, k <= Z.to_nat n /\ cache_ok E c /\
      w' = set_w_threads (k + w_threads w)
             (set_w_lock Unlocked (set_w_seen (Some c) (set_w_crit cr (note [PoolMade empty_queue] w)))) /\
      (alone E = true -> ample E = true -> quiet E = true ->
       (forall p f, disk E p = Some f -> contents f <> []) ->
       cache_resources c =
         preload E (index_file pd) (lit "text/html") ++ preload E (style_file pd) (lit "text/css"))).
Proof. intros. by apply wp_thread_pool_init. Qed.

Lemma pool_start_contract_witness :
  cache_storage cache_zero /\
  wp (sys demo_env) False (thread_pool_init dir_zero cache_zero 8 (lit "public")) demo_os (fun dir w' =>
    length dir = 256 /\ cstr dir = cstr (lit "public") /\
    exists c k cr, k <= Z.to_nat 8 /\ cache_ok demo_env c /\
      w' = set_w_threads (k + w_threads demo_os)
             (set_w_lock Unlocked (set_w_seen (Some c) (set_w_crit cr (note [PoolMade empty_queue] demo_os)))) /\
      (alone demo_env = true -> ample demo_env = true -> quiet demo_env = true ->
       (forall p f, disk demo_env p = Some f -> contents f <> []) ->
       cache_resources c = preload demo_env (index_file (lit "public")) (lit "text/html") ++
                           preload demo_env (style_file (lit "public")) (lit "text/css"))).
Proof.
  assert (cache_storage cache_zero) as Hs by (split; by_compute).
  split; [exact Hs|].
  apply (pool_start_contract demo_env dir_zero cache_zero 8 (lit "public") demo_os);
    [exact demo_env_wf | by_compute | by_compute | exact Hs | reflexivity | by_compute].
Defined.

(** C23: run on a thread that holds the queue's mutex, as the signal handler
    may be, the shutdown takes that mutex a second time. *)
Theorem pool_shutdown_reentrant E q (w : os) :
  w_pool w = Some q -> ~ wp (sys E) False thread_pool_shutdown w (fun _ _ => True).
Proof. apply thread_pool_shutdown_reentrant. Qed.

Lemma pool_shutdown_reentrant_witness :
  w_pool (set_w_pool (Some queue_of_none) demo_os) = Some queue_of_none /\
  ~ wp (sys demo_env) False thread_pool_shutdown (set_w_pool (Some queue_of_none) demo_os) (fun _ _ => True).
Proof. split; [reflexivity|]. apply (pool_shutdown_reentrant demo_env queue_of_none). reflexivity. Defined.

(** C24: whenever the server is at work, nobody holds the mutex, and a worker
    waits for a connection, a signal handler that runs [thread_pool_shutdown] on
    another thread that holds no lock comes, by its own steps alone, to
    [pthread_mutex_destroy] and [pthread_cond_destroy] while that worker is still
    inside of [pthread_cond_wait], which will use both: POSIX leaves that
    undefined. *)
Theorem pool_shutdown_in_use E cfg pool_dir dir0 req0 ctx fuel ctx0 ops s i t j tj :
  Ordinary E -> Shared E ->
  strlen pool_dir < 256 -> length dir0 = 256 -> length (path req0) = MAX_PATH_SIZE ->
  at_work E cfg pool_dir dir0 req0 ctx fuel ctx0 ops s -> holder s = None ->
  threads s !! i = Some t -> asleep t = None -> may_lock (local t) ->
  threads s !! j = Some tj -> is_Some (asleep tj) ->
  exists s' t', rtc (step E fuel i) (interrupted i t thread_pool_shutdown s) s' /\
    threads s' !! i = Some t' /\
    code t' = bind (fun _ => code t) (sys_call SMutexDestroy ;;; sys_call SCondDestroy ;;; lith_cache_destroy) /\
    threads s' !! j = Some tj.
Proof. intros. by apply (shutdown_in_use E cfg pool_dir dir0 req0 ctx fuel ctx0) with ops. Qed.

(** Both workers wait; the main thread is between two connections. *)
Definition demo_still : system := demo_after false two_clients_and_wait.
Definition demo_main : thread := default demo_waiting (threads demo_still !! 0).
Definition demo_sleeper : thread := default demo_waiting (threads demo_still !! 2).

Lemma demo_still_lookup i t0 : i < 4 -> threads demo_still !! i = Some (default t0 (threads demo_still !! i)).
Proof.
  intros Hi. assert (is_Some (threads demo_still !! i)) as [t ->]; [|done].
  apply lookup_lt_is_Some_2. assert (length (threads demo_still) = 4) as -> by by vm_compute. done.
Qed.

Lemma pool_shutdown_in_use_witness :
  bool_decide (is_Some (asleep demo_sleeper)) = true /\
  exists s' t', rtc (step demo_shared 3 0) (interrupted 0 demo_main thread_pool_shutdown demo_still) s' /\
    threads s' !! 0 = Some t' /\
    code t' = bind (fun _ => code demo_main)
      (sys_call SMutexDestroy ;;; sys_call SCondDestroy ;;; lith_cache_destroy) /\
    threads s' !! 2 = Some demo_sleeper.
Proof.
  assert (bool_decide (is_Some (asleep demo_sleeper)) = true) as Hsl by by vm_compute.
  split; [exact Hsl|].
  apply (pool_shutdown_in_use demo_shared demo_config (lit "public") dir_zero demo_request demo_contexts 3 (Some 9)
    two_clients_and_wait_ops demo_still 0 demo_main 2 demo_sleeper);
    [exact demo_shared_ordinary | exact demo_shared_shared | by_compute | by_compute | by_compute
    | exact (demo_at_work _ _ _ wait_run_ops) | by vm_compute | apply demo_still_lookup; lia | by vm_compute
    | apply may_lock_unlocked; by vm_compute | apply demo_still_lookup; lia | by apply bool_decide_eq_true in Hsl].
Defined.

(** ** Connections *)

(** C25: a connection is served completely, as TLS or with a redirect
    according to its first byte: the loops end, what is written and sent
    answers what is read, the socket is closed, the TLS session freed, and
    everything else given back. *)
Theorem connection_contract E cfg pool_dir dir0 req0 fuel ctx s (w : os) :
  Ordinary E ->
  strlen pool_dir < 256 -> length dir0 = 256 -> length (path req0) = MAX_PATH_SIZE ->
  w_lock w = Unlocked -> s ∈ w_socks w -> w_reads w < fuel ->
  match ctx with Some c => c ∈ w_ctx w | None => True end ->
  wp (sys E) False (serve_connection fuel cfg pool_dir dir0 req0 ctx s) w
    (fun _ w' => connection_post E cfg pool_dir s w w').
Proof. intros. by apply wp_serve_connection. Qed.

Lemma connection_contract_witness :
  7%Z ∈ w_socks demo_os /\
  wp (sys demo_env) False
    (serve_connection 3 demo_config (lit "public") dir_zero demo_request (Some 9) 7) demo_os
    (fun _ w' => connection_post demo_env demo_config (lit "public") 7 demo_os w').
Proof.
  split; [by_compute|].
  apply (connection_contract demo_env demo_config (lit "public") dir_zero demo_request 3 (Some 9) 7 demo_os);
    [exact demo_ordinary | by_compute | by_compute | by_compute
    | by_compute | by_compute | vm_compute; lia | by_compute].
Defined.

(** C26: the reads of a POST body end when the announced length has come, the
    buffer is full, or the client stops; what came stands in the receive
    buffer, piece behind piece, with the terminator inside, whatever length was
    announced. *)
Theorem body_reading_bounded E fuel ssl req d (w : os) :
  ssl ∈ w_ssl w -> length d < BUFFER_SIZE -> w_reads w < fuel ->
  wp (sys E) False (recv_body fuel ssl req (recv_buffer d) (length d)) w (fun b w' =>
    exists ds k, rest_reads req (length d) ds = true /\ length (d ++ concat ds) < BUFFER_SIZE /\
      b = (recv_buffer (d ++ concat ds), length (d ++ concat ds)) /\
      k <= w_reads w /\ w' = set_w_in (w_in w ++ ds) (set_w_reads k w)).
Proof. apply wp_recv_body. Qed.

Lemma body_reading_bounded_witness :
  rest_reads (meant demo_client) 82 [lit "name="; lit "content"] = true /\
  wp (sys demo_env) False (recv_body 3 4 (meant demo_client) (recv_buffer (lit "POST")) (length (lit "POST")))
    demo_os (fun b w' =>
      exists ds k, rest_reads (meant demo_client) (length (lit "POST")) ds = true /\
        length (lit "POST" ++ concat ds) < BUFFER_SIZE /\
        b = (recv_buffer (lit "POST" ++ concat ds), length (lit "POST" ++ concat ds)) /\
        k <= w_reads demo_os /\ w' = set_w_in (w_in demo_os ++ ds) (set_w_reads k demo_os)).
Proof.
  split; [by_compute|].
  apply (body_reading_bounded demo_env 3 4 (meant demo_client) (lit "POST") demo_os);
    [by_compute | by_compute | vm_compute; lia].
Defined.

(** C27: the redirect is complete for any bytes peeked at: the copies stay in
    their arrays and the response in its own, without truncation. *)
Theorem redirect_complete d :
  redirect_response d = Some (redirect_to (asked d).1 (asked d).2) /\
  no_nul (redirect_to (asked d).1 (asked d).2) /\
  length (redirect_to (asked d).1 (asked d).2) < 1024.
Proof. apply redirect_response_spec. Qed.

(** C28: a client that names a host and a path in clear text is sent to the
    same host and path. *)
Theorem redirect_to_asked m t h ls1 ls2 body :
  Forall (fun x => ends_token x = false) t -> length t < 256 -> (":"%char ∉ t) ->
  clean h -> length h < 256 ->
  Forall line_ok (ls1 ++ (lit "Host: " ++ h) :: ls2) -> Forall (free (lit "Host: ")) ls1 ->
  length (host_request m t h ls1 ls2 body) <= 1023 ->
  redirect_response (host_request m t h ls1 ls2 body) = Some (redirect_to h t).
Proof. intros. by apply redirect_named. Qed.

Lemma redirect_to_asked_witness :
  length (host_request METHOD_GET (lit "/a") (lit "lith.example") [] [] []) <= 1023 /\
  redirect_response (host_request METHOD_GET (lit "/a") (lit "lith.example") [] [] []) =
    Some (redirect_to (lit "lith.example") (lit "/a")).
Proof.
  split; [by_compute|].
  apply (redirect_to_asked METHOD_GET (lit "/a") (lit "lith.example") [] [] []); by_compute.
Defined.

(** C29: a path that passes the filter and starts with a slash names, below
    the served directory, a file of that directory. *)
Theorem safe_paths_stay_below root p base dir :
  is_safe_path (Some p) = true -> cstr p = "/"%char :: base ->
  below (resolve dir root) (resolve dir (root ++ cstr p)).
Proof. apply safe_path_below. Qed.

Lemma safe_paths_stay_below_witness :
  is_safe_path (Some (lit "/css/style.css")) = true /\
  below (resolve [lit "srv"] (lit "public")) (resolve [lit "srv"] (lit "public" ++ cstr (lit "/css/style.css"))).
Proof.
  split; [by_compute|].
  apply (safe_paths_stay_below (lit "public") (lit "/css/style.css") (lit "css/style.css")); by_compute.
Defined.

(** C30: a file is read whole, with a terminator, into a block of its own; the
    stream is closed on every path. *)
Theorem read_file_contract E fn s0 (w : os) :
  regular E = true -> (max_file E < LONG_MAX)%Z ->
  wp (sys E) False (read_file fn s0) w (read_file_post E fn w).
Proof. intros. by apply wp_read_file. Qed.

Lemma read_file_contract_witness :
  regular demo_env = true /\
  wp (sys demo_env) False (read_file (lit "public/index.html") 0) demo_os
    (read_file_post demo_env (lit "public/index.html") demo_os).
Proof.
  split; [reflexivity|]. apply (read_file_contract demo_env _ 0 demo_os); by_compute.
Defined.

(** ** The program *)

(** C31: loading a configuration file ends, closes the file, leaves the three
    path arrays terminated, and sets what the lines of the file say, or the
    defaults when there is no file. *)
Theorem config_loaded E fuel fn c (w : os) :
  (0 <= max_file E)%Z -> config_wf c -> Z.to_nat (max_file E) < fuel ->
  wp (sys E) False (load_config fuel fn c) w (fun r w' =>
    w' = w /\ config_wf r.2 /\ (quiet E = true -> loaded E fn c r)).
Proof. intros. by apply wp_load_config. Qed.

Definition small_env : env := mkEnv (fun _ => None) true true true true true true true true 0.

Lemma config_loaded_witness :
  config_wf config_zero /\
  wp (sys small_env) False (load_config 1 (lit "lith.conf") config_zero) demo_os (fun r w' =>
    w' = demo_os /\ config_wf r.2 /\ (quiet small_env = true -> loaded small_env (lit "lith.conf") config_zero r)).
Proof.
  split; [exact config_zero_wf|].
  apply (config_loaded small_env 1 (lit "lith.conf") config_zero demo_os);
    [by_compute | exact config_zero_wf | vm_compute; lia].
Defined.

(** C32: whatever is done to a configuration, a line of the file, the defaults,
    the absolute directory of daemon mode or a port from the command line, its
    arrays keep their size and their terminator and its numbers stay [int]s. *)
Theorem config_types c :
  config_wf c ->
  (forall s, exists c', config_line (s ++ [NUL]) c = Some c' /\ config_wf c') /\
  (exists c', config_defaults c = Some c' /\ config_wf c') /\
  (forall cwd, exists c', absolute_dir cwd c = Some c' /\ config_wf c') /\
  (forall args, config_wf (set_port (parse_args args).1 c)).
Proof.
  intros Hc. split_and!.
  - intros s. by apply config_line_wf.
  - destruct (config_defaults_spec c Hc) as (c' & ? & ? & _). by exists c'.
  - intros cwd. destruct (absolute_dir_spec cwd c Hc) as (c' & ? & ? & _). by exists c'.
  - intros args. destruct Hc. split; [done..| |done]. apply parse_args_port.
Qed.

Lemma config_types_witness :
  (forall s, exists c', config_line (s ++ [NUL]) demo_config = Some c' /\ config_wf c') /\
  (exists c', config_defaults demo_config = Some c' /\ config_wf c') /\
  (forall cwd, exists c', absolute_dir cwd demo_config = Some c' /\ config_wf c') /\
  (forall args, config_wf (set_port (parse_args args).1 demo_config)).
Proof. apply (config_types demo_config). split; by_compute. Defined.

(** C33: a configuration that was written to the disk as a file is loaded again
    by [load_config], whatever the structure held before, as long as nobody else
    writes to the disk: port and cache setting, directory, certificate and key. *)
Theorem config_file_round_trip E fuel fn f p dir cache cert key c (w : os) :
  (0 <= max_file E)%Z -> Z.to_nat (max_file E) < fuel -> quiet E = true -> config_wf c ->
  (- 2 ^ 31 <= p < 2 ^ 31)%Z -> (- 2 ^ 31 <= cache < 2 ^ 31)%Z ->
  value_ok dir -> value_ok cert -> value_ok key ->
  disk E (cstr fn) = Some f -> contents f = config_file p dir cache cert key ->
  wp (sys E) False (load_config fuel fn c) w (fun r w' =>
    w' = w /\ r.1 = 0%Z /\ port r.2 = p /\ use_cache r.2 = cache /\ cstr (public_dir r.2) = dir /\
    cstr (ssl_cert_path r.2) = cert /\ cstr (ssl_key_path r.2) = key).
Proof. intros. by eapply wp_load_written. Qed.

Definition written_file : file := mkFile (config_file 8090 (lit "public") 1 (lit "a.crt") (lit "a.key")) 1.
Definition written_env : env := mkEnv (fun _ => Some written_file) true true true true true true true true 200.

Lemma config_file_round_trip_witness :
  value_ok (lit "public") /\
  wp (sys written_env) False (load_config 201 (lit "lith.conf") config_zero) demo_os (fun r w' =>
    w' = demo_os /\ r.1 = 0%Z /\ port r.2 = 8090%Z /\ use_cache r.2 = 1%Z /\ cstr (public_dir r.2) = lit "public" /\
    cstr (ssl_cert_path r.2) = lit "a.crt" /\ cstr (ssl_key_path r.2) = lit "a.key").
Proof.
  split; [by_compute|].
  apply (config_file_round_trip written_env 201 (lit "lith.conf") written_file
    8090 (lit "public") 1 (lit "a.crt") (lit "a.key") config_zero demo_os);
    [by_compute | vm_compute; lia | reflexivity | exact config_zero_wf | lia | lia | by_compute | by_compute | by_compute
    | reflexivity | reflexivity].
Defined.

(** C34: the server is initialised with a new socket that is bound to the port of
    the configuration, cut to 16 bits, and listens, and a new TLS context with
    the certificate and the key of the configuration, or the default ones, which
    fit each other; or it fails, with its socket closed, and nothing is left but
    the context, if one was made. *)
Theorem server_init_contract E config ctx0 (w : os) :
  wp (sys E) False (lith_init_server config ctx0) w (init_post E config ctx0 w).
Proof. apply wp_lith_init_server. Qed.


(** C36: a daemon serves the directory it was told to, wherever it was started,
    if the full name fits its array; certificate and key, when their names are
    relative, as the defaults are, are looked for below the root directory. *)
Theorem daemon_paths_kept E cwd c (w : os) :
  config_wf c -> absolute cwd ->
  wp (sys E) False (enter_daemon cwd c) w (fun r w' =>
    match r with
    | inl _ => True
    | inr c' => daemon_paths cwd c c' w'
    end).
Proof. intros. by apply wp_enter_daemon_paths. Qed.

Lemma daemon_paths_kept_witness :
  default config_zero (config_defaults config_zero) <> config_zero /\
  wp (sys demo_env) False (enter_daemon (lit "/srv") (default config_zero (config_defaults config_zero))) demo_os
    (fun r w' => match r with
      | inl _ => True
      | inr c' => daemon_paths (lit "/srv") (default config_zero (config_defaults config_zero)) c' w'
      end).
Proof.
  split; [by_compute|].
  apply (daemon_paths_kept demo_env (lit "/srv") (default config_zero (config_defaults config_zero)) demo_os).
  - split; by_compute.
  - reflexivity.
Defined.




(** C38: the last positive number among the arguments is the port, and the
    daemon flag counts wherever it stands. *)
Theorem arguments_parsed args :
  parse_args args = (default 0%Z (last (port_args args)), existsb is_flag args).
Proof. apply parse_args_spec. Qed.

(** C39: the signal handler, when the thread it interrupts holds no lock. Where
    the library lets locks be destroyed while they are in use, it closes the
    listening socket, frees the cache and the TLS context, and ends the program
    with 0; where it does not, as POSIX has it, the handler leaves the contracts
    of the locks as soon as there are workers. *)
Theorem sigint_contract E fd ctx (w : os) :
  w_pool w = None -> w_lock w = Unlocked -> fd = (-1)%Z \/ fd ∈ w_socks w ->
  match ctx with Some c => c ∈ w_ctx w | None => True end ->
  (lenient E = true ->
   wp (sys E) False (handle_sigint fd ctx) w (fun r w' => r = Exited 0 /\
    w_heap w' = w_heap w /\ w_lock w' = Destroyed /\
    w_socks w' = (if decide (fd = (-1)%Z) then w_socks w else w_socks w ∖ {[fd]}) /\
    w_ctx w' = match ctx with Some c => w_ctx w ∖ {[c]} | None => w_ctx w end)) /\
  (lenient E = false -> 0 < w_threads w -> ~ wp (sys E) False (handle_sigint fd ctx) w (fun _ _ => True)).
Proof.
  intros Hp Hl Hfd Hctx. split; [intros; by apply wp_handle_sigint|].
  intros Hlen Ht. by apply handle_sigint_strict.
Qed.

Lemma sigint_contract_witness :
  wp (sys demo_env) False (handle_sigint 7 (Some 9)) demo_os (fun r w' => r = Exited 0 /\
    w_heap w' = w_heap demo_os /\ w_lock w' = Destroyed /\
    w_socks w' = (if decide (7 = -1)%Z then w_socks demo_os else w_socks demo_os ∖ {[7%Z]}) /\
    w_ctx w' = w_ctx demo_os ∖ {[9]}) /\
  ~ wp (sys strict_env) False (handle_sigint 7 (Some 9)) (set_w_threads 8 demo_os) (fun _ _ => True).
Proof.
  split.
  - apply (sigint_contract demo_env 7 (Some 9) demo_os); [reflexivity | reflexivity | right; by_compute | by_compute | reflexivity].
  - apply (sigint_contract strict_env 7 (Some 9) (set_w_threads 8 demo_os));
      [reflexivity | reflexivity | right; by_compute | by_compute | reflexivity | vm_compute; lia].
Defined.

(** ** Further results *)

(** Initialisation turns any storage into an empty, well-formed cache. *)
Theorem cache_init_contract E c (w : os) :
  cache_storage c ->
  wp (sys E) False (lith_cache_init c) w (fun c' w' =>
    w' = set_w_lock Unlocked (set_w_seen (Some c') w) /\
    cache_ok E c' /\ cache_resources c' = [] /\ owned c' = ∅).
Proof. apply wp_lith_cache_init. Qed.

(** Shutting the pool down raises the flag, keeps what is queued, and
    frees the cache (where the library lets locks in use be destroyed). *)
Theorem pool_shutdown_contract E (w : os) :
  lenient E = true -> w_pool w = None -> w_lock w = Unlocked ->
  wp (sys E) False thread_pool_shutdown w (fun _ w' => exists q c,
    queue_visible w q /\ cache_visible E w c /\ queue_step q Stop (raise_shutdown q) /\
    w' = queue_section q (raise_shutdown q) (set_w_lock Destroyed (set_w_seen (Some c) w))).
Proof. apply wp_thread_pool_shutdown. Qed.

(** Every round of a worker ends, after one connection served or with the
    shutdown seen. *)
Theorem worker_round_ends E cfg pool_dir dir0 req0 fuel ctx (w : os) :
  Ordinary E ->
  strlen pool_dir < 256 -> length dir0 = 256 -> length (path req0) = MAX_PATH_SIZE ->
  worker_ready fuel ctx w ->
  wp (sys E) False (worker_round fuel cfg pool_dir dir0 req0 ctx tt) w (round_post E cfg pool_dir fuel ctx w).
Proof. intros. by apply wp_worker_round. Qed.

(** The name of the file fits its array: the directory and the path, or
    the directory and [/index.html]. *)
Theorem file_path_fits pd path :
  strlen pd < 256 -> strlen path < 256 ->
  exists d, build_file_path pd path = Some d /\ length d = 512 /\ cstr d = cstr pd ++ target path.
Proof. apply build_file_path_spec. Qed.

(** An error response carries the whole page, and is written out with its
    length when no other thread fills the static page buffer meanwhile. *)
Theorem error_response_sent E ssl status_code text desc keep (w : os) :
  ssl ∈ w_ssl w -> is_int status_code -> strlen text <= 100 ->
  2 * strlen text + strlen desc <= 900 ->
  wp (sys E) False (send_http_error ssl status_code text desc keep) w
    (fun _ w' => error_sent E status_code text desc keep w w').
Proof. apply wp_send_http_error. Qed.

(** In any line, key and value are split at the first equals sign and
    trimmed at both ends, inside of the line's buffer; comments, blank lines
    and lines without an equals sign change nothing. *)
Theorem config_line_split a q c :
  no_nul a ->
  config_line (a ++ NUL :: q) c =
  match key_value a with Some (key, value) => assign key value c | None => Some c end.
Proof. apply config_line_spec. Qed.

(** Where the library lets a held lock be destroyed, destruction frees
    every block of the cache exactly once and nothing else. *)
Theorem cache_destroy_contract E (w : os) :
  lenient E = true -> w_lock w = Unlocked ->
  wp (sys E) False lith_cache_destroy w (fun _ w' => exists c,
    cache_visible E w c /\ w' = set_w_lock Destroyed (set_w_seen (Some c) w)).
Proof. apply wp_lith_cache_destroy. Qed.

Lemma cache_destroy_contract_witness :
  lenient demo_env = true /\
  wp (sys demo_env) False lith_cache_destroy demo_os (fun _ w' => exists c,
    cache_visible demo_env demo_os c /\ w' = set_w_lock Destroyed (set_w_seen (Some c) demo_os)).
Proof. split; [reflexivity|]. apply (cache_destroy_contract demo_env demo_os); reflexivity. Defined.

(** The accept loop hands every socket over to the queue, over any number
    of rounds, and keeps the listening one. *)
Theorem accept_loop_contract E rounds fd (w : os) :
  may_lock w -> fd ∈ w_socks w ->
  wp (sys E) True (lith_start_server rounds fd) w (fun _ w' => accepting w w').
Proof. apply wp_lith_start_server. Qed.

Lemma accept_loop_contract_witness :
  7%Z ∈ w_socks demo_os /\
  wp (sys demo_env) True (lith_start_server 100 7) demo_os (fun _ w' => accepting demo_os w').
Proof.
  split; [by_compute|]. apply (accept_loop_contract demo_env 100 7 demo_os); [by split | by_compute].
Defined.

(** A worker thread, over any number of connections, breaks no contract,
    answers one connection after the other, and leaks nothing; only the socket
    it takes in the round in which it sees the shutdown may be left open. *)
Theorem worker_contract E cfg pool_dir dir0 req0 rounds fuel ctx (w : os) :
  Ordinary E ->
  strlen pool_dir < 256 -> length dir0 = 256 -> length (path req0) = MAX_PATH_SIZE ->
  worker_ready fuel ctx w ->
  wp (sys E) True (lith_client_handler rounds fuel cfg pool_dir dir0 req0 ctx) w (fun _ w' =>
    same_resources w w' /\ last_socket E cfg pool_dir w w').
Proof. intros. by apply wp_lith_client_handler. Qed.

Lemma worker_contract_witness :
  worker_ready 3 (Some 9) demo_os /\
  wp (sys demo_env) True
    (lith_client_handler 100 3 demo_config (lit "public") dir_zero demo_request (Some 9)) demo_os
    (fun _ w' => same_resources demo_os w' /\ last_socket demo_env demo_config (lit "public") demo_os w').
Proof.
  assert (worker_ready 3 (Some 9) demo_os) as Hr
    by (split; [reflexivity | split; [reflexivity | split; [vm_compute; lia | split; [vm_compute; lia | by_compute]]]]).
  split; [exact Hr|].
  apply (worker_contract demo_env demo_config (lit "public") dir_zero demo_request 100 3 (Some 9) demo_os);
    [exact demo_ordinary | by_compute | by_compute | by_compute | exact Hr].
Defined.
